(** * Wekeza analytical core: shallow embedding and verified properties

  The Python sources modelled here are
  - [python_backend/agents/portfolio_manager.py] (signal aggregation,
    Kelly sizing, position sizing),
  - [python_backend/data/volume_profile.py] (volume profile, value area),
  - [python_backend/data/order_flow.py] and
    [python_backend/agents/tape_reader.py] (order-flow analysis),
  - [python_backend/backtesting/engine.py] (the backtesting simulator).

  Numbers: Python floats are modelled as exact rationals [Q]; a float
  comparison [a == b] is [Qeq_bool], [a < b] is [Py.ltb].  Rounding error,
  overflow and NaN propagation of IEEE arithmetic are outside the model;
  the places where the code can produce a non-finite value are modelled
  explicitly (a raised exception, or numpy's cast of a non-finite value). *)

From Stdlib Require Import ZArith QArith Qabs Qround Lqa Lia String Ascii List Sorted.
From stdpp Require Import base option list gmap strings pretty.

Set Default Proof Using "Type".

(** ** Python prelude: exceptions, float operations, dictionaries *)

Module Py.

(** The exceptions that the modelled code raises, with their messages. *)
Inductive exn : Type :=
| ZeroDivisionError (message : string)
| IndexError (message : string)
| ValueError (message : string)
| OverflowError (message : string)
| KeyError (message : string).

(** The outcome of a Python call: a value or a raised exception. *)
Inductive result (A : Type) : Type :=
| Ok (a : A)
| Raise (e : exn).
Arguments Ok {A} a.
Arguments Raise {A} e.

#[export] Instance result_ret : MRet result := fun A a => Ok a.
#[export] Instance result_bind : MBind result := fun A B f m =>
  match m with
  | Ok a => f a
  | Raise e => Raise e
  end.

Definition is_ok {A} (r : result A) : bool :=
  match r with Ok _ => true | Raise _ => false end.

(** [str(e)] *)
Definition str (e : exn) : string :=
  match e with
  | ZeroDivisionError m | IndexError m | ValueError m | OverflowError m | KeyError m => m
  end.

Definition division_by_zero : exn := ZeroDivisionError "float division by zero".
Definition out_of_bounds : exn := IndexError "index out of bounds".
Definition empty_argmax : exn := ValueError "attempt to get argmax of an empty sequence".
Definition bad_bin_edges : exn := ValueError "bins must increase monotonically.".
Definition duplicate_bin_edges : exn := ValueError "Bin edges must be unique".
Definition int_of_infinity : exn := OverflowError "cannot convert float infinity to integer".
Definition int_of_nan : exn := ValueError "cannot convert float NaN to integer".
Definition missing_action : exn := KeyError "'action'".
Definition insufficient_data : exn :=
  ValueError "Insufficient data for backtest (need at least 100 bars)".

Definition ltb (a b : Q) : bool := negb (Qle_bool b a).
Definition leb (a b : Q) : bool := Qle_bool a b.
Definition eqb (a b : Q) : bool := Qeq_bool a b.

(** [a / b] on Python floats raises on a zero divisor. *)
Definition div (a b : Q) : result Q :=
  if eqb b 0 then Raise division_by_zero else Ok (a / b)%Q.

(** [min(a, b)] and [max(a, b)]: the first argument wins ties. *)
Definition min2 (a b : Q) : Q := if ltb b a then b else a.
Definition max2 (a b : Q) : Q := if ltb a b then b else a.

(** [int(x)]: truncation toward zero. *)
Definition int (x : Q) : Z := Z.quot (Qnum x) (Zpos (Qden x)).

(** [needle in hay] on strings. *)
Fixpoint contains (needle hay : string) : bool :=
  String.prefix needle hay ||
  match hay with
  | EmptyString => false
  | String _ rest => contains needle rest
  end.

(** [sum(xs)] and [xs.sum()]; over exact rationals the order of the
    additions does not matter. *)
Definition sum (xs : list Q) : Q := foldr Qplus 0%Q xs.

(** [xs.mean()] *)
Definition mean (xs : list Q) : Q := (sum xs / inject_Z (Z.of_nat (length xs)))%Q.

(** [xs[i]] on a list or array: [IndexError] out of range. *)
Definition get {A} (xs : list A) (i : nat) : result A :=
  match xs !! i with
  | Some x => Ok x
  | None => Raise out_of_bounds
  end.

(** [xs.iloc[-1]] *)
Definition last_item {A} (xs : list A) : result A :=
  match last xs with
  | Some x => Ok x
  | None => Raise out_of_bounds
  end.

(** [xs.tail(n)] and [xs[-n:]] for [n > 0]; [xs.head(n)] is [take n xs]. *)
Definition tail {A} (n : nat) (xs : list A) : list A := drop (length xs - n) xs.

(** [xs.min()] and [xs.max()] of a series with first element [x]. *)
Definition series_min (x : Q) (xs : list Q) : Q :=
  fold_left (fun m y => if ltb y m then y else m) xs x.
Definition series_max (x : Q) (xs : list Q) : Q :=
  fold_left (fun m y => if ltb m y then y else m) xs x.

(** [np.argmax(xs)]: the first index of the maximum; [ValueError] when
    [xs] is empty. *)
Fixpoint argmax_from (best_i : nat) (best : Q) (i : nat) (xs : list Q) : nat :=
  match xs with
  | [] => best_i
  | x :: rest =>
      if ltb best x then argmax_from i x (S i) rest
      else argmax_from best_i best (S i) rest
  end.

Definition argmax (xs : list Q) : result nat :=
  match xs with
  | [] => Raise empty_argmax
  | x :: rest => Ok (argmax_from 0 x 1 rest)
  end.

(** [np.linspace(start, stop, bins + 1)] *)
Definition linspace (start stop : Q) (bins : nat) : list Q :=
  map (fun i => start + inject_Z (Z.of_nat i) * ((stop - start) / inject_Z (Z.of_nat bins)))%Q
      (seq 0 (S bins)).

(** [np.clip(x, lo, hi)] is [minimum(hi, maximum(x, lo))]. *)
Definition clip (x lo hi : Z) : Z := Z.min hi (Z.max x lo).

(** [xs[start:stop] += x] on an array. *)
Definition slice_add (start stop : nat) (x : Q) (xs : list Q) : list Q :=
  take start xs
  ++ map (fun v => v + x)%Q (take (stop - start) (drop start xs))
  ++ drop (Nat.max start stop) xs.

(** [d[k] = v] on a dictionary with float keys, kept in insertion order. *)
Fixpoint dict_set (k v : Q) (d : list (Q * Q)) : list (Q * Q) :=
  match d with
  | [] => [(k, v)]
  | (k', v') :: rest =>
      if eqb k k' then (k', v) :: rest else (k', v') :: dict_set k v rest
  end.

End Py.

Import Py.

(** ** OHLCV bars *)

Module Bars.

Record Bar : Type := {
  timestamp : Z;
  open : Q;
  high : Q;
  low : Q;
  close : Q;
  volume : Q
}.

(** The bar invariant of the data model that the analyses rely on. *)
Definition well_formed (b : Bar) : Prop := (0 <= low b /\ low b <= high b)%Q.

End Bars.

(** ** Decision engine: [agents/portfolio_manager.py] *)

Module PortfolioManager.

Local Open Scope Q_scope.

Record Config : Type := {
  max_position_size : Q;
  max_sector_exposure : Q;
  max_correlation : Q;
  max_drawdown : Q;
  risk_per_trade : Q;
  kelly_fraction : Q;
  min_confidence : Q;
  var_confidence : Q
}.

(** The [config or {...}] default of [__init__]. *)
Definition default_config : Config := {|
  max_position_size := 0.10;
  max_sector_exposure := 0.30;
  max_correlation := 0.85;
  max_drawdown := 0.15;
  risk_per_trade := 0.02;
  kelly_fraction := 0.25;
  min_confidence := 0.6;
  var_confidence := 0.95
|}.

(** The three input dictionaries; an absent key is [None]. *)
Record FinalSignal : Type := {
  fs_direction : option string;
  fs_confidence : option Q
}.
Record TapeReaderSignal : Type := { final_signal : option FinalSignal }.

Record Context : Type := {
  ctx_direction : option string;
  ctx_strength : option Q
}.
Record ChartistSignal : Type := { context : option Context }.

Record MacroBody : Type := {
  m_direction : option string;
  m_confidence : option Q;
  m_trading_allowed : option bool
}.
Record MacroSignal : Type := { macro_signal : option MacroBody }.

Definition empty_final : FinalSignal :=
  {| fs_direction := None; fs_confidence := None |}.
Definition empty_context : Context :=
  {| ctx_direction := None; ctx_strength := None |}.
Definition empty_macro : MacroBody :=
  {| m_direction := None; m_confidence := None; m_trading_allowed := None |}.

Record AgentView : Type := { av_direction : string; av_confidence : Q }.

(** The returned dictionary; the gate result has only the first four keys. *)
Record AggregatedDecision : Type := {
  final_decision : string;
  reason : option string;
  confidence : Q;
  position_size : option Q;
  direction : option string;
  signal_strength : option Q;
  agreement : option string;
  agent_signals : option (AgentView * AgentView * AgentView)
}.

Definition w_tape_reader : Q := 0.40.
Definition w_chartist : Q := 0.35.
Definition w_macro : Q := 0.25.

(** [signal_map.get(d, 0)] *)
Definition signal_map (d : string) : Q :=
  if String.eqb d "bullish" then 1
  else if String.eqb d "bullish_breakout" then 1.2
  else if String.eqb d "bearish" then -1
  else if String.eqb d "bearish_breakout" then -1.2
  else 0.

(** [sum(1 for _, d, c in signals if word in d and c > 0.5)] *)
Definition agree_count (word : string) (signals : list (string * string * Q)) : nat :=
  length (filter (fun s => Is_true (contains word s.1.2 && ltb 0.5 s.2)) signals).

Definition signals_of (tr_d : string) (tr_c : Q) (ch_d : string) (ch_s : Q)
    (m_d : string) (m_c : Q) : list (string * string * Q) :=
  [ ("tape_reader"%string, tr_d, tr_c);
    ("chartist"%string, ch_d, ch_s);
    ("macro"%string, m_d, m_c) ].

(** [tr_value + ch_value + macro_value] *)
Definition weighted_signal (tr_d : string) (tr_c : Q) (ch_d : string) (ch_s : Q)
    (m_d : string) (m_c : Q) : Q :=
  signal_map tr_d * tr_c * w_tape_reader
  + signal_map ch_d * ch_s * w_chartist
  + signal_map m_d * m_c * w_macro.

(** [total_signal] after the agreement bonus. *)
Definition total_signal (tr_d : string) (tr_c : Q) (ch_d : string) (ch_s : Q)
    (m_d : string) (m_c : Q) : Q :=
  let base := weighted_signal tr_d tr_c ch_d ch_s m_d m_c in
  let signals := signals_of tr_d tr_c ch_d ch_s m_d m_c in
  if (2 <=? agree_count "bullish" signals)%nat then base + 0.2
  else if (2 <=? agree_count "bearish" signals)%nat then base - 0.2
  else base.

(** Two sources report confidence exactly 0.50 and the remaining one 0.9. *)
Definition two_at_half (c1 c2 c3 : Q) : Prop :=
  (c1 == 0.5 /\ c2 == 0.5 /\ c3 == 0.9) \/
  (c1 == 0.5 /\ c2 == 0.9 /\ c3 == 0.5) \/
  (c1 == 0.9 /\ c2 == 0.5 /\ c3 == 0.5).

(** [f"{n}"] for a count. *)
Definition show_count (n : nat) : string := pretty n.

Definition volatility_gate : AggregatedDecision := {|
  final_decision := "no_trade";
  reason := Some "Volatility filter active - near high-impact event"%string;
  confidence := 0;
  position_size := Some 0;
  direction := None;
  signal_strength := None;
  agreement := None;
  agent_signals := None
|}.

Definition aggregate_signals (cfg : Config) (tape_reader_signal : TapeReaderSignal)
    (chartist_signal : ChartistSignal) (macro : MacroSignal) : AggregatedDecision :=
  let fs := default empty_final (final_signal tape_reader_signal) in
  let tr_direction := default "neutral"%string (fs_direction fs) in
  let tr_confidence := default 0 (fs_confidence fs) in
  let cx := default empty_context (context chartist_signal) in
  let ch_direction := default "neutral"%string (ctx_direction cx) in
  let ch_strength := default 0 (ctx_strength cx) in
  let mb := default empty_macro (macro_signal macro) in
  let macro_direction := default "neutral"%string (m_direction mb) in
  let macro_confidence := default 0 (m_confidence mb) in
  let trading_allowed := default true (m_trading_allowed mb) in
  if negb trading_allowed then volatility_gate
  else
    let total :=
      total_signal tr_direction tr_confidence ch_direction ch_strength
                   macro_direction macro_confidence in
    let signals :=
      signals_of tr_direction tr_confidence ch_direction ch_strength
                 macro_direction macro_confidence in
    let bullish_count := agree_count "bullish" signals in
    let bearish_count := agree_count "bearish" signals in
    let avg_confidence := (tr_confidence + ch_strength + macro_confidence) / 3 in
    let '(decision, dir, conf) :=
      if ltb (Qabs total) 0.3 || ltb avg_confidence (min_confidence cfg) then
        ("no_trade"%string, "neutral"%string, avg_confidence)
      else if ltb 0 total then
        ("long"%string, "bullish"%string,
         min2 0.95 (avg_confidence + (inject_Z (Z.of_nat bullish_count) - 1) * 0.1))
      else
        ("short"%string, "bearish"%string,
         min2 0.95 (avg_confidence + (inject_Z (Z.of_nat bearish_count) - 1) * 0.1)) in
    {| final_decision := decision;
       reason := None;
       confidence := conf;
       position_size := None;
       direction := Some dir;
       signal_strength := Some (Qabs total);
       agreement :=
         Some (show_count bullish_count ++ " bullish, "
               ++ show_count bearish_count ++ " bearish signals")%string;
       agent_signals :=
         Some ({| av_direction := tr_direction; av_confidence := tr_confidence |},
               {| av_direction := ch_direction; av_confidence := ch_strength |},
               {| av_direction := macro_direction; av_confidence := macro_confidence |})
    |}.

(** [calculate_kelly_size]: the two divisions are Python float divisions. *)
Definition calculate_kelly_size (cfg : Config) (win_rate avg_win avg_loss : Q) : result Q :=
  if eqb avg_loss 0 || negb (ltb 0 win_rate && ltb win_rate 1) then Ok 0
  else
    r ← div avg_win avg_loss;
    q ← div (1 - win_rate) r;
    let kelly := win_rate - q in
    Ok (min2 (max2 0 (kelly * kelly_fraction cfg)) (max_position_size cfg)).

Record PositionSizing : Type := {
  ps_symbol : string;
  units : Z;
  position_value : Q;
  position_pct : Q;
  risk_amount : Q;
  ps_stop_loss : Q;
  stop_distance_pct : Q
}.

(** [stop_distance] after the 1% floor. *)
Definition stop_distance_of (entry_price stop_loss : Q) : Q :=
  let d := Qabs (entry_price - stop_loss) in
  if eqb d 0 then entry_price * 0.01 else d.

(** [calculate_position_size]; [equity] is [self.portfolio['equity']]. *)
Definition calculate_position_size (cfg : Config) (equity : Q) (symbol : string)
    (entry_price stop_loss conf : Q) : result PositionSizing :=
  let risk := equity * risk_per_trade cfg * conf in
  let stop_distance := stop_distance_of entry_price stop_loss in
  units0 ← div risk stop_distance;
  let value0 := units0 * entry_price in
  pct0 ← div value0 equity;
  '(units1, value1, pct1) ←
    (if ltb (max_position_size cfg) pct0 then
       let pct := max_position_size cfg in
       let value := equity * pct in
       u ← div value entry_price;
       Ok (u, value, pct)
     else Ok (units0, value0, pct0));
  sd ← div stop_distance entry_price;
  Ok {| ps_symbol := symbol;
        units := int units1;
        position_value := value1;
        position_pct := pct1;
        risk_amount := risk;
        ps_stop_loss := stop_loss;
        stop_distance_pct := sd * 100 |}.

End PortfolioManager.

(** ** Volume profile: [data/volume_profile.py] *)

Module VolumeProfile.
Import Bars.
Local Open Scope Q_scope.

Inductive MarketRegime : Type := TRENDING_UP | TRENDING_DOWN | RANGING | BREAKOUT.

Record VolumeProfileResult : Type := {
  poc : Q;
  vah : Q;
  val : Q;
  hvn : list Q;
  lvn : list Q;
  profile : list (Q * Q);
  regime : MarketRegime;
  current_position : string
}.

(** The [while] loop of [calculate_value_area].  Every iteration that does
    not leave the loop moves one of the two bounds outward, so
    [length volume_profile] iterations are enough (lemma
    [expand_fuel_enough]). *)
Fixpoint expand (fuel : nat) (volume_profile : list Q) (target_volume current_volume : Q)
    (low_bin high_bin : nat) : Q * nat * nat :=
  match fuel with
  | O => (current_volume, low_bin, high_bin)
  | S fuel' =>
      if ltb current_volume target_volume then
        let vol_above :=
          if (high_bin + 1 <? length volume_profile)%nat
          then nth (high_bin + 1) volume_profile 0 else 0 in
        let vol_below :=
          if (1 <=? low_bin)%nat then nth (low_bin - 1) volume_profile 0 else 0 in
        if leb vol_below vol_above && (high_bin + 1 <? length volume_profile)%nat then
          expand fuel' volume_profile target_volume (current_volume + vol_above)
                 low_bin (high_bin + 1)
        else if (1 <=? low_bin)%nat then
          expand fuel' volume_profile target_volume (current_volume + vol_below)
                 (low_bin - 1) high_bin
        else (current_volume, low_bin, high_bin)
      else (current_volume, low_bin, high_bin)
  end.

(** Returns [(vah, val)]. *)
Definition calculate_value_area (volume_profile price_bins : list Q)
    (bin_size value_area_pct : Q) : result (Q * Q) :=
  let total_volume := sum volume_profile in
  let target_volume := total_volume * value_area_pct in
  poc_bin ← argmax volume_profile;
  current_volume ← get volume_profile poc_bin;
  let '(_, low_bin, high_bin) :=
    expand (length volume_profile) volume_profile target_volume current_volume
           poc_bin poc_bin in
  val ← get price_bins low_bin;
  top ← get price_bins high_bin;
  Ok (top + bin_size, val).

(** The shared loop of [find_hvn] and [find_lvn]: the midpoints of the
    bins selected by [keep]. *)
Fixpoint nodes (keep : nat -> Q -> bool) (price_bins : list Q) (bin_size : Q)
    (i : nat) (vols : list Q) : result (list Q) :=
  match vols with
  | [] => Ok []
  | vol :: rest =>
      if keep i vol then
        p ← get price_bins i;
        tl ← nodes keep price_bins bin_size (S i) rest;
        Ok ((p + bin_size / 2) :: tl)
      else nodes keep price_bins bin_size (S i) rest
  end.

Definition find_hvn (volume_profile price_bins : list Q) (bin_size threshold : Q)
    : result (list Q) :=
  let avg_volume := mean volume_profile in
  let hvn_threshold := avg_volume * threshold in
  let n := length volume_profile in
  nodes (fun i vol =>
           leb hvn_threshold vol &&
           (let is_local_max :=
              negb ((0 <? i)%nat && leb vol (nth (i - 1) volume_profile 0)) &&
              negb ((i <? n - 1)%nat && leb vol (nth (i + 1) volume_profile 0)) in
            is_local_max || leb (avg_volume * 2) vol))
        price_bins bin_size 0 volume_profile.

Definition find_lvn (volume_profile price_bins : list Q) (bin_size threshold : Q)
    : result (list Q) :=
  let avg_volume := mean volume_profile in
  let lvn_threshold := avg_volume * threshold in
  let n := length volume_profile in
  nodes (fun i vol =>
           leb vol lvn_threshold && ltb 0 vol &&
           negb ((0 <? i)%nat && leb (nth (i - 1) volume_profile 0) vol) &&
           negb ((i <? n - 1)%nat && leb (nth (i + 1) volume_profile 0) vol))
        price_bins bin_size 0 volume_profile.

(** [determine_regime]; [trend_strength] is a numpy division, so a zero
    [first_half] gives an infinity with the sign of the numerator, or NaN,
    which compares false. *)
Definition determine_regime (bars : list Bar) (poc vah val : Q) : result MarketRegime :=
  if (length bars <? 20)%nat then Ok RANGING
  else
    let recent_closes := tail 20 (close <$> bars) in
    let first_half := mean (take 10 recent_closes) in
    let second_half := mean (tail 10 recent_closes) in
    let num := second_half - first_half in
    let trend_up :=
      if eqb first_half 0 then ltb 0 num else ltb 0.005 (num / first_half) in
    let trend_down :=
      if eqb first_half 0 then ltb num 0 else ltb (num / first_half) (-0.005) in
    last_bar ← last_item bars;
    let current_price := close last_bar in
    if ltb (vah * 1.005) current_price then Ok BREAKOUT
    else if ltb current_price (val * 0.995) then Ok BREAKOUT
    else if trend_up then Ok TRENDING_UP
    else if trend_down then Ok TRENDING_DOWN
    else Ok RANGING.

(** numpy's [astype(int)] of a non-finite float (here a division by a zero
    [bin_size]) is the most negative 64-bit integer on x86-64. *)
Definition int_min : Z := (- 2 ^ 63)%Z.

(** [np.clip(((x - price_min) / bin_size).astype(int), 0, bins - 1)] *)
Definition bin_of (bins : nat) (price_min bin_size x : Q) : nat :=
  let raw := if eqb bin_size 0 then int_min else int ((x - price_min) / bin_size) in
  Z.to_nat (clip raw 0 (Z.of_nat bins - 1)).

(** One iteration of the accumulation loop, for the bar with bins [s] to
    [e] and volume [v]. *)
Definition spread (s e : nat) (v : Q) (volume_profile : list Q) : list Q :=
  let bins_touched := (Z.of_nat e - Z.of_nat s + 1)%Z in
  slice_add s (e + 1) (v / inject_Z bins_touched) volume_profile.

Definition accumulate (bins : nat) (price_min bin_size : Q) (bars : list Bar) : list Q :=
  fold_left
    (fun volume_profile b =>
       spread (bin_of bins price_min bin_size (low b))
              (bin_of bins price_min bin_size (high b))
              (volume b) volume_profile)
    bars (replicate bins 0).

(** The dictionary comprehension
    [{price_bins[i] + bin_size / 2: volume_profile[i] for i in range(bins)}];
    both arrays are long enough for every [i < bins]. *)
Definition profile_dict (bins : nat) (price_bins volume_profile : list Q) (bin_size : Q)
    : list (Q * Q) :=
  fold_left
    (fun d i => dict_set (nth i price_bins 0 + bin_size / 2) (nth i volume_profile 0) d)
    (seq 0 bins) [].

Definition empty_result : VolumeProfileResult := {|
  poc := 0; vah := 0; val := 0; hvn := []; lvn := [];
  profile := []; regime := RANGING; current_position := "in_value"
|}.

Definition price_range_of (price_min price_max : Q) : Q :=
  let price_range := price_max - price_min in
  if eqb price_range 0 then price_min * 0.01 else price_range.

(** [bars['low'].min()], [bars['high'].max()] and [bin_size] of the
    window [b0 :: rest]. *)
Definition price_min_of (b0 : Bar) (rest : list Bar) : Q :=
  series_min (low b0) (low <$> rest).
Definition price_max_of (b0 : Bar) (rest : list Bar) : Q :=
  series_max (high b0) (high <$> rest).
Definition bin_size_of (b0 : Bar) (rest : list Bar) (bins : nat) : Q :=
  price_range_of (price_min_of b0 rest) (price_max_of b0 rest) / inject_Z (Z.of_nat bins).

Definition build_volume_profile (bars : list Bar) (bins : nat) (value_area_pct : Q)
    : result VolumeProfileResult :=
  match bars with
  | [] => Ok empty_result
  | b0 :: rest =>
      let price_min := price_min_of b0 rest in
      let price_max := price_max_of b0 rest in
      let bin_size := bin_size_of b0 rest bins in
      let price_bins := linspace price_min price_max bins in
      let volume_profile := accumulate bins price_min bin_size bars in
      poc_bin ← argmax volume_profile;
      let poc := nth poc_bin price_bins 0 + bin_size / 2 in
      '(vah, val) ← calculate_value_area volume_profile price_bins bin_size value_area_pct;
      hvn ← find_hvn volume_profile price_bins bin_size 1.5;
      lvn ← find_lvn volume_profile price_bins bin_size 0.5;
      let profile := profile_dict bins price_bins volume_profile bin_size in
      regime ← determine_regime bars poc vah val;
      last_bar ← last_item bars;
      let current_price := close last_bar in
      let current_position :=
        if ltb vah current_price then "above_vah"%string
        else if ltb current_price val then "below_val"%string
        else "in_value"%string in
      Ok {| poc := poc; vah := vah; val := val; hvn := hvn; lvn := lvn;
            profile := profile; regime := regime;
            current_position := current_position |}
  end.

(** Default arguments: [bins = 100], [value_area_pct = 0.70]. *)
Definition default_bins : nat := 100.
Definition default_value_area_pct : Q := 0.70.

End VolumeProfile.

(** ** Order flow: [data/order_flow.py] *)

Module OrderFlow.
Import Bars.
Local Open Scope Q_scope.

Inductive SignalType : Type := BULLISH | BEARISH | NEUTRAL.
Inductive PatternType : Type := ABSORPTION | EXHAUSTION | CONTINUATION | IMBALANCE.

(** The [.value] of the two enums. *)
Definition signal_value (s : SignalType) : string :=
  match s with BULLISH => "bullish" | BEARISH => "bearish" | NEUTRAL => "neutral" end.
Definition pattern_value (p : PatternType) : string :=
  match p with
  | ABSORPTION => "absorption" | EXHAUSTION => "exhaustion"
  | CONTINUATION => "continuation" | IMBALANCE => "imbalance"
  end.

Record OrderFlowSignal : Type := {
  signal_type : SignalType;
  pattern : PatternType;
  confidence : Q;
  delta : Q;
  cumulative_delta : Q;
  description : string;
  timestamp : Z
}.

(** A row of the frame returned by [estimate_delta_from_ohlcv]; the
    category [delta_strength] is [None] where [pd.cut] leaves NaN. *)
Record DeltaRow : Type := {
  bar : Bar;
  body : Q;
  upper_wick : Q;
  lower_wick : Q;
  range : Q;
  body_ratio : Q;
  estimated_delta : Q;
  row_cumulative_delta : Q;
  delta_strength : option string
}.

(** [series.cumsum()] *)
Fixpoint cumsum_from (acc : Q) (xs : list Q) : list Q :=
  match xs with
  | [] => []
  | x :: rest => (acc + x) :: cumsum_from (acc + x) rest
  end.
Definition cumsum (xs : list Q) : list Q := cumsum_from 0 xs.

(** The square of [series.std()] (sample standard deviation, one degree of
    freedom removed); [None] is the NaN of a series with fewer than two
    values. *)
Definition variance (xs : list Q) : option Q :=
  if (length xs <? 2)%nat then None
  else
    let m := mean xs in
    Some (sum (map (fun x => (x - m) * (x - m)) xs)
          / inject_Z (Z.of_nat (length xs - 1))).

(** [pd.cut(a, bins=[0, std * 0.5, std * 1.5, inf], labels=[...])] for one
    value [a >= 0], with [std] given by its square [var > 0]: the intervals
    are open on the left and closed on the right, and [a <= k * std] is
    decided on the squares. *)
Definition cut_strength (var a : Q) : option string :=
  if leb a 0 then None
  else if leb (4 * (a * a)) var then Some "weak"%string
  else if leb (4 * (a * a)) (9 * var) then Some "moderate"%string
  else Some "strong"%string.

Definition estimated_delta_of (b : Bar) : Q :=
  let body := close b - open b in
  let range := high b - low b in
  body / (if eqb range 0 then 1 else range) * volume b.

(** [estimate_delta_from_ohlcv]; [pd.cut] raises [ValueError] when its bin
    edges are not increasing and distinct, which is the case when the
    standard deviation is NaN or 0. *)
Definition estimate_delta_from_ohlcv (bars : list Bar) : result (list DeltaRow) :=
  let deltas := estimated_delta_of <$> bars in
  let cumulative := cumsum deltas in
  match variance deltas with
  | None => Raise bad_bin_edges
  | Some var =>
      if eqb var 0 then Raise duplicate_bin_edges
      else
        Ok (zip_with
              (fun b c =>
                 let body := close b - open b in
                 let range := high b - low b in
                 let ratio := body / (if eqb range 0 then 1 else range) in
                 {| bar := b;
                    body := body;
                    upper_wick := high b - max2 (open b) (close b);
                    lower_wick := min2 (open b) (close b) - low b;
                    range := range;
                    body_ratio := ratio;
                    estimated_delta := ratio * volume b;
                    row_cumulative_delta := c;
                    delta_strength := cut_strength var (Qabs (ratio * volume b)) |})
              bars cumulative)
  end.

Definition analyze_effort_vs_result (delta : Q) (candle_type delta_strength : string)
    : OrderFlowSignal :=
  let is_bullish_delta := ltb 0 delta in
  let is_bearish_delta := ltb delta 0 in
  let is_bullish_candle := String.eqb candle_type "bullish" in
  let is_bearish_candle := String.eqb candle_type "bearish" in
  if is_bearish_delta && is_bullish_candle && String.eqb delta_strength "strong" then
    {| signal_type := BULLISH; pattern := ABSORPTION; confidence := 0.85;
       delta := delta; cumulative_delta := 0;
       description :=
         "BULLISH: Strong seller absorption - buyers absorbing all sell orders";
       timestamp := 0 |}
  else if is_bullish_delta && is_bearish_candle && String.eqb delta_strength "strong" then
    {| signal_type := BEARISH; pattern := ABSORPTION; confidence := 0.85;
       delta := delta; cumulative_delta := 0;
       description :=
         "BEARISH: Strong buyer absorption - sellers absorbing all buy orders";
       timestamp := 0 |}
  else if is_bullish_delta && is_bullish_candle then
    {| signal_type := BULLISH; pattern := CONTINUATION; confidence := 0.65;
       delta := delta; cumulative_delta := 0;
       description := "BULLISH CONTINUATION: Buying pressure confirmed by price";
       timestamp := 0 |}
  else if is_bearish_delta && is_bearish_candle then
    {| signal_type := BEARISH; pattern := CONTINUATION; confidence := 0.65;
       delta := delta; cumulative_delta := 0;
       description := "BEARISH CONTINUATION: Selling pressure confirmed by price";
       timestamp := 0 |}
  else
    {| signal_type := NEUTRAL; pattern := CONTINUATION; confidence := 0.3;
       delta := delta; cumulative_delta := 0;
       description := "NEUTRAL: Weak or mixed signals";
       timestamp := 0 |}.

(** [recent.iloc[-1] - recent.iloc[0]] with [recent = series.tail(lookback)] *)
Definition trend (lookback : nat) (series : list Q) : result Q :=
  let recent := tail lookback series in
  final ← last_item recent;
  first ← get recent 0;
  Ok (final - first).

Definition epsilon : Q := 1 # 10000000000.

(** [abs(delta_trend) / (abs(price_trend) + 1e-10)] *)
Definition divergence_strength (delta_trend price_trend : Q) : Q :=
  Qabs delta_trend / (Qabs price_trend + epsilon).

(** The signal built in either branch of [detect_delta_exhaustion]. *)
Definition exhaustion_signal (kind : SignalType) (text : string) (divergence : Q)
    (recent_delta cumulative_delta : list Q) : result (option OrderFlowSignal) :=
  recent_last ← last_item recent_delta;
  overall_last ← last_item cumulative_delta;
  Ok (Some {| signal_type := kind; pattern := EXHAUSTION;
              confidence := min2 0.9 (0.5 + divergence * 0.4);
              delta := recent_last; cumulative_delta := overall_last;
              description := text; timestamp := 0 |}).

Definition detect_delta_exhaustion (cumulative_delta price : list Q) (lookback : nat)
    : result (option OrderFlowSignal) :=
  if (length cumulative_delta <? lookback)%nat then Ok None
  else
    let recent_delta := tail lookback cumulative_delta in
    delta_trend ← trend lookback cumulative_delta;
    price_trend ← trend lookback price;
    bearish ←
      (if ltb 0 price_trend && ltb delta_trend 0 then
         let divergence := divergence_strength delta_trend price_trend in
         if ltb 0.5 divergence then
           exhaustion_signal BEARISH
             "BEARISH EXHAUSTION: Price rising but buying pressure fading"
             divergence recent_delta cumulative_delta
         else Ok None
       else Ok None);
    match bearish with
    | Some s => Ok (Some s)
    | None =>
        if ltb price_trend 0 && ltb 0 delta_trend then
          let divergence := divergence_strength delta_trend price_trend in
          if ltb 0.5 divergence then
            exhaustion_signal BULLISH
              "BULLISH EXHAUSTION: Price falling but selling pressure fading"
              divergence recent_delta cumulative_delta
          else Ok None
        else Ok None
    end.

Record SignalView : Type := {
  sv_type : string;
  sv_pattern : string;
  sv_confidence : Q;
  sv_description : string
}.

Record ExhaustionView : Type := {
  detected : bool;
  ex_type : option string;
  ex_confidence : Q;
  ex_description : option string
}.

(** The dictionary returned by [analyze_orderflow]. *)
Record Analysis : Type := {
  current_delta : Q;
  an_cumulative_delta : Q;
  an_delta_strength : string;
  candle_type : string;
  signal : SignalView;
  exhaustion : ExhaustionView;
  delta_history : list Q;
  cumulative_delta_history : list Q
}.

Definition analyze_orderflow (bars : list Bar) : result Analysis :=
  rows ← estimate_delta_from_ohlcv bars;
  latest ← last_item rows;
  let candle_type :=
    if ltb (open (bar latest)) (close (bar latest)) then "bullish"%string
    else "bearish"%string in
  let delta_strength := default "moderate"%string (delta_strength latest) in
  let signal := analyze_effort_vs_result (estimated_delta latest) candle_type delta_strength in
  exhaustion ←
    detect_delta_exhaustion (row_cumulative_delta <$> rows) (close ∘ bar <$> rows) 10;
  Ok {| current_delta := estimated_delta latest;
        an_cumulative_delta := row_cumulative_delta latest;
        an_delta_strength := delta_strength;
        candle_type := candle_type;
        signal := {| sv_type := signal_value (signal_type signal);
                     sv_pattern := pattern_value (pattern signal);
                     sv_confidence := confidence signal;
                     sv_description := description signal |};
        exhaustion :=
          {| detected := bool_decide (is_Some exhaustion);
             ex_type := (signal_value ∘ signal_type) <$> exhaustion;
             ex_confidence := from_option confidence 0 exhaustion;
             ex_description := description <$> exhaustion |};
        delta_history := tail 20 (estimated_delta <$> rows);
        cumulative_delta_history := tail 20 (row_cumulative_delta <$> rows) |}.

(** The shapes of input that the exhaustion property speaks about. *)
Fixpoint strictly_decreasing (xs : list Q) : bool :=
  match xs with
  | x :: ((y :: _) as rest) => ltb y x && strictly_decreasing rest
  | _ => true
  end.

Fixpoint strictly_increasing (xs : list Q) : bool :=
  match xs with
  | x :: ((y :: _) as rest) => ltb x y && strictly_increasing rest
  | _ => true
  end.

End OrderFlow.

(** ** Tape reader: [agents/tape_reader.py] *)

Module TapeReader.
Import Bars OrderFlow.
Local Open Scope Q_scope.

Record FinalSignalView : Type := {
  fsv_direction : string;
  fsv_confidence : Q;
  fsv_action : string
}.

(** The dictionary returned by [analyze_symbol]: the error shape, or the
    analysis extended with the agent's keys. *)
Inductive SymbolAnalysis : Type :=
| AnalysisError (symbol message : string) (agent : option string)
| AnalysisSuccess (symbol timestamp : string) (analysis : Analysis)
    (priority : string) (final_signal : FinalSignalView).

Definition status (r : SymbolAnalysis) : string :=
  match r with
  | AnalysisError _ _ _ => "error"
  | AnalysisSuccess _ _ _ _ _ => "success"
  end.

Definition _determine_action (signal : string) (confidence : Q) : string :=
  if ltb confidence 0.5 then "wait"
  else if String.eqb signal "bullish" then
    if ltb confidence 0.75 then "consider_long" else "strong_long"
  else if String.eqb signal "bearish" then
    if ltb confidence 0.75 then "consider_short" else "strong_short"
  else "wait".

(** [analyze_symbol]; [fetched] is the outcome of
    [data_fetcher.fetch_bars(...)] and [now] the text of
    [datetime.now().isoformat()].  The whole body is inside
    [try: ... except Exception as e:]. *)
Definition analyze_symbol (fetched : result (list Bar)) (symbol now : string)
    : SymbolAnalysis :=
  let body : result SymbolAnalysis :=
    bars ← fetched;
    match bars with
    | [] => Ok (AnalysisError symbol "No data available" None)
    | _ :: _ =>
        analysis ← analyze_orderflow bars;
        let signal_confidence := sv_confidence (signal analysis) in
        let exhaustion_confidence :=
          if detected (exhaustion analysis) then ex_confidence (exhaustion analysis)
          else 0 in
        let '(final_signal, final_confidence, priority) :=
          if detected (exhaustion analysis) then
            (default ""%string (ex_type (exhaustion analysis)),
             max2 signal_confidence exhaustion_confidence, "high"%string)
          else if String.eqb (sv_pattern (signal analysis)) "absorption" then
            (sv_type (signal analysis), signal_confidence, "high"%string)
          else
            (sv_type (signal analysis), signal_confidence,
             if ltb 0.6 signal_confidence then "medium"%string else "low"%string) in
        Ok (AnalysisSuccess symbol now analysis priority
              {| fsv_direction := final_signal;
                 fsv_confidence := final_confidence;
                 fsv_action := _determine_action final_signal final_confidence |})
    end in
  match body with
  | Ok r => r
  | Raise e => AnalysisError symbol (str e) (Some "tape_reader"%string)
  end.

End TapeReader.

(** ** Backtesting simulator: [backtesting/engine.py] *)

Module Backtest.
Import Bars.
Local Open Scope Q_scope.

(** The wall clock: [clock k] is the value of the [k]-th call of
    [datetime.now()] made during a run. *)
Definition Clock : Type := nat -> Z.

Record Trade : Type := {
  symbol : string;
  entry_time : Z;
  entry_price : Q;
  direction : string;
  units : Z;
  stop_loss : Q;
  take_profit : option Q;
  exit_time : option Z;
  exit_price : option Q;
  pnl : Q;
  pnl_pct : Q;
  exit_reason : string
}.

(** The dictionary returned by a strategy function; an absent key is [None]. *)
Record Signal : Type := {
  sig_action : option string;
  sig_stop_loss : option Q;
  sig_take_profit : option Q
}.

Definition no_trade : Signal :=
  {| sig_action := Some "NO_TRADE"%string; sig_stop_loss := None; sig_take_profit := None |}.

(** A [BacktestEngine]: the constructor parameters, the run state, and the
    number of clock readings made so far in the run. *)
Record Engine : Type := {
  initial_capital : Q;
  commission : Q;
  slippage : Q;
  risk_per_trade : Q;
  capital : Q;
  equity_history : list Q;
  trades : list Trade;
  open_positions : gmap string Trade;
  clock_reads : nat
}.

(** [BacktestEngine(initial_capital, commission, slippage, risk_per_trade)] *)
Definition new_engine (initial_capital commission slippage risk_per_trade : Q) : Engine := {|
  initial_capital := initial_capital;
  commission := commission;
  slippage := slippage;
  risk_per_trade := risk_per_trade;
  capital := initial_capital;
  equity_history := [initial_capital];
  trades := [];
  open_positions := ∅;
  clock_reads := 0
|}.

(** The defaults of the constructor. *)
Definition default_engine : Engine := new_engine 100000 0.001 0.0005 0.02.

Definition reset (eng : Engine) : Engine :=
  new_engine (initial_capital eng) (commission eng) (slippage eng) (risk_per_trade eng).

Definition is_long (t : Trade) : bool := String.eqb (direction t) "long".

Definition _close_position (clock : Clock) (sym : string) (exit_price : Q) (reason : string)
    (eng : Engine) : Engine :=
  match open_positions eng !! sym with
  | None => eng
  | Some trade =>
      let exit_price :=
        if is_long trade then exit_price * (1 - slippage eng)
        else exit_price * (1 + slippage eng) in
      let gross :=
        if is_long trade then (exit_price - entry_price trade) * inject_Z (units trade)
        else (entry_price trade - exit_price) * inject_Z (units trade) in
      let pnl := gross - exit_price * inject_Z (units trade) * commission eng in
      let closed := {|
        symbol := symbol trade;
        entry_time := entry_time trade;
        entry_price := entry_price trade;
        direction := direction trade;
        units := units trade;
        stop_loss := stop_loss trade;
        take_profit := take_profit trade;
        exit_time := Some (clock (clock_reads eng));
        exit_price := Some exit_price;
        pnl := pnl;
        pnl_pct := pnl / (entry_price trade * inject_Z (units trade)) * 100;
        exit_reason := reason
      |} in
      {| initial_capital := initial_capital eng;
         commission := commission eng;
         slippage := slippage eng;
         risk_per_trade := risk_per_trade eng;
         capital := capital eng + pnl;
         equity_history := equity_history eng;
         trades := trades eng ++ [closed];
         open_positions := delete sym (open_positions eng);
         clock_reads := S (clock_reads eng) |}
  end.

(** [if trade.take_profit:] is false for [None] and for 0. *)
Definition truthy (x : option Q) : bool :=
  match x with
  | Some v => negb (eqb v 0)
  | None => false
  end.

Definition _check_stops (clock : Clock) (sym : string) (bar : Bar) (eng : Engine) : Engine :=
  match open_positions eng !! sym with
  | None => eng
  | Some trade =>
      let eng1 :=
        if is_long trade then
          if leb (low bar) (stop_loss trade)
          then _close_position clock sym (stop_loss trade) "stop_loss" eng else eng
        else
          if leb (stop_loss trade) (high bar)
          then _close_position clock sym (stop_loss trade) "stop_loss" eng else eng in
      if truthy (take_profit trade) then
        let tp := default 0 (take_profit trade) in
        if is_long trade then
          if leb tp (high bar)
          then _close_position clock sym tp "take_profit" eng1 else eng1
        else
          if leb (low bar) tp
          then _close_position clock sym tp "take_profit" eng1 else eng1
      else eng1
  end.

(** [int(a / b)] where [b] is a numpy float: a zero divisor gives an
    infinity or NaN, which [int] refuses. *)
Definition int_quotient (a b : Q) : result Z :=
  if eqb b 0 then (if eqb a 0 then Raise int_of_nan else Raise int_of_infinity)
  else Ok (int (a / b)).

Definition _execute_signal (clock : Clock) (sym : string) (signal : Signal) (bar : Bar)
    (eng : Engine) : result Engine :=
  match open_positions eng !! sym with
  | Some _ => Ok eng
  | None =>
      action ← match sig_action signal with
               | Some a => Ok a
               | None => Raise missing_action
               end;
      let buy := String.eqb action "BUY" in
      let entry_price :=
        if buy then close bar * (1 + slippage eng) else close bar * (1 - slippage eng) in
      let direction := if buy then "long"%string else "short"%string in
      let stop_loss :=
        default (entry_price * (if buy then 0.98 else 1.02)) (sig_stop_loss signal) in
      let stop_distance := Qabs (entry_price - stop_loss) in
      let risk_amount := capital eng * risk_per_trade eng in
      units0 ← (if ltb 0 stop_distance then Ok (int (risk_amount / stop_distance))
                else int_quotient (capital eng * 0.1) entry_price);
      let position_value := inject_Z units0 * entry_price * (1 + commission eng) in
      units ← (if ltb (capital eng * 0.9) position_value
               then int_quotient (capital eng * 0.9) (entry_price * (1 + commission eng))
               else Ok units0);
      if (units <=? 0)%Z then Ok eng
      else
        let trade := {|
          symbol := sym;
          entry_time := clock (clock_reads eng);
          entry_price := entry_price;
          direction := direction;
          units := units;
          stop_loss := stop_loss;
          take_profit := sig_take_profit signal;
          exit_time := None;
          exit_price := None;
          pnl := 0;
          pnl_pct := 0;
          exit_reason := ""
        |} in
        Ok {| initial_capital := initial_capital eng;
              commission := commission eng;
              slippage := slippage eng;
              risk_per_trade := risk_per_trade eng;
              capital := capital eng - inject_Z units * entry_price * commission eng;
              equity_history := equity_history eng;
              trades := trades eng;
              open_positions := <[sym := trade]> (open_positions eng);
              clock_reads := S (clock_reads eng) |}
  end.

Definition unrealized_of (current_price : Q) (trade : Trade) : Q :=
  if is_long trade then (current_price - entry_price trade) * inject_Z (units trade)
  else (entry_price trade - current_price) * inject_Z (units trade).

Definition _update_equity (current_price : Q) (eng : Engine) : Engine :=
  let unrealized :=
    map_fold (fun _ trade acc => acc + unrealized_of current_price trade) 0
             (open_positions eng) in
  {| initial_capital := initial_capital eng;
     commission := commission eng;
     slippage := slippage eng;
     risk_per_trade := risk_per_trade eng;
     capital := capital eng;
     equity_history := equity_history eng ++ [capital eng + unrealized];
     trades := trades eng;
     open_positions := open_positions eng;
     clock_reads := clock_reads eng |}.

Definition window_size : nat := 60.

(** [signal.get('action') in ['BUY', 'SELL']] *)
Definition is_entry (signal : Signal) : bool :=
  match sig_action signal with
  | Some a => String.eqb a "BUY" || String.eqb a "SELL"
  | None => false
  end.

(** A strategy function; a raised exception is turned into [NO_TRADE]. *)
Definition Strategy : Type := list Bar -> result Signal.

(** The body of the replay loop for bar index [i]. *)
Definition replay_bar (clock : Clock) (sym : string) (data : list Bar)
    (strategy_func : Strategy) (eng : Engine) (i : nat) : result Engine :=
  let window := take window_size (drop (i - window_size) data) in
  current_bar ← get data i;
  let current_price := close current_bar in
  let eng1 := _check_stops clock sym current_bar eng in
  let signal :=
    match strategy_func window with
    | Ok sg => sg
    | Raise _ => no_trade
    end in
  eng2 ← (if is_entry signal then _execute_signal clock sym signal current_bar eng1
          else Ok eng1);
  Ok (_update_equity current_price eng2).

Fixpoint replay (clock : Clock) (sym : string) (data : list Bar)
    (strategy_func : Strategy) (eng : Engine) (indices : list nat) : result Engine :=
  match indices with
  | [] => Ok eng
  | i :: rest =>
      eng' ← replay_bar clock sym data strategy_func eng i;
      replay clock sym data strategy_func eng' rest
  end.

(** The part of [BacktestResult] that is rational in the inputs; the Sharpe
    and Sortino ratios (square roots) and the remaining statistics are
    functions of [equity_curve] and [trades] and are not modelled. *)
Record BacktestResult : Type := {
  res_symbol : string;
  res_initial_capital : Q;
  final_capital : Q;
  total_return : Q;
  total_trades : nat;
  equity_curve : list Q;
  res_trades : list Trade
}.

Definition _calculate_results (sym : string) (eng : Engine) : result BacktestResult :=
  final ← last_item (equity_history eng);
  Ok {| res_symbol := sym;
        res_initial_capital := initial_capital eng;
        final_capital := final;
        total_return := final - initial_capital eng;
        total_trades := length (trades eng);
        equity_curve := equity_history eng;
        res_trades := trades eng |}.

(** The state in which the replay of [run_backtest] ends, after the forced
    close of a position that is still open. *)
Definition run_engine (clock : Clock) (eng : Engine) (sym : string) (data : list Bar)
    (strategy_func : Strategy) : result Engine :=
  let eng0 := reset eng in
  if (length data <? 100)%nat then Raise insufficient_data
  else
    eng1 ← replay clock sym data strategy_func eng0
              (seq window_size (length data - window_size));
    match open_positions eng1 !! sym with
    | Some _ =>
        last_bar ← last_item data;
        Ok (_close_position clock sym (close last_bar) "end_of_backtest" eng1)
    | None => Ok eng1
    end.

(** [run_backtest] without date filters ([start_date = end_date = None]). *)
Definition run_backtest (clock : Clock) (eng : Engine) (sym : string) (data : list Bar)
    (strategy_func : Strategy) : result BacktestResult :=
  eng' ← run_engine clock eng sym data strategy_func;
  _calculate_results sym eng'.

(** The states the simulator goes through while it trades [sym], starting
    from a reset engine. *)
Inductive reachable (clock : Clock) (sym : string) (eng : Engine) : Engine -> Prop :=
| reach_reset : reachable clock sym eng (reset eng)
| reach_check_stops st bar :
    reachable clock sym eng st ->
    reachable clock sym eng (_check_stops clock sym bar st)
| reach_execute st st' signal bar :
    reachable clock sym eng st ->
    _execute_signal clock sym signal bar st = Ok st' ->
    reachable clock sym eng st'
| reach_update st price :
    reachable clock sym eng st ->
    reachable clock sym eng (_update_equity price st)
| reach_close st price reason :
    reachable clock sym eng st ->
    reachable clock sym eng (_close_position clock sym price reason st).

(** Only the traded symbol is a key of [open_positions]. *)
Definition only_traded (sym : string) (st : Engine) : Prop :=
  dom (open_positions st) ⊆ {[sym]}.

(** A trade and an engine state with the wall-clock readings blanked. *)
Definition untimed_trade (t : Trade) : Trade := {|
  symbol := symbol t;
  entry_time := 0;
  entry_price := entry_price t;
  direction := direction t;
  units := units t;
  stop_loss := stop_loss t;
  take_profit := take_profit t;
  exit_time := (fun _ => 0%Z) <$> exit_time t;
  exit_price := exit_price t;
  pnl := pnl t;
  pnl_pct := pnl_pct t;
  exit_reason := exit_reason t
|}.

Definition untimed (eng : Engine) : Engine := {|
  initial_capital := initial_capital eng;
  commission := commission eng;
  slippage := slippage eng;
  risk_per_trade := risk_per_trade eng;
  capital := capital eng;
  equity_history := equity_history eng;
  trades := untimed_trade <$> trades eng;
  open_positions := untimed_trade <$> open_positions eng;
  clock_reads := 0
|}.

(** The outcome of an operation with the clock readings blanked. *)
Definition untimed_outcome (r : result Engine) : result Engine :=
  match r with
  | Ok st => Ok (untimed st)
  | Raise e => Raise e
  end.

End Backtest.

(** * Further modelled code *)

(** ** Break and retest, and the profile summary: [data/volume_profile.py] *)

Module ProfileAnalysis.
Import Bars VolumeProfile.
Local Open Scope Q_scope.

(** The volume held by the bins [low_bin] to [high_bin]. *)
Definition range_volume (volume_profile : list Q) (low_bin high_bin : nat) : Q :=
  sum (take (high_bin + 1 - low_bin) (drop low_bin volume_profile)).

(** The [.value] of a regime. *)
Definition regime_value (g : MarketRegime) : string :=
  match g with
  | TRENDING_UP => "trending_up"
  | TRENDING_DOWN => "trending_down"
  | RANGING => "ranging"
  | BREAKOUT => "breakout"
  end.

Record BreakRetest : Type := {
  br_pattern : string;
  br_level : Q;
  br_direction : string;
  br_signal : string;
  br_confidence : Q
}.

(** The loop state of [analyze_break_and_retest]: [broke_level],
    [retest_found] and [break_direction] (unbound until the first break). *)
Record ScanState : Type := {
  broke_level : bool;
  retest_found : bool;
  break_direction : option string
}.

Definition breaks_down (key_level tolerance : Q) (b : Bar) : bool :=
  ltb (close b) (key_level * (1 - tolerance)).
Definition breaks_up (key_level tolerance : Q) (b : Bar) : bool :=
  ltb (key_level * (1 + tolerance)) (close b).

(** [abs(bar['close'] - key_level) / key_level < tolerance]; the division is
    a numpy division, and with [key_level = 0] its result is an infinity or
    NaN, for which the comparison is false. *)
Definition price_at_level (key_level tolerance : Q) (b : Bar) : bool :=
  if eqb key_level 0 then false
  else ltb (Qabs (close b - key_level) / key_level) tolerance.

(** One iteration of the scan. *)
Definition scan_bar (was_above : bool) (key_level tolerance : Q) (st : ScanState) (b : Bar)
    : ScanState :=
  let st1 :=
    if was_above && breaks_down key_level tolerance b then
      {| broke_level := true; retest_found := retest_found st;
         break_direction := Some "down"%string |}
    else if negb was_above && breaks_up key_level tolerance b then
      {| broke_level := true; retest_found := retest_found st;
         break_direction := Some "up"%string |}
    else st in
  if broke_level st1 then
    if price_at_level key_level tolerance b then
      {| broke_level := broke_level st1; retest_found := true;
         break_direction := break_direction st1 |}
    else st1
  else st1.

Definition scan_start : ScanState :=
  {| broke_level := false; retest_found := false; break_direction := None |}.

(** [recent['close'].head(5).mean() > key_level] *)
Definition was_above_level (recent : list Bar) (key_level : Q) : bool :=
  ltb key_level (mean (take 5 (close <$> recent))).

Definition analyze_break_and_retest (bars : list Bar) (key_level tolerance : Q)
    : option BreakRetest :=
  if (length bars <? 10)%nat then None
  else
    let recent := tail 20 bars in
    let was_above := was_above_level recent key_level in
    let final := fold_left (scan_bar was_above key_level tolerance) recent scan_start in
    if broke_level final && retest_found final then
      let direction := default ""%string (break_direction final) in
      Some {| br_pattern := "break_and_retest";
              br_level := key_level;
              br_direction := direction;
              br_signal := if String.eqb direction "up" then "bullish" else "bearish";
              br_confidence := 0.75 |}
    else None.

Definition default_tolerance : Q := 0.002.

(** What the scan of [analyze_break_and_retest] has seen after a prefix of
    the window. *)
Definition scanned (was_above : bool) (key_level tolerance : Q) (seen : list Bar)
    (st : ScanState) : Prop :=
  (broke_level st = true ->
     break_direction st = Some (if was_above then "down" else "up")%string
     /\ exists i bi, seen !! i = Some bi
          /\ (if was_above then breaks_down key_level tolerance bi
              else breaks_up key_level tolerance bi) = true)
  /\ (retest_found st = true ->
        exists i j bi bj, (i <= j)%nat /\ seen !! i = Some bi /\ seen !! j = Some bj
          /\ (if was_above then breaks_down key_level tolerance bi
              else breaks_up key_level tolerance bi) = true
          /\ price_at_level key_level tolerance bj = true).

(** The dictionary returned by [get_volume_profile_analysis]. *)
Record ProfileSummary : Type := {
  ps_poc : Q;
  ps_vah : Q;
  ps_val : Q;
  value_area_width : Q;
  ps_hvn : list Q;
  ps_lvn : list Q;
  ps_regime : string;
  ps_current_position : string;
  break_and_retest : option BreakRetest;
  profile_prices : list Q;
  profile_volumes : list Q
}.

Definition get_volume_profile_analysis (bars : list Bar) : result ProfileSummary :=
  vp ← build_volume_profile bars default_bins default_value_area_pct;
  let poc_retest := analyze_break_and_retest bars (poc vp) default_tolerance in
  Ok {| ps_poc := poc vp;
        ps_vah := vah vp;
        ps_val := val vp;
        value_area_width := vah vp - val vp;
        ps_hvn := take 5 (hvn vp);
        ps_lvn := take 5 (lvn vp);
        ps_regime := regime_value (regime vp);
        ps_current_position := current_position vp;
        break_and_retest := poc_retest;
        profile_prices := fst <$> profile vp;
        profile_volumes := snd <$> profile vp |}.

End ProfileAnalysis.

(** ** The ledger of a backtest: [backtesting/engine.py] *)

Module Ledger.
Import Bars Backtest.
Local Open Scope Q_scope.

(** The commission charged when [t] was opened. *)
Definition entry_commission (comm : Q) (t : Trade) : Q :=
  inject_Z (units t) * entry_price t * comm.

(** What a closed trade has added to the capital, the entry commission
    included. *)
Definition net_result (comm : Q) (t : Trade) : Q := pnl t - entry_commission comm t.

(** The entry commission of the position that is open in [sym], if any. *)
Definition open_commission (sym : string) (st : Engine) : Q :=
  match open_positions st !! sym with
  | Some t => entry_commission (commission st) t
  | None => 0
  end.

(** The price at which an exit at [level] is filled. *)
Definition exit_fill (slip : Q) (t : Trade) (level : Q) : Q :=
  if is_long t then level * (1 - slip) else level * (1 + slip).

(** The profit booked by [_close_position] for a fill at [fill]. *)
Definition exit_pnl (comm : Q) (t : Trade) (fill : Q) : Q :=
  (if is_long t then (fill - entry_price t) * inject_Z (units t)
   else (entry_price t - fill) * inject_Z (units t))
  - fill * inject_Z (units t) * comm.

(** A trade as [_execute_signal] creates it. *)
Definition entered (sym : string) (t : Trade) : Prop :=
  symbol t = sym /\ (0 < units t)%Z
  /\ (direction t = "long"%string \/ direction t = "short"%string).

(** The three ways in which the engine closes a trade, with the price level
    of the exit. *)
Inductive exit_cause (data : list Bar) (t : Trade) : string -> Q -> Prop :=
| by_stop_loss : exit_cause data t "stop_loss" (stop_loss t)
| by_take_profit tp :
    take_profit t = Some tp -> ~ tp == 0 -> exit_cause data t "take_profit" tp
| by_end_of_backtest last_bar :
    last_item data = Ok last_bar ->
    exit_cause data t "end_of_backtest" (close last_bar).

(** A closed trade of a run over [data]. *)
Definition settled (slip comm : Q) (sym : string) (data : list Bar) (t : Trade) : Prop :=
  entered sym t /\ is_Some (exit_time t)
  /\ exists level,
       exit_cause data t (exit_reason t) level
       /\ exit_price t = Some (exit_fill slip t level)
       /\ pnl t = exit_pnl comm t (exit_fill slip t level).

(** The cost of the forced close of [t] at the end of a run whose last bar
    closed at [last_close]. *)
Definition closing_cost (slip comm : Q) (last_close : Q) (t : Trade) : Q :=
  inject_Z (units t) * (last_close * slip + exit_fill slip t last_close * comm).

(** The books balance: the capital is the initial capital plus the net
    results of the closed trades, less the entry commission of the open
    position. *)
Definition balanced (sym : string) (st : Engine) : Prop :=
  capital st == initial_capital st
                + sum (net_result (commission st) <$> trades st)
                - open_commission sym st.

(** The state of the replay loop of a run over [data] with slippage [slip]
    and commission [comm]: the open position is one that the engine
    created, and the closed trades were closed by a stop or a target. *)
Definition replaying (slip comm : Q) (sym : string) (data : list Bar) (st : Engine) : Prop :=
  slippage st = slip /\ commission st = comm
  /\ (forall t, open_positions st !! sym = Some t -> entered sym t)
  /\ Forall (fun t => settled slip comm sym data t
                      /\ (exit_reason t = "stop_loss"%string
                          \/ exit_reason t = "take_profit"%string)) (trades st).

(** The equity mark of [_update_equity] for the price [price]. *)
Definition mark (price : Q) (st : Engine) : Q :=
  capital st
  + map_fold (fun _ trade acc => acc + unrealized_of price trade) 0 (open_positions st).

End Ledger.

(** ** The order-flow strategies that are backtested: [api.py],
       [backtesting/engine.py] *)

Module Strategies.
Import Bars OrderFlow Backtest.
Local Open Scope Q_scope.

Definition buy_signal (stop : Q) : Signal :=
  {| sig_action := Some "BUY"%string; sig_stop_loss := Some stop; sig_take_profit := None |}.
Definition sell_signal (stop : Q) : Signal :=
  {| sig_action := Some "SELL"%string; sig_stop_loss := Some stop; sig_take_profit := None |}.

(** [strategy] of the [/backtest] endpoint; the body is inside
    [try: ... except: return {'action': 'NO_TRADE'}]. *)
Definition strategy (window : list Bar) : result Signal :=
  let body : result Signal :=
    analysis ← analyze_orderflow window;
    let signal := signal analysis in
    if String.eqb (sv_type signal) "bullish" && ltb 0.65 (sv_confidence signal) then
      c ← last_item (close <$> window);
      Ok (buy_signal (c * 0.98))
    else if String.eqb (sv_type signal) "bearish" && ltb 0.65 (sv_confidence signal) then
      c ← last_item (close <$> window);
      Ok (sell_signal (c * 1.02))
    else Ok no_trade in
  match body with
  | Ok sg => Ok sg
  | Raise _ => Ok no_trade
  end.

(** [simple_strategy] of the engine's self-test: the same with the
    threshold 0.7. *)
Definition simple_strategy (window : list Bar) : result Signal :=
  let body : result Signal :=
    analysis ← analyze_orderflow window;
    let signal := signal analysis in
    if String.eqb (sv_type signal) "bullish" && ltb 0.7 (sv_confidence signal) then
      c ← last_item (close <$> window);
      Ok (buy_signal (c * 0.98))
    else if String.eqb (sv_type signal) "bearish" && ltb 0.7 (sv_confidence signal) then
      c ← last_item (close <$> window);
      Ok (sell_signal (c * 1.02))
    else Ok no_trade in
  match body with
  | Ok sg => Ok sg
  | Raise _ => Ok no_trade
  end.

End Strategies.

(** ** The statistics of a backtest: [backtesting/engine.py] *)

Module Statistics.
Import Backtest.
Local Open Scope Q_scope.

Definition empty_minimum : exn :=
  ValueError "zero-size array to reduction operation minimum which has no identity".

(** [np.maximum.accumulate(xs)] *)
Fixpoint accumulate_from (m : Q) (xs : list Q) : list Q :=
  match xs with
  | [] => []
  | x :: rest =>
      let m' := if ltb m x then x else m in
      m' :: accumulate_from m' rest
  end.

Definition maximum_accumulate (xs : list Q) : list Q :=
  match xs with
  | [] => []
  | x :: rest => x :: accumulate_from x rest
  end.

(** [drawdown = equity - peak] *)
Definition drawdown_of (equity : list Q) : list Q :=
  zip_with Qminus equity (maximum_accumulate equity).

(** [abs(np.min(drawdown))] *)
Definition max_drawdown_of (equity : list Q) : result Q :=
  match drawdown_of equity with
  | [] => Raise empty_minimum
  | d :: rest => Ok (Qabs (series_min d rest))
  end.

(** The trade statistics and the drawdown of [BacktestResult]; [None] in
    [profit_factor] is [float('inf')].  The percentages of the drawdown
    and the Sharpe, Sortino and Calmar ratios are not modelled. *)
Record TradeStatistics : Type := {
  st_total_trades : nat;
  winning_trades : nat;
  losing_trades : nat;
  win_rate : Q;
  avg_win : Q;
  avg_loss : Q;
  profit_factor : option Q;
  st_max_drawdown : Q;
  drawdown_curve : list Q
}.

(** [[t for t in self.trades if t.pnl > 0]] and
    [[t for t in self.trades if t.pnl <= 0]] *)
Definition wins_of (ts : list Trade) : list Trade :=
  filter (fun t => Is_true (ltb 0 (pnl t))) ts.
Definition losses_of (ts : list Trade) : list Trade :=
  filter (fun t => Is_true (leb (pnl t) 0)) ts.

Definition trade_statistics (eng : Engine) : result TradeStatistics :=
  let total_trades := length (trades eng) in
  if (total_trades =? 0)%nat then
    Ok {| st_total_trades := 0; winning_trades := 0; losing_trades := 0;
          win_rate := 0; avg_win := 0; avg_loss := 0; profit_factor := Some 0;
          st_max_drawdown := 0; drawdown_curve := [] |}
  else
    let wins := wins_of (trades eng) in
    let losses := losses_of (trades eng) in
    let winning_trades := length wins in
    let losing_trades := length losses in
    let win_rate :=
      inject_Z (Z.of_nat winning_trades) / inject_Z (Z.of_nat total_trades) * 100 in
    let avg_win := match wins with [] => 0 | _ => mean (pnl <$> wins) end in
    let avg_loss := match losses with [] => 0 | _ => Qabs (mean (pnl <$> losses)) end in
    let total_wins := sum (pnl <$> wins) in
    let total_losses := Qabs (sum (pnl <$> losses)) in
    let profit_factor :=
      if ltb 0 total_losses then Some (total_wins / total_losses) else None in
    max_drawdown ← max_drawdown_of (equity_history eng);
    Ok {| st_total_trades := total_trades;
          winning_trades := winning_trades;
          losing_trades := losing_trades;
          win_rate := win_rate;
          avg_win := avg_win;
          avg_loss := avg_loss;
          profit_factor := profit_factor;
          st_max_drawdown := max_drawdown;
          drawdown_curve := drawdown_of (equity_history eng) |}.

End Statistics.

(** ** The macro economist: [agents/macro_economist.py] *)

Module MacroEconomist.
Import PortfolioManager.
Local Open Scope Q_scope.

(** [headline.lower()] on ASCII text. *)
Definition lower_ascii (c : ascii) : ascii :=
  let n := nat_of_ascii c in
  if (65 <=? n)%nat && (n <=? 90)%nat then ascii_of_nat (n + 32) else c.

Fixpoint lower (s : string) : string :=
  match s with
  | EmptyString => EmptyString
  | String c rest => String (lower_ascii c) (lower rest)
  end.

Definition bullish_keywords : list string :=
  [ "surge"; "rally"; "bullish"; "growth"; "beat"; "exceeds";
    "strong"; "gains"; "rises"; "jumps"; "soars"; "upgrade";
    "outperform"; "breakout"; "record"; "positive" ]%string.

Definition bearish_keywords : list string :=
  [ "drop"; "fall"; "bearish"; "decline"; "miss"; "weak";
    "losses"; "tumbles"; "plunges"; "downgrade"; "crash";
    "concern"; "fear"; "negative"; "slump"; "cuts" ]%string.

(** [sum(1 for word in keywords if word in headline_lower)] *)
Definition count_words (keywords : list string) (headline_lower : string) : nat :=
  length (filter (fun word => Is_true (contains word headline_lower)) keywords).

(** The keyword counts after the loop over the headlines. *)
Definition keyword_count (keywords : list string) (headlines : list string) : nat :=
  fold_left (fun acc headline => (acc + count_words keywords (lower headline))%nat)
            headlines 0%nat.

(** The returned dictionary; the two counts are absent from the neutral
    result. *)
Record Sentiment : Type := {
  sentiment : Q;
  magnitude : Q;
  bullish_signals : option nat;
  bearish_signals : option nat
}.

Definition no_sentiment : Sentiment :=
  {| sentiment := 0; magnitude := 0; bullish_signals := None; bearish_signals := None |}.

Definition analyze_basic_sentiment (headlines : list string) : Sentiment :=
  match headlines with
  | [] => no_sentiment
  | _ :: _ =>
      let bullish_count := keyword_count bullish_keywords headlines in
      let bearish_count := keyword_count bearish_keywords headlines in
      let total := (bullish_count + bearish_count)%nat in
      if (total =? 0)%nat then no_sentiment
      else
        {| sentiment :=
             (inject_Z (Z.of_nat bullish_count) - inject_Z (Z.of_nat bearish_count))
             / inject_Z (Z.of_nat total);
           magnitude :=
             min2 1 (inject_Z (Z.of_nat total)
                     / inject_Z (Z.of_nat (length headlines * 2)));
           bullish_signals := Some bullish_count;
           bearish_signals := Some bearish_count |}
  end.

(** An entry of [self.economic_events]; the time is in seconds. *)
Record Event : Type := {
  ev_name : option string;
  ev_datetime : option Q
}.

Record VolatilityFilter : Type := {
  filter_active : bool;
  vf_reason : string;
  vf_event : option (option string);
  minutes_to_event : option Q;
  recommendation : string
}.

Definition default_minutes_buffer : Q := 30.

(** [check_volatility_filter]; [now] is the reading of [datetime.now()] in
    seconds. *)
Fixpoint check_volatility_filter (now : Q) (economic_events : list Event)
    (minutes_buffer : Q) : VolatilityFilter :=
  match economic_events with
  | [] =>
      {| filter_active := false;
         vf_reason := "No imminent high-impact events";
         vf_event := None;
         minutes_to_event := None;
         recommendation := "TRADING_ALLOWED" |}
  | event :: rest =>
      match ev_datetime event with
      | Some event_time =>
          let time_to_event := (event_time - now) / 60 in
          if leb (Qabs time_to_event) minutes_buffer then
            {| filter_active := true;
               vf_reason :=
                 "Near high-impact event: " ++ default "None"%string (ev_name event);
               vf_event := Some (ev_name event);
               minutes_to_event := Some time_to_event;
               recommendation := "AVOID_TRADING" |}
          else check_volatility_filter now rest minutes_buffer
      | None => check_volatility_filter now rest minutes_buffer
      end
  end.

(** The successful result of [analyze_symbol]; the constant market context
    is left out. *)
Record MacroAnalysis : Type := {
  ma_symbol : string;
  ma_timestamp : string;
  ma_sentiment : Sentiment;
  volatility_filter : VolatilityFilter;
  ma_direction : string;
  ma_confidence : Q;
  ma_trading_allowed : bool
}.

(** [analyze_symbol]; [news] is [None] or a list, [now] the clock in
    seconds and [stamp] the text of [datetime.now().isoformat()].  Nothing
    in the body raises. *)
Definition analyze_symbol (now : Q) (stamp : string) (economic_events : list Event)
    (symbol : string) (news : option (list string)) : MacroAnalysis :=
  let news := default [] news in
  let sentiment := analyze_basic_sentiment news in
  let volatility_filter :=
    check_volatility_filter now economic_events default_minutes_buffer in
  let '(macro_signal, confidence) :=
    if filter_active volatility_filter then ("avoid"%string, 0.9)
    else if ltb 0.3 (MacroEconomist.sentiment sentiment) then
      ("bullish"%string, min2 0.8 (0.5 + Qabs (MacroEconomist.sentiment sentiment)))
    else if ltb (MacroEconomist.sentiment sentiment) (-0.3) then
      ("bearish"%string, min2 0.8 (0.5 + Qabs (MacroEconomist.sentiment sentiment)))
    else ("neutral"%string, 0.5) in
  {| ma_symbol := symbol;
     ma_timestamp := stamp;
     ma_sentiment := sentiment;
     volatility_filter := volatility_filter;
     ma_direction := macro_signal;
     ma_confidence := confidence;
     ma_trading_allowed := negb (filter_active volatility_filter) |}.

(** The dictionary of [analyze_symbol] as [aggregate_signals] reads it. *)
Definition as_macro_signal (a : MacroAnalysis) : MacroSignal :=
  {| macro_signal :=
       Some {| m_direction := Some (ma_direction a);
               m_confidence := Some (ma_confidence a);
               m_trading_allowed := Some (ma_trading_allowed a) |} |}.

End MacroEconomist.

(** ** The chartist: [agents/chartist.py] *)

Module Chartist.
Import Bars VolumeProfile ProfileAnalysis PortfolioManager.
Local Open Scope Q_scope.

(** The dictionary returned by [_determine_context], without its
    [description] text: the three-key result for missing data, or the full
    context. *)
Inductive ChartContext : Type :=
| InsufficientData
| FullContext (direction : string) (strength : Q) (htf_regime mtf_regime : string)
    (price_position action : string).

Definition cc_direction (c : ChartContext) : string :=
  match c with
  | InsufficientData => "neutral"
  | FullContext d _ _ _ _ _ => d
  end.

Definition cc_strength (c : ChartContext) : Q :=
  match c with
  | InsufficientData => 0
  | FullContext _ s _ _ _ _ => s
  end.

Definition cc_action (c : ChartContext) : option string :=
  match c with
  | InsufficientData => None
  | FullContext _ _ _ _ _ a => Some a
  end.

Definition _determine_context (htf mtf stf : option ProfileSummary) (current_price : Q)
    : ChartContext :=
  match htf with
  | None => InsufficientData
  | Some htf =>
      let htf_regime := ps_regime htf in
      let htf_position := ps_current_position htf in
      let mtf_regime :=
        match mtf with
        | Some mtf => ps_regime mtf
        | None => "ranging"%string
        end in
      let '(direction, strength) :=
        if String.eqb htf_regime "trending_up" then ("bullish"%string, 0.7)
        else if String.eqb htf_regime "trending_down" then ("bearish"%string, 0.7)
        else if String.eqb htf_regime "breakout" then
          if String.eqb htf_position "above_vah" then ("bullish_breakout"%string, 0.85)
          else ("bearish_breakout"%string, 0.85)
        else ("neutral"%string, 0.5) in
      let '(direction, strength) :=
        if String.eqb mtf_regime htf_regime then (direction, min2 1 (strength + 0.15))
        else if (String.eqb mtf_regime "trending_up" || String.eqb mtf_regime "trending_down")
                && String.eqb htf_regime "ranging" then
          (if String.eqb mtf_regime "trending_up" then "bullish"%string
           else "bearish"%string, 0.55)
        else (direction, strength) in
      let action :=
        if (String.eqb direction "bullish" || String.eqb direction "bullish_breakout")
           && leb 0.6 strength then "look_for_longs"%string
        else if (String.eqb direction "bearish" || String.eqb direction "bearish_breakout")
                && leb 0.6 strength then "look_for_shorts"%string
        else "wait_for_clarity"%string in
      FullContext direction strength htf_regime mtf_regime htf_position action
  end.

Record KeyLevel : Type := {
  kl_price : Q;
  kl_type : string;
  kl_timeframe : string;
  kl_importance : string
}.

(** The sort key [(0 if x['importance'] == 'high' else 1, x['price'])] and
    the order of the keys. *)
Definition level_rank (x : KeyLevel) : nat :=
  if String.eqb (kl_importance x) "high" then 0 else 1.

Definition level_lt (x y : KeyLevel) : bool :=
  (level_rank x <? level_rank y)%nat
  || (level_rank x =? level_rank y)%nat && ltb (kl_price x) (kl_price y).

(** [levels.sort(key=...)]: the sort is stable. *)
Fixpoint insert_level (x : KeyLevel) (sorted : list KeyLevel) : list KeyLevel :=
  match sorted with
  | [] => [x]
  | y :: rest => if level_lt x y then x :: y :: rest else y :: insert_level x rest
  end.

Definition sort_levels (levels : list KeyLevel) : list KeyLevel :=
  fold_left (fun sorted x => insert_level x sorted) levels [].

(** [if htf.get('poc'):] holds for a non-zero number. *)
Definition nonzero (x : Q) : bool := negb (eqb x 0).

Definition level (price : Q) (type timeframe importance : string) : KeyLevel :=
  {| kl_price := price; kl_type := type; kl_timeframe := timeframe;
     kl_importance := importance |}.

(** The levels in the order in which they are appended. *)
Definition collected_levels (htf mtf : option ProfileSummary) : list KeyLevel :=
  match htf with
  | Some htf =>
      (if nonzero (ps_poc htf) then [level (ps_poc htf) "poc" "daily" "high"] else [])
      ++ (if nonzero (ps_vah htf) then [level (ps_vah htf) "vah" "daily" "high"] else [])
      ++ (if nonzero (ps_val htf) then [level (ps_val htf) "val" "daily" "high"] else [])
      ++ ((fun hvn => level hvn "hvn" "daily" "medium") <$> take 3 (ps_hvn htf))
  | None => []
  end
  ++ match mtf with
     | Some mtf =>
         if nonzero (ps_poc mtf) then [level (ps_poc mtf) "poc" "hourly" "medium"] else []
     | None => []
     end.

Definition _get_key_levels (htf mtf : option ProfileSummary) : list KeyLevel :=
  sort_levels (collected_levels htf mtf).

(** The [htf], [mtf] and [stf] entries of the report. *)
Record TimeframeView : Type := {
  tf_timeframe : string;
  tf_poc : option Q;
  tf_vah : option Q;
  tf_val : option Q;
  tf_regime : option string;
  tf_position : option string
}.

Record ChartReport : Type := {
  cr_symbol : string;
  cr_timestamp : string;
  cr_current_price : Q;
  cr_htf : TimeframeView;
  cr_mtf : TimeframeView;
  cr_stf : TimeframeView;
  cr_key_levels : list KeyLevel;
  cr_context : ChartContext
}.

(** The dictionary returned by [analyze_symbol]. *)
Inductive ChartAnalysis : Type :=
| ChartError (symbol message : string) (agent : option string)
| ChartSuccess (report : ChartReport).

(** [get_volume_profile_analysis(data) if not data.empty else None] *)
Definition analysis_of (data : list Bar) : result (option ProfileSummary) :=
  match data with
  | [] => Ok None
  | _ :: _ => s ← get_volume_profile_analysis data; Ok (Some s)
  end.

(** [analyze_symbol] with the default intervals; the three arguments are
    the outcomes of the three calls of [data_fetcher.fetch_bars], and the
    whole body is inside [try: ... except Exception as e:]. *)
Definition analyze_symbol (htf_fetched mtf_fetched stf_fetched : result (list Bar))
    (symbol now : string) : ChartAnalysis :=
  let body : result ChartAnalysis :=
    htf_data ← htf_fetched;
    mtf_data ← mtf_fetched;
    stf_data ← stf_fetched;
    match htf_data with
    | [] => Ok (ChartError symbol "No HTF data available" None)
    | _ :: _ =>
        htf_analysis ← analysis_of htf_data;
        mtf_analysis ← analysis_of mtf_data;
        stf_analysis ← analysis_of stf_data;
        current_price ←
          match stf_data with
          | [] => last_item (close <$> htf_data)
          | _ :: _ => last_item (close <$> stf_data)
          end;
        let context :=
          _determine_context htf_analysis mtf_analysis stf_analysis current_price in
        Ok (ChartSuccess
              {| cr_symbol := symbol;
                 cr_timestamp := now;
                 cr_current_price := current_price;
                 cr_htf :=
                   {| tf_timeframe := "1d";
                      tf_poc := ps_poc <$> htf_analysis;
                      tf_vah := ps_vah <$> htf_analysis;
                      tf_val := ps_val <$> htf_analysis;
                      tf_regime := ps_regime <$> htf_analysis;
                      tf_position := None |};
                 cr_mtf :=
                   {| tf_timeframe := "1h";
                      tf_poc := ps_poc <$> mtf_analysis;
                      tf_vah := ps_vah <$> mtf_analysis;
                      tf_val := ps_val <$> mtf_analysis;
                      tf_regime := ps_regime <$> mtf_analysis;
                      tf_position := None |};
                 cr_stf :=
                   {| tf_timeframe := "5m";
                      tf_poc := ps_poc <$> stf_analysis;
                      tf_vah := None;
                      tf_val := None;
                      tf_regime := None;
                      tf_position := ps_current_position <$> stf_analysis |};
                 cr_key_levels := _get_key_levels htf_analysis mtf_analysis;
                 cr_context := context |})
    end in
  match body with
  | Ok r => r
  | Raise e => ChartError symbol (str e) (Some "chartist"%string)
  end.

(** The dictionary of [analyze_symbol] as [aggregate_signals] reads it. *)
Definition as_chartist_signal (a : ChartAnalysis) : ChartistSignal :=
  match a with
  | ChartError _ _ _ => {| context := None |}
  | ChartSuccess r =>
      {| context := Some {| ctx_direction := Some (cc_direction (cr_context r));
                            ctx_strength := Some (cc_strength (cr_context r)) |} |}
  end.

End Chartist.

(** ** The final decision: [agents/portfolio_manager.py], [agents/crew.py] *)

Module Crew.
Import Bars PortfolioManager TapeReader Chartist MacroEconomist.
Local Open Scope Q_scope.

(** [self.portfolio]: the equity and the keys of [positions] in insertion
    order. *)
Record Portfolio : Type := {
  equity : Q;
  positions : list string
}.

Definition default_portfolio : Portfolio := {| equity := 100000; positions := [] |}.

(** The result of [check_correlation]; the percentage in its [reason] text
    is the [max_corr] of the result. *)
Inductive CorrelationCheck : Type :=
| NoPositions
| HighCorrelation (max_corr : Q) (high_corr_with : option string)
| Acceptable (max_corr : Q).

Definition allowed (c : CorrelationCheck) : bool :=
  match c with
  | HighCorrelation _ _ => false
  | _ => true
  end.

(** One iteration of the loop over the existing positions. *)
Definition correlation_step (symbol : string) (correlation_matrix : gmap string (gmap string Q))
    (acc : Q * option string) (pos : string) : Q * option string :=
  match correlation_matrix !! symbol with
  | Some row =>
      match row !! pos with
      | Some corr => if ltb acc.1 (Qabs corr) then (Qabs corr, Some pos) else acc
      | None => acc
      end
  | None => acc
  end.

Definition check_correlation (cfg : Config) (portfolio : Portfolio) (symbol : string)
    (correlation_matrix : gmap string (gmap string Q)) : CorrelationCheck :=
  match positions portfolio with
  | [] => NoPositions
  | existing_positions =>
      let '(max_corr, high_corr_with) :=
        fold_left (correlation_step symbol correlation_matrix) existing_positions
                  (0, None) in
      if ltb (max_correlation cfg) max_corr then HighCorrelation max_corr high_corr_with
      else Acceptable max_corr
  end.

(** The [reason] of a refusal: a fixed text or the text of a correlation
    check. *)
Inductive Reason : Type :=
| Text (s : string)
| Correlated (max_corr : Q) (high_corr_with : option string).

Record TradePlan : Type := {
  tp_symbol : string;
  tp_action : string;
  tp_direction : string;
  tp_confidence : Q;
  tp_signal_strength : Q;
  tp_entry_price : Q;
  tp_stop_loss : Q;
  tp_position : PositionSizing;
  tp_agent_agreement : string;
  tp_agent_signals : AgentView * AgentView * AgentView;
  tp_risk_reward_ratio : Q;
  tp_timestamp : string
}.

(** The dictionary returned by [make_trade_decision]. *)
Inductive TradeDecision : Type :=
| NoTrade (symbol : string) (reason : Reason) (confidence : Q) (timestamp : string)
| Trade (plan : TradePlan).

Definition missing_key (k : string) : exn := KeyError ("'" ++ k ++ "'").

(** [d[k]] on a dictionary entry that may be absent. *)
Definition item {A} (k : string) (v : option A) : result A :=
  match v with
  | Some a => Ok a
  | None => Raise (missing_key k)
  end.

(** [max(xs) if xs else d] and [min(xs) if xs else d] *)
Definition max_or (xs : list Q) (d : Q) : Q :=
  match xs with
  | [] => d
  | x :: rest => series_max x rest
  end.
Definition min_or (xs : list Q) (d : Q) : Q :=
  match xs with
  | [] => d
  | x :: rest => series_min x rest
  end.

(** [make_trade_decision]; [chart_price] and [key_levels] are the
    ['current_price'] and ['key_levels'] entries of the chartist's
    dictionary, [current_price] and [correlation_matrix] the two optional
    arguments, and [now] the text of [datetime.now().isoformat()]. *)
Definition make_trade_decision (cfg : Config) (portfolio : Portfolio) (now : string)
    (symbol : string) (tape_reader_signal : TapeReaderSignal)
    (chartist_signal : ChartistSignal) (chart_price : option Q)
    (key_levels : option (list KeyLevel)) (macro : MacroSignal)
    (current_price : option Q) (correlation_matrix : option (gmap string (gmap string Q)))
    : result TradeDecision :=
  let aggregated := aggregate_signals cfg tape_reader_signal chartist_signal macro in
  if String.eqb (final_decision aggregated) "no_trade" then
    Ok (NoTrade symbol
          (Text (default "Signals not aligned"%string (reason aggregated)))
          (confidence aggregated) now)
  else
    (* [if correlation_matrix:] is false for [None] and for an empty dictionary *)
    let corr_check :=
      match correlation_matrix with
      | Some matrix =>
          if decide (matrix = ∅) then None
          else Some (check_correlation cfg portfolio symbol matrix)
      | None => None
      end in
    match corr_check with
    | Some (HighCorrelation max_corr high_corr_with) =>
        Ok (NoTrade symbol (Correlated max_corr high_corr_with)
              (confidence aggregated) now)
    | _ =>
        let current_price :=
          match current_price with
          | Some p => p
          | None => default 100 chart_price
          end in
        let key_levels := default [] key_levels in
        direction ← item "direction" (direction aggregated);
        let stop_loss :=
          if String.eqb direction "bullish" then
            max_or (filter (fun p => Is_true (ltb p current_price)) (kl_price <$> key_levels))
                   (current_price * 0.98)
          else
            min_or (filter (fun p => Is_true (ltb current_price p)) (kl_price <$> key_levels))
                   (current_price * 1.02) in
        position ← calculate_position_size cfg (equity portfolio) symbol current_price
                      stop_loss (confidence aggregated);
        let action := if String.eqb direction "bullish" then "BUY"%string else "SELL"%string in
        signal_strength ← item "signal_strength" (signal_strength aggregated);
        agreement ← item "agreement" (agreement aggregated);
        agent_signals ← item "agent_signals" (agent_signals aggregated);
        risk_reward_ratio ← div (Qabs (current_price - stop_loss)) (current_price * 0.02);
        Ok (Trade {| tp_symbol := symbol;
                     tp_action := action;
                     tp_direction := direction;
                     tp_confidence := confidence aggregated;
                     tp_signal_strength := signal_strength;
                     tp_entry_price := current_price;
                     tp_stop_loss := stop_loss;
                     tp_position := position;
                     tp_agent_agreement := agreement;
                     tp_agent_signals := agent_signals;
                     tp_risk_reward_ratio := risk_reward_ratio;
                     tp_timestamp := now |})
    end.

(** The inputs of [aggregate_signals] after the defaults. *)
Definition tr_confidence_of (tr : TapeReaderSignal) : Q :=
  default 0 (fs_confidence (default empty_final (final_signal tr))).
Definition ch_strength_of (ch : ChartistSignal) : Q :=
  default 0 (ctx_strength (default empty_context (context ch))).
Definition macro_confidence_of (m : MacroSignal) : Q :=
  default 0 (m_confidence (default empty_macro (macro_signal m))).
Definition trading_allowed_of (m : MacroSignal) : bool :=
  default true (m_trading_allowed (default empty_macro (macro_signal m))).

(** The price that [make_trade_decision] uses. *)
Definition decision_price (current_price chart_price : option Q) : Q :=
  match current_price with
  | Some p => p
  | None => default 100 chart_price
  end.

(** The dictionaries of the tape reader as [make_trade_decision] reads
    them. *)
Definition as_tape_reader_signal (a : SymbolAnalysis) : TapeReaderSignal :=
  match a with
  | AnalysisError _ _ _ => {| final_signal := None |}
  | AnalysisSuccess _ _ _ _ fs =>
      {| final_signal := Some {| fs_direction := Some (fsv_direction fs);
                                 fs_confidence := Some (fsv_confidence fs) |} |}
  end.

Definition chart_price_of (a : ChartAnalysis) : option Q :=
  match a with
  | ChartError _ _ _ => None
  | ChartSuccess r => Some (cr_current_price r)
  end.

Definition key_levels_of (a : ChartAnalysis) : option (list KeyLevel) :=
  match a with
  | ChartError _ _ _ => None
  | ChartSuccess r => Some (cr_key_levels r)
  end.

(** The agents' results and the decision of [TradingCrew.analyze_symbol]. *)
Record CrewResult : Type := {
  crew_tape_reader : SymbolAnalysis;
  crew_chartist : ChartAnalysis;
  crew_macro : MacroAnalysis;
  crew_decision : TradeDecision
}.

(** [TradingCrew.analyze_symbol]: the three agents and then the portfolio
    manager with its two optional arguments left out.  [tape_bars] and the
    three chart arguments are the outcomes of the agents' fetches, [clock]
    the clock in seconds, and the four texts the readings of
    [datetime.now().isoformat()] by the three agents and the manager. *)
Definition crew_analyze_symbol (cfg : Config) (portfolio : Portfolio)
    (economic_events : list Event) (clock : Q)
    (tape_now chart_now macro_now decision_now : string)
    (tape_bars htf_fetched mtf_fetched stf_fetched : result (list Bar))
    (symbol : string) (news : option (list string)) : result CrewResult :=
  let tape := TapeReader.analyze_symbol tape_bars symbol tape_now in
  let chart := Chartist.analyze_symbol htf_fetched mtf_fetched stf_fetched symbol chart_now in
  let macro := MacroEconomist.analyze_symbol clock macro_now economic_events symbol news in
  decision ← make_trade_decision cfg portfolio decision_now symbol
                (as_tape_reader_signal tape) (as_chartist_signal chart)
                (chart_price_of chart) (key_levels_of chart)
                (as_macro_signal macro) None None;
  Ok {| crew_tape_reader := tape;
        crew_chartist := chart;
        crew_macro := macro;
        crew_decision := decision |}.

End Crew.

(** ** Arrays: the numpy operations of [data/order_flow.py] *)

Module Numpy.
Local Open Scope Q_scope.

(** An element of a float array: numpy divides by zero without raising and
    gives an infinity or NaN.  [Num 0] is the positive zero. *)
Inductive Float : Type := Num (q : Q) | NegZero | PosInf | NegInf | NaN.

(** [a / b] on arrays, for finite elements [a] and [b]. *)
Definition np_divide (a b : Q) : Float :=
  if eqb b 0 then
    if ltb 0 a then PosInf else if ltb a 0 then NegInf else NaN
  else if eqb a 0 then
    if ltb b 0 then NegZero else Num 0
  else Num (a / b).

(** [1 / r] *)
Definition np_reciprocal (r : Float) : Float :=
  match r with
  | Num q => if eqb q 0 then PosInf else Num (1 / q)
  | NegZero => NegInf
  | PosInf => Num 0
  | NegInf => NegZero
  | NaN => NaN
  end.

(** [r >= threshold]; a comparison with NaN is false. *)
Definition np_ge (r : Float) (threshold : Q) : bool :=
  match r with
  | Num q => leb threshold q
  | NegZero => leb threshold 0
  | PosInf => true
  | NegInf | NaN => false
  end.

(** The exceptions of the array code: [ValueError] when two arrays cannot
    be broadcast together or a dimension is negative, [IndexError] for an
    index outside an array, [TypeError] for an operation on [None],
    [AttributeError] for [.values] on an array. *)
Inductive Failure : Type :=
| BroadcastError
| NegativeDimensions
| IndexOutOfBounds
| NoneOperand
| NoValuesAttribute.

Inductive Outcome (A : Type) : Type :=
| Returns (a : A)
| Fails (e : Failure).
Arguments Returns {A} a.
Arguments Fails {A} e.

#[export] Instance outcome_ret : MRet Outcome := fun A a => Returns a.
#[export] Instance outcome_bind : MBind Outcome := fun A B f m =>
  match m with
  | Returns a => f a
  | Fails e => Fails e
  end.

(** An operation on two one-dimensional arrays: arrays of the same length
    are combined element by element, an array of length 1 is stretched. *)
Definition broadcast {A B C : Type} (f : A -> B -> C) (xs : list A) (ys : list B)
    : Outcome (list C) :=
  if (length xs =? length ys)%nat then Returns (zip_with f xs ys)
  else
    match xs, ys with
    | [x], _ => Returns (f x <$> ys)
    | _, [y] => Returns ((fun x => f x y) <$> xs)
    | _, _ => Fails BroadcastError
    end.

(** [xs[i]] on an array for an integer [i]: a negative index counts from
    the end. *)
Definition np_item {A : Type} (xs : list A) (i : Z) : Outcome A :=
  let n := Z.of_nat (length xs) in
  let j := if (i <? 0)%Z then (n + i)%Z else i in
  if (j <? 0)%Z then Fails IndexOutOfBounds
  else
    match xs !! Z.to_nat j with
    | Some x => Returns x
    | None => Fails IndexOutOfBounds
    end.

End Numpy.

(** ** Stacked imbalances: [data/order_flow.py] *)

Module Imbalances.
Import OrderFlow Numpy.
Local Open Scope Q_scope.

(** The loop of [find_consecutive_true] from index [i] on, with the
    variables [runs], [start] and [count]: [start] is [None] outside a run,
    and the end of a run is [i - 1], an integer. *)
Fixpoint scan_runs (min_count : Z) (mask : list bool) (i : nat)
    (runs : list (option nat * Z)) (start : option nat) (count : Z)
    : list (option nat * Z) * option nat * Z :=
  match mask with
  | [] => (runs, start, count)
  | val :: rest =>
      if val then
        scan_runs min_count rest (S i) runs
                  (match start with None => Some i | Some s => Some s end)
                  (count + 1)
      else
        scan_runs min_count rest (S i)
                  (if (min_count <=? count)%Z
                   then runs ++ [(start, (Z.of_nat i - 1)%Z)] else runs)
                  None 0%Z
  end.

Definition find_consecutive_true (mask : list bool) (min_count : Z)
    : list (option nat * Z) :=
  let '(runs, start, count) := scan_runs min_count mask 0 [] None 0%Z in
  if (min_count <=? count)%Z
  then runs ++ [(start, (Z.of_nat (length mask) - 1)%Z)] else runs.

(** The levels [a] to [b] are a run of [True] that cannot be extended. *)
Definition maximal_run (mask : list bool) (a b : nat) : Prop :=
  (a <= b)%nat
  /\ (forall j, (a <= j <= b)%nat -> mask !! j = Some true)
  /\ (a = 0%nat \/ mask !! (a - 1)%nat = Some false)
  /\ (mask !! (S b) = Some false \/ S b = length mask).

Record StackedImbalance : Type := {
  type : string;
  start_price : Q;
  end_price : Q;
  levels : Z;
  signal : SignalType;
  description : string
}.

(** The dictionary built for one run.  With [start = None] the subscript
    [price_levels[None]] is a view of the array and [end - start] raises. *)
Definition stack_entry (type : string) (signal : SignalType) (side : string)
    (price_levels : list Q) (run : option nat * Z) : Outcome StackedImbalance :=
  let '(start, end_) := run in
  match start with
  | None =>
      _ ← np_item price_levels end_;
      Fails NoneOperand
  | Some start =>
      start_price ← np_item price_levels (Z.of_nat start);
      end_price ← np_item price_levels end_;
      Returns {| type := type;
                 start_price := start_price;
                 end_price := end_price;
                 levels := (end_ - Z.of_nat start + 1)%Z;
                 signal := signal;
                 description :=
                   "Stacked " +:+ side +:+ " imbalances: "
                   +:+ pretty (end_ - Z.of_nat start + 1)%Z +:+ " levels" |}
  end.

Definition detect_stacked_imbalances (bid_volume ask_volume price_levels : list Q)
    (threshold : Q) (min_stack : Z) : Outcome (list StackedImbalance) :=
  ratios ← broadcast (fun bid ask => np_divide bid (ask + epsilon)) bid_volume ask_volume;
  let buy_imbalance_mask := (fun r => np_ge r threshold) <$> ratios in
  let sell_imbalance_mask := (fun r => np_ge (np_reciprocal r) threshold) <$> ratios in
  let buy_stacks := find_consecutive_true buy_imbalance_mask min_stack in
  buys ← mapM (stack_entry "buy_imbalance" BULLISH "BUY" price_levels) buy_stacks;
  let sell_stacks := find_consecutive_true sell_imbalance_mask min_stack in
  sells ← mapM (stack_entry "sell_imbalance" BEARISH "SELL" price_levels) sell_stacks;
  Returns (buys ++ sells).

(** A run of the part [done] of the mask that a later [False] has closed. *)
Definition closed_run (done : list bool) (a b : nat) : Prop :=
  (a <= b)%nat
  /\ (forall j, (a <= j <= b)%nat -> done !! j = Some true)
  /\ (a = 0%nat \/ done !! (a - 1)%nat = Some false)
  /\ done !! (S b) = Some false.

(** The state of the loop after the part [done]: [c] is the length of the
    run that is still open. *)
Definition scanned_runs (min_count : Z) (done : list bool)
    (runs : list (option nat * Z)) (start : option nat) (count : Z) : Prop :=
  (exists c : nat,
     count = Z.of_nat c /\ (c <= length done)%nat
     /\ start = (if (c =? 0)%nat then None else Some (length done - c)%nat)
     /\ (forall j, (length done - c <= j < length done)%nat -> done !! j = Some true)
     /\ (c = length done \/ done !! (length done - c - 1)%nat = Some false))
  /\ (forall s e, (s, e) ∈ runs <->
        exists a b, s = Some a /\ e = Z.of_nat b /\ closed_run done a b
                    /\ (min_count <= Z.of_nat (b - a + 1))%Z).

(** What one entry of the result says about the book: its type, and the
    condition that holds at each of its levels. *)
Definition stack_of (bid_volume ask_volume price_levels : list Q) (min_stack : Z)
    (kind : string) (sig : SignalType) (imbalanced : Q -> Q -> Prop)
    (d : StackedImbalance) : Prop :=
  exists a b : nat,
    (a <= b < length price_levels)%nat
    /\ levels d = (Z.of_nat b - Z.of_nat a + 1)%Z
    /\ (min_stack <= levels d)%Z
    /\ price_levels !! a = Some (start_price d)
    /\ price_levels !! b = Some (end_price d)
    /\ type d = kind /\ signal d = sig
    /\ forall j bid ask,
         (a <= j <= b)%nat -> bid_volume !! j = Some bid -> ask_volume !! j = Some ask ->
         imbalanced bid ask.

End Imbalances.

(** ** Delta from trades: [data/order_flow.py] *)

Module Trades.
Local Open Scope Q_scope.

(** A row of the trades frame.  [bar_time] is read only when the frame has
    that column. *)
Record Tick : Type := {
  price : Q;
  bid : Q;
  ask : Q;
  volume : Q;
  bar_time : Z
}.

(** [calculate_trade_direction] at one element of the arrays. *)
Definition calculate_trade_direction (price bid ask : Q) : Z :=
  let mid := (bid + ask) / 2 in
  if ltb mid price then 1%Z
  else if ltb price mid then (-1)%Z
  else 0%Z.

(** [trades['volume'].values * direction] *)
Definition signed_volume (t : Tick) : Q :=
  volume t * inject_Z (calculate_trade_direction (price t) (bid t) (ask t)).

(** [series.groupby(key).sum()]: one row for each key, in ascending order of
    the keys, with the sum of the values that have the key. *)
Fixpoint add_to_group (k : Z) (v : Q) (groups : list (Z * Q)) : list (Z * Q) :=
  match groups with
  | [] => [(k, v)]
  | (k', s) :: rest =>
      if (k <? k')%Z then (k, v) :: groups
      else if (k =? k')%Z then (k', s + v) :: rest
      else (k', s) :: add_to_group k v rest
  end.

Definition groupby_sum (rows : list (Z * Q)) : list (Z * Q) :=
  foldl (fun groups row => add_to_group row.1 row.2 groups) [] rows.

(** The series that [calculate_delta] returns: indexed like the frame, or
    by [bar_time]. *)
Inductive DeltaSeries : Type :=
| ByTrade (values : list Q)
| ByBar (values : list (Z * Q)).

Definition calculate_delta (has_bar_time : bool) (trades : list Tick) : DeltaSeries :=
  match trades with
  | [] => ByTrade [0]
  | _ =>
      if has_bar_time
      then ByBar (groupby_sum ((fun t => (bar_time t, signed_volume t)) <$> trades))
      else ByTrade (signed_volume <$> trades)
  end.

(** [groups] is the result of grouping [rows]: the keys ascend, they are
    the keys of the rows, and each value is the sum for its key. *)
Definition grouped (rows groups : list (Z * Q)) : Prop :=
  StronglySorted Z.lt groups.*1
  /\ (forall k, k ∈ groups.*1 <-> k ∈ rows.*1)
  /\ (forall k s, (k, s) ∈ groups -> s == sum (filter (fun r => r.1 = k) rows).*2)
  /\ sum groups.*2 == sum rows.*2.

(** The trades of the bar [k]. *)
Definition trades_of_bar (k : Z) (trades : list Tick) : list Tick :=
  filter (fun t => bar_time t = k) trades.

End Trades.

(** ** Cumulative delta of bars: [data/order_flow.py] *)

Module CumulativeDelta.
Import Bars OrderFlow.
Local Open Scope Q_scope.

(** [calculate_cumulative_delta]; [delta] is the column of that name when
    the frame has one. *)
Definition calculate_cumulative_delta (delta : option (list Q)) (bars : list Bar) : list Q :=
  match delta with
  | Some column => cumsum column
  | None =>
      cumsum ((fun b =>
                 let body := close b - open b in
                 let range_size := high b - low b in
                 body / (if eqb range_size 0 then 1 else range_size) * volume b) <$> bars)
  end.

End CumulativeDelta.

(** ** The two sides of [aggregate_signals]: [agents/portfolio_manager.py] *)

Module Sides.
Import PortfolioManager.
Local Open Scope Q_scope.

(** The directions that [aggregate_signals] reads, after the defaults. *)
Definition tr_direction_of (tr : TapeReaderSignal) : string :=
  default "neutral"%string (fs_direction (default empty_final (final_signal tr))).
Definition ch_direction_of (ch : ChartistSignal) : string :=
  default "neutral"%string (ctx_direction (default empty_context (context ch))).
Definition macro_direction_of (m : MacroSignal) : string :=
  default "neutral"%string (m_direction (default empty_macro (macro_signal m))).

(** The directions of [signal_map] that have a side, and ['neutral']. *)
Definition known_direction (d : string) : Prop :=
  d ∈ ["bullish"; "bullish_breakout"; "bearish"; "bearish_breakout"; "neutral"]%string.

(** The same direction on the other side. *)
Definition mirror (d : string) : string :=
  if String.eqb d "bullish" then "bearish"
  else if String.eqb d "bullish_breakout" then "bearish_breakout"
  else if String.eqb d "bearish" then "bullish"
  else if String.eqb d "bearish_breakout" then "bullish_breakout"
  else d.

(** The signals of the three agents with their directions mirrored. *)
Definition mirror_tape_reader (tr : TapeReaderSignal) : TapeReaderSignal :=
  {| final_signal :=
       (fun fs => {| fs_direction := mirror <$> fs_direction fs;
                     fs_confidence := fs_confidence fs |}) <$> final_signal tr |}.
Definition mirror_chartist (ch : ChartistSignal) : ChartistSignal :=
  {| context :=
       (fun cx => {| ctx_direction := mirror <$> ctx_direction cx;
                     ctx_strength := ctx_strength cx |}) <$> context ch |}.
Definition mirror_macro (m : MacroSignal) : MacroSignal :=
  {| macro_signal :=
       (fun mb => {| m_direction := mirror <$> m_direction mb;
                     m_confidence := m_confidence mb;
                     m_trading_allowed := m_trading_allowed mb |}) <$> macro_signal m |}.

(** The decision on the other side. *)
Definition opposite (decision : string) : string :=
  if String.eqb decision "long" then "short"
  else if String.eqb decision "short" then "long"
  else decision.

(** Equality of two optional floats. *)
Definition same_float (a b : option Q) : Prop :=
  match a, b with
  | Some x, Some y => x == y
  | None, None => True
  | _, _ => False
  end.

End Sides.

(** ** Footprint tensor: [data/order_flow.py] *)

Module Footprint.
Import Numpy.
Local Open Scope Q_scope.

(** A row of the trades frame.  The columns [bid], [ask], [bid_size] and
    [ask_size] are read only when the frame has them. *)
Record Row : Type := {
  price : Q;
  timestamp : Q;
  volume : Q;
  bid : Q;
  ask : Q;
  bid_size : Q;
  ask_size : Q
}.

Record Frame : Type := {
  rows : list Row;
  has_bid : bool;
  has_ask : bool;
  has_bid_size : bool;
  has_ask_size : bool
}.

(** An array of three dimensions: time bins, price bins, channels. *)
Definition Tensor : Type := list (list (list Q)).

(** [np.zeros((time_bins, price_bins, 6))] *)
Definition zeros (time_bins price_bins : Z) : Outcome Tensor :=
  if (time_bins <? 0)%Z || (price_bins <? 0)%Z then Fails NegativeDimensions
  else Returns (replicate (Z.to_nat time_bins)
                          (replicate (Z.to_nat price_bins) (replicate 6 0))).

(** An index along an axis of size [n]: a negative index counts from the
    end. *)
Definition axis_index (n : nat) (i : Z) : Outcome nat :=
  let j := if (i <? 0)%Z then (Z.of_nat n + i)%Z else i in
  if (j <? 0)%Z || (Z.of_nat n <=? j)%Z then Fails IndexOutOfBounds
  else Returns (Z.to_nat j).

(** [tensor[t, p, channel] = op(tensor[t, p, channel], v)] for one entry
    [(t, p, v)] of the index arrays and the values. *)
Definition update (op : Q -> Q -> Q) (channel : nat) (tensor : Tensor)
    (entry : Z * Z * Q) : Outcome Tensor :=
  let '(t, p, v) := entry in
  t ← axis_index (length tensor) t;
  p ← axis_index (length (default [] (tensor !! t))) p;
  Returns (alter (alter (alter (fun x => op x v) channel) p) t tensor).

(** [np.add.at(tensor, (t, p, channel), values)] with [op] the addition, and
    [tensor[t, p, channel] = values] with [op] the replacement: the entries
    are applied in order. *)
Fixpoint apply_at (op : Q -> Q -> Q) (channel : nat) (tensor : Tensor)
    (entries : list (Z * Z * Q)) : Outcome Tensor :=
  match entries with
  | [] => Returns tensor
  | entry :: rest =>
      tensor ← update op channel tensor entry;
      apply_at op channel tensor rest
  end.

Definition add : Q -> Q -> Q := Qplus.
Definition assign : Q -> Q -> Q := fun _ v => v.

(** [((x - lo) / range * (bins - 1)).astype(int).clip(0, bins - 1)] *)
Definition bin_index (x lo range : Q) (bins : Z) : Z :=
  clip (int ((x - lo) / range * inject_Z (bins - 1))) 0 (bins - 1).

Definition direction_of (r : Row) : Z :=
  Trades.calculate_trade_direction (price r) (bid r) (ask r).

Definition create_footprint_tensor (trades : Frame) (price_bins time_bins : Z)
    : Outcome Tensor :=
  match rows trades with
  | [] => zeros time_bins price_bins
  | first :: rest =>
      let p_min := series_min (price first) (price <$> rest) in
      let p_max := series_max (price first) (price <$> rest) in
      let t_min := series_min (timestamp first) (timestamp <$> rest) in
      let t_max := series_max (timestamp first) (timestamp <$> rest) in
      let p_range := max2 (1 # 100000000) (p_max - p_min) in
      let t_range := max2 (1 # 100000000) (t_max - t_min) in
      let entry (value : Row -> Q) (r : Row) : Z * Z * Q :=
        (bin_index (timestamp r) t_min t_range time_bins,
         bin_index (price r) p_min p_range price_bins,
         value r) in
      if negb (has_bid trades) || negb (has_ask trades) then Fails NoValuesAttribute
      else
        tensor ← zeros time_bins price_bins;
        tensor ← apply_at add 0 tensor (entry volume <$> rows trades);
        tensor ← apply_at add 1 tensor
                   (entry volume <$> filter (fun r => (0 < direction_of r)%Z) (rows trades));
        tensor ← apply_at add 2 tensor
                   (entry volume <$> filter (fun r => (direction_of r < 0)%Z) (rows trades));
        tensor ← apply_at add 3 tensor (entry (fun _ => 1) <$> rows trades);
        tensor ← (if has_bid_size trades
                  then apply_at assign 4 tensor (entry bid_size <$> rows trades)
                  else Returns tensor);
        tensor ← (if has_ask_size trades
                  then apply_at assign 5 tensor (entry ask_size <$> rows trades)
                  else Returns tensor);
        Returns tensor
  end.

(** The sum of a channel over all bins. *)
Definition cell_value (channel : nat) (cell : list Q) : Q := default 0 (cell !! channel).
Definition row_total (channel : nat) (row : list (list Q)) : Q :=
  sum (cell_value channel <$> row).
Definition channel_total (channel : nat) (tensor : Tensor) : Q :=
  sum (row_total channel <$> tensor).

(** The shape [(time_bins, price_bins, 6)]. *)
Definition has_shape (time_bins price_bins : nat) (tensor : Tensor) : Prop :=
  length tensor = time_bins
  /\ Forall (fun row => length row = price_bins
                        /\ Forall (fun cell => length cell = 6%nat) row) tensor.

(** An entry whose indices are inside the shape [(T, P, 6)]. *)
Definition in_range (T P : nat) (entry : Z * Z * Q) : Prop :=
  (0 <= entry.1.1 < Z.of_nat T)%Z /\ (0 <= entry.1.2 < Z.of_nat P)%Z.

End Footprint.

(** * Verified properties *)

(** ** Reflection of the float comparisons *)

Section PyFacts.
Local Open Scope Q_scope.

Lemma ltb_lt (a b : Q) : ltb a b = true <-> a < b.
Proof.
  unfold ltb. rewrite negb_true_iff, <- not_true_iff_false, Qle_bool_iff.
  split; [apply Qnot_le_lt | apply Qlt_not_le].
Qed.

Lemma ltb_ge (a b : Q) : ltb a b = false <-> b <= a.
Proof.
  unfold ltb. rewrite negb_false_iff. apply Qle_bool_iff.
Qed.

Lemma eqb_eq (a b : Q) : eqb a b = true <-> a == b.
Proof. apply Qeq_bool_iff. Qed.

Lemma eqb_neq (a b : Q) : eqb a b = false <-> ~ a == b.
Proof.
  rewrite <- not_true_iff_false. unfold eqb. now rewrite Qeq_bool_iff.
Qed.

Lemma div_ok (a b : Q) : ~ b == 0 -> div a b = Ok (a / b).
Proof. intros H. unfold div. apply eqb_neq in H. now rewrite H. Qed.

Lemma div_zero (a b : Q) : b == 0 -> div a b = Raise division_by_zero.
Proof. intros H. unfold div. apply eqb_eq in H. now rewrite H. Qed.

Lemma min2_le_r (a b : Q) : min2 a b <= b.
Proof.
  unfold min2. destruct (ltb b a) eqn:E; [apply Qle_refl | now apply ltb_ge].
Qed.

Lemma min2_le_l (a b : Q) : min2 a b <= a.
Proof.
  unfold min2. destruct (ltb b a) eqn:E; [| apply Qle_refl].
  apply ltb_lt in E. now apply Qlt_le_weak.
Qed.

Lemma min2_glb (a b c : Q) : c <= a -> c <= b -> c <= min2 a b.
Proof. intros Ha Hb. unfold min2. now destruct (ltb b a). Qed.

Lemma max2_ge_l (a b : Q) : a <= max2 a b.
Proof.
  unfold max2. destruct (ltb a b) eqn:E; [| apply Qle_refl].
  apply ltb_lt in E. now apply Qlt_le_weak.
Qed.

End PyFacts.

(** ** Decision engine *)

Section DecisionEngine.
Import PortfolioManager.
Local Open Scope Q_scope.

(** C1 (volatility gate absoluteness): whatever the tape-reader and chartist
    dictionaries contain, and whatever direction and confidence the macro
    source reports, a macro signal with [trading_allowed = False] makes
    [aggregate_signals] return the gate dictionary: [final_decision] is
    ['no_trade'], [confidence] is 0, [position_size] is 0, and none of the
    keys computed by the weighting, bonus and threshold logic is present. *)
Theorem volatility_gate_absolute (cfg : Config) (tr : TapeReaderSignal)
    (ch : ChartistSignal) (d : option string) (c : option Q) :
  let r := aggregate_signals cfg tr ch
             {| macro_signal := Some {| m_direction := d; m_confidence := c;
                                         m_trading_allowed := Some false |} |} in
  r = volatility_gate /\
  final_decision r = "no_trade"%string /\
  confidence r = 0 /\
  position_size r = Some 0 /\
  signal_strength r = None /\ agreement r = None /\ direction r = None.
Proof. cbn. repeat split; reflexivity. Qed.

Lemma stop_distance_pos (entry stop : Q) : 0 < entry -> 0 < stop_distance_of entry stop.
Proof.
  intros He. unfold stop_distance_of.
  destruct (eqb (Qabs (entry - stop)) 0) eqn:E.
  - lra.
  - apply eqb_neq in E. pose proof (Qabs_nonneg (entry - stop)) as Hn.
    destruct (Qle_lt_or_eq _ _ Hn) as [Hlt | Heq]; [exact Hlt |].
    exfalso. apply E. symmetry. exact Heq.
Qed.

Lemma stop_distance_floor (entry stop : Q) :
  entry == stop -> stop_distance_of entry stop = entry * 0.01.
Proof.
  intros He. unfold stop_distance_of.
  assert (H : eqb (Qabs (entry - stop)) 0 = true).
  { apply eqb_eq. assert (Hz : entry - stop == 0) by lra.
    rewrite Hz. reflexivity. }
  now rewrite H.
Qed.

(** C2 (position-size cap): with positive equity and entry price, for any
    stop and any confidence, [calculate_position_size] returns a record
    whose [position_pct] is at most [max_position_size]; when the uncapped
    percentage exceeds the cap, [position_pct] is the cap itself and the
    units are the truncation of the uncapped units scaled by
    cap / uncapped percentage; when entry equals stop the stop distance is
    1% of the entry price. *)
Theorem position_pct_capped (cfg : Config) (equity : Q) (symbol : string)
    (entry stop conf : Q) :
  0 < equity -> 0 < entry ->
  exists r, calculate_position_size cfg equity symbol entry stop conf = Ok r
    /\ position_pct r <= max_position_size cfg
    /\ (let raw_units := equity * risk_per_trade cfg * conf / stop_distance_of entry stop in
        let raw_pct := raw_units * entry / equity in
        max_position_size cfg < raw_pct ->
        position_pct r = max_position_size cfg /\
        exists u, units r = int u /\ u * raw_pct == raw_units * max_position_size cfg)
    /\ (entry == stop ->
        stop_distance_of entry stop = entry * 0.01 /\ stop_distance_pct r == 1).
Proof.
  intros Heq Hen.
  pose proof (stop_distance_pos entry stop Hen) as Hsd.
  unfold calculate_position_size.
  rewrite (div_ok _ (stop_distance_of entry stop)) by lra. cbn [mbind result_bind].
  rewrite (div_ok _ equity) by lra. cbn [mbind result_bind].
  set (raw_units := equity * risk_per_trade cfg * conf / stop_distance_of entry stop).
  set (raw_pct := raw_units * entry / equity).
  assert (Hfloor : entry == stop ->
            stop_distance_of entry stop / entry * 100 == 1).
  { intros He. rewrite (stop_distance_floor _ _ He). field. lra. }
  destruct (ltb (max_position_size cfg) raw_pct) eqn:Ecap.
  - rewrite (div_ok _ entry) by lra. cbn [mbind result_bind].
    rewrite (div_ok _ entry) by lra. cbn [mbind result_bind].
    eexists. split; [reflexivity |]. cbn.
    split; [apply Qle_refl |]. split.
    + intros _. split; [reflexivity |].
      eexists. split; [reflexivity |].
      unfold raw_pct. field. lra.
    + intros He. split; [now apply stop_distance_floor | now apply Hfloor].
  - cbn [mbind result_bind].
    rewrite (div_ok _ entry) by lra. cbn [mbind result_bind].
    eexists. split; [reflexivity |]. cbn.
    apply ltb_ge in Ecap.
    split; [exact Ecap |]. split.
    + intros Hlt. exfalso. fold raw_units in Hlt. fold raw_pct in Hlt. lra.
    + intros He. split; [now apply stop_distance_floor | now apply Hfloor].
Qed.

Lemma position_pct_capped_witness :
  0 < 100000 /\ 0 < 450 /\
  exists r, calculate_position_size default_config 100000 "SPY" 450 445 0.75 = Ok r
    /\ position_pct r <= max_position_size default_config.
Proof.
  split; [reflexivity |]. split; [reflexivity |].
  destruct (position_pct_capped default_config 100000 "SPY" 450 445 0.75)
    as (r & Hr & Hcap & _); [reflexivity | reflexivity |].
  exists r. split; assumption.
Defined.

(** A signal is counted for agreement only above 0.5, strictly. *)
Lemma agree_count_cons (word : string) (s : string * string * Q)
    (rest : list (string * string * Q)) :
  agree_count word (s :: rest) =
  ((if contains word s.1.2 && ltb 0.5 s.2 then 1 else 0) + agree_count word rest)%nat.
Proof.
  unfold agree_count. rewrite filter_cons.
  destruct (contains word s.1.2 && ltb 0.5 s.2); cbn; reflexivity.
Qed.

Lemma half_not_counted (c : Q) : c == 0.5 -> ltb 0.5 c = false.
Proof. intros H. apply ltb_ge. lra. Qed.

Lemma two_at_half_count (word d1 d2 d3 : string) (c1 c2 c3 : Q) :
  two_at_half c1 c2 c3 ->
  (agree_count word (signals_of d1 c1 d2 c2 d3 c3) <= 1)%nat.
Proof.
  intros H. unfold signals_of. rewrite !agree_count_cons. cbn [fst snd].
  unfold agree_count at 1. cbn [filter list_filter length].
  destruct H as [(H1 & H2 & _) | [(H1 & _ & H3) | (_ & H2 & H3)]];
    repeat match goal with
           | Hc : ?c == 0.5 |- _ => rewrite (half_not_counted c Hc); clear Hc
           end;
    rewrite ?andb_false_r;
    repeat match goal with
           | |- context [if ?b then _ else _] => destruct b
           end; cbn; lia.
Qed.

(** C9 (agreement bonus boundary): when two sources report confidence
    exactly 0.50 and the third 0.9, for any three direction strings, at most
    one source is counted as bullish and at most one as bearish, so
    [total_signal] is the weighted sum without the +0.2 or -0.2 bonus, and
    the [signal_strength] returned by [aggregate_signals] is its absolute
    value. *)
Theorem agreement_bonus_strict (cfg : Config) (d1 d2 d3 : string) (c1 c2 c3 : Q) :
  two_at_half c1 c2 c3 ->
  (agree_count "bullish" (signals_of d1 c1 d2 c2 d3 c3) <= 1)%nat /\
  (agree_count "bearish" (signals_of d1 c1 d2 c2 d3 c3) <= 1)%nat /\
  total_signal d1 c1 d2 c2 d3 c3 = weighted_signal d1 c1 d2 c2 d3 c3 /\
  signal_strength
    (aggregate_signals cfg
       {| final_signal := Some {| fs_direction := Some d1; fs_confidence := Some c1 |} |}
       {| context := Some {| ctx_direction := Some d2; ctx_strength := Some c2 |} |}
       {| macro_signal := Some {| m_direction := Some d3; m_confidence := Some c3;
                                   m_trading_allowed := Some true |} |})
  = Some (Qabs (weighted_signal d1 c1 d2 c2 d3 c3)).
Proof.
  intros H.
  pose proof (two_at_half_count "bullish" d1 d2 d3 c1 c2 c3 H) as Hb.
  pose proof (two_at_half_count "bearish" d1 d2 d3 c1 c2 c3 H) as Hs.
  assert (Ht : total_signal d1 c1 d2 c2 d3 c3 = weighted_signal d1 c1 d2 c2 d3 c3).
  { unfold total_signal. cbv zeta.
    destruct (Nat.leb_spec 2 (agree_count "bullish" (signals_of d1 c1 d2 c2 d3 c3)));
      [lia |].
    destruct (Nat.leb_spec 2 (agree_count "bearish" (signals_of d1 c1 d2 c2 d3 c3)));
      [lia | reflexivity]. }
  repeat split; try assumption.
  unfold aggregate_signals. cbn [final_signal context macro_signal default
    fs_direction fs_confidence ctx_direction ctx_strength m_direction m_confidence
    m_trading_allowed negb from_option id].
  rewrite Ht.
  repeat match goal with
         | |- context [if ?b then _ else _] => destruct b
         end; reflexivity.
Qed.

Lemma agreement_bonus_strict_witness :
  two_at_half 0.5 0.5 0.9 /\
  total_signal "bullish" 0.5 "bullish" 0.5 "bullish" 0.9
  = weighted_signal "bullish" 0.5 "bullish" 0.5 "bullish" 0.9.
Proof.
  assert (H : two_at_half 0.5 0.5 0.9).
  { left. repeat split; reflexivity. }
  split; [exact H |].
  exact (proj1 (proj2 (proj2
    (agreement_bonus_strict default_config "bullish" "bullish" "bullish" _ _ _ H)))).
Defined.

(** The guard of [calculate_kelly_size] returns 0 without dividing. *)
Lemma kelly_guard (cfg : Config) (win_rate avg_win avg_loss : Q) :
  avg_loss == 0 \/ win_rate <= 0 \/ 1 <= win_rate ->
  calculate_kelly_size cfg win_rate avg_win avg_loss = Ok 0.
Proof.
  intros H. unfold calculate_kelly_size.
  destruct (eqb avg_loss 0) eqn:E0; [reflexivity |].
  apply eqb_neq in E0.
  destruct H as [H | [H | H]]; [contradiction | |].
  - apply ltb_ge in H. now rewrite H.
  - apply ltb_ge in H. rewrite H. now rewrite andb_false_r.
Qed.

(** Away from the guard and with a non-zero average win the result lies in
    [[0, max_position_size]]. *)
Lemma kelly_in_range (cfg : Config) (win_rate avg_win avg_loss : Q) :
  0 <= max_position_size cfg -> ~ avg_win == 0 ->
  exists k, calculate_kelly_size cfg win_rate avg_win avg_loss = Ok k
    /\ 0 <= k <= max_position_size cfg.
Proof.
  intros Hmax Hw. unfold calculate_kelly_size.
  destruct (eqb avg_loss 0 || negb (ltb 0 win_rate && ltb win_rate 1)) eqn:G.
  - exists 0. split; [reflexivity |]. split; [apply Qle_refl | exact Hmax].
  - apply orb_false_iff in G. destruct G as [G _]. apply eqb_neq in G.
    rewrite (div_ok _ _ G). cbn [mbind result_bind].
    assert (Hr : ~ avg_win / avg_loss == 0).
    { intros Hz. apply Hw.
      assert (Hm : avg_win == avg_win / avg_loss * avg_loss) by (field; exact G).
      rewrite Hm, Hz. ring. }
    rewrite (div_ok _ _ Hr). cbn [mbind result_bind].
    eexists. split; [reflexivity |]. split.
    + apply min2_glb; [apply max2_ge_l | exact Hmax].
    + apply min2_le_r.
Qed.

(** C10 (Kelly sizing, failing input): with [win_rate = 0.5], [avg_win = 0]
    and [avg_loss = 1] the guard does not fire, [r = avg_win / avg_loss] is
    0, and [(1 - win_rate) / r] raises [ZeroDivisionError]: no value in
    [[0, max_position_size]] is returned. *)
Theorem kelly_zero_avg_win_raises :
  calculate_kelly_size default_config 0.5 0 1 = Raise division_by_zero.
Proof. reflexivity. Qed.

End DecisionEngine.

(** ** Arrays *)

Section ArrayFacts.
Local Open Scope Q_scope.

Lemma get_lookup {A} (xs : list A) (i : nat) (x : A) :
  xs !! i = Some x -> get xs i = Ok x.
Proof. intros H. unfold get. now rewrite H. Qed.

Lemma get_in_range {A} (xs : list A) (i : nat) :
  (i < length xs)%nat -> exists x, get xs i = Ok x /\ xs !! i = Some x.
Proof.
  intros H. destruct (lookup_lt_is_Some_2 xs i H) as [x Hx].
  exists x. split; [now apply get_lookup | exact Hx].
Qed.

Lemma argmax_from_bound (xs : list Q) (best_i i : nat) (best : Q) :
  (best_i < i)%nat -> (argmax_from best_i best i xs < i + length xs)%nat.
Proof.
  revert best_i i best. induction xs as [| x rest IH]; intros best_i i best Hlt; cbn.
  - lia.
  - destruct (ltb best x).
    + specialize (IH i (S i) x ltac:(lia)). lia.
    + specialize (IH best_i (S i) best ltac:(lia)). lia.
Qed.

Lemma argmax_bound (xs : list Q) (i : nat) :
  argmax xs = Ok i -> (i < length xs)%nat.
Proof.
  destruct xs as [| x rest]; cbn; [discriminate |].
  intros [= <-]. pose proof (argmax_from_bound rest 0 1 x ltac:(lia)). lia.
Qed.

Lemma argmax_nonempty (xs : list Q) :
  (0 < length xs)%nat -> exists i, argmax xs = Ok i.
Proof. destruct xs; cbn; [lia | eauto]. Qed.

Lemma linspace_length (a b : Q) (bins : nat) : length (linspace a b bins) = S bins.
Proof. unfold linspace. now rewrite length_map, length_seq. Qed.

Lemma linspace_lookup (a b : Q) (bins i : nat) :
  (i <= bins)%nat ->
  linspace a b bins !! i
  = Some (a + inject_Z (Z.of_nat i) * ((b - a) / inject_Z (Z.of_nat bins))).
Proof.
  intros H. unfold linspace. rewrite list_lookup_fmap.
  rewrite lookup_seq_lt by lia. reflexivity.
Qed.

Lemma linspace_nth (a b : Q) (bins i : nat) :
  (i <= bins)%nat ->
  nth i (linspace a b bins) 0
  = a + inject_Z (Z.of_nat i) * ((b - a) / inject_Z (Z.of_nat bins)).
Proof.
  intros H. apply nth_lookup_Some with (d := 0). now apply linspace_lookup.
Qed.

Lemma slice_add_length (s e : nat) (x : Q) (xs : list Q) :
  length (slice_add s e x xs) = length xs.
Proof.
  unfold slice_add.
  rewrite !length_app, length_map, !length_take, !length_drop. lia.
Qed.

Lemma sum_app (xs ys : list Q) : sum (xs ++ ys) == sum xs + sum ys.
Proof.
  unfold sum. induction xs as [| x xs IH]; cbn; [ring |]. rewrite IH. ring.
Qed.

Lemma sum_map_plus (x : Q) (xs : list Q) :
  sum (map (fun v => v + x) xs) == sum xs + inject_Z (Z.of_nat (length xs)) * x.
Proof.
  unfold sum. induction xs as [| y xs IH]; [cbn; ring |].
  cbn [map foldr length]. rewrite IH, Nat2Z.inj_succ.
  unfold Z.succ. rewrite inject_Z_plus. ring.
Qed.

Lemma sum_replicate_zero (n : nat) : sum (replicate n 0) == 0.
Proof. unfold sum. induction n as [| n IH]; cbn; [reflexivity |]. rewrite IH. ring. Qed.

(** A slice update adds [x] once per element of the slice. *)
Lemma slice_add_sum (s e : nat) (x : Q) (xs : list Q) :
  sum (slice_add s e x xs)
  == sum xs + inject_Z (Z.of_nat (length (take (e - s) (drop s xs)))) * x.
Proof.
  unfold slice_add. rewrite !sum_app, sum_map_plus.
  assert (Hsplit : xs = take s xs ++ take (e - s) (drop s xs) ++ drop (Nat.max s e) xs).
  { rewrite <- (take_drop s xs) at 1. f_equal.
    rewrite <- (take_drop (e - s) (drop s xs)) at 1. f_equal.
    rewrite drop_drop. f_equal. lia. }
  assert (Hs : sum xs == sum (take s xs)
              + (sum (take (e - s) (drop s xs)) + sum (drop (Nat.max s e) xs))).
  { rewrite Hsplit at 1. now rewrite !sum_app. }
  rewrite Hs. ring.
Qed.

End ArrayFacts.

(** ** Volume profile *)

Section ValueArea.
Import Bars VolumeProfile.
Local Open Scope Q_scope.

(** The loop keeps any bin it started around inside [[low_bin, high_bin]]
    and never leaves the array. *)
Lemma expand_bounds (fuel : nat) (vp : list Q) (target cur : Q) (low high p : nat) :
  (low <= p <= high)%nat -> (high < length vp)%nat ->
  let '(_, l, h) := expand fuel vp target cur low high in
  (l <= p <= h)%nat /\ (h < length vp)%nat.
Proof.
  revert cur low high.
  induction fuel as [| fuel IH]; intros cur low high Hp Hh; cbn [expand].
  - split; assumption.
  - destruct (ltb cur target); [| split; assumption].
    destruct (Nat.ltb_spec (high + 1) (length vp)) as [Hup | Hup].
    + destruct (leb _ _); cbn [andb].
      * apply IH; lia.
      * destruct (Nat.leb_spec 1 low); [apply IH; lia | split; assumption].
    + rewrite andb_false_r.
      destruct (Nat.leb_spec 1 low); [apply IH; lia | split; assumption].
Qed.

(** [length vp] iterations are enough: from then on the loop has ended by
    its own condition, and more iterations change nothing. *)
Lemma expand_fuel_enough (fuel more : nat) (vp : list Q) (target cur : Q)
    (low high : nat) :
  (high < length vp)%nat -> (low + (length vp - 1 - high) <= fuel)%nat ->
  expand (fuel + more) vp target cur low high = expand fuel vp target cur low high.
Proof.
  revert cur low high.
  induction fuel as [| fuel IH]; intros cur low high Hh Hf.
  - destruct more as [| more]; [reflexivity |]. cbn [Nat.add expand].
    destruct (ltb cur target); [| reflexivity].
    destruct (Nat.ltb_spec (high + 1) (length vp)); [lia |].
    rewrite andb_false_r.
    destruct (Nat.leb_spec 1 low); [lia | reflexivity].
  - cbn [Nat.add expand].
    destruct (ltb cur target); [| reflexivity].
    destruct (Nat.ltb_spec (high + 1) (length vp)) as [Hup | Hup].
    + destruct (leb _ _); cbn [andb].
      * apply IH; lia.
      * destruct (Nat.leb_spec 1 low); [apply IH; lia | reflexivity].
    + rewrite andb_false_r.
      destruct (Nat.leb_spec 1 low); [apply IH; lia | reflexivity].
Qed.

Lemma spread_length (s e : nat) (v : Q) (vp : list Q) :
  length (spread s e v vp) = length vp.
Proof. apply slice_add_length. Qed.

Lemma accumulate_length (bins : nat) (pmin bs : Q) (bars : list Bar) :
  length (accumulate bins pmin bs bars) = bins.
Proof.
  unfold accumulate.
  assert (H : forall vp, length (fold_left
    (fun volume_profile b =>
       spread (bin_of bins pmin bs (low b)) (bin_of bins pmin bs (high b))
              (volume b) volume_profile) bars vp) = length vp).
  { induction bars as [| b rest IH]; intros vp; cbn; [reflexivity |].
    rewrite IH. apply spread_length. }
  rewrite H. apply length_replicate.
Qed.

Lemma nodes_ok (keep : nat -> Q -> bool) (price_bins : list Q) (bs : Q)
    (i : nat) (vols : list Q) :
  (i + length vols <= length price_bins)%nat ->
  exists l, nodes keep price_bins bs i vols = Ok l.
Proof.
  revert i. induction vols as [| v rest IH]; intros i Hlen; cbn in *.
  - eauto.
  - destruct (IH (S i) ltac:(lia)) as [l Hl].
    destruct (keep i v); [| eauto].
    destruct (get_in_range price_bins i ltac:(lia)) as (x & Hx & _).
    rewrite Hx. cbn. rewrite Hl. cbn. eauto.
Qed.

Lemma last_item_cons {A} (x : A) (xs : list A) : exists y, last_item (x :: xs) = Ok y.
Proof.
  unfold last_item. destruct (last (x :: xs)) eqn:E; [eauto |].
  apply last_None in E. discriminate.
Qed.

Lemma determine_regime_ok (b0 : Bar) (rest : list Bar) (poc vah val : Q) :
  exists g, determine_regime (b0 :: rest) poc vah val = Ok g.
Proof.
  unfold determine_regime.
  destruct (length (b0 :: rest) <? 20)%nat; [eauto |].
  destruct (last_item_cons b0 rest) as [y ->]. cbn [mbind result_bind].
  repeat match goal with
         | |- context [if ?b then _ else _] => destruct b
         end; eauto.
Qed.

Lemma get_nth (xs : list Q) (i : nat) :
  (i < length xs)%nat -> get xs i = Ok (nth i xs 0).
Proof.
  intros H. destruct (get_in_range xs i H) as (x & Hg & Hl).
  rewrite Hg. f_equal. symmetry. now apply nth_lookup_Some with (d := 0).
Qed.

(** [calculate_value_area] returns the upper edge of a bin at or above the
    POC bin and the lower edge of a bin at or below it. *)
Lemma calculate_value_area_spec (vp price_bins : list Q) (bs pct : Q) (poc_bin : nat) :
  argmax vp = Ok poc_bin -> (length vp <= length price_bins)%nat ->
  exists low_bin high_bin,
    (low_bin <= poc_bin <= high_bin)%nat /\ (high_bin < length vp)%nat /\
    calculate_value_area vp price_bins bs pct
    = Ok (nth high_bin price_bins 0 + bs, nth low_bin price_bins 0).
Proof.
  intros Ha Hlen. pose proof (argmax_bound vp poc_bin Ha) as Hp.
  unfold calculate_value_area. rewrite Ha. cbn [mbind result_bind].
  rewrite (get_nth vp poc_bin Hp). cbn [mbind result_bind].
  pose proof (expand_bounds (length vp) vp (sum vp * pct) (nth poc_bin vp 0)
                poc_bin poc_bin poc_bin ltac:(lia) Hp) as Hb.
  destruct (expand (length vp) vp (sum vp * pct) (nth poc_bin vp 0) poc_bin poc_bin)
    as [[c l] h].
  destruct Hb as [Hb1 Hb2].
  exists l, h. split; [exact Hb1 |]. split; [exact Hb2 |].
  rewrite (get_nth price_bins l) by lia. cbn [mbind result_bind].
  rewrite (get_nth price_bins h) by lia. reflexivity.
Qed.

Lemma series_min_spec (x : Q) (xs : list Q) :
  series_min x xs <= x /\ Forall (fun y => series_min x xs <= y) xs.
Proof.
  unfold series_min. revert x. induction xs as [| y rest IH]; intros x; cbn.
  - split; [apply Qle_refl | constructor].
  - destruct (ltb y x) eqn:E.
    + apply ltb_lt in E. destruct (IH y) as [H1 H2].
      split; [lra |]. constructor; assumption.
    + apply ltb_ge in E. destruct (IH x) as [H1 H2].
      split; [exact H1 |]. constructor; [lra | assumption].
Qed.

Lemma series_max_spec (x : Q) (xs : list Q) :
  x <= series_max x xs /\ Forall (fun y => y <= series_max x xs) xs.
Proof.
  unfold series_max. revert x. induction xs as [| y rest IH]; intros x; cbn.
  - split; [apply Qle_refl | constructor].
  - destruct (ltb x y) eqn:E.
    + apply ltb_lt in E. destruct (IH y) as [H1 H2].
      split; [lra |]. constructor; assumption.
    + apply ltb_ge in E. destruct (IH x) as [H1 H2].
      split; [exact H1 |]. constructor; [lra | assumption].
Qed.

(** The minimum of a series is one of its values. *)
Lemma series_min_lower (c x : Q) (xs : list Q) :
  c <= x -> Forall (fun y => c <= y) xs -> c <= series_min x xs.
Proof.
  unfold series_min. revert x. induction xs as [| y rest IH]; intros x Hx Hall; cbn.
  - exact Hx.
  - inversion Hall as [| ? ? Hy Hrest]; subst.
    destruct (ltb y x); apply IH; assumption.
Qed.

Lemma window_min_le_max (b0 : Bar) (rest : list Bar) :
  well_formed b0 -> price_min_of b0 rest <= price_max_of b0 rest.
Proof.
  intros [_ Hb]. unfold price_min_of, price_max_of.
  pose proof (proj1 (series_min_spec (low b0) (low <$> rest))).
  pose proof (proj1 (series_max_spec (high b0) (high <$> rest))).
  lra.
Qed.

Lemma window_min_nonneg (b0 : Bar) (rest : list Bar) :
  Forall well_formed (b0 :: rest) -> 0 <= price_min_of b0 rest.
Proof.
  intros Hwf. inversion Hwf as [| ? ? [H0 _] Hrest]; subst.
  apply series_min_lower; [exact H0 |].
  apply Forall_fmap. eapply Forall_impl; [exact Hrest |].
  intros b [Hb _]. exact Hb.
Qed.

Lemma inject_nat_pos (n : nat) : (0 < n)%nat -> 0 < inject_Z (Z.of_nat n).
Proof. intros H. change 0 with (inject_Z 0). rewrite <- Zlt_Qlt. lia. Qed.

Lemma inject_nat_le (n m : nat) :
  (n <= m)%nat -> inject_Z (Z.of_nat n) <= inject_Z (Z.of_nat m).
Proof. intros H. rewrite <- Zle_Qle. lia. Qed.

Lemma bin_size_nonneg (b0 : Bar) (rest : list Bar) (bins : nat) :
  (0 < bins)%nat -> Forall well_formed (b0 :: rest) -> 0 <= bin_size_of b0 rest bins.
Proof.
  intros Hb Hwf. unfold bin_size_of, price_range_of.
  pose proof (inject_nat_pos bins Hb) as Hn.
  pose proof (window_min_nonneg b0 rest Hwf) as Hmin.
  assert (Hmm : price_min_of b0 rest <= price_max_of b0 rest).
  { apply window_min_le_max. now inversion Hwf. }
  apply Qle_shift_div_l; [exact Hn |].
  destruct (eqb _ 0); lra.
Qed.

(** What [build_volume_profile] returns on a non-empty window. *)
Lemma build_volume_profile_shape (b0 : Bar) (rest : list Bar) (bins : nat) (pct : Q) :
  (0 < bins)%nat ->
  let price_min := price_min_of b0 rest in
  let bin_size := bin_size_of b0 rest bins in
  let price_bins := linspace price_min (price_max_of b0 rest) bins in
  let volume_profile := accumulate bins price_min bin_size (b0 :: rest) in
  exists r low_bin poc_bin high_bin,
    build_volume_profile (b0 :: rest) bins pct = Ok r
    /\ (low_bin <= poc_bin <= high_bin)%nat /\ (high_bin < bins)%nat
    /\ argmax volume_profile = Ok poc_bin
    /\ val r = nth low_bin price_bins 0
    /\ vah r = nth high_bin price_bins 0 + bin_size
    /\ poc r = nth poc_bin price_bins 0 + bin_size / 2
    /\ profile r = profile_dict bins price_bins volume_profile bin_size.
Proof.
  intros Hbins. cbv zeta. unfold build_volume_profile.
  set (pmin := price_min_of b0 rest). set (pmax := price_max_of b0 rest).
  set (bs := bin_size_of b0 rest bins).
  set (pb := linspace pmin pmax bins).
  set (vp := accumulate bins pmin bs (b0 :: rest)).
  assert (Hvp : length vp = bins) by apply accumulate_length.
  assert (Hpb : length pb = S bins) by apply linspace_length.
  destruct (argmax_nonempty vp ltac:(lia)) as [poc_bin Ha].
  destruct (calculate_value_area_spec vp pb bs pct poc_bin Ha ltac:(lia))
    as (low_bin & high_bin & Hord & Hhigh & Hva).
  destruct (nodes_ok
    (fun i vol =>
       leb (mean vp * 1.5) vol &&
       (negb ((0 <? i)%nat && leb vol (nth (i - 1) vp 0)) &&
        negb ((i <? length vp - 1)%nat && leb vol (nth (i + 1) vp 0))
        || leb (mean vp * 2) vol)) pb bs 0 vp ltac:(lia)) as [hv Hhv].
  destruct (nodes_ok
    (fun i vol =>
       leb vol (mean vp * 0.5) && ltb 0 vol &&
       negb ((0 <? i)%nat && leb (nth (i - 1) vp 0) vol) &&
       negb ((i <? length vp - 1)%nat && leb (nth (i + 1) vp 0) vol))
    pb bs 0 vp ltac:(lia)) as [lv Hlv].
  rewrite Ha. cbn [mbind result_bind]. rewrite Hva. cbn [mbind result_bind].
  unfold find_hvn, find_lvn. cbv zeta.
  rewrite Hhv. cbn [mbind result_bind]. rewrite Hlv. cbn [mbind result_bind].
  destruct (determine_regime_ok b0 rest (nth poc_bin pb 0 + bs / 2)
              (nth high_bin pb 0 + bs) (nth low_bin pb 0)) as [g ->].
  cbn [mbind result_bind].
  destruct (last_item_cons b0 rest) as [lb ->]. cbn [mbind result_bind].
  eexists. exists low_bin, poc_bin, high_bin.
  split; [reflexivity |]. cbn [val poc vah profile].
  repeat split; try lia; try reflexivity; exact Ha.
Qed.

(** C4 (value-area ordering): for every window of bars satisfying the bar
    invariant [0 <= low <= high] (the empty window and windows of zero
    price range included) and a positive bin count, [build_volume_profile]
    returns a result with [val <= poc <= vah]; for a non-empty window there
    are bins [low_bin <= poc_bin <= high_bin] of the profile, [poc_bin]
    being the bin of maximal volume, such that [val] is the lower edge of
    [low_bin], [vah] the upper edge of [high_bin] and [poc] the midpoint
    of [poc_bin]. *)
Theorem value_area_ordered (bars : list Bar) (bins : nat) (pct : Q) :
  (0 < bins)%nat -> Forall well_formed bars ->
  exists r, build_volume_profile bars bins pct = Ok r
    /\ val r <= poc r /\ poc r <= vah r
    /\ match bars with
       | [] => poc r = 0 /\ vah r = 0 /\ val r = 0
       | b0 :: rest =>
           let price_bins := linspace (price_min_of b0 rest) (price_max_of b0 rest) bins in
           let bin_size := bin_size_of b0 rest bins in
           exists low_bin poc_bin high_bin,
             (low_bin <= poc_bin <= high_bin)%nat /\ (high_bin < bins)%nat
             /\ argmax (accumulate bins (price_min_of b0 rest) bin_size bars) = Ok poc_bin
             /\ val r = nth low_bin price_bins 0
             /\ vah r = nth high_bin price_bins 0 + bin_size
             /\ poc r = nth poc_bin price_bins 0 + bin_size / 2
       end.
Proof.
  intros Hbins Hwf. destruct bars as [| b0 rest].
  - exists empty_result. cbn. repeat split; try reflexivity; apply Qle_refl.
  - destruct (build_volume_profile_shape b0 rest bins pct Hbins)
      as (r & low_bin & poc_bin & high_bin & Hr & Hord & Hhigh & Ha & Hval & Hvah & Hpoc & _).
    exists r. split; [exact Hr |].
    set (pmin := price_min_of b0 rest) in *. set (pmax := price_max_of b0 rest) in *.
    set (bs := bin_size_of b0 rest bins) in *.
    assert (Hbs : 0 <= bs) by (apply bin_size_nonneg; assumption).
    assert (Hstep : 0 <= (pmax - pmin) / inject_Z (Z.of_nat bins)).
    { apply Qle_shift_div_l; [now apply inject_nat_pos |].
      pose proof (window_min_le_max b0 rest ltac:(now inversion Hwf)) as Hmm.
      fold pmin pmax in Hmm. lra. }
    assert (Hl : inject_Z (Z.of_nat low_bin) * ((pmax - pmin) / inject_Z (Z.of_nat bins))
                 <= inject_Z (Z.of_nat poc_bin) * ((pmax - pmin) / inject_Z (Z.of_nat bins))).
    { apply Qmult_le_compat_r; [apply inject_nat_le; lia | exact Hstep]. }
    assert (Hh : inject_Z (Z.of_nat poc_bin) * ((pmax - pmin) / inject_Z (Z.of_nat bins))
                 <= inject_Z (Z.of_nat high_bin) * ((pmax - pmin) / inject_Z (Z.of_nat bins))).
    { apply Qmult_le_compat_r; [apply inject_nat_le; lia | exact Hstep]. }
    assert (Hhalf : bs / 2 == bs * (1 # 2)) by (field; discriminate).
    split; [rewrite Hval, Hpoc, !linspace_nth by lia; lra |].
    split; [rewrite Hvah, Hpoc, !linspace_nth by lia; lra |].
    exists low_bin, poc_bin, high_bin. repeat split; try lia; assumption.
Qed.

(** *** Volume conservation *)

Lemma int_nonneg (x : Q) : 0 <= x -> int x = Qfloor x.
Proof.
  destruct x as [n d]. unfold int, Qfloor, Qle. cbn. intros H.
  apply Z.quot_div_nonneg; lia.
Qed.

Lemma int_nonpos (x : Q) : x <= 0 -> int x = (- Qfloor (- x))%Z.
Proof.
  destruct x as [n d]. unfold int, Qfloor, Qle, Qopp. cbn. intros H.
  rewrite <- (Z.opp_involutive n) at 1.
  rewrite Z.quot_opp_l by lia. f_equal. apply Z.quot_div_nonneg; lia.
Qed.

(** Truncation toward zero is monotone. *)
Lemma int_mono (a b : Q) : a <= b -> (int a <= int b)%Z.
Proof.
  intros Hab.
  destruct (Qlt_le_dec a 0) as [Ha | Ha], (Qlt_le_dec b 0) as [Hb | Hb].
  - rewrite (int_nonpos a), (int_nonpos b) by lra.
    pose proof (Qfloor_resp_le (- b) (- a) ltac:(lra)). lia.
  - rewrite (int_nonpos a), (int_nonneg b) by lra.
    pose proof (Qfloor_resp_le 0 (- a) ltac:(lra)) as H1.
    pose proof (Qfloor_resp_le 0 b Hb) as H2.
    change (Qfloor 0) with 0%Z in H1, H2. lia.
  - lra.
  - rewrite (int_nonneg a), (int_nonneg b) by lra.
    now apply Qfloor_resp_le.
Qed.

Lemma bin_of_lt (bins : nat) (pmin bs x : Q) :
  (0 < bins)%nat -> (bin_of bins pmin bs x < bins)%nat.
Proof. intros H. unfold bin_of, clip. lia. Qed.

Lemma bin_of_mono (bins : nat) (pmin bs x y : Q) :
  0 <= bs -> x <= y -> (bin_of bins pmin bs x <= bin_of bins pmin bs y)%nat.
Proof.
  intros Hbs Hxy. unfold bin_of, clip.
  destruct (eqb bs 0) eqn:E; [lia |].
  apply eqb_neq in E.
  assert (Hpos : 0 < bs).
  { destruct (Qle_lt_or_eq _ _ Hbs) as [H | H]; [exact H |].
    exfalso. apply E. symmetry. exact H. }
  assert (Hq : (x - pmin) / bs <= (y - pmin) / bs).
  { apply Qmult_le_compat_r; [lra |]. apply Qlt_le_weak. now apply Qinv_lt_0_compat. }
  pose proof (int_mono _ _ Hq). lia.
Qed.

(** One bar adds exactly its volume when its bins are ordered and inside
    the array. *)
Lemma spread_sum (s e : nat) (v : Q) (vp : list Q) :
  (s <= e)%nat -> (e < length vp)%nat -> sum (spread s e v vp) == sum vp + v.
Proof.
  intros Hse He. unfold spread. rewrite slice_add_sum.
  rewrite length_take, length_drop.
  replace (Nat.min (e + 1 - s) (length vp - s)) with (e + 1 - s)%nat by lia.
  replace (Z.of_nat (e + 1 - s)) with (Z.of_nat e - Z.of_nat s + 1)%Z by lia.
  assert (Hnz : ~ inject_Z (Z.of_nat e - Z.of_nat s + 1) == 0).
  { change 0 with (inject_Z 0). rewrite inject_Z_injective. lia. }
  field. exact Hnz.
Qed.

Lemma accumulate_sum (bins : nat) (pmin bs : Q) (bars : list Bar) :
  (0 < bins)%nat -> 0 <= bs -> Forall (fun b => low b <= high b) bars ->
  sum (accumulate bins pmin bs bars) == sum (volume <$> bars).
Proof.
  intros Hbins Hbs Hwf. unfold accumulate.
  assert (H : forall vp, length vp = bins ->
    sum (fold_left
           (fun volume_profile b =>
              spread (bin_of bins pmin bs (low b)) (bin_of bins pmin bs (high b))
                     (volume b) volume_profile) bars vp)
    == sum vp + sum (volume <$> bars)).
  { induction Hwf as [| b rest Hb Hrest IH]; intros vp Hlen; cbn [fold_left fmap list_fmap].
    - unfold sum at 3. cbn. ring.
    - rewrite IH by (now rewrite spread_length).
      rewrite spread_sum.
      + unfold sum at 4. cbn [foldr]. fold (sum (volume <$> rest)). ring.
      + now apply bin_of_mono.
      + rewrite Hlen. now apply bin_of_lt. }
  rewrite H by apply length_replicate. rewrite sum_replicate_zero. ring.
Qed.

(** The accumulated array conserves the volume of a well-formed window. *)
Lemma volume_array_conserved (b0 : Bar) (rest : list Bar) (bins : nat) :
  (0 < bins)%nat -> Forall well_formed (b0 :: rest) ->
  sum (accumulate bins (price_min_of b0 rest) (bin_size_of b0 rest bins) (b0 :: rest))
  == sum (volume <$> (b0 :: rest)).
Proof.
  intros Hbins Hwf. apply accumulate_sum; [exact Hbins | |].
  - now apply bin_size_nonneg.
  - eapply Forall_impl; [exact Hwf |]. intros b [_ H]. exact H.
Qed.

(** *** The profile dictionary *)

Lemma dict_set_fresh (k v : Q) (d : list (Q * Q)) :
  Forall (fun kv => ~ k == kv.1) d -> dict_set k v d = d ++ [(k, v)].
Proof.
  induction 1 as [| [k' v'] rest Hk _ IH]; cbn; [reflexivity |].
  cbn in Hk. apply eqb_neq in Hk. rewrite Hk, IH. reflexivity.
Qed.

(** With pairwise different keys the comprehension keeps one entry per bin. *)
Lemma profile_dict_distinct (n : nat) (pb vp : list Q) (bs : Q) :
  (forall i j, (i < j < n)%nat -> ~ nth j pb 0 + bs / 2 == nth i pb 0 + bs / 2) ->
  profile_dict n pb vp bs
  = map (fun i => (nth i pb 0 + bs / 2, nth i vp 0)) (seq 0 n).
Proof.
  unfold profile_dict. induction n as [| n IH]; intros Hk; [reflexivity |].
  rewrite seq_S, fold_left_app, map_app. cbn [fold_left map Nat.add].
  rewrite IH by (intros i j Hij; apply Hk; lia).
  apply dict_set_fresh. apply Forall_map, Forall_forall.
  intros i Hi. apply elem_of_seq in Hi. cbn. apply Hk. lia.
Qed.

Lemma map_nth_seq (vp : list Q) :
  map (fun i => nth i vp 0) (seq 0 (length vp)) = vp.
Proof.
  apply (nth_ext _ _ 0 0).
  - now rewrite length_map, length_seq.
  - intros n Hn. rewrite length_map, length_seq in Hn.
    rewrite (nth_indep _ 0 (nth 0 vp 0)) by (now rewrite length_map, length_seq).
    rewrite (map_nth (fun i => nth i vp 0) (seq 0 (length vp)) 0%nat n).
    now rewrite seq_nth.
Qed.

Lemma linspace_keys_distinct (a b bs : Q) (bins i j : nat) :
  (0 < bins)%nat -> ~ b == a -> (i < j <= bins)%nat ->
  ~ nth j (linspace a b bins) 0 + bs / 2 == nth i (linspace a b bins) 0 + bs / 2.
Proof.
  intros Hbins Hne Hij. rewrite !linspace_nth by lia. intros Heq.
  pose proof (inject_nat_pos bins Hbins) as Hn.
  assert (Hprod : (inject_Z (Z.of_nat j) - inject_Z (Z.of_nat i)) * (b - a) == 0).
  { assert (Hd : (inject_Z (Z.of_nat j) - inject_Z (Z.of_nat i))
                 * ((b - a) / inject_Z (Z.of_nat bins)) == 0) by lra.
    assert (Hm : (inject_Z (Z.of_nat j) - inject_Z (Z.of_nat i)) * (b - a)
                 == (inject_Z (Z.of_nat j) - inject_Z (Z.of_nat i))
                    * ((b - a) / inject_Z (Z.of_nat bins)) * inject_Z (Z.of_nat bins))
      by (field; lra).
    rewrite Hm, Hd. ring. }
  destruct (Qmult_integral _ _ Hprod) as [H | H]; [| apply Hne; lra].
  assert (Hlt : inject_Z (Z.of_nat i) < inject_Z (Z.of_nat j))
    by (rewrite <- Zlt_Qlt; lia).
  lra.
Qed.

(** On a well-formed window whose prices are not all equal the profile
    dictionary conserves the volume. *)
Lemma profile_conserved_nondegenerate (b0 : Bar) (rest : list Bar) (bins : nat) (pct : Q) :
  (0 < bins)%nat -> Forall well_formed (b0 :: rest) ->
  ~ price_max_of b0 rest == price_min_of b0 rest ->
  exists r, build_volume_profile (b0 :: rest) bins pct = Ok r
    /\ sum (snd <$> profile r) == sum (volume <$> (b0 :: rest)).
Proof.
  intros Hbins Hwf Hne.
  destruct (build_volume_profile_shape b0 rest bins pct Hbins)
    as (r & _ & _ & _ & Hr & _ & _ & _ & _ & _ & _ & Hprof).
  exists r. split; [exact Hr |]. rewrite Hprof.
  rewrite profile_dict_distinct
    by (intros i j Hij; apply linspace_keys_distinct; [exact Hbins | exact Hne | lia]).
  rewrite <- list_fmap_compose.
  rewrite <- (volume_array_conserved b0 rest bins Hbins Hwf).
  set (vp := accumulate bins (price_min_of b0 rest) (bin_size_of b0 rest bins) (b0 :: rest)).
  assert (Hlen : length vp = bins) by apply accumulate_length.
  rewrite <- Hlen at 1.
  change (snd ∘ (fun i => (nth i (linspace (price_min_of b0 rest) (price_max_of b0 rest) bins) 0
                          + bin_size_of b0 rest bins / 2, nth i vp 0)) <$> seq 0 (length vp))
    with (map (fun i => nth i vp 0) (seq 0 (length vp))).
  now rewrite map_nth_seq.
Qed.

(** C3 (volume conservation, failing input): on the one-bar window with
    open = high = low = close = 100 and volume 1000, a well-formed
    non-empty window, [build_volume_profile] with the default arguments
    returns a profile with a single bucket of volume 0: the 100 bucket
    prices all coincide, the dictionary keeps the last bin only, and the
    sum of the bucket volumes is 0 while the window's volume is 1000. *)
Theorem flat_window_profile_drops_volume :
  let bars := [ {| timestamp := 0; open := 100; high := 100; low := 100;
                   close := 100; volume := 1000 |} ] in
  Forall well_formed bars /\
  exists r, build_volume_profile bars default_bins default_value_area_pct = Ok r
    /\ length (profile r) = 1%nat
    /\ sum (snd <$> profile r) == 0
    /\ sum (volume <$> bars) == 1000
    /\ ~ sum (snd <$> profile r) == sum (volume <$> bars).
Proof.
  intros bars. split.
  - repeat constructor; cbn; discriminate.
  - assert (Hr : exists r,
      build_volume_profile bars default_bins default_value_area_pct = Ok r
      /\ length (profile r) = 1%nat
      /\ Qeq_bool (sum (snd <$> profile r)) 0 = true
      /\ Qeq_bool (sum (volume <$> bars)) 1000 = true).
    { eexists. split; [vm_compute; reflexivity |].
      split; [vm_compute; reflexivity |].
      split; vm_compute; reflexivity. }
    destruct Hr as (r & Hr & Hlen & H0 & H1).
    apply Qeq_bool_iff in H0. apply Qeq_bool_iff in H1.
    exists r. repeat split; try assumption.
    rewrite H0, H1. discriminate.
Qed.

Lemma value_area_ordered_witness :
  let bars := [ {| timestamp := 0; open := 100; high := 102; low := 99;
                   close := 101; volume := 1000 |};
                {| timestamp := 1; open := 101; high := 103; low := 100;
                   close := 102; volume := 500 |} ] in
  (0 < 4)%nat /\ Forall well_formed bars /\
  exists r, build_volume_profile bars 4 default_value_area_pct = Ok r
    /\ val r <= poc r /\ poc r <= vah r.
Proof.
  intros bars.
  assert (Hb : (0 < 4)%nat) by lia.
  assert (Hwf : Forall well_formed bars).
  { repeat constructor; cbn; discriminate. }
  split; [exact Hb |]. split; [exact Hwf |].
  destruct (value_area_ordered bars 4 default_value_area_pct Hb Hwf)
    as (r & Hr & H1 & H2 & _).
  exists r. repeat split; assumption.
Defined.

End ValueArea.

(** ** Order flow *)

Section OrderFlowProps.
Import Bars OrderFlow TapeReader.
Local Open Scope Q_scope.

Lemma cumsum_from_length (acc : Q) (xs : list Q) :
  length (cumsum_from acc xs) = length xs.
Proof. revert acc. induction xs as [| x xs IH]; intros acc; cbn; [| rewrite IH]; reflexivity. Qed.

Lemma estimate_length (bars : list Bar) (rows : list DeltaRow) :
  estimate_delta_from_ohlcv bars = Ok rows -> length rows = length bars.
Proof.
  unfold estimate_delta_from_ohlcv.
  destruct (variance _) as [var |]; [| discriminate].
  destruct (eqb var 0); [discriminate |].
  intros [= <-]. rewrite length_zip_with.
  unfold cumsum. rewrite cumsum_from_length, length_fmap. lia.
Qed.

Lemma last_item_nonempty {A} (xs : list A) :
  (0 < length xs)%nat -> exists x, last_item xs = Ok x.
Proof. destruct xs as [| x xs]; cbn [length]; [lia | intros _; apply last_item_cons]. Qed.

Lemma last_item_length {A} (xs : list A) (x : A) :
  last_item xs = Ok x -> (0 < length xs)%nat.
Proof. destruct xs; cbn; [discriminate | lia]. Qed.

Lemma tail_length {A} (n : nat) (xs : list A) :
  length (tail n xs) = Nat.min n (length xs).
Proof. unfold tail. rewrite length_drop. lia. Qed.

(** Both trends exist when the series holds at least [lookback >= 1] values. *)
Lemma trend_ok (lookback : nat) (xs : list Q) :
  (1 <= lookback <= length xs)%nat -> exists t, trend lookback xs = Ok t.
Proof.
  intros H. unfold trend.
  assert (Hl : (0 < length (tail lookback xs))%nat) by (rewrite tail_length; lia).
  destruct (last_item_nonempty _ Hl) as [x ->]. cbn [mbind result_bind].
  destruct (get_in_range _ 0%nat Hl) as (y & -> & _). cbn [mbind result_bind]. eauto.
Qed.

Lemma trend_recent_last (lookback : nat) (xs : list Q) (t : Q) :
  trend lookback xs = Ok t ->
  exists r o, last_item (tail lookback xs) = Ok r /\ last_item xs = Ok o.
Proof.
  unfold trend. destruct (last_item (tail lookback xs)) as [r |] eqn:E; [| discriminate].
  intros _. apply last_item_length in E. rewrite tail_length in E.
  destruct (last_item_nonempty xs ltac:(lia)) as [o Ho]. eauto.
Qed.

Lemma epsilon_pos : 0 < epsilon.
Proof. reflexivity. Qed.

(** The divergence ratio exceeds 0.5 exactly when the delta move exceeds
    half of the price move plus [1e-10]. *)
Lemma divergence_gt_half (dt pt : Q) :
  ltb 0.5 (divergence_strength dt pt) = true <-> 0.5 * (Qabs pt + epsilon) < Qabs dt.
Proof.
  rewrite ltb_lt. unfold divergence_strength.
  pose proof (Qabs_nonneg pt) as Hp. pose proof epsilon_pos as He.
  assert (Hd : 0 < Qabs pt + epsilon) by lra.
  split; intros H.
  - apply (Qmult_lt_r _ _ _ Hd) in H.
    assert (Hx : Qabs dt / (Qabs pt + epsilon) * (Qabs pt + epsilon) == Qabs dt)
      by (field; lra).
    lra.
  - apply Qlt_shift_div_l; [exact Hd | exact H].
Qed.

Lemma exhaustion_confidence_bounds (d : Q) :
  0.5 < d ->
  0.5 <= min2 0.9 (0.5 + d * 0.4) /\ min2 0.9 (0.5 + d * 0.4) <= 0.9.
Proof.
  intros H. split; [apply min2_glb; lra | apply min2_le_l].
Qed.

Lemma detect_unfold (cd price : list Q) (lookback : nat) (dt pt : Q) :
  (lookback <= length cd)%nat ->
  trend lookback cd = Ok dt -> trend lookback price = Ok pt ->
  detect_delta_exhaustion cd price lookback
  = match
      (if ltb 0 pt && ltb dt 0 then
         if ltb 0.5 (divergence_strength dt pt) then
           exhaustion_signal BEARISH
             "BEARISH EXHAUSTION: Price rising but buying pressure fading"
             (divergence_strength dt pt) (tail lookback cd) cd
         else Ok None
       else Ok None)
    with
    | Ok (Some s) => Ok (Some s)
    | Ok None =>
        if ltb pt 0 && ltb 0 dt then
          if ltb 0.5 (divergence_strength dt pt) then
            exhaustion_signal BULLISH
              "BULLISH EXHAUSTION: Price falling but selling pressure fading"
              (divergence_strength dt pt) (tail lookback cd) cd
          else Ok None
        else Ok None
    | Raise e => Raise e
    end.
Proof.
  intros Hlen Hd Hp. unfold detect_delta_exhaustion.
  destruct (Nat.ltb_spec (length cd) lookback); [lia |].
  rewrite Hd, Hp. cbn [mbind result_bind]. cbv zeta.
  destruct (if ltb 0 pt && ltb dt 0 then _ else _) as [[s |] | e]; reflexivity.
Qed.

Lemma exhaustion_signal_ok (kind : SignalType) (text : string) (d : Q)
    (lookback : nat) (cd : list Q) (dt : Q) :
  trend lookback cd = Ok dt ->
  exists s, exhaustion_signal kind text d (tail lookback cd) cd = Ok (Some s)
    /\ signal_type s = kind /\ pattern s = EXHAUSTION
    /\ confidence s = min2 0.9 (0.5 + d * 0.4).
Proof.
  intros Ht. destruct (trend_recent_last lookback cd dt Ht) as (r & o & Hr & Ho).
  unfold exhaustion_signal. rewrite Hr, Ho. cbn [mbind result_bind].
  eexists. split; [reflexivity |]. cbn. repeat split.
Qed.

(** C7, as the code has it (exhaustion threshold): let [dt] and [pt] be the
    changes of cumulative delta and of close over the trailing [lookback]
    values.  When close rises, cumulative delta falls and the delta decline
    exceeds half of the price rise plus [1e-10], the result is a bearish
    exhaustion signal with confidence
    [min(0.9, 0.5 + 0.4 * divergence)], which lies in [[0.5, 0.9]]; the
    symmetric case gives a bullish exhaustion signal; and when the price
    move is at least twice the opposite delta move no signal is returned. *)
Theorem delta_exhaustion_threshold (cd price : list Q) (lookback : nat) (dt pt : Q) :
  (lookback <= length cd)%nat ->
  trend lookback cd = Ok dt -> trend lookback price = Ok pt ->
  (0 < pt -> dt < 0 -> 0.5 * (pt + epsilon) < - dt ->
     exists s, detect_delta_exhaustion cd price lookback = Ok (Some s)
       /\ signal_type s = BEARISH /\ pattern s = EXHAUSTION
       /\ confidence s = min2 0.9 (0.5 + divergence_strength dt pt * 0.4)
       /\ 0.5 <= confidence s /\ confidence s <= 0.9)
  /\ (pt < 0 -> 0 < dt -> 0.5 * (- pt + epsilon) < dt ->
     exists s, detect_delta_exhaustion cd price lookback = Ok (Some s)
       /\ signal_type s = BULLISH /\ pattern s = EXHAUSTION
       /\ confidence s = min2 0.9 (0.5 + divergence_strength dt pt * 0.4)
       /\ 0.5 <= confidence s /\ confidence s <= 0.9)
  /\ (0 < pt -> dt < 0 -> 2 * (- dt) <= pt ->
     detect_delta_exhaustion cd price lookback = Ok None)
  /\ (pt < 0 -> 0 < dt -> 2 * dt <= - pt ->
     detect_delta_exhaustion cd price lookback = Ok None).
Proof.
  intros Hlen Hd Hp. rewrite (detect_unfold cd price lookback dt pt Hlen Hd Hp).
  pose proof epsilon_pos as He.
  repeat split.
  - intros Hpt Hdt Hdiv.
    assert (Hgt : ltb 0.5 (divergence_strength dt pt) = true).
    { apply divergence_gt_half. rewrite (Qabs_pos pt), (Qabs_neg dt) by lra. exact Hdiv. }
    apply ltb_lt in Hpt, Hdt. rewrite Hpt, Hdt, Hgt. cbn [andb].
    destruct (exhaustion_signal_ok BEARISH
      "BEARISH EXHAUSTION: Price rising but buying pressure fading"
      (divergence_strength dt pt) lookback cd dt Hd) as (s & -> & Hk & Hpat & Hc).
    exists s. repeat split; try assumption; rewrite Hc;
      apply exhaustion_confidence_bounds; now apply ltb_lt.
  - intros Hpt Hdt Hdiv.
    assert (Hgt : ltb 0.5 (divergence_strength dt pt) = true).
    { apply divergence_gt_half. rewrite (Qabs_neg pt), (Qabs_pos dt) by lra. exact Hdiv. }
    assert (H1 : ltb 0 pt = false) by (apply ltb_ge; lra).
    apply ltb_lt in Hpt, Hdt. rewrite H1, Hpt, Hdt, Hgt. cbn [andb].
    destruct (exhaustion_signal_ok BULLISH
      "BULLISH EXHAUSTION: Price falling but selling pressure fading"
      (divergence_strength dt pt) lookback cd dt Hd) as (s & -> & Hk & Hpat & Hc).
    exists s. repeat split; try assumption; rewrite Hc;
      apply exhaustion_confidence_bounds; now apply ltb_lt.
  - intros Hpt Hdt Hdiv.
    assert (Hle : ltb 0.5 (divergence_strength dt pt) = false).
    { apply not_true_iff_false. rewrite divergence_gt_half.
      rewrite (Qabs_pos pt), (Qabs_neg dt) by lra. lra. }
    assert (H2 : ltb pt 0 = false) by (apply ltb_ge; lra).
    rewrite Hle, H2. cbn [andb]. now destruct (ltb 0 pt && ltb dt 0).
  - intros Hpt Hdt Hdiv.
    assert (Hle : ltb 0.5 (divergence_strength dt pt) = false).
    { apply not_true_iff_false. rewrite divergence_gt_half.
      rewrite (Qabs_neg pt), (Qabs_pos dt) by lra. lra. }
    assert (H1 : ltb 0 pt = false) by (apply ltb_ge; lra).
    rewrite Hle, H1. cbn [andb]. now destruct (ltb pt 0 && ltb 0 dt).
Qed.

Lemma delta_exhaustion_threshold_witness :
  let falling := [9; 8; 7; 6; 5; 4; 3; 2; 1; 0] in
  let rising := [100; 101; 102; 103; 104; 105; 106; 107; 108; 109] in
  ((10 <= length falling)%nat /\ trend 10 falling = Ok (-9) /\ trend 10 rising = Ok 9 /\
   0 < 9 /\ -9 < 0 /\ 0.5 * (9 + epsilon) < - (-9) /\
   exists s, detect_delta_exhaustion falling rising 10 = Ok (Some s)
     /\ signal_type s = BEARISH /\ 0.5 <= confidence s)
  /\
  ((10 <= length rising)%nat /\ trend 10 rising = Ok 9 /\ trend 10 falling = Ok (-9) /\
   -9 < 0 /\ 0 < 9 /\ 0.5 * (- (-9) + epsilon) < 9 /\
   exists s, detect_delta_exhaustion rising falling 10 = Ok (Some s)
     /\ signal_type s = BULLISH /\ 0.5 <= confidence s).
Proof.
  intros falling rising.
  assert (Hlen : (10 <= length falling)%nat) by (cbn; lia).
  assert (Hlen' : (10 <= length rising)%nat) by (cbn; lia).
  assert (Hd : trend 10 falling = Ok (-9)) by reflexivity.
  assert (Hp : trend 10 rising = Ok 9) by reflexivity.
  assert (H1 : 0 < 9) by reflexivity.
  assert (H2 : -9 < 0) by reflexivity.
  assert (H3 : 0.5 * (9 + epsilon) < - (-9)) by reflexivity.
  assert (H4 : 0.5 * (- (-9) + epsilon) < 9) by reflexivity.
  split.
  - repeat (split; [assumption |]).
    destruct (proj1 (delta_exhaustion_threshold falling rising 10 (-9) 9 Hlen Hd Hp)
                H1 H2 H3) as (s & Hs & Hk & _ & _ & Hc & _).
    exists s. repeat split; assumption.
  - repeat (split; [assumption |]).
    destruct (proj1 (proj2 (delta_exhaustion_threshold rising falling 10 9 (-9) Hlen' Hp Hd))
                H2 H1 H4) as (s & Hs & Hk & _ & _ & Hc & _).
    exists s. repeat split; assumption.
Defined.

(** C7, as stated, fails: cumulative delta strictly decreasing by 9 and close
    strictly increasing by 90, more than twice the decline, over ten values
    give no signal. *)
Lemma steep_price_rise_gives_no_exhaustion :
  let cd := [9; 8; 7; 6; 5; 4; 3; 2; 1; 0] in
  let price := [100; 110; 120; 130; 140; 150; 160; 170; 180; 190] in
  (10 <= length cd)%nat /\ (10 <= length price)%nat /\
  strictly_decreasing cd = true /\ strictly_increasing price = true /\
  trend 10 cd = Ok (-9) /\ trend 10 price = Ok 90 /\ 2 * 9 < 90 /\
  detect_delta_exhaustion cd price 10 = Ok None /\
  ~ exists s, detect_delta_exhaustion cd price 10 = Ok (Some s).
Proof.
  intros cd price.
  assert (Hnone : detect_delta_exhaustion cd price 10 = Ok None) by reflexivity.
  repeat split; try reflexivity; try (cbn; lia).
  intros [s Hs]. rewrite Hnone in Hs. discriminate.
Qed.

(** On a window shorter than the lookback the exhaustion detector is not
    reached with enough data and reports nothing. *)
Lemma short_window_no_exhaustion (bars : list Bar) (a : Analysis) :
  (length bars < 10)%nat -> analyze_orderflow bars = Ok a ->
  exhaustion a = {| detected := false; ex_type := None;
                    ex_confidence := 0; ex_description := None |}.
Proof.
  intros Hlen. unfold analyze_orderflow.
  destruct (estimate_delta_from_ohlcv bars) as [rows | e] eqn:E; [| discriminate].
  apply estimate_length in E. cbn [mbind result_bind].
  destruct (last_item rows) as [latest | e]; [| discriminate].
  cbn [mbind result_bind]. unfold detect_delta_exhaustion.
  rewrite length_fmap.
  destruct (Nat.ltb_spec (length rows) 10); [| lia].
  cbn [mbind result_bind]. intros [= <-]. reflexivity.
Qed.

(** C6, as the code has it (empty and short windows): [analyze_orderflow]
    raises on the empty window; on a window of fewer than 10 bars it either
    raises or returns an analysis whose exhaustion entry is
    [{detected: False, confidence: 0}]; the structured error result comes
    from its caller [analyze_symbol], which returns the error dictionary
    with message ['No data available'] for an empty window, turns every
    exception of the fetch or of [analyze_orderflow] into an error
    dictionary carrying [str(e)], and so always returns a dictionary whose
    status is ['error'] or ['success']. *)
Theorem short_window_handling (symbol now : string) :
  (exists e, analyze_orderflow [] = Raise e)
  /\ (forall bars a, (length bars < 10)%nat -> analyze_orderflow bars = Ok a ->
        detected (exhaustion a) = false /\ ex_confidence (exhaustion a) = 0)
  /\ analyze_symbol (Ok []) symbol now = AnalysisError symbol "No data available" None
  /\ (forall e, analyze_symbol (Raise e) symbol now
                = AnalysisError symbol (str e) (Some "tape_reader"%string))
  /\ (forall bars e, bars <> [] -> analyze_orderflow bars = Raise e ->
        analyze_symbol (Ok bars) symbol now
        = AnalysisError symbol (str e) (Some "tape_reader"%string))
  /\ (forall fetched,
        status (analyze_symbol fetched symbol now) = "error"%string \/
        status (analyze_symbol fetched symbol now) = "success"%string).
Proof.
  split; [exists bad_bin_edges; reflexivity |].
  split.
  { intros bars a Hlen Ha.
    rewrite (short_window_no_exhaustion bars a Hlen Ha). split; reflexivity. }
  split; [reflexivity |].
  split; [reflexivity |].
  split.
  { intros bars e Hne He. destruct bars as [| b rest]; [contradiction |].
    unfold analyze_symbol. cbn [mbind result_bind]. rewrite He. reflexivity. }
  intros fetched. destruct (analyze_symbol fetched symbol now); cbn; auto.
Qed.

Lemma short_window_handling_witness :
  let one := [ {| Bars.timestamp := 0; open := 100; high := 102; low := 99;
                  close := 101; volume := 1000 |} ] in
  let three := [ {| Bars.timestamp := 0; open := 100; high := 102; low := 99;
                    close := 102; volume := 1000 |};
                 {| Bars.timestamp := 1; open := 102; high := 102; low := 100;
                    close := 101; volume := 500 |};
                 {| Bars.timestamp := 2; open := 101; high := 105; low := 101;
                    close := 105; volume := 1500 |} ] in
  (one <> [] /\ analyze_orderflow one = Raise bad_bin_edges /\
   analyze_symbol (Ok one) "SPY" "2024-01-01T00:00:00"
   = AnalysisError "SPY" "bins must increase monotonically." (Some "tape_reader"%string))
  /\
  ((length three < 10)%nat /\
   exists a, analyze_orderflow three = Ok a
     /\ detected (exhaustion a) = false /\ ex_confidence (exhaustion a) = 0).
Proof.
  intros one three.
  assert (Hne : one <> []) by discriminate.
  assert (He : analyze_orderflow one = Raise bad_bin_edges) by reflexivity.
  assert (Hlen : (length three < 10)%nat) by (cbn; lia).
  pose proof (short_window_handling "SPY" "2024-01-01T00:00:00")
    as (_ & Hshort & _ & _ & Hcaught & _).
  split.
  - split; [exact Hne |]. split; [exact He |].
    exact (Hcaught one bad_bin_edges Hne He).
  - split; [exact Hlen |].
    destruct (analyze_orderflow three) as [a | e] eqn:Ea;
      [| vm_compute in Ea; discriminate Ea].
    exists a. split; [reflexivity |]. exact (Hshort three a Hlen Ea).
Defined.

(** C6, as stated, fails: on the empty window [analyze_orderflow] raises
    instead of returning a result. *)
Lemma analyze_orderflow_empty_raises :
  analyze_orderflow [] = Raise bad_bin_edges /\
  ~ exists a, analyze_orderflow [] = Ok a.
Proof.
  split; [reflexivity |]. intros [a Ha]. discriminate Ha.
Qed.

End OrderFlowProps.

(** ** Backtesting simulator *)

Section Simulator.
Import Bars Backtest.
Local Open Scope Q_scope.

Variable clock : Clock.
Variable sym : string.

Lemma only_traded_size (st : Engine) : only_traded sym st -> (size (open_positions st) <= 1)%nat.
Proof.
  intros H. unfold only_traded in H. rewrite <- size_dom.
  apply subseteq_size in H. now rewrite size_singleton in H.
Qed.

Lemma close_position_only_traded (price : Q) (reason : string) (st : Engine) :
  only_traded sym st -> only_traded sym (_close_position clock sym price reason st).
Proof.
  unfold only_traded, _close_position. intros H.
  destruct (open_positions st !! sym); [| exact H].
  cbn. rewrite dom_delete_L. intros k Hk. apply H.
  apply elem_of_difference in Hk. tauto.
Qed.

Lemma check_stops_only_traded (bar : Bar) (st : Engine) :
  only_traded sym st -> only_traded sym (_check_stops clock sym bar st).
Proof.
  intros H. unfold _check_stops.
  destruct (open_positions st !! sym) as [trade |]; [| exact H].
  repeat match goal with
         | |- context [if ?b then _ else _] => destruct b
         end; repeat apply close_position_only_traded; exact H.
Qed.

Lemma execute_signal_only_traded (signal : Signal) (bar : Bar) (st st' : Engine) :
  only_traded sym st -> _execute_signal clock sym signal bar st = Ok st' -> only_traded sym st'.
Proof.
  unfold only_traded, _execute_signal. intros H.
  destruct (open_positions st !! sym); [now intros [= <-] |].
  destruct (sig_action signal) as [a |]; [| discriminate]. cbn [mbind result_bind].
  match goal with |- context [mbind _ ?m] => destruct m as [u0 | e] end;
    [| discriminate].
  cbn [mbind result_bind].
  match goal with |- context [mbind _ ?m] => destruct m as [u | e] end;
    [| discriminate].
  cbn [mbind result_bind].
  destruct (u <=? 0)%Z; intros [= <-]; [exact H |].
  cbn. rewrite dom_insert_L. apply union_least; [reflexivity | exact H].
Qed.

Lemma reachable_only_traded (eng st : Engine) :
  reachable clock sym eng st -> only_traded sym st.
Proof.
  induction 1 as [| st bar _ IH | st st' signal bar _ IH He | st price _ IH
                  | st price reason _ IH].
  - unfold only_traded. cbn. rewrite dom_empty_L. apply empty_subseteq.
  - now apply check_stops_only_traded.
  - now apply (execute_signal_only_traded signal bar st).
  - exact IH.
  - now apply close_position_only_traded.
Qed.

(** A signal arriving while the symbol has an open position changes nothing. *)
Lemma execute_signal_while_open (signal : Signal) (bar : Bar) (st : Engine) :
  is_Some (open_positions st !! sym) -> _execute_signal clock sym signal bar st = Ok st.
Proof. intros [t Ht]. unfold _execute_signal. now rewrite Ht. Qed.

Lemma replay_bar_reachable (eng : Engine) (data : list Bar) (strategy : Strategy)
    (st st' : Engine) (i : nat) :
  reachable clock sym eng st -> replay_bar clock sym data strategy st i = Ok st' ->
  reachable clock sym eng st'.
Proof.
  intros Hr. unfold replay_bar.
  destruct (get data i) as [bar | e]; [| discriminate]. cbn [mbind result_bind].
  set (signal := match strategy _ with Ok sg => sg | Raise _ => no_trade end).
  pose proof (reach_check_stops clock sym eng st bar Hr) as H1.
  destruct (is_entry signal).
  - destruct (_execute_signal clock sym signal bar (_check_stops clock sym bar st))
      as [st2 | e] eqn:E; [| discriminate].
    cbn [mbind result_bind]. intros [= <-].
    apply reach_update. exact (reach_execute clock sym eng _ st2 signal bar H1 E).
  - cbn [mbind result_bind]. intros [= <-]. now apply reach_update.
Qed.

Lemma replay_reachable (eng : Engine) (data : list Bar) (strategy : Strategy)
    (indices : list nat) (st st' : Engine) :
  reachable clock sym eng st -> replay clock sym data strategy st indices = Ok st' ->
  reachable clock sym eng st'.
Proof.
  revert st. induction indices as [| i rest IH]; intros st Hr; cbn [replay].
  - now intros [= <-].
  - destruct (replay_bar clock sym data strategy st i) as [st1 | e] eqn:E; [| discriminate].
    cbn [mbind result_bind]. apply IH. exact (replay_bar_reachable eng data strategy st st1 i Hr E).
Qed.

Lemma run_engine_reachable (eng : Engine) (data : list Bar) (strategy : Strategy)
    (st : Engine) :
  run_engine clock eng sym data strategy = Ok st -> reachable clock sym eng st.
Proof.
  unfold run_engine. destruct (length data <? 100)%nat; [discriminate |].
  destruct (replay clock sym data strategy (reset eng) _) as [st1 | e] eqn:E; [| discriminate].
  cbn [mbind result_bind].
  pose proof (replay_reachable eng data strategy _ _ st1 (reach_reset clock sym eng) E) as H1.
  destruct (open_positions st1 !! sym); [| now intros [= <-]].
  destruct (last_item data) as [last_bar | e]; [| discriminate].
  cbn [mbind result_bind]. intros [= <-]. now apply reach_close.
Qed.

(** C8 (one position per symbol, no pyramiding): every state the simulator
    reaches while trading [sym], in particular every state of the replay loop
    of [run_backtest] and its final state, holds at most one open position,
    and only for [sym]; in such a state with a position open,
    [_execute_signal] returns the state unchanged (capital, open position,
    trade list and all other fields) whatever the signal; so a bar on which
    the position is still open after the stop check is processed by the stop
    check and the equity update alone, whatever the strategy returns. *)
Theorem single_position_no_pyramiding (eng : Engine) :
  (forall st, reachable clock sym eng st ->
     (size (open_positions st) <= 1)%nat
     /\ (forall k, is_Some (open_positions st !! k) -> k = sym)
     /\ (forall signal bar, is_Some (open_positions st !! sym) ->
           _execute_signal clock sym signal bar st = Ok st))
  /\ (forall data strategy indices st,
        replay clock sym data strategy (reset eng) indices = Ok st ->
        reachable clock sym eng st)
  /\ (forall data strategy st,
        run_engine clock eng sym data strategy = Ok st -> reachable clock sym eng st)
  /\ (forall data strategy st i bar,
        get data i = Ok bar ->
        is_Some (open_positions (_check_stops clock sym bar st) !! sym) ->
        replay_bar clock sym data strategy st i
        = Ok (_update_equity (close bar) (_check_stops clock sym bar st))).
Proof.
  split; [| split; [| split]].
  - intros st Hr. pose proof (reachable_only_traded eng st Hr) as Hinv.
    split; [now apply only_traded_size |]. split.
    + intros k Hk. apply elem_of_dom in Hk. apply Hinv in Hk.
      now apply elem_of_singleton in Hk.
    + intros signal bar Hopen. now apply execute_signal_while_open.
  - intros data strategy indices st. apply replay_reachable. apply reach_reset.
  - intros data strategy st. apply run_engine_reachable.
  - intros data strategy st i bar Hbar Hopen. unfold replay_bar.
    rewrite Hbar. cbn [mbind result_bind].
    destruct (is_entry _); [| reflexivity].
    now rewrite execute_signal_while_open.
Qed.

End Simulator.

(** ** The wall clock and the simulator *)

Section ClockIndependence.
Import Bars Backtest.
Local Open Scope Q_scope.

Variables c c' : Clock.
Variable sym : string.

Lemma untimed_lookup (st st' : Engine) (k : string) :
  untimed st = untimed st' ->
  untimed_trade <$> (open_positions st !! k) = untimed_trade <$> (open_positions st' !! k).
Proof.
  intros H. apply (f_equal open_positions) in H. cbn in H.
  rewrite <- !lookup_fmap. now rewrite H.
Qed.

Lemma untimed_unrealized (price : Q) (m : gmap string Trade) :
  map_fold (fun _ trade acc => acc + unrealized_of price trade) 0 (untimed_trade <$> m)
  = map_fold (fun _ trade acc => acc + unrealized_of price trade) 0 m.
Proof. rewrite map_fold_fmap. reflexivity. Qed.

(** Destructs two engine states and two trades that agree up to the clock
    readings, leaving only the list of trades and the open positions apart. *)
Ltac same_but_times H :=
  let Hi := fresh in
  let Hc := fresh in
  let Hs := fresh in
  let Hr := fresh in
  let Hk := fresh in
  let He := fresh in
  pose proof (f_equal initial_capital H) as Hi;
  pose proof (f_equal commission H) as Hc;
  pose proof (f_equal slippage H) as Hs;
  pose proof (f_equal risk_per_trade H) as Hr;
  pose proof (f_equal capital H) as Hk;
  pose proof (f_equal equity_history H) as He;
  cbn in Hi, Hc, Hs, Hr, Hk, He.

Lemma close_position_untimed (price : Q) (reason : string) (st st' : Engine) :
  untimed st = untimed st' ->
  untimed (_close_position c sym price reason st)
  = untimed (_close_position c' sym price reason st').
Proof.
  intros H. pose proof (untimed_lookup st st' sym H) as Hl.
  unfold _close_position.
  destruct (open_positions st !! sym) as [t |], (open_positions st' !! sym) as [t' |];
    cbn in Hl; try discriminate; [| exact H].
  assert (Hu : untimed_trade t = untimed_trade t') by congruence. clear Hl.
  same_but_times H.
  pose proof (f_equal trades H) as Ht. pose proof (f_equal open_positions H) as Ho.
  destruct st, st', t, t'. unfold untimed_trade in Hu. cbn in *.
  injection Hu as ? ? ? ? ? ? _ ? ? ? ?.
  subst. unfold untimed, is_long. cbn.
  rewrite !fmap_app, !fmap_delete, Ht, Ho. reflexivity.
Qed.

Lemma check_stops_untimed (bar : Bar) (st st' : Engine) :
  untimed st = untimed st' ->
  untimed (_check_stops c sym bar st) = untimed (_check_stops c' sym bar st').
Proof.
  intros H. pose proof (untimed_lookup st st' sym H) as Hl.
  unfold _check_stops.
  destruct (open_positions st !! sym) as [t |], (open_positions st' !! sym) as [t' |];
    cbn in Hl; try discriminate; [| exact H].
  assert (Hu : untimed_trade t = untimed_trade t') by congruence. clear Hl.
  assert (Hd : is_long t = is_long t')
    by (unfold is_long; now rewrite (f_equal direction Hu : direction t = direction t')).
  rewrite (f_equal stop_loss Hu : stop_loss t = stop_loss t').
  rewrite (f_equal take_profit Hu : take_profit t = take_profit t'), Hd.
  repeat match goal with
         | |- context [if ?b then _ else _] => destruct b
         end; repeat apply close_position_untimed; exact H.
Qed.

Lemma execute_signal_untimed (signal : Signal) (bar : Bar) (st st' : Engine) :
  untimed st = untimed st' ->
  untimed_outcome (_execute_signal c sym signal bar st)
  = untimed_outcome (_execute_signal c' sym signal bar st').
Proof.
  intros H. pose proof (untimed_lookup st st' sym H) as Hl.
  unfold _execute_signal.
  destruct (open_positions st !! sym) as [t |], (open_positions st' !! sym) as [t' |];
    cbn in Hl; try discriminate; [cbn; now rewrite H |].
  same_but_times H.
  pose proof (f_equal trades H) as Ht. pose proof (f_equal open_positions H) as Ho.
  destruct st, st'. cbn in *. subst.
  destruct (sig_action signal) as [a |]; [| reflexivity]. cbn [mbind result_bind].
  match goal with |- context [mbind _ ?m] => destruct m as [u0 | e] end;
    [| reflexivity].
  cbn [mbind result_bind].
  match goal with |- context [mbind _ ?m] => destruct m as [u | e] end;
    [| reflexivity].
  cbn [mbind result_bind].
  destruct (u <=? 0)%Z; cbn; unfold untimed; cbn.
  - now rewrite Ht, Ho.
  - now rewrite !fmap_insert, Ht, Ho.
Qed.

Lemma update_equity_untimed (price : Q) (st st' : Engine) :
  untimed st = untimed st' ->
  untimed (_update_equity price st) = untimed (_update_equity price st').
Proof.
  intros H. same_but_times H.
  pose proof (f_equal trades H) as Ht. pose proof (f_equal open_positions H) as Ho.
  destruct st, st'. cbn in *. subst. unfold untimed, _update_equity. cbn.
  rewrite <- (untimed_unrealized price open_positions0).
  rewrite <- (untimed_unrealized price open_positions1).
  now rewrite Ht, Ho.
Qed.

Lemma untimed_outcome_ok (r r' : result Engine) (st : Engine) :
  untimed_outcome r = untimed_outcome r' -> r = Ok st ->
  exists st', r' = Ok st' /\ untimed st = untimed st'.
Proof.
  intros H ->. destruct r' as [st' | e]; cbn in H; [| discriminate].
  exists st'. split; [reflexivity | congruence].
Qed.

Lemma untimed_outcome_raise (r r' : result Engine) (e : exn) :
  untimed_outcome r = untimed_outcome r' -> r = Raise e -> r' = Raise e.
Proof. intros H ->. destruct r'; cbn in H; [discriminate | congruence]. Qed.

Lemma replay_bar_untimed (data : list Bar) (strategy : Strategy) (st st' : Engine) (i : nat) :
  untimed st = untimed st' ->
  untimed_outcome (replay_bar c sym data strategy st i)
  = untimed_outcome (replay_bar c' sym data strategy st' i).
Proof.
  intros H. unfold replay_bar.
  destruct (get data i) as [bar | e]; [| reflexivity]. cbn [mbind result_bind].
  set (signal := match strategy _ with Ok sg => sg | Raise _ => no_trade end).
  pose proof (check_stops_untimed bar st st' H) as H1.
  destruct (is_entry signal).
  - pose proof (execute_signal_untimed signal bar _ _ H1) as H2.
    destruct (_execute_signal c sym signal bar (_check_stops c sym bar st))
      as [st2 | e] eqn:E.
    + destruct (untimed_outcome_ok _ _ st2 H2 eq_refl) as (st2' & -> & H3).
      cbn. f_equal. now apply update_equity_untimed.
    + now rewrite (untimed_outcome_raise _ _ e H2 eq_refl).
  - cbn. f_equal. now apply update_equity_untimed.
Qed.

Lemma replay_untimed (data : list Bar) (strategy : Strategy) (indices : list nat)
    (st st' : Engine) :
  untimed st = untimed st' ->
  untimed_outcome (replay c sym data strategy st indices)
  = untimed_outcome (replay c' sym data strategy st' indices).
Proof.
  revert st st'. induction indices as [| i rest IH]; intros st st' H; cbn [replay].
  - cbn. now rewrite H.
  - pose proof (replay_bar_untimed data strategy st st' i H) as H1.
    destruct (replay_bar c sym data strategy st i) as [st1 | e] eqn:E.
    + destruct (untimed_outcome_ok _ _ st1 H1 eq_refl) as (st1' & -> & H2).
      cbn [mbind result_bind]. now apply IH.
    + now rewrite (untimed_outcome_raise _ _ e H1 eq_refl).
Qed.

Lemma run_engine_untimed (eng : Engine) (data : list Bar) (strategy : Strategy) :
  untimed_outcome (run_engine c eng sym data strategy)
  = untimed_outcome (run_engine c' eng sym data strategy).
Proof.
  unfold run_engine. destruct (length data <? 100)%nat; [reflexivity |].
  pose proof (replay_untimed data strategy (seq window_size (length data - window_size))
                (reset eng) (reset eng) eq_refl) as H1.
  destruct (replay c sym data strategy (reset eng) _) as [st1 | e] eqn:E.
  - destruct (untimed_outcome_ok _ _ st1 H1 eq_refl) as (st1' & -> & H2).
    cbn [mbind result_bind].
    pose proof (untimed_lookup st1 st1' sym H2) as Hl.
    destruct (open_positions st1 !! sym), (open_positions st1' !! sym);
      cbn in Hl; try discriminate.
    + destruct (last_item data) as [last_bar | e']; [| reflexivity].
      cbn. f_equal. now apply close_position_untimed.
    + cbn. now rewrite H2.
  - now rewrite (untimed_outcome_raise _ _ e H1 eq_refl).
Qed.

(** Apart from the clock readings stored in the trades, a run does not depend
    on the wall clock: two runs on the same engine parameters, symbol, bars
    and strategy function fail alike or return the same equity curve, the
    same capital figures and trade lists equal in every field but
    [entry_time] and [exit_time]. *)
Lemma run_backtest_clock_independent (eng : Engine) (data : list Bar) (strategy : Strategy) :
  match run_backtest c eng sym data strategy, run_backtest c' eng sym data strategy with
  | Ok r, Ok r' =>
      equity_curve r = equity_curve r'
      /\ untimed_trade <$> res_trades r = untimed_trade <$> res_trades r'
      /\ final_capital r = final_capital r'
      /\ total_return r = total_return r'
      /\ total_trades r = total_trades r'
  | Raise e, Raise e' => e = e'
  | _, _ => False
  end.
Proof.
  unfold run_backtest. pose proof (run_engine_untimed eng data strategy) as H.
  destruct (run_engine c eng sym data strategy) as [st | e] eqn:E.
  - destruct (untimed_outcome_ok _ _ st H eq_refl) as (st' & -> & H1).
    cbn [mbind result_bind]. unfold _calculate_results.
    pose proof (f_equal equity_history H1) as He.
    pose proof (f_equal trades H1) as Ht.
    pose proof (f_equal initial_capital H1) as Hi. cbn in He, Ht, Hi.
    rewrite <- He, <- Hi.
    destruct (last_item (equity_history st)) as [final | e]; cbn; [| reflexivity].
    repeat split; try assumption.
    rewrite <- (length_fmap untimed_trade (trades st)), Ht. apply length_fmap.
  - rewrite (untimed_outcome_raise _ _ e H eq_refl). cbn. reflexivity.
Qed.

End ClockIndependence.

Section SimulatorExamples.
Import Bars Backtest.
Local Open Scope Q_scope.

Lemma single_position_no_pyramiding_witness :
  let now : Clock := fun _ => 0%Z in
  let bar := {| timestamp := 0; open := 100; high := 101; low := 99;
                close := 100; volume := 1000 |} in
  let buy := {| sig_action := Some "BUY"%string; sig_stop_loss := Some 98;
                sig_take_profit := None |} in
  exists st,
    _execute_signal now "SPY" buy bar (reset default_engine) = Ok st
    /\ reachable now "SPY" default_engine st
    /\ is_Some (open_positions st !! "SPY"%string)
    /\ (size (open_positions st) <= 1)%nat
    /\ _execute_signal now "SPY" buy bar st = Ok st.
Proof.
  intros now bar buy.
  destruct (_execute_signal now "SPY" buy bar (reset default_engine)) as [st | e] eqn:E;
    [| vm_compute in E; discriminate E].
  exists st.
  assert (Hr : reachable now "SPY" default_engine st).
  { exact (reach_execute now "SPY" default_engine _ st buy bar
             (reach_reset now "SPY" default_engine) E). }
  assert (Hopen : is_Some (open_positions st !! "SPY"%string)).
  { vm_compute in E. injection E as <-. eexists. vm_compute. reflexivity. }
  destruct (proj1 (single_position_no_pyramiding now "SPY" default_engine) st Hr)
    as (Hsize & _ & Hsame).
  repeat split; try assumption. now apply Hsame.
Defined.

(** C5 (backtest determinism, failing input): two runs of [run_backtest] on
    the same default engine, symbol, 100 identical bars and the same constant
    strategy function, one with the wall clock reading 0 and one with it
    reading 1, return the same equity curve and one trade each, but the
    trades carry the clock readings in [entry_time] and [exit_time], so the
    two trade lists are not equal. *)
Theorem backtest_trades_carry_wall_clock :
  let bar := {| timestamp := 0; open := 100; high := 101; low := 99;
                close := 100; volume := 1000 |} in
  let data := replicate 100 bar in
  let strategy : Strategy :=
    fun _ => Ok {| sig_action := Some "BUY"%string; sig_stop_loss := Some 98;
                   sig_take_profit := None |} in
  exists r1 r2,
    run_backtest (fun _ => 0%Z) default_engine "SPY" data strategy = Ok r1
    /\ run_backtest (fun _ => 1%Z) default_engine "SPY" data strategy = Ok r2
    /\ equity_curve r1 = equity_curve r2
    /\ entry_time <$> res_trades r1 = [0%Z]
    /\ entry_time <$> res_trades r2 = [1%Z]
    /\ exit_time <$> res_trades r1 = [Some 0%Z]
    /\ exit_time <$> res_trades r2 = [Some 1%Z]
    /\ res_trades r1 <> res_trades r2.
Proof.
  intros bar data strategy.
  destruct (run_backtest (fun _ => 0%Z) default_engine "SPY" data strategy)
    as [r1 | e] eqn:E1; [| vm_compute in E1; discriminate E1].
  destruct (run_backtest (fun _ => 1%Z) default_engine "SPY" data strategy)
    as [r2 | e] eqn:E2; [| vm_compute in E2; discriminate E2].
  exists r1, r2. vm_compute in E1, E2.
  injection E1 as <-. injection E2 as <-.
  repeat split; try reflexivity.
  intros H. discriminate H.
Qed.

End SimulatorExamples.

(** * Further properties of the modelled code *)

(** ** Delta estimation and the effort-versus-result signal *)

Section DeltaEstimation.
Import Bars OrderFlow TapeReader.
Local Open Scope Q_scope.

Lemma zip_with_rows {A B C} (f : A -> B -> C) (P : C -> Prop) (xs : list A) (ys : list B) :
  (forall x y, x ∈ xs -> P (f x y)) -> Forall P (zip_with f xs ys).
Proof.
  revert ys. induction xs as [| x xs IH]; intros ys H; cbn; [constructor |].
  destruct ys as [| y ys]; [constructor |]. constructor.
  - apply H. left.
  - apply IH. intros x' y' Hx. apply H. now right.
Qed.

(** Every row of the frame carries its bar and the delta estimated from it. *)
Lemma estimate_rows (bars : list Bar) (rows : list DeltaRow) :
  estimate_delta_from_ohlcv bars = Ok rows ->
  Forall (fun r => bar r ∈ bars /\ estimated_delta r = estimated_delta_of (bar r)) rows.
Proof.
  unfold estimate_delta_from_ohlcv.
  destruct (variance _) as [var |]; [| discriminate].
  destruct (eqb var 0); [discriminate |].
  intros [= <-]. apply zip_with_rows. intros b c Hb. cbn. split; [exact Hb | reflexivity].
Qed.

Lemma estimated_delta_sign (b : Bar) :
  low b <= high b -> 0 <= volume b ->
  (0 < estimated_delta_of b -> open b < close b) /\
  (estimated_delta_of b < 0 -> close b < open b).
Proof.
  intros Hr Hv. unfold estimated_delta_of. cbv zeta.
  set (d := if eqb (high b - low b) 0 then 1 else high b - low b).
  assert (Hd : 0 < d).
  { unfold d. destruct (eqb (high b - low b) 0) eqn:E; [reflexivity |].
    apply eqb_neq in E. destruct (Qle_lt_or_eq 0 (high b - low b) ltac:(lra)) as [H | H];
      [exact H | exfalso; apply E; now symmetry]. }
  assert (Hi : 0 < / d) by now apply Qinv_lt_0_compat.
  unfold Qdiv. set (x := close b - open b). set (v := volume b) in *.
  assert (Hneg : x <= 0 -> x * / d * v <= 0).
  { intros Hx.
    assert (H1 : 0 <= (- x) * / d) by (apply Qmult_le_0_compat; lra).
    assert (H2 : 0 <= (- x) * / d * v) by (apply Qmult_le_0_compat; lra).
    assert (H3 : (- x) * / d * v == - (x * / d * v)) by ring.
    lra. }
  assert (Hpos : 0 <= x -> 0 <= x * / d * v).
  { intros Hx.
    assert (H1 : 0 <= x * / d) by (apply Qmult_le_0_compat; lra).
    apply Qmult_le_0_compat; lra. }
  split; intros H.
  - destruct (Qlt_le_dec (open b) (close b)) as [Hlt | Hge]; [exact Hlt | exfalso].
    assert (x <= 0) by (unfold x; lra). specialize (Hneg ltac:(assumption)). lra.
  - destruct (Qlt_le_dec (close b) (open b)) as [Hlt | Hge]; [exact Hlt | exfalso].
    assert (0 <= x) by (unfold x; lra). specialize (Hpos ltac:(assumption)). lra.
Qed.

Lemma estimated_delta_bound (b : Bar) :
  low b <= open b <= high b -> low b <= close b <= high b -> 0 <= volume b ->
  Qabs (estimated_delta_of b) <= volume b.
Proof.
  intros [Ho1 Ho2] [Hc1 Hc2] Hv. unfold estimated_delta_of. cbv zeta.
  set (x := close b - open b). set (v := volume b) in *.
  assert (Ht : -(1) <= x / (if eqb (high b - low b) 0 then 1 else high b - low b) <= 1).
  { destruct (eqb (high b - low b) 0) eqn:E.
    - apply eqb_eq in E. assert (Hx : x == 0) by (unfold x; lra).
      rewrite Hx. split; discriminate.
    - apply eqb_neq in E. set (d := high b - low b) in *.
      assert (Hd : 0 < d).
      { destruct (Qle_lt_or_eq 0 d ltac:(unfold d; lra)) as [H | H];
          [exact H | exfalso; apply E; now symmetry]. }
      split.
      + apply Qle_shift_div_l; [exact Hd | unfold x, d; lra].
      + apply Qle_shift_div_r; [exact Hd | unfold x, d; lra]. }
  set (t := x / (if eqb (high b - low b) 0 then 1 else high b - low b)) in *.
  apply Qabs_Qle_condition.
  assert (H1 : 0 <= (1 - t) * v) by (apply Qmult_le_0_compat; lra).
  assert (H2 : 0 <= (1 + t) * v) by (apply Qmult_le_0_compat; lra).
  assert (H3 : (1 - t) * v == v - t * v) by ring.
  assert (H4 : (1 + t) * v == v + t * v) by ring.
  lra.
Qed.

(** X1: when every bar has its open and close between low and high and a
    non-negative volume, every row returned by [estimate_delta_from_ohlcv]
    has an estimated delta of magnitude at most the bar's volume, positive
    only on a rising candle and negative only on a falling one. *)
Theorem estimated_delta_within_volume (bars : list Bar) (rows : list DeltaRow) :
  Forall (fun b => low b <= open b <= high b /\ low b <= close b <= high b
                   /\ 0 <= volume b) bars ->
  estimate_delta_from_ohlcv bars = Ok rows ->
  Forall (fun r => Qabs (estimated_delta r) <= volume (bar r)
                   /\ (0 < estimated_delta r -> open (bar r) < close (bar r))
                   /\ (estimated_delta r < 0 -> close (bar r) < open (bar r))) rows.
Proof.
  intros Hwf He. pose proof (estimate_rows bars rows He) as Hrows.
  rewrite Forall_forall in Hwf. eapply Forall_impl; [exact Hrows |].
  intros r [Hin ->]. destruct (Hwf _ Hin) as (Ho & Hc & Hv).
  split; [now apply estimated_delta_bound |].
  apply estimated_delta_sign; lra.
Qed.

Lemma estimated_delta_within_volume_witness :
  let bars := [ {| Bars.timestamp := 0; open := 100; high := 102; low := 99;
                   close := 102; volume := 1000 |};
                {| Bars.timestamp := 1; open := 102; high := 102; low := 100;
                   close := 101; volume := 500 |};
                {| Bars.timestamp := 2; open := 101; high := 105; low := 101;
                   close := 105; volume := 1500 |} ] in
  Forall (fun b => low b <= open b <= high b /\ low b <= close b <= high b
                   /\ 0 <= volume b) bars /\
  exists rows, estimate_delta_from_ohlcv bars = Ok rows /\ length rows = 3%nat /\
    Forall (fun r => Qabs (estimated_delta r) <= volume (bar r)) rows.
Proof.
  intros bars.
  assert (Hwf : Forall (fun b => low b <= open b <= high b /\ low b <= close b <= high b
                                 /\ 0 <= volume b) bars).
  { repeat constructor; cbn; discriminate. }
  split; [exact Hwf |].
  destruct (estimate_delta_from_ohlcv bars) as [rows | e] eqn:E;
    [| vm_compute in E; discriminate E].
  exists rows. split; [reflexivity |]. split.
  - vm_compute in E. injection E as <-. reflexivity.
  - eapply Forall_impl; [exact (estimated_delta_within_volume bars rows Hwf E) |].
    intros r [H _]. exact H.
Defined.

Lemma last_item_elem {A} (xs : list A) (x : A) : last_item xs = Ok x -> x ∈ xs.
Proof.
  unfold last_item. destruct (last xs) as [y |] eqn:E; [| discriminate].
  intros [= <-]. now apply last_Some_elem_of.
Qed.

(** The signal computed from a delta that has the sign of its candle. *)
Lemma effort_matches_result (delta : Q) (opening closing : Q) (strength : string) :
  (0 < delta -> opening < closing) -> (delta < 0 -> closing < opening) ->
  let candle := if ltb opening closing then "bullish"%string else "bearish"%string in
  let s := analyze_effort_vs_result delta candle strength in
  pattern s = CONTINUATION
  /\ (signal_type s = BULLISH /\ confidence s = 0.65 /\ 0 < delta /\ opening < closing
      \/ signal_type s = BEARISH /\ confidence s = 0.65 /\ delta < 0 /\ closing < opening
      \/ signal_type s = NEUTRAL /\ confidence s = 0.3 /\ (delta == 0 \/ closing == opening
                                                          \/ delta < 0 /\ opening == closing)).
Proof.
  intros Hpos Hneg. cbv zeta. unfold analyze_effort_vs_result.
  destruct (ltb 0 delta) eqn:E1; destruct (ltb delta 0) eqn:E2;
    try (apply ltb_lt in E1); try (apply ltb_lt in E2);
    try (apply ltb_ge in E1); try (apply ltb_ge in E2).
  - lra.
  - specialize (Hpos E1). pose proof Hpos as Hlt. apply ltb_lt in Hlt. rewrite Hlt.
    cbn. split; [reflexivity |]. left. repeat split; assumption.
  - specialize (Hneg E2). assert (Hge : ltb opening closing = false) by (apply ltb_ge; lra).
    rewrite Hge. cbn. split; [reflexivity |]. right. left. repeat split; assumption.
  - destruct (ltb opening closing); cbn; (split; [reflexivity |]); right; right;
      repeat split; left; lra.
Qed.

(** The three signals [analyze_orderflow] can report on bars with
    [low <= high] and non-negative volume. *)
Lemma orderflow_signal_cases (bars : list Bar) (a : Analysis) :
  Forall (fun b => low b <= high b /\ 0 <= volume b) bars ->
  analyze_orderflow bars = Ok a ->
  sv_pattern (signal a) = "continuation"%string
  /\ (sv_type (signal a) = "bullish"%string /\ sv_confidence (signal a) = 0.65
        /\ candle_type a = "bullish"%string /\ 0 < current_delta a
      \/ sv_type (signal a) = "bearish"%string /\ sv_confidence (signal a) = 0.65
        /\ candle_type a = "bearish"%string /\ current_delta a < 0
      \/ sv_type (signal a) = "neutral"%string /\ sv_confidence (signal a) = 0.3).
Proof.
  intros Hwf. unfold analyze_orderflow.
  destruct (estimate_delta_from_ohlcv bars) as [rows | e] eqn:E; [| discriminate].
  cbn [mbind result_bind].
  destruct (last_item rows) as [latest | e] eqn:El; [| discriminate].
  cbn [mbind result_bind].
  destruct (detect_delta_exhaustion _ _ 10) as [ex | e]; [| discriminate].
  cbn [mbind result_bind]. intros [= <-]. cbn.
  pose proof (estimate_rows bars rows E) as Hrows.
  rewrite Forall_forall in Hrows. rewrite Forall_forall in Hwf.
  destruct (Hrows latest (last_item_elem _ _ El)) as [Hin Hd].
  destruct (Hwf _ Hin) as [Hr Hv].
  destruct (estimated_delta_sign (bar latest) Hr Hv) as [Hpos Hneg].
  rewrite <- Hd in Hpos, Hneg.
  pose proof (effort_matches_result (estimated_delta latest) (open (bar latest))
                (close (bar latest)) (default "moderate"%string (delta_strength latest))
                Hpos Hneg) as Hs.
  cbv zeta in Hs. destruct Hs as [Hp Hs]. rewrite Hp. split; [reflexivity |].
  destruct Hs as [(Ht & Hc & Hd1 & Hlt) | [(Ht & Hc & Hd1 & Hlt) | (Ht & Hc & _)]];
    rewrite Ht, Hc.
  - left. apply ltb_lt in Hlt. rewrite Hlt. repeat split. assumption.
  - right. left. assert (Hge : ltb (open (bar latest)) (close (bar latest)) = false)
      by (apply ltb_ge; lra).
    rewrite Hge. repeat split. assumption.
  - right. right. split; reflexivity.
Qed.

(** X2: on bars with [low <= high] and non-negative volume,
    [analyze_orderflow] never reports an absorption pattern: the delta is
    estimated from the candle itself, so effort and result always agree.  The
    signal is a continuation with confidence 0.65 in the direction of the
    last candle, or neutral with confidence 0.3; its confidence never
    exceeds 0.65. *)
Theorem analyze_orderflow_never_absorption (bars : list Bar) (a : Analysis) :
  Forall (fun b => low b <= high b /\ 0 <= volume b) bars ->
  analyze_orderflow bars = Ok a ->
  sv_pattern (signal a) <> "absorption"%string
  /\ sv_pattern (signal a) = "continuation"%string
  /\ sv_confidence (signal a) <= 0.65
  /\ (sv_type (signal a) = "bullish"%string /\ sv_confidence (signal a) = 0.65
        /\ candle_type a = "bullish"%string /\ 0 < current_delta a
      \/ sv_type (signal a) = "bearish"%string /\ sv_confidence (signal a) = 0.65
        /\ candle_type a = "bearish"%string /\ current_delta a < 0
      \/ sv_type (signal a) = "neutral"%string /\ sv_confidence (signal a) = 0.3).
Proof.
  intros Hwf Ha. destruct (orderflow_signal_cases bars a Hwf Ha) as [Hp Hc].
  split; [rewrite Hp; discriminate |]. split; [exact Hp |]. split; [| exact Hc].
  destruct Hc as [(_ & -> & _) | [(_ & -> & _) | (_ & ->)]]; discriminate.
Qed.

Lemma analyze_orderflow_never_absorption_witness :
  let bars := [ {| Bars.timestamp := 0; open := 100; high := 102; low := 99;
                   close := 102; volume := 1000 |};
                {| Bars.timestamp := 1; open := 102; high := 102; low := 100;
                   close := 101; volume := 500 |};
                {| Bars.timestamp := 2; open := 101; high := 105; low := 101;
                   close := 105; volume := 1500 |} ] in
  Forall (fun b => low b <= high b /\ 0 <= volume b) bars /\
  exists a, analyze_orderflow bars = Ok a
    /\ sv_pattern (signal a) = "continuation"%string.
Proof.
  intros bars.
  assert (Hwf : Forall (fun b => low b <= high b /\ 0 <= volume b) bars).
  { repeat constructor; cbn; discriminate. }
  split; [exact Hwf |].
  destruct (analyze_orderflow bars) as [a | e] eqn:E; [| vm_compute in E; discriminate E].
  exists a. split; [reflexivity |].
  exact (proj1 (proj2 (analyze_orderflow_never_absorption bars a Hwf E))).
Defined.

End DeltaEstimation.

(** ** The tape reader's recommendation *)

Section TapeReaderProps.
Import Bars OrderFlow TapeReader.
Local Open Scope Q_scope.

(** A detected exhaustion is bearish or bullish with a confidence above 0.7. *)
Lemma detect_some (cd price : list Q) (lookback : nat) (s : OrderFlowSignal) :
  detect_delta_exhaustion cd price lookback = Ok (Some s) ->
  (signal_type s = BEARISH \/ signal_type s = BULLISH)
  /\ pattern s = EXHAUSTION /\ 0.7 < confidence s /\ confidence s <= 0.9.
Proof.
  unfold detect_delta_exhaustion.
  destruct (length cd <? lookback)%nat; [discriminate |].
  destruct (trend lookback cd) as [dt | e]; [| discriminate]. cbn [mbind result_bind].
  destruct (trend lookback price) as [pt | e]; [| discriminate]. cbn [mbind result_bind].
  assert (Hsig : forall kind text s',
    0.5 < divergence_strength dt pt ->
    exhaustion_signal kind text (divergence_strength dt pt) (tail lookback cd) cd
    = Ok (Some s') ->
    signal_type s' = kind /\ pattern s' = EXHAUSTION
    /\ 0.7 < confidence s' /\ confidence s' <= 0.9).
  { intros kind text s' Hd. unfold exhaustion_signal.
    destruct (last_item (tail lookback cd)); [| discriminate]. cbn [mbind result_bind].
    destruct (last_item cd); [| discriminate]. cbn [mbind result_bind].
    intros [= <-]. cbn. repeat split.
    - unfold min2. destruct (ltb _ 0.9) eqn:E; [lra | reflexivity].
    - apply min2_le_l. }
  cbv zeta.
  destruct (ltb 0 pt && ltb dt 0).
  - destruct (ltb 0.5 (divergence_strength dt pt)) eqn:Hd.
    + destruct (exhaustion_signal BEARISH _ _ _ _) as [[s1 |] | e] eqn:E1;
        cbn [mbind result_bind]; try discriminate.
      * intros [= <-]. apply ltb_lt in Hd.
        destruct (Hsig _ _ _ Hd E1) as (Hk & Hrest). split; [now left | exact Hrest].
      * unfold exhaustion_signal in E1.
        destruct (last_item (tail lookback cd)); [| discriminate]. cbn in E1.
        destruct (last_item cd); discriminate.
    + cbn [mbind result_bind]. destruct (ltb pt 0 && ltb 0 dt); discriminate.
  - cbn [mbind result_bind]. destruct (ltb pt 0 && ltb 0 dt); [| discriminate].
    destruct (ltb 0.5 (divergence_strength dt pt)) eqn:Hd; [| discriminate].
    intros E2. apply ltb_lt in Hd.
    destruct (Hsig _ _ _ Hd E2) as (Hk & Hrest). split; [now right | exact Hrest].
Qed.

(** What [analyze_orderflow] puts into the exhaustion entry when one is
    detected. *)
Lemma exhaustion_entry (bars : list Bar) (a : Analysis) :
  analyze_orderflow bars = Ok a -> detected (exhaustion a) = true ->
  (ex_type (exhaustion a) = Some "bearish"%string
   \/ ex_type (exhaustion a) = Some "bullish"%string)
  /\ 0.7 < ex_confidence (exhaustion a) /\ ex_confidence (exhaustion a) <= 0.9.
Proof.
  unfold analyze_orderflow.
  destruct (estimate_delta_from_ohlcv bars) as [rows | e]; [| discriminate].
  cbn [mbind result_bind].
  destruct (last_item rows) as [latest | e]; [| discriminate]. cbn [mbind result_bind].
  destruct (detect_delta_exhaustion _ _ 10) as [[s |] | e] eqn:E; try discriminate;
    cbn [mbind result_bind]; intros [= <-]; cbn; [| discriminate].
  intros _. destruct (detect_some _ _ _ s E) as ([Hk | Hk] & _ & Hlo & Hhi);
    rewrite Hk; cbn; auto.
Qed.

Lemma analyze_symbol_success (bars : list Bar) (sym now s t : string) (a : Analysis)
    (pr : string) (fs : FinalSignalView) :
  analyze_symbol (Ok bars) sym now = AnalysisSuccess s t a pr fs ->
  analyze_orderflow bars = Ok a
  /\ (pr, fs) =
     let signal_confidence := sv_confidence (signal a) in
     let '(final_signal, final_confidence, priority) :=
       if detected (exhaustion a) then
         (default ""%string (ex_type (exhaustion a)),
          max2 signal_confidence (ex_confidence (exhaustion a)), "high"%string)
       else if String.eqb (sv_pattern (signal a)) "absorption" then
         (sv_type (signal a), signal_confidence, "high"%string)
       else
         (sv_type (signal a), signal_confidence,
          if ltb 0.6 signal_confidence then "medium"%string else "low"%string) in
     (priority, {| fsv_direction := final_signal; fsv_confidence := final_confidence;
                   fsv_action := _determine_action final_signal final_confidence |}).
Proof.
  unfold analyze_symbol. cbn [mbind result_bind].
  destruct bars as [| b rest]; [discriminate |].
  destruct (analyze_orderflow (b :: rest)) as [a' | e]; [| discriminate].
  cbn [mbind result_bind]. cbv zeta.
  destruct (detected (exhaustion a')) eqn:Ed.
  - intros [= <- <- <- <- <-]. rewrite Ed. split; reflexivity.
  - destruct (String.eqb (sv_pattern (signal a')) "absorption") eqn:Ea;
      intros [= <- <- <- <- <-]; rewrite Ed, Ea; split; reflexivity.
Qed.

(** X3: when [analyze_symbol] succeeds and an exhaustion was detected, the
    result has priority ['high'], its final direction is the exhaustion's
    (bullish or bearish), its final confidence exceeds 0.7, and its action is
    [consider_long]/[strong_long] for a bullish exhaustion and
    [consider_short]/[strong_short] for a bearish one, never ['wait']. *)
Theorem exhaustion_recommendation (bars : list Bar) (sym now s t : string) (a : Analysis)
    (pr : string) (fs : FinalSignalView) :
  analyze_symbol (Ok bars) sym now = AnalysisSuccess s t a pr fs ->
  detected (exhaustion a) = true ->
  pr = "high"%string /\ 0.7 < fsv_confidence fs
  /\ (fsv_direction fs = "bullish"%string
        /\ (fsv_action fs = "consider_long"%string \/ fsv_action fs = "strong_long"%string)
      \/ fsv_direction fs = "bearish"%string
        /\ (fsv_action fs = "consider_short"%string \/ fsv_action fs = "strong_short"%string)).
Proof.
  intros Hs Hd. destruct (analyze_symbol_success _ _ _ _ _ _ _ _ Hs) as [Ha Heq].
  cbv zeta in Heq. rewrite Hd in Heq. injection Heq as -> ->. cbn.
  destruct (exhaustion_entry bars a Ha Hd) as (Hty & Hlo & Hhi).
  set (c := max2 (sv_confidence (signal a)) (ex_confidence (exhaustion a))).
  assert (Hc : 0.7 < c).
  { pose proof (max2_ge_l (ex_confidence (exhaustion a)) (sv_confidence (signal a))).
    unfold c, max2 in *.
    destruct (ltb (sv_confidence (signal a)) (ex_confidence (exhaustion a))) eqn:E;
      [exact Hlo |]. apply ltb_ge in E. lra. }
  split; [reflexivity |]. split; [exact Hc |].
  unfold _determine_action.
  assert (H5 : ltb c 0.5 = false) by (apply ltb_ge; lra). rewrite H5.
  destruct Hty as [-> | ->]; cbn.
  - right. split; [reflexivity |]. destruct (ltb c 0.75); auto.
  - left. split; [reflexivity |]. destruct (ltb c 0.75); auto.
Qed.

Lemma exhaustion_recommendation_witness :
  let bars :=
    map (fun i : nat =>
           let base := 100 + 2 * inject_Z (Z.of_nat i) in
           {| Bars.timestamp := Z.of_nat i; open := base + 1; high := base + 1;
              low := base; close := base + 0.5;
              volume := 1000 + 100 * inject_Z (Z.of_nat i) |})
        (seq 0 10) in
  exists a pr fs,
    analyze_symbol (Ok bars) "SPY" "2024-01-01T00:00:00"
    = AnalysisSuccess "SPY" "2024-01-01T00:00:00" a pr fs
    /\ detected (exhaustion a) = true
    /\ pr = "high"%string /\ fsv_direction fs = "bearish"%string
    /\ (fsv_action fs = "consider_short"%string \/ fsv_action fs = "strong_short"%string).
Proof.
  intros bars.
  destruct (analyze_symbol (Ok bars) "SPY" "2024-01-01T00:00:00")
    as [? ? ? | s t a pr fs] eqn:E; [vm_compute in E; discriminate E |].
  assert (Hst : s = "SPY"%string /\ t = "2024-01-01T00:00:00"%string
                /\ detected (exhaustion a) = true /\ fsv_direction fs = "bearish"%string).
  { vm_compute in E. injection E as <- <- <- <- <-. repeat split. }
  destruct Hst as (-> & -> & Hd & Hdir).
  exists a, pr, fs. split; [reflexivity |]. split; [exact Hd |].
  destruct (exhaustion_recommendation bars "SPY" "2024-01-01T00:00:00" _ _ a pr fs E Hd)
    as (Hpr & _ & [[Hb _] | [_ Hact]]).
  - rewrite Hdir in Hb. discriminate Hb.
  - repeat split; assumption.
Defined.

(** X4: on bars with [low <= high] and non-negative volume, a successful
    [analyze_symbol] without exhaustion has one of three outcomes only:
    bullish with confidence 0.65, action [consider_long], priority
    ['medium']; bearish with confidence 0.65, action [consider_short],
    priority ['medium']; or neutral with confidence 0.3, action ['wait'],
    priority ['low'].  Without an exhaustion the agent never recommends
    [strong_long] or [strong_short] and never assigns priority ['high']. *)
Theorem recommendation_without_exhaustion (bars : list Bar) (sym now s t : string)
    (a : Analysis) (pr : string) (fs : FinalSignalView) :
  Forall (fun b => low b <= high b /\ 0 <= volume b) bars ->
  analyze_symbol (Ok bars) sym now = AnalysisSuccess s t a pr fs ->
  detected (exhaustion a) = false ->
  (pr, fs) = ("medium"%string, {| fsv_direction := "bullish"; fsv_confidence := 0.65;
                                   fsv_action := "consider_long" |})
  \/ (pr, fs) = ("medium"%string, {| fsv_direction := "bearish"; fsv_confidence := 0.65;
                                      fsv_action := "consider_short" |})
  \/ (pr, fs) = ("low"%string, {| fsv_direction := "neutral"; fsv_confidence := 0.3;
                                   fsv_action := "wait" |}).
Proof.
  intros Hwf Hs Hd. destruct (analyze_symbol_success _ _ _ _ _ _ _ _ Hs) as [Ha Heq].
  cbv zeta in Heq. rewrite Hd in Heq.
  destruct (orderflow_signal_cases bars a Hwf Ha) as [Hp Hc].
  rewrite Hp in Heq. cbn in Heq.
  destruct Hc as [(Ht & Hc & _) | [(Ht & Hc & _) | (Ht & Hc)]];
    rewrite Ht, Hc in Heq; rewrite Heq; cbn; auto.
Qed.

Lemma recommendation_without_exhaustion_witness :
  let bars := [ {| Bars.timestamp := 0; open := 100; high := 102; low := 99;
                   close := 102; volume := 1000 |};
                {| Bars.timestamp := 1; open := 102; high := 102; low := 100;
                   close := 101; volume := 500 |};
                {| Bars.timestamp := 2; open := 101; high := 105; low := 101;
                   close := 105; volume := 1500 |} ] in
  Forall (fun b => low b <= high b /\ 0 <= volume b) bars /\
  exists a pr fs,
    analyze_symbol (Ok bars) "SPY" "2024-01-01T00:00:00"
    = AnalysisSuccess "SPY" "2024-01-01T00:00:00" a pr fs
    /\ detected (exhaustion a) = false
    /\ fsv_action fs = "consider_long"%string.
Proof.
  intros bars.
  assert (Hwf : Forall (fun b => low b <= high b /\ 0 <= volume b) bars).
  { repeat constructor; cbn; discriminate. }
  split; [exact Hwf |].
  destruct (analyze_symbol (Ok bars) "SPY" "2024-01-01T00:00:00")
    as [? ? ? | s t a pr fs] eqn:E; [vm_compute in E; discriminate E |].
  assert (Hst : s = "SPY"%string /\ t = "2024-01-01T00:00:00"%string
                /\ detected (exhaustion a) = false /\ fsv_direction fs = "bullish"%string).
  { vm_compute in E. injection E as <- <- <- <- <-. repeat split. }
  destruct Hst as (-> & -> & Hd & Hdir).
  exists a, pr, fs. split; [reflexivity |]. split; [exact Hd |].
  destruct (recommendation_without_exhaustion bars "SPY" "2024-01-01T00:00:00" _ _ a pr fs
              Hwf E Hd) as [H | [H | H]]; injection H as -> ->; cbn in *;
    [reflexivity | discriminate | discriminate].
Defined.

End TapeReaderProps.

(** ** The value area and the volume nodes *)

Section ValueAreaCoverage.
Import Bars VolumeProfile ProfileAnalysis.
Local Open Scope Q_scope.

Lemma argmax_from_spec (xs : list Q) (best_i i : nat) (best : Q) :
  (best_i < i)%nat ->
  exists v,
    (argmax_from best_i best i xs = best_i /\ v = best
     \/ (i <= argmax_from best_i best i xs)%nat
        /\ xs !! (argmax_from best_i best i xs - i)%nat = Some v)
    /\ best <= v /\ Forall (fun x => x <= v) xs.
Proof.
  revert best_i i best. induction xs as [| x rest IH]; intros best_i i best Hlt; cbn.
  - exists best. split; [now left |]. split; [apply Qle_refl | constructor].
  - destruct (ltb best x) eqn:E.
    + apply ltb_lt in E.
      destruct (IH i (S i) x ltac:(lia)) as (v & Hv & Hb & Hall).
      exists v. split; [| split; [lra | constructor; assumption]].
      right. destruct Hv as [[-> ->] | [Hge Hl]].
      * split; [lia |]. now rewrite Nat.sub_diag.
      * split; [lia |].
        replace (argmax_from i x (S i) rest - i)%nat
          with (S (argmax_from i x (S i) rest - S i)) by lia.
        exact Hl.
    + apply ltb_ge in E.
      destruct (IH best_i (S i) best ltac:(lia)) as (v & Hv & Hb & Hall).
      exists v. split; [| split; [exact Hb | constructor; [lra | assumption]]].
      destruct Hv as [[Hr ->] | [Hge Hl]]; [now left | right].
      split; [lia |].
      replace (argmax_from best_i best (S i) rest - i)%nat
        with (S (argmax_from best_i best (S i) rest - S i)) by lia.
      exact Hl.
Qed.

(** [np.argmax] returns a bin of maximal volume. *)
Lemma argmax_maximal (xs : list Q) (i : nat) :
  argmax xs = Ok i -> exists v, xs !! i = Some v /\ Forall (fun x => x <= v) xs.
Proof.
  destruct xs as [| x rest]; cbn; [discriminate |]. intros [= <-].
  destruct (argmax_from_spec rest 0 1 x ltac:(lia)) as (v & Hv & Hb & Hall).
  exists v. split; [| constructor; assumption].
  destruct Hv as [[-> ->] | [Hge Hl]]; [reflexivity |].
  destruct (argmax_from 0 x 1 rest) as [| k]; [lia |].
  cbn. now replace (S k - 1)%nat with k in Hl by lia.
Qed.

Lemma range_volume_single (vp : list Q) (p : nat) (v : Q) :
  vp !! p = Some v -> range_volume vp p p == v.
Proof.
  intros H. unfold range_volume. replace (p + 1 - p)%nat with 1%nat by lia.
  rewrite (drop_S _ _ _ H). rewrite firstn_cons, take_0. unfold sum. cbn [foldr]. ring.
Qed.

Lemma range_volume_up (vp : list Q) (low high : nat) (v : Q) :
  (low <= high)%nat -> vp !! (high + 1)%nat = Some v ->
  range_volume vp low (high + 1) == range_volume vp low high + v.
Proof.
  intros Hle H. unfold range_volume.
  replace (high + 1 + 1 - low)%nat with (S (high + 1 - low)) by lia.
  rewrite (take_S_r _ _ v).
  - rewrite sum_app. unfold sum at 2. cbn [foldr]. ring.
  - rewrite lookup_drop. now replace (low + (high + 1 - low))%nat with (high + 1)%nat by lia.
Qed.

Lemma range_volume_down (vp : list Q) (low high : nat) (v : Q) :
  (1 <= low <= high)%nat -> vp !! (low - 1)%nat = Some v ->
  range_volume vp (low - 1) high == v + range_volume vp low high.
Proof.
  intros Hle H. unfold range_volume.
  rewrite (drop_S _ _ _ H).
  replace (high + 1 - (low - 1))%nat with (S (high + 1 - low)) by lia.
  replace (S (low - 1)) with low by lia. rewrite firstn_cons. unfold sum. cbn [foldr].
  reflexivity.
Qed.

(** The loop keeps [current_volume] equal to the volume of the bins between
    its bounds, and with non-negative volumes it stops only when the target
    is reached or every bin is inside. *)
Lemma expand_accumulates (fuel : nat) (vp : list Q) (target cur : Q) (low high : nat) :
  Forall (fun v => 0 <= v) vp ->
  (low <= high)%nat -> (high < length vp)%nat ->
  (low + (length vp - 1 - high) <= fuel)%nat ->
  cur == range_volume vp low high ->
  let '(c, l, h) := expand fuel vp target cur low high in
  c == range_volume vp l h
  /\ (target <= c \/ l = 0%nat /\ (h + 1)%nat = length vp).
Proof.
  intros Hnn. revert cur low high.
  induction fuel as [| fuel IH]; intros cur low high Hle Hh Hf Hc; cbn [expand].
  - split; [exact Hc | right; lia].
  - destruct (ltb cur target) eqn:Et; [| split; [exact Hc | left; now apply ltb_ge]].
    destruct (Nat.ltb_spec (high + 1) (length vp)) as [Hup | Hup].
    + destruct (lookup_lt_is_Some_2 vp (high + 1) Hup) as [va Hva].
      rewrite (nth_lookup_Some _ _ 0 _ Hva).
      destruct (leb _ va) eqn:El; cbn [andb].
      * apply IH; [lia | lia | lia |].
        rewrite (range_volume_up vp low high va Hle Hva). now rewrite Hc.
      * destruct (Nat.leb_spec 1 low) as [Hlo | Hlo].
        -- destruct (lookup_lt_is_Some_2 vp (low - 1) ltac:(lia)) as [vb Hvb].
           rewrite (nth_lookup_Some _ _ 0 _ Hvb).
           apply IH; [lia | lia | lia |].
           rewrite (range_volume_down vp low high vb ltac:(lia) Hvb). rewrite Hc. ring.
        -- exfalso. apply not_true_iff_false in El. apply El.
           apply Qle_bool_iff.
           rewrite Forall_forall in Hnn. apply Hnn.
           now apply list_elem_of_lookup_2 with (high + 1)%nat.
    + rewrite andb_false_r.
      destruct (Nat.leb_spec 1 low) as [Hlo | Hlo].
      * destruct (lookup_lt_is_Some_2 vp (low - 1) ltac:(lia)) as [vb Hvb].
        rewrite (nth_lookup_Some _ _ 0 _ Hvb).
        apply IH; [lia | lia | lia |].
        rewrite (range_volume_down vp low high vb ltac:(lia) Hvb). rewrite Hc. ring.
      * split; [exact Hc | right; lia].
Qed.

Lemma sum_nonneg (xs : list Q) : Forall (fun v => 0 <= v) xs -> 0 <= sum xs.
Proof.
  unfold sum. induction 1 as [| x xs Hx _ IH]; cbn; [apply Qle_refl | lra].
Qed.

Lemma range_volume_all (vp : list Q) (h : nat) :
  (h + 1)%nat = length vp -> range_volume vp 0 h = sum vp.
Proof.
  intros H. unfold range_volume. rewrite drop_0, Nat.sub_0_r, H. now rewrite firstn_all.
Qed.

(** X5: for a non-empty array of non-negative bin volumes and a value-area
    fraction of at most 1, [calculate_value_area] returns the upper edge of
    a bin [high_bin] and the lower edge of a bin [low_bin] around the bin of
    maximal volume found by [np.argmax], and the bins from [low_bin] to
    [high_bin] together hold at least the fraction [value_area_pct] of the
    total volume. *)
Theorem value_area_covers_target (vp pb : list Q) (bs pct : Q) :
  (0 < length vp)%nat -> Forall (fun v => 0 <= v) vp -> pct <= 1 ->
  (length vp <= length pb)%nat ->
  exists poc_bin low_bin high_bin peak,
    argmax vp = Ok poc_bin /\ vp !! poc_bin = Some peak /\ Forall (fun v => v <= peak) vp
    /\ (low_bin <= poc_bin <= high_bin)%nat /\ (high_bin < length vp)%nat
    /\ calculate_value_area vp pb bs pct = Ok (nth high_bin pb 0 + bs, nth low_bin pb 0)
    /\ sum vp * pct <= range_volume vp low_bin high_bin.
Proof.
  intros Hne Hnn Hpct Hlen.
  destruct (argmax_nonempty vp Hne) as [poc_bin Ha].
  destruct (argmax_maximal vp poc_bin Ha) as (peak & Hpeak & Hmax).
  pose proof (argmax_bound vp poc_bin Ha) as Hp.
  unfold calculate_value_area. rewrite Ha. cbn [mbind result_bind].
  rewrite (get_nth vp poc_bin Hp). cbn [mbind result_bind].
  rewrite (nth_lookup_Some _ _ 0 _ Hpeak).
  pose proof (expand_bounds (length vp) vp (sum vp * pct) peak
                poc_bin poc_bin poc_bin ltac:(lia) Hp) as Hb.
  pose proof (expand_accumulates (length vp) vp (sum vp * pct) peak poc_bin poc_bin
                Hnn ltac:(lia) Hp ltac:(lia)
                ltac:(symmetry; now apply range_volume_single)) as Hacc.
  destruct (expand (length vp) vp (sum vp * pct) peak poc_bin poc_bin) as [[c l] h].
  destruct Hb as [Hb1 Hb2]. destruct Hacc as [Hc Hstop].
  exists poc_bin, l, h, peak.
  rewrite (get_nth pb l) by lia. cbn [mbind result_bind].
  rewrite (get_nth pb h) by lia. cbn [mbind result_bind].
  repeat split; try assumption; try lia.
  destruct Hstop as [Ht | [-> Hall]]; [now rewrite <- Hc |].
  rewrite (range_volume_all vp h Hall).
  pose proof (sum_nonneg vp Hnn) as Hs.
  assert (H1 : 0 <= (1 - pct) * sum vp) by (apply Qmult_le_0_compat; lra).
  assert (H2 : (1 - pct) * sum vp == sum vp - sum vp * pct) by ring.
  lra.
Qed.

Lemma value_area_covers_target_witness :
  let vp := [250; 1250 # 3; 1250 # 3; 1250 # 3] in
  let pb := [99; 100; 101; 102; 103] in
  (0 < length vp)%nat /\ Forall (fun v => 0 <= v) vp /\ 0.7 <= 1
  /\ (length vp <= length pb)%nat
  /\ exists low_bin high_bin,
       calculate_value_area vp pb 1 0.7 = Ok (nth high_bin pb 0 + 1, nth low_bin pb 0)
       /\ sum vp * 0.7 <= range_volume vp low_bin high_bin.
Proof.
  intros vp pb.
  assert (H1 : (0 < length vp)%nat) by (cbn; lia).
  assert (H2 : Forall (fun v => 0 <= v) vp) by (repeat constructor; discriminate).
  assert (H3 : 0.7 <= 1) by discriminate.
  assert (H4 : (length vp <= length pb)%nat) by (cbn; lia).
  repeat (split; [assumption |]).
  destruct (value_area_covers_target vp pb 1 0.7 H1 H2 H3 H4)
    as (p & l & h & peak & _ & _ & _ & _ & _ & Hva & Hcov).
  exists l, h. split; assumption.
Defined.

End ValueAreaCoverage.

Section VolumeNodes.
Import Bars VolumeProfile ProfileAnalysis.
Local Open Scope Q_scope.

Lemma nodes_sound (keep : nat -> Q -> bool) (pb : list Q) (bs : Q) (i : nat)
    (vols out : list Q) :
  nodes keep pb bs i vols = Ok out ->
  Forall (fun p => exists j v edge,
            vols !! j = Some v /\ pb !! (i + j)%nat = Some edge
            /\ keep (i + j)%nat v = true /\ p = edge + bs / 2) out.
Proof.
  revert i out. induction vols as [| vol rest IH]; intros i out; cbn [nodes].
  - intros [= <-]. constructor.
  - assert (Hrest : forall tl, nodes keep pb bs (S i) rest = Ok tl ->
      Forall (fun p => exists j v edge,
                (vol :: rest) !! j = Some v /\ pb !! (i + j)%nat = Some edge
                /\ keep (i + j)%nat v = true /\ p = edge + bs / 2) tl).
    { intros tl Htl. eapply Forall_impl; [exact (IH _ _ Htl) |].
      intros p (j & v & edge & H1 & H2 & H3 & H4).
      exists (S j), v, edge. replace (i + S j)%nat with (S i + j)%nat by lia.
      repeat split; assumption. }
    destruct (keep i vol) eqn:Ek; [| apply Hrest].
    unfold get. destruct (pb !! i) as [edge |] eqn:Ep; [| discriminate].
    cbn [mbind result_bind].
    destruct (nodes keep pb bs (S i) rest) as [tl | e]; [| discriminate].
    cbn [mbind result_bind]. intros [= <-]. constructor; [| now apply Hrest].
    exists 0%nat, vol, edge. rewrite Nat.add_0_r. repeat split; assumption.
Qed.

Lemma nodes_complete (keep : nat -> Q -> bool) (pb : list Q) (bs : Q) (i : nat)
    (vols out : list Q) (j : nat) (v : Q) :
  nodes keep pb bs i vols = Ok out ->
  vols !! j = Some v -> keep (i + j)%nat v = true ->
  exists edge, pb !! (i + j)%nat = Some edge /\ edge + bs / 2 ∈ out.
Proof.
  revert i out j. induction vols as [| vol rest IH]; intros i out j; cbn [nodes].
  - intros _ H. discriminate H.
  - destruct j as [| j]; cbn.
    + intros Hn [= ->]. rewrite Nat.add_0_r. intros Hk. rewrite Hk in Hn.
      unfold get in Hn. destruct (pb !! i) as [edge |]; [| discriminate].
      cbn [mbind result_bind] in Hn.
      destruct (nodes keep pb bs (S i) rest) as [tl | e]; [| discriminate].
      cbn in Hn. injection Hn as <-. exists edge. split; [reflexivity | left].
    + intros Hn Hv Hk. replace (i + S j)%nat with (S i + j)%nat in * by lia.
      destruct (keep i vol).
      * unfold get in Hn. destruct (pb !! i) as [edge0 |]; [| discriminate].
        cbn [mbind result_bind] in Hn.
        destruct (nodes keep pb bs (S i) rest) as [tl | e] eqn:Et; [| discriminate].
        cbn in Hn. injection Hn as <-.
        destruct (IH (S i) tl j Et Hv Hk) as (edge & He & Hin).
        exists edge. split; [exact He | now right].
      * exact (IH (S i) out j Hn Hv Hk).
Qed.

(** X6: every price returned by [find_hvn] with the threshold 1.5 is the
    midpoint of a bin holding at least 1.5 times the mean bin volume, and
    every bin holding at least twice the mean is returned; every price
    returned by [find_lvn] with the threshold 0.5 is the midpoint of a bin
    with a positive volume of at most half the mean; no bin qualifies for
    both lists. *)
Theorem volume_nodes_sound (vp pb : list Q) (bs : Q) (hv lv : list Q) :
  find_hvn vp pb bs 1.5 = Ok hv -> find_lvn vp pb bs 0.5 = Ok lv ->
  Forall (fun p => exists j v edge,
            vp !! j = Some v /\ pb !! j = Some edge /\ p = edge + bs / 2
            /\ mean vp * 1.5 <= v) hv
  /\ (forall j v, vp !! j = Some v -> mean vp * 2 <= v -> 0 <= mean vp ->
        exists edge, pb !! j = Some edge /\ edge + bs / 2 ∈ hv)
  /\ Forall (fun p => exists j v edge,
               vp !! j = Some v /\ pb !! j = Some edge /\ p = edge + bs / 2
               /\ 0 < v /\ v <= mean vp * 0.5) lv
  /\ (forall v, mean vp * 1.5 <= v -> 0 < v -> v <= mean vp * 0.5 -> False).
Proof.
  unfold find_hvn, find_lvn. cbv zeta. intros Hh Hl.
  split; [| split; [| split]].
  - eapply Forall_impl; [exact (nodes_sound _ _ _ _ _ _ Hh) |].
    intros p (j & v & edge & H1 & H2 & H3 & H4). cbn in H2, H3.
    exists j, v, edge. repeat split; try assumption.
    apply andb_true_iff in H3 as [H3 _]. now apply Qle_bool_iff in H3.
  - intros j v Hv H2 Hm.
    apply (nodes_complete _ pb bs 0 vp hv j v Hh Hv). cbn.
    apply andb_true_iff. split.
    + apply Qle_bool_iff. lra.
    + apply orb_true_iff. right. now apply Qle_bool_iff.
  - eapply Forall_impl; [exact (nodes_sound _ _ _ _ _ _ Hl) |].
    intros p (j & v & edge & H1 & H2 & H3 & H4). cbn in H2, H3.
    exists j, v, edge. repeat split; try assumption.
    + apply andb_true_iff in H3 as [H3 _]. apply andb_true_iff in H3 as [H3 _].
      apply andb_true_iff in H3 as [_ H3]. now apply ltb_lt.
    + apply andb_true_iff in H3 as [H3 _]. apply andb_true_iff in H3 as [H3 _].
      apply andb_true_iff in H3 as [H3 _]. now apply Qle_bool_iff in H3.
  - intros v H1 H2 H3. lra.
Qed.

Lemma volume_nodes_sound_witness :
  let vp := [10; 100; 10; 1; 10] in
  let pb := [0; 1; 2; 3; 4; 5] in
  exists hv lv,
    find_hvn vp pb 1 1.5 = Ok hv /\ find_lvn vp pb 1 0.5 = Ok lv
    /\ length hv = 1%nat /\ length lv = 2%nat
    /\ Forall (fun p => exists j v edge,
                 vp !! j = Some v /\ pb !! j = Some edge /\ p = edge + 1 / 2
                 /\ mean vp * 1.5 <= v) hv.
Proof.
  intros vp pb.
  destruct (find_hvn vp pb 1 1.5) as [hv | e] eqn:Hh; [| vm_compute in Hh; discriminate Hh].
  destruct (find_lvn vp pb 1 0.5) as [lv | e] eqn:Hl; [| vm_compute in Hl; discriminate Hl].
  exists hv, lv. split; [reflexivity |]. split; [reflexivity |].
  split; [vm_compute in Hh; injection Hh as <-; reflexivity |].
  split; [vm_compute in Hl; injection Hl as <-; reflexivity |].
  exact (proj1 (volume_nodes_sound vp pb 1 hv lv Hh Hl)).
Defined.

(** What each field of a result of [build_volume_profile] on a non-empty
    window is. *)
Lemma build_inversion (b0 : Bar) (rest : list Bar) (bins : nat) (pct : Q)
    (r : VolumeProfileResult) :
  build_volume_profile (b0 :: rest) bins pct = Ok r ->
  let price_min := price_min_of b0 rest in
  let bin_size := bin_size_of b0 rest bins in
  let price_bins := linspace price_min (price_max_of b0 rest) bins in
  let volume_profile := accumulate bins price_min bin_size (b0 :: rest) in
  exists poc_bin last_bar,
    argmax volume_profile = Ok poc_bin
    /\ poc r = nth poc_bin price_bins 0 + bin_size / 2
    /\ calculate_value_area volume_profile price_bins bin_size pct = Ok (vah r, val r)
    /\ find_hvn volume_profile price_bins bin_size 1.5 = Ok (hvn r)
    /\ find_lvn volume_profile price_bins bin_size 0.5 = Ok (lvn r)
    /\ profile r = profile_dict bins price_bins volume_profile bin_size
    /\ determine_regime (b0 :: rest) (poc r) (vah r) (val r) = Ok (regime r)
    /\ last_item (b0 :: rest) = Ok last_bar
    /\ current_position r
       = (if ltb (vah r) (close last_bar) then "above_vah"
          else if ltb (close last_bar) (val r) then "below_val" else "in_value")%string.
Proof.
  cbv zeta. unfold build_volume_profile.
  destruct (argmax _) as [poc_bin | e] eqn:E1; [| discriminate]. cbn [mbind result_bind].
  destruct (calculate_value_area _ _ _ _) as [[vah0 val0] | e] eqn:E2; [| discriminate].
  cbn [mbind result_bind].
  destruct (find_hvn _ _ _ _) as [hv | e] eqn:E3; [| discriminate]. cbn [mbind result_bind].
  destruct (find_lvn _ _ _ _) as [lv | e] eqn:E4; [| discriminate]. cbn [mbind result_bind].
  destruct (determine_regime _ _ _ _) as [g | e] eqn:E5; [| discriminate].
  cbn [mbind result_bind].
  destruct (last_item (b0 :: rest)) as [lb | e] eqn:E6; [| discriminate].
  cbn [mbind result_bind].
  intros [= <-]. cbn [poc vah val hvn lvn profile regime current_position].
  exists poc_bin, lb. repeat split; assumption || reflexivity.
Qed.

(** On a well-formed window the value area lies at non-negative prices. *)
Lemma value_area_bounds (b0 : Bar) (rest : list Bar) (bins : nat) (pct : Q)
    (r : VolumeProfileResult) :
  (0 < bins)%nat -> Forall well_formed (b0 :: rest) ->
  build_volume_profile (b0 :: rest) bins pct = Ok r ->
  0 <= val r /\ val r <= vah r.
Proof.
  intros Hbins Hwf Hr.
  destruct (build_volume_profile_shape b0 rest bins pct Hbins)
    as (r' & low_bin & poc_bin & high_bin & Hr' & Hord & Hhigh & _ & Hval & Hvah & _ & _).
  rewrite Hr in Hr'. injection Hr' as <-.
  set (pmin := price_min_of b0 rest) in *. set (pmax := price_max_of b0 rest) in *.
  set (bs := bin_size_of b0 rest bins) in *.
  assert (Hbs : 0 <= bs) by (apply bin_size_nonneg; assumption).
  assert (Hmin : 0 <= pmin) by (now apply window_min_nonneg).
  assert (Hstep : 0 <= (pmax - pmin) / inject_Z (Z.of_nat bins)).
  { apply Qle_shift_div_l; [now apply inject_nat_pos |].
    pose proof (window_min_le_max b0 rest ltac:(now inversion Hwf)) as Hmm.
    fold pmin pmax in Hmm. lra. }
  assert (Hl : 0 <= inject_Z (Z.of_nat low_bin) * ((pmax - pmin) / inject_Z (Z.of_nat bins))).
  { apply Qmult_le_0_compat; [| exact Hstep].
    change 0 with (inject_Z 0). rewrite <- Zle_Qle. lia. }
  assert (Hh : inject_Z (Z.of_nat low_bin) * ((pmax - pmin) / inject_Z (Z.of_nat bins))
               <= inject_Z (Z.of_nat high_bin) * ((pmax - pmin) / inject_Z (Z.of_nat bins))).
  { apply Qmult_le_compat_r; [apply inject_nat_le; lia | exact Hstep]. }
  rewrite Hval, Hvah, !linspace_nth by lia. split; lra.
Qed.

(** X7: on a window of well-formed bars, when the regime returned by
    [build_volume_profile] is [BREAKOUT] the window has at least 20 bars and
    the reported position agrees with the side of the breakout: the last
    close is above [vah * 1.005] and the position is ['above_vah'], or it is
    below [val * 0.995] and the position is ['below_val']; it is never
    ['in_value']. *)
Theorem breakout_position (bars : list Bar) (bins : nat) (pct : Q)
    (r : VolumeProfileResult) :
  (0 < bins)%nat -> Forall well_formed bars ->
  build_volume_profile bars bins pct = Ok r -> regime r = BREAKOUT ->
  (20 <= length bars)%nat
  /\ exists last_bar, last_item bars = Ok last_bar
     /\ (vah r * 1.005 < close last_bar /\ current_position r = "above_vah"%string
         \/ close last_bar < val r * 0.995 /\ current_position r = "below_val"%string).
Proof.
  intros Hbins Hwf Hr Hg. destruct bars as [| b0 rest].
  - cbn in Hr. injection Hr as <-. discriminate Hg.
  - destruct (value_area_bounds b0 rest bins pct r Hbins Hwf Hr) as [Hv0 Hv1].
    destruct (build_inversion b0 rest bins pct r Hr)
      as (poc_bin & lb & _ & _ & _ & _ & _ & _ & Hreg & Hlast & Hpos).
    rewrite Hg in Hreg. unfold determine_regime in Hreg.
    destruct (Nat.ltb_spec (length (b0 :: rest)) 20); [discriminate |].
    split; [lia |]. exists lb. split; [exact Hlast |].
    rewrite Hlast in Hreg. cbn [mbind result_bind] in Hreg. rewrite Hpos.
    destruct (ltb (vah r * 1.005) (close lb)) eqn:E1.
    + apply ltb_lt in E1. left. split; [exact E1 |].
      assert (H1 : ltb (vah r) (close lb) = true) by (apply ltb_lt; lra).
      now rewrite H1.
    + destruct (ltb (close lb) (val r * 0.995)) eqn:E2.
      * apply ltb_lt in E2. right. split; [exact E2 |].
        assert (H1 : ltb (vah r) (close lb) = false) by (apply ltb_ge; lra).
        assert (H2 : ltb (close lb) (val r) = true) by (apply ltb_lt; lra).
        now rewrite H1, H2.
      * repeat match type of Hreg with
               | context [if ?b then _ else _] => destruct b
               end; discriminate.
Qed.

Lemma breakout_position_witness :
  let calm := {| timestamp := 0; open := 100; high := 101; low := 99;
                 close := 100; volume := 1000 |} in
  let jump := {| timestamp := 1; open := 101; high := 110; low := 101;
                 close := 110; volume := 100 |} in
  let bars := replicate 23 calm ++ [jump] in
  exists r, build_volume_profile bars 10 default_value_area_pct = Ok r
    /\ regime r = BREAKOUT
    /\ (20 <= length bars)%nat
    /\ exists last_bar, last_item bars = Ok last_bar
       /\ (vah r * 1.005 < close last_bar
             /\ current_position r = "above_vah"%string
           \/ close last_bar < val r * 0.995
             /\ current_position r = "below_val"%string).
Proof.
  intros calm jump bars.
  assert (Hb : (0 < 10)%nat) by lia.
  assert (Hwf : Forall well_formed bars).
  { repeat constructor; cbn; discriminate. }
  destruct (build_volume_profile bars 10 default_value_area_pct) as [r | e] eqn:Hr;
    [| vm_compute in Hr; discriminate Hr].
  assert (Hg : regime r = BREAKOUT).
  { vm_compute in Hr. injection Hr as <-. reflexivity. }
  exists r. split; [reflexivity |]. split; [exact Hg |].
  exact (breakout_position bars 10 default_value_area_pct r Hb Hwf Hr Hg).
Defined.

End VolumeNodes.

(** ** Break and retest, and the profile summary *)

Section BreakAndRetest.
Import Bars VolumeProfile ProfileAnalysis.
Local Open Scope Q_scope.

Lemma scanned_step (was_above : bool) (key_level tolerance : Q) (seen : list Bar)
    (st : ScanState) (b : Bar) :
  scanned was_above key_level tolerance seen st ->
  scanned was_above key_level tolerance (seen ++ [b])
    (scan_bar was_above key_level tolerance st b).
Proof.
  intros [Hb Hr].
  assert (Hnew : (seen ++ [b]) !! length seen = Some b).
  { rewrite lookup_app_r by lia. now rewrite Nat.sub_diag. }
  assert (Hold : forall i x, seen !! i = Some x -> (seen ++ [b]) !! i = Some x).
  { intros i x Hi. now apply lookup_app_l_Some. }
  assert (Hlen : forall i x, seen !! i = Some x -> (i <= length seen)%nat).
  { intros i x Hi. apply lookup_lt_Some in Hi. lia. }
  assert (Hr' : retest_found st = true ->
     exists i j bi bj, (i <= j)%nat /\ (seen ++ [b]) !! i = Some bi
       /\ (seen ++ [b]) !! j = Some bj
       /\ (if was_above then breaks_down key_level tolerance bi
           else breaks_up key_level tolerance bi) = true
       /\ price_at_level key_level tolerance bj = true).
  { intros H. destruct (Hr H) as (i & j & bi & bj & Hij & Hi & Hj & H1 & H2).
    exists i, j, bi, bj. repeat split; auto. }
  assert (Hb' : broke_level st = true ->
     break_direction st = Some (if was_above then "down" else "up")%string
     /\ exists i bi, (i <= length seen)%nat /\ (seen ++ [b]) !! i = Some bi
          /\ (if was_above then breaks_down key_level tolerance bi
              else breaks_up key_level tolerance bi) = true).
  { intros H. destruct (Hb H) as (Hd & i & bi & Hi & H1).
    split; [exact Hd |]. exists i, bi. repeat split; eauto. }
  clear Hb Hr Hold.
  unfold scan_bar.
  set (st1 := if was_above && breaks_down key_level tolerance b then _ else _).
  assert (H1 : broke_level st1 = true ->
     break_direction st1 = Some (if was_above then "down" else "up")%string
     /\ exists i bi, (i <= length seen)%nat /\ (seen ++ [b]) !! i = Some bi
          /\ (if was_above then breaks_down key_level tolerance bi
              else breaks_up key_level tolerance bi) = true).
  { subst st1. destruct was_above; cbn [andb negb].
    - destruct (breaks_down key_level tolerance b) eqn:E; [| exact Hb'].
      intros _. split; [reflexivity |]. exists (length seen), b. auto.
    - destruct (breaks_up key_level tolerance b) eqn:E; [| exact Hb'].
      intros _. split; [reflexivity |]. exists (length seen), b. auto. }
  assert (H2 : retest_found st1 = retest_found st).
  { subst st1. destruct (was_above && _); [reflexivity |].
    destruct (negb was_above && _); reflexivity. }
  clearbody st1.
  destruct (broke_level st1) eqn:Eb.
  - destruct (price_at_level key_level tolerance b) eqn:Ep.
    + split; cbn [broke_level retest_found break_direction].
      * intros _. destruct (H1 eq_refl) as (Hd & i & bi & _ & Hi & Hc).
        split; [exact Hd |]. exists i, bi. auto.
      * intros _. destruct (H1 eq_refl) as (Hd & i & bi & Hle & Hi & Hc).
        exists i, (length seen), bi, b. auto.
    + split.
      * intros _. destruct (H1 eq_refl) as (Hd & i & bi & _ & Hi & Hc).
        split; [exact Hd |]. exists i, bi. auto.
      * rewrite H2. exact Hr'.
  - split; [rewrite Eb; discriminate |]. rewrite H2. exact Hr'.
Qed.

Lemma scanned_fold (was_above : bool) (key_level tolerance : Q) (bars seen : list Bar)
    (st : ScanState) :
  scanned was_above key_level tolerance seen st ->
  scanned was_above key_level tolerance (seen ++ bars)
    (fold_left (scan_bar was_above key_level tolerance) bars st).
Proof.
  revert seen st. induction bars as [| b rest IH]; intros seen st H; cbn [fold_left].
  - now rewrite app_nil_r.
  - replace (seen ++ b :: rest) with ((seen ++ [b]) ++ rest) by now rewrite <- app_assoc.
    apply IH, scanned_step, H.
Qed.

(** A bar that breaks the level is not within the tolerance of it. *)
Lemma break_is_no_touch (above : bool) (key_level tolerance : Q) (b : Bar) :
  0 < key_level -> 0 <= tolerance ->
  (if above then breaks_down key_level tolerance b
   else breaks_up key_level tolerance b) = true ->
  price_at_level key_level tolerance b = false.
Proof.
  intros Hk Ht Hb. unfold price_at_level.
  destruct (eqb key_level 0) eqn:E; [reflexivity |].
  apply ltb_ge. apply Qle_shift_div_l; [exact Hk |].
  destruct above; apply ltb_lt in Hb.
  - assert (Hs : close b - key_level <= 0) by nra.
    pose proof (Qabs_neg _ Hs). nra.
  - assert (Hs : 0 <= close b - key_level) by nra.
    pose proof (Qabs_pos _ Hs). nra.
Qed.


(** X8: when [analyze_break_and_retest] reports a pattern at a positive
    level with a non-negative tolerance, the window has at least 10 bars,
    the direction is decided by the first five closes of the last 20 bars
    alone (['down'] and bearish when their mean is above the level, ['up']
    and bullish otherwise), the confidence is 0.75, and among the last 20
    bars there is a bar that closed beyond the level by more than the
    tolerance and a strictly later bar that closed within the tolerance of
    the level. *)
Theorem break_and_retest_sound (bars : list Bar) (key_level tolerance : Q)
    (r : BreakRetest) :
  0 < key_level -> 0 <= tolerance ->
  analyze_break_and_retest bars key_level tolerance = Some r ->
  let recent := tail 20 bars in
  let above := ltb key_level (mean (take 5 (close <$> recent))) in
  (10 <= length bars)%nat
  /\ br_level r = key_level /\ br_confidence r = 0.75
  /\ br_direction r = (if above then "down" else "up")%string
  /\ br_signal r = (if above then "bearish" else "bullish")%string
  /\ exists i j bi bj,
       (i < j)%nat /\ recent !! i = Some bi /\ recent !! j = Some bj
       /\ (if above then close bi < key_level * (1 - tolerance)
           else key_level * (1 + tolerance) < close bi)
       /\ Qabs (close bj - key_level) / key_level < tolerance.
Proof.
  intros Hk Ht Hr recent above. unfold analyze_break_and_retest in Hr.
  destruct (Nat.ltb_spec (length bars) 10) as [| Hlen]; [discriminate |].
  fold recent in Hr. unfold was_above_level in Hr. fold above in Hr.
  assert (Hinv : scanned above key_level tolerance ([] ++ recent)
                   (fold_left (scan_bar above key_level tolerance) recent scan_start)).
  { apply scanned_fold. split; discriminate. }
  cbn [app] in Hinv. destruct Hinv as [Hb Hrt].
  destruct (broke_level _) eqn:Eb; [| discriminate].
  destruct (retest_found _) eqn:Er; [| discriminate].
  cbn [andb] in Hr. destruct (Hb eq_refl) as [Hd _]. rewrite Hd in Hr.
  injection Hr as <-. cbn [br_level br_confidence br_direction br_signal default from_option id].
  split; [exact Hlen |]. split; [reflexivity |]. split; [reflexivity |].
  split; [reflexivity |]. split; [now destruct above |].
  destruct (Hrt eq_refl) as (i & j & bi & bj & Hij & Hi & Hj & Hbreak & Htouch).
  assert (Hne : i <> j).
  { intros ->. rewrite Hi in Hj. injection Hj as ->.
    rewrite (break_is_no_touch above key_level tolerance bj Hk Ht Hbreak) in Htouch.
    discriminate. }
  exists i, j, bi, bj. split; [lia |]. split; [exact Hi |]. split; [exact Hj |].
  split.
  - destruct above; apply ltb_lt in Hbreak; exact Hbreak.
  - unfold price_at_level in Htouch. destruct (eqb key_level 0); [discriminate |].
    now apply ltb_lt in Htouch.
Qed.

Lemma break_and_retest_sound_witness :
  let bar c := {| timestamp := 0; open := c; high := c + 1; low := c - 1;
                  close := c; volume := 1000 |} in
  let bars := bar <$> [101; 101; 101; 101; 101; 101; 101; 99; 100.1; 100.5] in
  exists r, analyze_break_and_retest bars 100 default_tolerance = Some r
    /\ br_direction r = "down"%string /\ br_signal r = "bearish"%string
    /\ exists i j bi bj,
         (i < j)%nat /\ tail 20 bars !! i = Some bi /\ tail 20 bars !! j = Some bj
         /\ close bi < 100 * (1 - default_tolerance)
         /\ Qabs (close bj - 100) / 100 < default_tolerance.
Proof.
  intros bar bars.
  destruct (analyze_break_and_retest bars 100 default_tolerance) as [r |] eqn:Hr;
    [| vm_compute in Hr; discriminate Hr].
  assert (H0 : 0 < 100) by reflexivity.
  assert (H1 : 0 <= default_tolerance) by discriminate.
  destruct (break_and_retest_sound bars 100 default_tolerance r H0 H1 Hr)
    as (_ & _ & _ & Hd & Hs & Hex).
  exists r. split; [reflexivity |]. split; [exact Hd |]. split; [exact Hs |]. exact Hex.
Defined.

Lemma dict_set_length (k v : Q) (d : list (Q * Q)) :
  (length (dict_set k v d) <= S (length d))%nat.
Proof.
  induction d as [| [k' v'] d IH]; cbn; [lia |].
  destruct (eqb k k'); cbn; lia.
Qed.

Lemma profile_dict_length (n : nat) (pb vp : list Q) (bs : Q) :
  (length (profile_dict n pb vp bs) <= n)%nat.
Proof.
  unfold profile_dict.
  assert (H : forall (l : list nat) (d : list (Q * Q)),
    (length (fold_left (fun (d : list (Q * Q)) (i : nat) =>
                          dict_set (nth i pb 0 + bs / 2)%Q (nth i vp 0%Q) d) l d)
     <= length d + length l)%nat).
  { induction l as [| i l IH]; intros d; cbn [fold_left length]; [lia |].
    etransitivity; [apply IH |].
    pose proof (dict_set_length (nth i pb 0 + bs / 2) (nth i vp 0) d). lia. }
  etransitivity; [apply H |]. cbn. now rewrite length_seq.
Qed.

(** X9: [get_volume_profile_analysis] never raises on a window of
    well-formed bars; the width of the value area that it reports is not
    negative, it lists at most five nodes of either kind and never more
    than 100 buckets; for the empty window the profile is empty and no
    pattern is reported, and for a window whose prices are not all equal
    there are exactly 100 buckets and their volumes add up to the volume of
    the window. *)
Theorem profile_summary_sound (bars : list Bar) :
  Forall well_formed bars ->
  exists s, get_volume_profile_analysis bars = Ok s
    /\ 0 <= value_area_width s
    /\ (length (ps_hvn s) <= 5)%nat /\ (length (ps_lvn s) <= 5)%nat
    /\ length (profile_prices s) = length (profile_volumes s)
    /\ (length (profile_prices s) <= 100)%nat
    /\ match bars with
       | [] => profile_prices s = [] /\ break_and_retest s = None
       | b0 :: rest =>
           ~ price_max_of b0 rest == price_min_of b0 rest ->
           length (profile_prices s) = 100%nat
           /\ sum (profile_volumes s) == sum (volume <$> bars)
       end.
Proof.
  intros Hwf. unfold get_volume_profile_analysis.
  assert (Hbins : (0 < default_bins)%nat) by (unfold default_bins; lia).
  destruct bars as [| b0 rest].
  - eexists. split; [reflexivity |].
    cbn. repeat split; try lia; discriminate.
  - destruct (build_volume_profile_shape b0 rest default_bins default_value_area_pct Hbins)
      as (r & _ & _ & _ & Hr & _ & _ & _ & _ & _ & _ & Hprof).
    destruct (value_area_bounds b0 rest _ _ r Hbins Hwf Hr) as [_ Hw].
    rewrite Hr. cbn [mbind result_bind]. eexists. split; [reflexivity |].
    cbn [value_area_width ps_hvn ps_lvn profile_prices profile_volumes].
    split; [lra |].
    split; [rewrite length_take; lia |]. split; [rewrite length_take; lia |].
    split; [now rewrite !length_fmap |].
    split; [rewrite length_fmap, Hprof; apply profile_dict_length |].
    intros Hne. destruct (profile_conserved_nondegenerate b0 rest default_bins
                            default_value_area_pct Hbins Hwf Hne) as (r' & Hr' & Hsum).
    rewrite Hr in Hr'. injection Hr' as <-. split; [| exact Hsum].
    rewrite length_fmap, Hprof.
    rewrite profile_dict_distinct
      by (intros i j Hij; apply linspace_keys_distinct; [exact Hbins | exact Hne | lia]).
    now rewrite length_map, length_seq.
Qed.

Lemma profile_summary_sound_witness :
  let bars := [ {| timestamp := 0; open := 100; high := 102; low := 99;
                   close := 101; volume := 1000 |};
                {| timestamp := 1; open := 101; high := 103; low := 100;
                   close := 102; volume := 500 |} ] in
  exists s, get_volume_profile_analysis bars = Ok s
    /\ 0 <= value_area_width s
    /\ length (profile_prices s) = 100%nat
    /\ sum (profile_volumes s) == 1500.
Proof.
  intros bars.
  assert (Hwf : Forall well_formed bars).
  { repeat constructor; cbn; discriminate. }
  destruct (profile_summary_sound bars Hwf) as (s & Hs & Hw & _ & _ & _ & _ & Hc).
  exists s. split; [exact Hs |]. split; [exact Hw |].
  apply Hc. vm_compute. discriminate.
Defined.

End BreakAndRetest.

Section BacktestLedger.
Import Bars Backtest Ledger.
Local Open Scope Q_scope.

Variable clock : Clock.
Variable sym : string.

(** A property kept by the three operations of the replay loop holds after
    the loop. *)
Lemma replay_invariant (P : Engine -> Prop) (data : list Bar) (strategy : Strategy) :
  (forall st bar, P st -> P (_check_stops clock sym bar st)) ->
  (forall st st' signal bar,
     P st -> _execute_signal clock sym signal bar st = Ok st' -> P st') ->
  (forall st price, P st -> P (_update_equity price st)) ->
  forall indices st st',
    P st -> replay clock sym data strategy st indices = Ok st' -> P st'.
Proof.
  intros Hc He Hu. induction indices as [| i rest IH]; intros st st' HP; cbn [replay].
  - now intros [= <-].
  - destruct (replay_bar clock sym data strategy st i) as [st1 | e] eqn:E; [| discriminate].
    cbn [mbind result_bind]. apply IH. revert E. unfold replay_bar.
    destruct (get data i) as [bar | e]; [| discriminate]. cbn [mbind result_bind].
    set (signal := match strategy _ with Ok sg => sg | Raise _ => no_trade end).
    destruct (is_entry signal).
    + destruct (_execute_signal clock sym signal bar (_check_stops clock sym bar st))
        as [st2 | e] eqn:E2; [| discriminate].
      cbn [mbind result_bind]. intros [= <-]. apply Hu. eapply He; [| exact E2].
      now apply Hc.
    + cbn [mbind result_bind]. intros [= <-]. now apply Hu, Hc.
Qed.

(** What [_close_position] does to a state in which [sym] has the open
    position [t]. *)
Lemma close_position_open (price : Q) (reason : string) (st : Engine) (t : Trade) :
  open_positions st !! sym = Some t ->
  exists closed,
    let st' := _close_position clock sym price reason st in
    capital st' = capital st + pnl closed
    /\ trades st' = trades st ++ [closed]
    /\ open_positions st' = delete sym (open_positions st)
    /\ (initial_capital st' = initial_capital st /\ commission st' = commission st
        /\ slippage st' = slippage st /\ risk_per_trade st' = risk_per_trade st
        /\ equity_history st' = equity_history st)
    /\ (symbol closed = symbol t /\ units closed = units t
        /\ entry_price closed = entry_price t /\ direction closed = direction t
        /\ stop_loss closed = stop_loss t /\ take_profit closed = take_profit t)
    /\ exit_reason closed = reason
    /\ is_Some (exit_time closed)
    /\ exit_price closed = Some (exit_fill (slippage st) closed price)
    /\ pnl closed = exit_pnl (commission st) closed (exit_fill (slippage st) closed price).
Proof.
  intros Ht. unfold _close_position. rewrite Ht. eexists. cbv zeta.
  cbn [capital trades open_positions initial_capital commission slippage risk_per_trade
       equity_history].
  split; [| split; [reflexivity |]]; [reflexivity |].
  split; [reflexivity |].
  split; [repeat split |]. split; [repeat split |].
  split; [reflexivity |]. split; [eexists; reflexivity |].
  split; reflexivity.
Qed.

Lemma close_position_closed (price : Q) (reason : string) (st : Engine) :
  open_positions st !! sym = None -> _close_position clock sym price reason st = st.
Proof. intros H. unfold _close_position. now rewrite H. Qed.

(** What [_execute_signal] does when it returns. *)
Lemma execute_signal_cases (signal : Signal) (bar : Bar) (st st' : Engine) :
  _execute_signal clock sym signal bar st = Ok st' ->
  st' = st
  \/ open_positions st !! sym = None
     /\ exists t action,
          sig_action signal = Some action
          /\ open_positions st' = <[sym := t]> (open_positions st)
          /\ capital st' = capital st - inject_Z (units t) * entry_price t * commission st
          /\ trades st' = trades st
          /\ (initial_capital st' = initial_capital st /\ commission st' = commission st
              /\ slippage st' = slippage st /\ risk_per_trade st' = risk_per_trade st
              /\ equity_history st' = equity_history st)
          /\ symbol t = sym /\ (0 < units t)%Z
          /\ direction t = (if String.eqb action "BUY" then "long" else "short")%string
          /\ entry_price t
             = (if String.eqb action "BUY" then close bar * (1 + slippage st)
                else close bar * (1 - slippage st))
          /\ stop_loss t
             = default (entry_price t * (if String.eqb action "BUY" then 0.98 else 1.02))
                       (sig_stop_loss signal)
          /\ take_profit t = sig_take_profit signal
          /\ exit_time t = None /\ exit_price t = None.
Proof.
  unfold _execute_signal.
  destruct (open_positions st !! sym) eqn:Ht; [intros [= <-]; now left |].
  destruct (sig_action signal) as [a |]; [| discriminate]. cbn [mbind result_bind].
  match goal with |- context [mbind _ ?m] => destruct m as [u0 | e] end;
    [| discriminate].
  cbn [mbind result_bind].
  match goal with |- context [mbind _ ?m] => destruct m as [u | e] end;
    [| discriminate].
  cbn [mbind result_bind].
  destruct (Z.leb_spec u 0); intros [= <-]; [now left |].
  right. split; [reflexivity |]. eexists. exists a.
  cbn [capital trades open_positions initial_capital commission slippage risk_per_trade
       equity_history].
  split; [reflexivity |]. split; [reflexivity |].
  cbn [symbol units direction entry_price stop_loss take_profit exit_time exit_price].
  split; [reflexivity |]. split; [reflexivity |]. split; [repeat split |].
  split; [reflexivity |]. split; [assumption |].
  repeat split; reflexivity.
Qed.

Lemma close_position_balanced (price : Q) (reason : string) (st : Engine) :
  balanced sym st -> balanced sym (_close_position clock sym price reason st).
Proof.
  unfold balanced, open_commission.
  destruct (open_positions st !! sym) as [t |] eqn:Ht;
    [| rewrite close_position_closed by exact Ht; now rewrite Ht].
  destruct (close_position_open price reason st t Ht)
    as (closed & Hc & Htr & Ho & (Hi & Hcm & _) & (_ & Hu & He & _) & _).
  cbv zeta in *. rewrite Hc, Htr, Ho, Hi, Hcm, lookup_delete_eq, fmap_app, sum_app.
  cbn [fmap list_fmap]. intros H. rewrite H.
  change (sum [net_result (commission st) closed])
    with (net_result (commission st) closed + 0).
  unfold net_result at 3. unfold entry_commission. rewrite Hu, He.
  unfold sum. ring.
Qed.

Lemma check_stops_balanced (bar : Bar) (st : Engine) :
  balanced sym st -> balanced sym (_check_stops clock sym bar st).
Proof.
  intros H. unfold _check_stops.
  destruct (open_positions st !! sym) as [trade |]; [| exact H].
  repeat match goal with
         | |- context [if ?b then _ else _] => destruct b
         end; repeat apply close_position_balanced; exact H.
Qed.

Lemma execute_signal_balanced (signal : Signal) (bar : Bar) (st st' : Engine) :
  balanced sym st -> _execute_signal clock sym signal bar st = Ok st' -> balanced sym st'.
Proof.
  intros H He. destruct (execute_signal_cases signal bar st st' He)
    as [-> | (Hn & t & a & _ & Ho & Hc & Htr & (Hi & Hcm & _) & _)]; [exact H |].
  unfold balanced, open_commission in *. rewrite Hn in H.
  rewrite Ho, Hc, Htr, Hi, Hcm, lookup_insert_eq. unfold entry_commission.
  rewrite H. ring.
Qed.

Lemma reachable_balanced (eng st : Engine) :
  reachable clock sym eng st -> balanced sym st.
Proof.
  induction 1 as [| st bar _ IH | st st' signal bar _ IH He | st price _ IH
                  | st price reason _ IH].
  - unfold balanced, open_commission. cbn. rewrite lookup_empty. unfold sum. cbn. ring.
  - now apply check_stops_balanced.
  - now apply (execute_signal_balanced signal bar st).
  - exact IH.
  - now apply close_position_balanced.
Qed.

(** The constructor parameters do not change during a run. *)
Lemma close_position_config (price : Q) (reason : string) (st : Engine) :
  let st' := _close_position clock sym price reason st in
  initial_capital st' = initial_capital st /\ commission st' = commission st
  /\ slippage st' = slippage st /\ risk_per_trade st' = risk_per_trade st
  /\ equity_history st' = equity_history st.
Proof.
  cbv zeta. destruct (open_positions st !! sym) as [t |] eqn:Ht.
  - destruct (close_position_open price reason st t Ht) as (closed & _ & _ & _ & H & _).
    exact H.
  - rewrite close_position_closed by exact Ht. repeat split.
Qed.

Lemma check_stops_config (bar : Bar) (st : Engine) :
  let st' := _check_stops clock sym bar st in
  initial_capital st' = initial_capital st /\ commission st' = commission st
  /\ slippage st' = slippage st /\ risk_per_trade st' = risk_per_trade st
  /\ equity_history st' = equity_history st.
Proof.
  cbv zeta. unfold _check_stops.
  destruct (open_positions st !! sym) as [trade |]; [| repeat split].
  repeat match goal with
         | |- context [if ?b then _ else _] => destruct b
         end;
    repeat match goal with
           | |- context [_close_position clock sym ?p ?r ?s] =>
               let H := fresh in
               pose proof (close_position_config p r s) as H; cbv zeta in H;
               destruct H as (-> & -> & -> & -> & ->)
           end; repeat split.
Qed.

Lemma execute_signal_config (signal : Signal) (bar : Bar) (st st' : Engine) :
  _execute_signal clock sym signal bar st = Ok st' ->
  initial_capital st' = initial_capital st /\ commission st' = commission st
  /\ slippage st' = slippage st /\ risk_per_trade st' = risk_per_trade st
  /\ equity_history st' = equity_history st.
Proof.
  intros He. destruct (execute_signal_cases signal bar st st' He)
    as [-> | (_ & t & a & _ & _ & _ & _ & H & _)]; [repeat split | exact H].
Qed.

Lemma reachable_config (eng st : Engine) :
  reachable clock sym eng st ->
  initial_capital st = initial_capital eng /\ commission st = commission eng
  /\ slippage st = slippage eng /\ risk_per_trade st = risk_per_trade eng.
Proof.
  induction 1 as [| st bar _ IH | st st' signal bar _ IH He | st price _ IH
                  | st price reason _ IH].
  - repeat split.
  - destruct (check_stops_config bar st) as (-> & -> & -> & -> & _). exact IH.
  - destruct (execute_signal_config signal bar st st' He) as (-> & -> & -> & -> & _).
    exact IH.
  - exact IH.
  - destruct (close_position_config price reason st) as (-> & -> & -> & -> & _). exact IH.
Qed.

Lemma exit_fill_ext (slip level : Q) (t t' : Trade) :
  direction t' = direction t -> exit_fill slip t' level = exit_fill slip t level.
Proof. intros H. unfold exit_fill, is_long. now rewrite H. Qed.

Lemma entered_ext (t t' : Trade) :
  symbol t' = symbol t -> units t' = units t -> direction t' = direction t ->
  entered sym t -> entered sym t'.
Proof. unfold entered. intros -> -> ->. tauto. Qed.

Lemma exit_cause_ext (data : list Bar) (t t' : Trade) (reason : string) (level : Q) :
  stop_loss t' = stop_loss t -> take_profit t' = take_profit t ->
  exit_cause data t reason level -> exit_cause data t' reason level.
Proof.
  intros Hs Ht [| tp H1 H2 | lb H]; [rewrite <- Hs | |]; econstructor; eauto; congruence.
Qed.

Lemma close_position_replaying (slip comm : Q) (data : list Bar) (price : Q)
    (reason : string) (st : Engine) :
  reason = "stop_loss"%string \/ reason = "take_profit"%string ->
  (forall t, open_positions st !! sym = Some t -> exit_cause data t reason price) ->
  replaying slip comm sym data st ->
  replaying slip comm sym data (_close_position clock sym price reason st).
Proof.
  intros Hreason Hcause Hinv.
  destruct (open_positions st !! sym) as [t |] eqn:Ht;
    [| now rewrite close_position_closed by exact Ht].
  destruct Hinv as (Hs & Hc & Hopen & Hcl).
  destruct (close_position_open price reason st t Ht)
    as (closed & _ & Htr & Ho & (_ & Hcm & Hsl & _) & (Hsy & Hu & He & Hd & Hst & Htp)
        & Hr & Het & Hep & Hpnl).
  cbv zeta in *. unfold replaying. rewrite Htr, Ho, Hcm, Hsl.
  split; [exact Hs |]. split; [exact Hc |]. split.
  - intros t'. rewrite lookup_delete_eq. discriminate.
  - apply Forall_app. split; [exact Hcl |]. constructor; [| constructor].
    split; [| now rewrite Hr]. split; [| split].
    + apply (entered_ext t); auto.
    + exact Het.
    + exists price. rewrite Hr. split; [| rewrite <- Hs, <- Hc; split; assumption].
      apply (exit_cause_ext data t); auto.
Qed.

Lemma close_position_lookup (price : Q) (reason : string) (st : Engine) :
  is_Some (open_positions st !! sym) ->
  open_positions (_close_position clock sym price reason st) !! sym = None.
Proof.
  intros [t Ht]. unfold _close_position. rewrite Ht. cbn. apply lookup_delete_eq.
Qed.

Lemma check_stops_replaying (slip comm : Q) (data : list Bar) (bar : Bar) (st : Engine) :
  replaying slip comm sym data st ->
  replaying slip comm sym data (_check_stops clock sym bar st).
Proof.
  intros H. unfold _check_stops.
  destruct (open_positions st !! sym) as [trade |] eqn:Ht; [| exact H].
  set (st1 := if is_long trade
              then if leb (low bar) (stop_loss trade)
                   then _close_position clock sym (stop_loss trade) "stop_loss" st
                   else st
              else if leb (stop_loss trade) (high bar)
                   then _close_position clock sym (stop_loss trade) "stop_loss" st
                   else st).
  assert (H1 : replaying slip comm sym data st1
               /\ (open_positions st1 !! sym = Some trade
                   \/ open_positions st1 !! sym = None)).
  { subst st1.
    assert (Hclose : replaying slip comm sym data
                       (_close_position clock sym (stop_loss trade) "stop_loss" st)
                     /\ (open_positions
                           (_close_position clock sym (stop_loss trade) "stop_loss" st)
                           !! sym = Some trade
                         \/ open_positions
                              (_close_position clock sym (stop_loss trade) "stop_loss" st)
                              !! sym = None)).
    { split.
      - apply close_position_replaying; [now left | | exact H].
        intros t Ht'. rewrite Ht in Ht'. injection Ht' as <-. constructor.
      - right. apply close_position_lookup. now rewrite Ht. }
    destruct (is_long trade); match goal with
      | |- context [if ?b then _ else _] => destruct b
      end; try exact Hclose; split; auto. }
  destruct H1 as [H1 Hopen1].
  destruct (truthy (take_profit trade)) eqn:Etp; [| exact H1].
  destruct (take_profit trade) as [tp |] eqn:Etp'; [| discriminate].
  cbn [truthy] in Etp. cbn [default from_option id].
  assert (Htpn : ~ tp == 0).
  { intros Hz. apply Qeq_bool_iff in Hz. unfold eqb in Etp. now rewrite Hz in Etp. }
  assert (Hclose : replaying slip comm sym data
                     (_close_position clock sym tp "take_profit" st1)).
  { apply close_position_replaying; [now right | | exact H1].
    intros t Ht'. destruct Hopen1 as [Ho | Ho]; rewrite Ho in Ht'; [| discriminate].
    injection Ht' as <-. now apply by_take_profit. }
  destruct (is_long trade); match goal with
    | |- context [if ?b then _ else _] => destruct b
    end; assumption.
Qed.

Lemma execute_signal_replaying (slip comm : Q) (data : list Bar) (signal : Signal)
    (bar : Bar) (st st' : Engine) :
  replaying slip comm sym data st ->
  _execute_signal clock sym signal bar st = Ok st' ->
  replaying slip comm sym data st'.
Proof.
  intros Hinv He.
  destruct (execute_signal_cases signal bar st st' He)
    as [-> | (Hn & t & a & _ & Ho & _ & Htr & (_ & Hcm & Hsl & _) & Hsy & Hu & Hd & _)];
    [exact Hinv |].
  destruct Hinv as (Hs & Hc & Hopen & Hcl).
  unfold replaying. rewrite Ho, Htr, Hcm, Hsl.
  split; [exact Hs |]. split; [exact Hc |]. split; [| exact Hcl].
  intros t'. rewrite lookup_insert_eq. intros [= <-]. split; [exact Hsy |].
  split; [exact Hu |]. rewrite Hd. destruct (String.eqb a "BUY"); auto.
Qed.

Lemma replay_replaying (slip comm : Q) (data : list Bar) (strategy : Strategy)
    (indices : list nat) (st st' : Engine) :
  replaying slip comm sym data st ->
  replay clock sym data strategy st indices = Ok st' ->
  replaying slip comm sym data st'.
Proof.
  apply (replay_invariant (replaying slip comm sym data)).
  - intros. now apply check_stops_replaying.
  - intros. eapply execute_signal_replaying; eassumption.
  - intros s p H. exact H.
Qed.

(** A map whose only possible key is [sym]. *)
Lemma only_traded_empty (st : Engine) :
  only_traded sym st -> open_positions st !! sym = None -> open_positions st = ∅.
Proof.
  intros H Hn. apply map_eq. intros k. rewrite lookup_empty.
  destruct (decide (k = sym)) as [-> | Hk]; [exact Hn |].
  apply not_elem_of_dom. intros Hd. apply H in Hd. apply elem_of_singleton in Hd.
  contradiction.
Qed.

Lemma only_traded_singleton (st : Engine) (t : Trade) :
  only_traded sym st -> open_positions st !! sym = Some t ->
  open_positions st = {[sym := t]}.
Proof.
  intros H Hn. apply map_eq. intros k.
  destruct (decide (k = sym)) as [-> | Hk]; [now rewrite lookup_singleton_eq |].
  rewrite lookup_singleton_ne by congruence.
  apply not_elem_of_dom. intros Hd. apply H in Hd. apply elem_of_singleton in Hd.
  contradiction.
Qed.

Lemma reset_replaying (eng : Engine) (data : list Bar) :
  replaying (slippage eng) (commission eng) sym data (reset eng).
Proof.
  unfold replaying. cbn. split; [reflexivity |]. split; [reflexivity |].
  split; [| constructor]. intros t. rewrite lookup_empty. discriminate.
Qed.

(** The two ways in which [run_engine] ends. *)
Lemma run_engine_inversion (eng : Engine) (data : list Bar) (strategy : Strategy)
    (st : Engine) :
  run_engine clock eng sym data strategy = Ok st ->
  (100 <= length data)%nat
  /\ exists st1,
       replay clock sym data strategy (reset eng)
              (seq window_size (length data - window_size)) = Ok st1
       /\ (open_positions st1 !! sym = None /\ st = st1
           \/ exists t last_bar,
                open_positions st1 !! sym = Some t /\ last_item data = Ok last_bar
                /\ st = _close_position clock sym (close last_bar) "end_of_backtest" st1).
Proof.
  unfold run_engine. destruct (Nat.ltb_spec (length data) 100); [discriminate |].
  destruct (replay clock sym data strategy (reset eng) _) as [st1 | e] eqn:E; [| discriminate].
  cbn [mbind result_bind]. intros Hst. split; [lia |]. exists st1. split; [reflexivity |].
  destruct (open_positions st1 !! sym) as [t |] eqn:Ht.
  - destruct (last_item data) as [last_bar | e] eqn:El; [| discriminate].
    cbn [mbind result_bind] in Hst. injection Hst as <-. right. now exists t, last_bar.
  - injection Hst as <-. now left.
Qed.

Lemma run_engine_no_position (eng : Engine) (data : list Bar) (strategy : Strategy)
    (st : Engine) :
  run_engine clock eng sym data strategy = Ok st -> open_positions st = ∅.
Proof.
  intros Hrun.
  pose proof (reachable_only_traded clock sym eng st
                (run_engine_reachable clock sym eng data strategy st Hrun)) as Honly.
  apply only_traded_empty; [exact Honly |].
  destruct (run_engine_inversion eng data strategy st Hrun)
    as (_ & st1 & _ & [[Hn ->] | (t & last_bar & Ht & _ & ->)]); [exact Hn |].
  apply close_position_lookup. now rewrite Ht.
Qed.

Lemma replay_bar_mark (data : list Bar) (strategy : Strategy) (st st' : Engine) (i : nat) :
  replay_bar clock sym data strategy st i = Ok st' ->
  exists bar, data !! i = Some bar
    /\ equity_history st' = equity_history st ++ [mark (close bar) st'].
Proof.
  unfold replay_bar, get. destruct (data !! i) as [bar |]; [| discriminate].
  cbn [mbind result_bind].
  set (signal := match strategy _ with Ok sg => sg | Raise _ => no_trade end).
  destruct (check_stops_config bar st) as (_ & _ & _ & _ & Hh).
  intros H. exists bar. split; [reflexivity |].
  destruct (is_entry signal).
  - destruct (_execute_signal clock sym signal bar (_check_stops clock sym bar st))
      as [st2 | e] eqn:E2; [| discriminate].
    cbn [mbind result_bind] in H. injection H as <-.
    destruct (execute_signal_config signal bar _ st2 E2) as (_ & _ & _ & _ & Hh2).
    unfold _update_equity, mark. cbn [equity_history capital open_positions].
    now rewrite Hh2, Hh.
  - cbn [mbind result_bind] in H. injection H as <-.
    unfold _update_equity, mark. cbn [equity_history capital open_positions].
    now rewrite Hh.
Qed.

Lemma replay_app (data : list Bar) (strategy : Strategy) (l1 l2 : list nat)
    (st st' : Engine) :
  replay clock sym data strategy st (l1 ++ l2) = Ok st' ->
  exists st1, replay clock sym data strategy st l1 = Ok st1
    /\ replay clock sym data strategy st1 l2 = Ok st'.
Proof.
  revert st. induction l1 as [| i l1 IH]; intros st; cbn [app replay].
  - intros H. now exists st.
  - destruct (replay_bar clock sym data strategy st i) as [s1 | e]; [| discriminate].
    cbn [mbind result_bind]. apply IH.
Qed.

Lemma replay_history (data : list Bar) (strategy : Strategy) (indices : list nat)
    (st st' : Engine) :
  replay clock sym data strategy st indices = Ok st' ->
  exists marks, equity_history st' = equity_history st ++ marks
    /\ length marks = length indices.
Proof.
  revert st. induction indices as [| i rest IH]; intros st; cbn [replay].
  - intros [= <-]. exists []. now rewrite app_nil_r.
  - destruct (replay_bar clock sym data strategy st i) as [s1 | e] eqn:E; [| discriminate].
    cbn [mbind result_bind]. intros H.
    destruct (replay_bar_mark data strategy st s1 i E) as (bar & _ & Hh).
    destruct (IH s1 H) as (marks & Hm & Hl).
    exists (mark (close bar) s1 :: marks). rewrite Hm, Hh, <- app_assoc.
    split; [reflexivity | cbn; lia].
Qed.

End BacktestLedger.

Section BacktestRuns.
Import Bars Backtest Ledger.
Local Open Scope Q_scope.

(** X10: when a run of the simulator ends, no position is left open and
    every trade in the list was opened by the engine for the traded symbol
    with a positive number of units, long or short, and closed with an exit
    time, at the stop-loss level, at a non-zero take-profit level or at the
    close of the last bar, the fill being the level moved against the
    position by the slippage and the profit being the price difference times
    the units less the exit commission; only the last trade of the list can
    be a forced close at the end of the data. *)
Theorem run_trades_settled (clock : Clock) (sym : string) (eng : Engine)
    (data : list Bar) (strategy : Strategy) (st : Engine) :
  run_engine clock eng sym data strategy = Ok st ->
  open_positions st = ∅
  /\ Forall (settled (slippage eng) (commission eng) sym data) (trades st)
  /\ (forall ts t, trades st = ts ++ [t] ->
        Forall (fun t' => exit_reason t' = "stop_loss"%string
                          \/ exit_reason t' = "take_profit"%string) ts).
Proof.
  intros Hrun.
  pose proof (reachable_only_traded clock sym eng st
                (run_engine_reachable clock sym eng data strategy st Hrun)) as Honly.
  destruct (run_engine_inversion clock sym eng data strategy st Hrun)
    as (_ & st1 & Hrep & Hend).
  pose proof (replay_replaying clock sym _ _ data strategy _ _ st1
                (reset_replaying sym eng data) Hrep) as (Hs & Hc & Hopen & Hcl).
  destruct Hend as [[Hn ->] | (t & last_bar & Ht & Hl & ->)].
  - split; [now apply (only_traded_empty sym) |]. split.
    + eapply Forall_impl; [exact Hcl |]. now intros t [H _].
    + intros ts t Hts. rewrite Hts in Hcl. apply Forall_app in Hcl as [Hcl _].
      eapply Forall_impl; [exact Hcl |]. now intros t' [_ H].
  - destruct (close_position_open clock sym (close last_bar) "end_of_backtest" st1 t Ht)
      as (closed & _ & Htr & Ho & _ & (Hsy & Hu & He & Hd & Hst & Htp) & Hr & Het & Hep & Hpnl).
    cbv zeta in *. split; [| split].
    + apply (only_traded_empty sym); [exact Honly |]. rewrite Ho. apply lookup_delete_eq.
    + rewrite Htr. apply Forall_app. split.
      * eapply Forall_impl; [exact Hcl |]. now intros t' [H _].
      * constructor; [| constructor]. split; [| split].
        -- apply (entered_ext sym t); auto.
        -- exact Het.
        -- exists (close last_bar). rewrite Hr, <- Hs, <- Hc.
           split; [now apply by_end_of_backtest |]. split; assumption.
    + intros ts t' Hts. rewrite Htr in Hts. apply app_inj_tail in Hts as [<- _].
      eapply Forall_impl; [exact Hcl |]. now intros t'' [_ H].
Qed.

Lemma run_trades_settled_witness :
  let clock : Clock := fun k => Z.of_nat k in
  let bar i := {| timestamp := Z.of_nat i; open := 100;
                  high := 101; low := if (i =? 70)%nat then 97 else 99;
                  close := 100; volume := 1000 |} in
  let data := bar <$> seq 0 100 in
  let strategy : Strategy :=
    fun _ => Ok {| sig_action := Some "BUY"%string; sig_stop_loss := Some 98;
                   sig_take_profit := None |} in
  exists st,
    run_engine clock default_engine "SPY" data strategy = Ok st
    /\ exit_reason <$> trades st = ["stop_loss"; "end_of_backtest"]%string
    /\ open_positions st = ∅
    /\ Forall (settled 0.0005 0.001 "SPY" data) (trades st).
Proof.
  intros clock bar data strategy.
  destruct (run_engine clock default_engine "SPY" data strategy) as [st | e] eqn:E;
    [| vm_compute in E; discriminate E].
  exists st. split; [reflexivity |].
  destruct (run_trades_settled clock "SPY" default_engine data strategy st E)
    as (Hopen & Hsettled & _).
  split; [| split; [exact Hopen | exact Hsettled]].
  vm_compute in E. injection E as <-. reflexivity.
Defined.

(** X11: the books of the simulator balance.  In every state that the
    simulator reaches, the capital equals the initial capital plus, for each
    closed trade, its profit less the commission charged at its entry, less
    the entry commission of the position that is still open; at the end of a
    run the capital is the initial capital plus the profits of the trades
    less their entry commissions. *)
Theorem books_balance (clock : Clock) (sym : string) (eng : Engine) :
  (forall st, reachable clock sym eng st ->
     capital st == initial_capital eng
                   + sum (net_result (commission eng) <$> trades st)
                   - open_commission sym st)
  /\ (forall data strategy st,
        run_engine clock eng sym data strategy = Ok st ->
        capital st == initial_capital eng
                      + sum ((fun t => pnl t - inject_Z (units t) * entry_price t
                                               * commission eng) <$> trades st)).
Proof.
  assert (H : forall st, reachable clock sym eng st ->
     capital st == initial_capital eng
                   + sum (net_result (commission eng) <$> trades st)
                   - open_commission sym st).
  { intros st Hr. pose proof (reachable_balanced clock sym eng st Hr) as Hb.
    destruct (reachable_config clock sym eng st Hr) as (Hi & Hc & _).
    unfold balanced in Hb. now rewrite Hi, Hc in Hb. }
  split; [exact H |]. intros data strategy st Hrun.
  rewrite (H st (run_engine_reachable clock sym eng data strategy st Hrun)).
  unfold open_commission.
  rewrite (run_engine_no_position clock sym eng data strategy st Hrun), lookup_empty.
  unfold net_result, entry_commission. ring.
Qed.

(** X12: a run that ends returns a result.  Its equity curve starts with the
    initial capital and has one further point for each bar from index 60 on.
    [final_capital] is the last point of the curve, the equity marked at the
    close of the last bar before the forced close: when no position was open
    at the end of the data, it equals the capital of the engine; when the
    last trade was closed at the end of the data, it exceeds the capital of
    the engine by the cost of that close, the slippage on the last close and
    the commission on the fill, times the units. *)
Theorem final_capital_is_last_mark (clock : Clock) (sym : string) (eng : Engine)
    (data : list Bar) (strategy : Strategy) (st : Engine) :
  run_engine clock eng sym data strategy = Ok st ->
  exists res last_bar,
    run_backtest clock eng sym data strategy = Ok res
    /\ last_item data = Ok last_bar
    /\ length (equity_curve res) = S (length data - 60)
    /\ head (equity_curve res) = Some (initial_capital eng)
    /\ last (equity_curve res) = Some (final_capital res)
    /\ (Forall (fun t => exit_reason t <> "end_of_backtest"%string) (trades st)
          /\ final_capital res == capital st
        \/ exists ts t,
             trades st = ts ++ [t] /\ exit_reason t = "end_of_backtest"%string
             /\ final_capital res
                == capital st
                   + closing_cost (slippage eng) (commission eng) (close last_bar) t).
Proof.
  intros Hrun. unfold run_backtest. rewrite Hrun. cbn [mbind result_bind].
  destruct (run_engine_inversion clock sym eng data strategy st Hrun)
    as (Hlen & st1 & Hrep & Hend).
  assert (Hr1 : reachable clock sym eng st1).
  { exact (replay_reachable clock sym eng data strategy _ _ st1
             (reach_reset clock sym eng) Hrep). }
  destruct (reachable_config clock sym eng st1 Hr1) as (_ & Hcomm & Hslip & _).
  pose proof (reachable_only_traded clock sym eng st1 Hr1) as Honly.
  pose proof (replay_replaying clock sym _ _ data strategy _ _ st1
                (reset_replaying sym eng data) Hrep) as (_ & _ & _ & Hcl).
  (* the equity curve *)
  destruct (replay_history clock sym data strategy _ _ st1 Hrep) as (marks & Hm & Hml).
  rewrite length_seq in Hml. cbn [reset new_engine equity_history] in Hm.
  (* the last replayed bar *)
  unfold window_size in Hrep, Hml.
  replace (length data - 60)%nat with (length data - 61 + 1)%nat in Hrep by lia.
  rewrite seq_app in Hrep. cbn [seq] in Hrep.
  replace (60 + (length data - 61))%nat with (pred (length data)) in Hrep by lia.
  destruct (replay_app clock sym data strategy _ _ _ st1 Hrep) as (st0 & _ & Hlast).
  cbn [replay] in Hlast.
  destruct (replay_bar clock sym data strategy st0 (pred (length data)))
    as [st1' | e] eqn:Eb; [| discriminate].
  cbn [mbind result_bind] in Hlast. injection Hlast as ->.
  destruct (replay_bar_mark clock sym data strategy st0 st1 _ Eb) as (last_bar & Hlb & Hh).
  rewrite <- last_lookup in Hlb.
  assert (Hli : last_item data = Ok last_bar) by (unfold last_item; now rewrite Hlb).
  assert (Hlast1 : last (equity_history st1) = Some (mark (close last_bar) st1)).
  { rewrite Hh. apply last_snoc. }
  assert (Heq : equity_history st = equity_history st1).
  { destruct Hend as [[_ ->] | (t & lb & _ & _ & ->)]; [reflexivity |].
    now destruct (close_position_config clock sym (close lb) "end_of_backtest" st1)
      as (_ & _ & _ & _ & ->). }
  unfold _calculate_results, last_item. rewrite Heq, Hlast1. cbn [mbind result_bind].
  eexists. exists last_bar. split; [reflexivity |].
  cbn [equity_curve final_capital]. split; [exact Hli |].
  split; [rewrite Hm; cbn; lia |]. split; [now rewrite Hm |].
  split; [exact Hlast1 |].
  destruct Hend as [[Hn ->] | (t & lb & Ht & Hl & ->)].
  - left. split.
    + eapply Forall_impl; [exact Hcl |].
      intros t [_ [-> | ->]]; discriminate.
    + unfold mark. rewrite (only_traded_empty sym st1 Honly Hn), map_fold_empty. ring.
  - right. rewrite Hli in Hl. injection Hl as <-.
    destruct (close_position_open clock sym (close last_bar) "end_of_backtest" st1 t Ht)
      as (closed & Hc & Htr & _ & _ & (_ & Hu & He & Hd & _) & Hr & _ & _ & Hpnl).
    cbv zeta in *. exists (trades st1), closed. split; [exact Htr |]. split; [exact Hr |].
    rewrite Hc, Hpnl. unfold mark.
    rewrite (only_traded_singleton sym st1 t Honly Ht), map_fold_singleton.
    rewrite Hcomm, Hslip.
    unfold closing_cost, exit_pnl, exit_fill, unrealized_of, is_long.
    rewrite Hu, He, Hd. destruct (String.eqb (direction t) "long"); ring.
Qed.

Lemma final_capital_is_last_mark_witness :
  let clock : Clock := fun k => Z.of_nat k in
  let bar := {| timestamp := 0; open := 100; high := 101; low := 99;
                close := 100; volume := 1000 |} in
  let data := replicate 100 bar in
  let strategy : Strategy :=
    fun _ => Ok {| sig_action := Some "BUY"%string; sig_stop_loss := Some 98;
                   sig_take_profit := None |} in
  exists st res t,
    run_engine clock default_engine "SPY" data strategy = Ok st
    /\ run_backtest clock default_engine "SPY" data strategy = Ok res
    /\ length (equity_curve res) = 41%nat
    /\ trades st = [t]
    /\ final_capital res == capital st + closing_cost 0.0005 0.001 100 t
    /\ capital st < final_capital res.
Proof.
  intros clock bar data strategy.
  destruct (run_engine clock default_engine "SPY" data strategy) as [st | e] eqn:E;
    [| vm_compute in E; discriminate E].
  destruct (final_capital_is_last_mark clock "SPY" default_engine data strategy st E)
    as (res & last_bar & Hres & Hlb & Hlen & _ & _ & Hcases).
  assert (Htr : exists t, trades st = [t] /\ exit_reason t = "end_of_backtest"%string
                          /\ 0 < closing_cost 0.0005 0.001 100 t).
  { vm_compute in E. injection E as <-. eexists. split; [reflexivity |].
    split; reflexivity. }
  destruct Htr as (t & Htr & Hr & Hpos).
  assert (Hb : last_bar = bar) by (vm_compute in Hlb; now injection Hlb as <-).
  subst last_bar. exists st, res, t. split; [reflexivity |]. split; [exact Hres |].
  split; [exact Hlen |]. split; [exact Htr |].
  assert (Hfinal : final_capital res == capital st + closing_cost 0.0005 0.001 100 t).
  { destruct Hcases as [[Hno _] | (ts & t' & Hts & _ & Hf)].
    - rewrite Htr in Hno. inversion Hno as [| ? ? Hne _]; subst. contradiction.
    - rewrite Htr in Hts. apply (app_inj_tail [] ts t t') in Hts as [_ <-]. exact Hf. }
  split; [exact Hfinal |]. rewrite Hfinal. lra.
Defined.

Lemma books_balance_witness :
  let clock : Clock := fun k => Z.of_nat k in
  let bar := {| timestamp := 0; open := 100; high := 101; low := 99;
                close := 100; volume := 1000 |} in
  let data := replicate 100 bar in
  let strategy : Strategy :=
    fun _ => Ok {| sig_action := Some "BUY"%string; sig_stop_loss := Some 98;
                   sig_take_profit := None |} in
  exists st,
    run_engine clock default_engine "SPY" data strategy = Ok st
    /\ length (trades st) = 1%nat
    /\ capital st == 100000 + sum ((fun t => pnl t - inject_Z (units t) * entry_price t
                                                    * 0.001) <$> trades st).
Proof.
  intros clock bar data strategy.
  destruct (run_engine clock default_engine "SPY" data strategy) as [st | e] eqn:E;
    [| vm_compute in E; discriminate E].
  exists st. split; [reflexivity |]. split.
  - vm_compute in E. injection E as <-. reflexivity.
  - exact (proj2 (books_balance clock "SPY" default_engine) data strategy st E).
Defined.

Lemma int_pos_le (x : Q) : (0 < int x)%Z -> inject_Z (int x) <= x.
Proof.
  intros H. destruct (Qlt_le_dec x 0) as [Hx | Hx].
  - pose proof (int_mono x 0 ltac:(lra)) as Hm. change (int 0) with 0%Z in Hm. lia.
  - rewrite int_nonneg by exact Hx. apply Qfloor_le.
Qed.

(** X13: the size of a position that [_execute_signal] opens.  For a bar
    with a positive close, a slippage in [0, 1) and a non-negative
    commission, a position opened for a symbol without one has a positive
    number of units; its value with commission is at most 90% of the
    capital; when its stop is away from the entry, the units times the stop
    distance are at most the capital times [risk_per_trade]; and opening it
    takes the entry commission, and nothing else, from the capital. *)
Theorem entry_size_capped (clock : Clock) (sym : string) (signal : Signal) (bar : Bar)
    (st st' : Engine) (t : Trade) :
  0 < close bar -> 0 <= slippage st -> slippage st < 1 -> 0 <= commission st ->
  open_positions st !! sym = None ->
  _execute_signal clock sym signal bar st = Ok st' ->
  open_positions st' !! sym = Some t ->
  (0 < units t)%Z
  /\ 0 < entry_price t
  /\ inject_Z (units t) * entry_price t * (1 + commission st) <= capital st * 0.9
  /\ (0 < Qabs (entry_price t - stop_loss t) ->
      inject_Z (units t) * Qabs (entry_price t - stop_loss t)
      <= capital st * risk_per_trade st)
  /\ capital st' == capital st - inject_Z (units t) * entry_price t * commission st.
Proof.
  intros Hclose Hs0 Hs1 Hc Hnone. unfold _execute_signal. rewrite Hnone.
  destruct (sig_action signal) as [a |]; [| discriminate]. cbn [mbind result_bind].
  set (e := if String.eqb a "BUY" then close bar * (1 + slippage st)
            else close bar * (1 - slippage st)).
  set (sl := default (e * (if String.eqb a "BUY" then 0.98 else 1.02)) (sig_stop_loss signal)).
  set (risk := capital st * risk_per_trade st).
  assert (He : 0 < e).
  { subst e. destruct (String.eqb a "BUY"); apply Qmult_lt_0_compat; lra. }
  set (k := e * (1 + commission st)).
  assert (Hk : 0 < k) by (subst k; apply Qmult_lt_0_compat; lra).
  assert (Hek : ~ k == 0) by lra.
  assert (Hee : ~ e == 0) by lra.
  unfold int_quotient.
  rewrite (proj2 (eqb_neq _ _) Hee), (proj2 (eqb_neq _ _) Hek).
  set (units0 := if ltb 0 (Qabs (e - sl)) then int (risk / Qabs (e - sl))
                 else int (capital st * 0.1 / e)).
  assert (Hu0 : (if ltb 0 (Qabs (e - sl)) then Ok (int (risk / Qabs (e - sl)))
                 else Ok (int (capital st * 0.1 / e))) = Ok units0).
  { subst units0. now destruct (ltb 0 (Qabs (e - sl))). }
  rewrite Hu0. cbn [mbind result_bind].
  set (unitsf := if ltb (capital st * 0.9) (inject_Z units0 * e * (1 + commission st))
                 then int (capital st * 0.9 / k) else units0).
  assert (Huf : (if ltb (capital st * 0.9) (inject_Z units0 * e * (1 + commission st))
                 then Ok (int (capital st * 0.9 / k)) else Ok units0) = Ok unitsf).
  { subst unitsf.
    now destruct (ltb (capital st * 0.9) (inject_Z units0 * e * (1 + commission st))). }
  rewrite Huf. cbn [mbind result_bind].
  destruct (Z.leb_spec unitsf 0) as [| Hpos].
  { intros [= <-]. rewrite Hnone. discriminate. }
  intros [= <-]. cbn [open_positions capital]. rewrite lookup_insert_eq. intros [= <-].
  cbn [units entry_price stop_loss].
  assert (Hcap : inject_Z unitsf * k <= capital st * 0.9
                 /\ inject_Z unitsf <= inject_Z units0).
  { subst unitsf.
    destruct (ltb (capital st * 0.9) (inject_Z units0 * e * (1 + commission st))) eqn:E.
    - apply ltb_lt in E. pose proof (int_pos_le _ Hpos) as Hq.
      assert (Hqk : capital st * 0.9 / k * k == capital st * 0.9) by (field; exact Hek).
      assert (Hqm : inject_Z (int (capital st * 0.9 / k)) * k
                    <= capital st * 0.9 / k * k)
        by (apply Qmult_le_compat_r; [exact Hq | lra]).
      split; [lra |].
      apply Qlt_le_weak. apply (Qmult_lt_r _ _ k Hk). unfold k in *. lra.
    - apply ltb_ge in E. split; [unfold k; lra | apply Qle_refl]. }
  destruct Hcap as [Hcap Hle].
  split; [exact Hpos |]. split; [exact He |]. split; [unfold k in Hcap; lra |].
  split; [| reflexivity].
  intros Hsd. fold risk.
  assert (Hu0pos : (0 < units0)%Z).
  { rewrite <- Zle_Qle in Hle. lia. }
  assert (Hu0r : inject_Z units0 <= risk / Qabs (e - sl)).
  { assert (Hu0eq : units0 = int (risk / Qabs (e - sl)))
      by (subst units0; now rewrite (proj2 (ltb_lt _ _) Hsd)).
    rewrite Hu0eq. apply int_pos_le. rewrite <- Hu0eq. exact Hu0pos. }
  assert (Hsdk : risk / Qabs (e - sl) * Qabs (e - sl) == risk) by (field; lra).
  assert (H1 : inject_Z unitsf * Qabs (e - sl) <= inject_Z units0 * Qabs (e - sl))
    by (apply Qmult_le_compat_r; [exact Hle | lra]).
  assert (H2 : inject_Z units0 * Qabs (e - sl) <= risk / Qabs (e - sl) * Qabs (e - sl))
    by (apply Qmult_le_compat_r; [exact Hu0r | lra]).
  lra.
Qed.

Lemma entry_size_capped_witness :
  let clock : Clock := fun k => Z.of_nat k in
  let bar := {| timestamp := 0; open := 100; high := 101; low := 99;
                close := 100; volume := 1000 |} in
  let buy := {| sig_action := Some "BUY"%string; sig_stop_loss := Some 98;
                sig_take_profit := None |} in
  exists st' t,
    _execute_signal clock "SPY" buy bar (reset default_engine) = Ok st'
    /\ open_positions st' !! "SPY"%string = Some t
    /\ units t = 898%Z
    /\ inject_Z (units t) * entry_price t * (1 + 0.001) <= 100000 * 0.9
    /\ inject_Z (units t) * Qabs (entry_price t - stop_loss t) <= 100000 * 0.02.
Proof.
  intros clock bar buy.
  destruct (_execute_signal clock "SPY" buy bar (reset default_engine)) as [st' | e] eqn:E;
    [| vm_compute in E; discriminate E].
  destruct (open_positions st' !! "SPY"%string) as [t |] eqn:Ht;
    [| vm_compute in E; injection E as <-; vm_compute in Ht; discriminate Ht].
  exists st', t. split; [reflexivity |]. split; [exact Ht |].
  assert (H1 : 0 < close bar) by reflexivity.
  assert (H2 : 0 <= slippage (reset default_engine)) by discriminate.
  assert (H3 : slippage (reset default_engine) < 1) by reflexivity.
  assert (H4 : 0 <= commission (reset default_engine)) by discriminate.
  assert (H5 : open_positions (reset default_engine) !! "SPY"%string = None) by reflexivity.
  destruct (entry_size_capped clock "SPY" buy bar (reset default_engine) st' t
              H1 H2 H3 H4 H5 E Ht) as (_ & _ & Hv & Hr & _).
  assert (Hu : units t = 898%Z /\ 0 < Qabs (entry_price t - stop_loss t)).
  { vm_compute in E. injection E as <-. vm_compute in Ht. injection Ht as <-.
    split; reflexivity. }
  destruct Hu as [Hu Hsd]. split; [exact Hu |]. split; [exact Hv |]. exact (Hr Hsd).
Defined.

(** X14: the stop loss is checked first.  On a bar that reaches the stop of
    the open position (its low for a long position, its high for a short
    one), [_check_stops] closes the position at the stop level with the
    reason ['stop_loss'], whether or not the bar also reaches the
    take-profit level, and the symbol has no position afterwards. *)
Theorem stop_loss_takes_precedence (clock : Clock) (sym : string) (bar : Bar)
    (st : Engine) (t : Trade) :
  open_positions st !! sym = Some t ->
  (if is_long t then low bar <= stop_loss t else stop_loss t <= high bar) ->
  _check_stops clock sym bar st
  = _close_position clock sym (stop_loss t) "stop_loss" st
  /\ open_positions (_check_stops clock sym bar st) !! sym = None
  /\ exists closed,
       trades (_check_stops clock sym bar st) = trades st ++ [closed]
       /\ exit_reason closed = "stop_loss"%string
       /\ exit_price closed = Some (exit_fill (slippage st) t (stop_loss t)).
Proof.
  intros Ht Hhit.
  assert (Hn : open_positions (_close_position clock sym (stop_loss t) "stop_loss" st)
               !! sym = None).
  { apply close_position_lookup. now rewrite Ht. }
  assert (Heq : _check_stops clock sym bar st
                = _close_position clock sym (stop_loss t) "stop_loss" st).
  { unfold _check_stops. rewrite Ht.
    destruct (is_long t).
    - assert (Hb : leb (low bar) (stop_loss t) = true) by (apply Qle_bool_iff, Hhit).
      rewrite Hb. clear Hb. destruct (truthy (take_profit t)); [| reflexivity].
      destruct (leb _ _); [| reflexivity].
      now apply close_position_closed.
    - assert (Hb : leb (stop_loss t) (high bar) = true) by (apply Qle_bool_iff, Hhit).
      rewrite Hb. clear Hb. destruct (truthy (take_profit t)); [| reflexivity].
      destruct (leb _ _); [| reflexivity].
      now apply close_position_closed. }
  split; [exact Heq |]. rewrite Heq. split; [exact Hn |].
  destruct (close_position_open clock sym (stop_loss t) "stop_loss" st t Ht)
    as (closed & _ & Htr & _ & _ & (_ & _ & _ & Hd & _) & Hr & _ & Hep & _).
  cbv zeta in *. exists closed. split; [exact Htr |]. split; [exact Hr |].
  rewrite Hep. f_equal. now apply exit_fill_ext.
Qed.

Lemma stop_loss_takes_precedence_witness :
  let clock : Clock := fun k => Z.of_nat k in
  let t := {| symbol := "SPY"; entry_time := 0; entry_price := 100;
              direction := "long"; units := 10; stop_loss := 98;
              take_profit := Some 103; exit_time := None; exit_price := None;
              pnl := 0; pnl_pct := 0; exit_reason := "" |} in
  let st := {| initial_capital := 100000; commission := 0.001; slippage := 0.0005;
               risk_per_trade := 0.02; capital := 99999; equity_history := [100000];
               trades := []; open_positions := {[ "SPY"%string := t ]};
               clock_reads := 1 |} in
  let wide := {| timestamp := 0; open := 100; high := 104; low := 97;
                 close := 100; volume := 1000 |} in
  low wide <= stop_loss t /\ 103 <= high wide
  /\ exit_reason <$> trades (_check_stops clock "SPY" wide st) = ["stop_loss"%string].
Proof.
  intros clock t st wide.
  assert (Ht : open_positions st !! "SPY"%string = Some t) by reflexivity.
  assert (Hhit : if is_long t then low wide <= stop_loss t else stop_loss t <= high wide)
    by (cbn; discriminate).
  split; [discriminate |]. split; [discriminate |].
  destruct (stop_loss_takes_precedence clock "SPY" wide st t Ht Hhit)
    as (_ & _ & closed & Htr & Hr & _).
  rewrite Htr. cbn. now rewrite Hr.
Defined.

End BacktestRuns.

Section IdleStrategies.
Import Bars OrderFlow Backtest Strategies.
Local Open Scope Q_scope.

(** On candles with [low <= high] and a non-negative volume neither
    strategy ever asks for an entry. *)
Lemma strategy_no_trade (window : list Bar) :
  Forall (fun b => low b <= high b /\ 0 <= volume b) window ->
  strategy window = Ok no_trade /\ simple_strategy window = Ok no_trade.
Proof.
  intros Hwf. unfold strategy, simple_strategy.
  destruct (analyze_orderflow window) as [a | e] eqn:Ea; [| split; reflexivity].
  cbn [mbind result_bind].
  destruct (orderflow_signal_cases window a Hwf Ea)
    as (_ & [(_ & -> & _) | [(_ & -> & _) | (_ & ->)]]);
    change (ltb 0.65 0.65) with false; change (ltb 0.7 0.65) with false;
    change (ltb 0.65 0.3) with false; change (ltb 0.7 0.3) with false;
    rewrite !andb_false_r; split; reflexivity.
Qed.

(** X15: the order-flow strategy of the [/backtest] endpoint, and the
    [simple_strategy] of the engine's self-test, never trade.  On 100 or
    more candles with [low <= high] and a non-negative volume a backtest of
    either returns a result with no trades, an equity curve of
    [1 + (len - 60)] points that all equal the initial capital, and a total
    return of zero. *)
Theorem orderflow_backtest_never_trades (clock : Clock) (eng : Engine) (sym : string)
    (data : list Bar) (strat : Strategy) :
  strat = strategy \/ strat = simple_strategy ->
  Forall (fun b => low b <= high b /\ 0 <= volume b) data ->
  (100 <= length data)%nat ->
  exists res,
    run_backtest clock eng sym data strat = Ok res
    /\ total_trades res = 0%nat /\ res_trades res = []
    /\ length (equity_curve res) = S (length data - 60)
    /\ Forall (fun e => e == initial_capital eng) (equity_curve res)
    /\ final_capital res == initial_capital eng
    /\ total_return res == 0.
Proof.
  intros Hstrat Hwf Hlen.
  unfold run_backtest, run_engine.
  destruct (Nat.ltb_spec (length data) 100) as [| _]; [lia |].
  set (indices := seq window_size (length data - window_size)).
  assert (Hi : Forall (fun i => (i < length data)%nat) indices).
  { apply Forall_forall. intros i Hin. apply elem_of_seq in Hin.
    unfold window_size in Hin. lia. }
  assert (Hrep : exists st',
    replay clock sym data strat (reset eng) indices = Ok st'
    /\ open_positions st' = ∅ /\ trades st' = [] /\ capital st' = initial_capital eng
    /\ initial_capital st' = initial_capital eng
    /\ equity_history st'
       = [initial_capital eng] ++ replicate (length indices) (initial_capital eng + 0)).
  { assert (Hgen : forall (l : list nat) (st : Engine),
      Forall (fun i => (i < length data)%nat) l -> open_positions st = ∅ ->
      exists st',
        replay clock sym data strat st l = Ok st'
        /\ open_positions st' = ∅ /\ trades st' = trades st /\ capital st' = capital st
        /\ initial_capital st' = initial_capital st
        /\ equity_history st'
           = equity_history st ++ replicate (length l) (capital st + 0)).
    { induction l as [| i rest IH]; intros st Hl Ho; cbn [replay].
      - exists st. rewrite app_nil_r. repeat split; auto.
      - inversion Hl as [| ? ? Hlt Hrest]; subst.
        unfold replay_bar, get. destruct (lookup_lt_is_Some_2 data i Hlt) as [bar ->].
        cbn [mbind result_bind].
        assert (Hw : strat (take window_size (drop (i - window_size) data)) = Ok no_trade).
        { assert (Hsub : Forall (fun b => low b <= high b /\ 0 <= volume b)
                           (take window_size (drop (i - window_size) data)))
            by (apply Forall_take, Forall_drop, Hwf).
          destruct Hstrat as [-> | ->]; apply strategy_no_trade, Hsub. }
        rewrite Hw. change (is_entry no_trade) with false. cbn [mbind result_bind].
        assert (Hc : _check_stops clock sym bar st = st).
        { unfold _check_stops. now rewrite Ho, lookup_empty. }
        rewrite Hc.
        destruct (IH (_update_equity (close bar) st) Hrest Ho)
          as (st' & Hr & H1 & H2 & H3 & H4 & H5).
        exists st'. split; [exact Hr |]. split; [exact H1 |]. split; [exact H2 |].
        split; [exact H3 |]. split; [exact H4 |].
        rewrite H5. unfold _update_equity. cbn [equity_history capital].
        rewrite Ho, map_fold_empty, <- app_assoc. reflexivity. }
    apply (Hgen indices (reset eng) Hi). reflexivity. }
  destruct Hrep as (st' & -> & Ho & Htr & Hcap & Hic & Heq).
  cbn [mbind result_bind]. rewrite Ho, lookup_empty. cbn [mbind result_bind].
  unfold _calculate_results, last_item. rewrite Heq.
  assert (Hn : length indices = S (length data - 61)).
  { unfold indices, window_size. rewrite length_seq. lia. }
  rewrite Hn. rewrite replicate_S_end, app_assoc, last_snoc. cbn [mbind result_bind].
  eexists. split; [reflexivity |].
  cbn [total_trades res_trades equity_curve final_capital total_return].
  rewrite Htr, Hic. split; [reflexivity |]. split; [reflexivity |].
  split; [rewrite length_app, length_app, length_replicate; cbn; lia |].
  split; [| split; ring].
  apply Forall_app. split; [apply Forall_app; split |].
  - constructor; [reflexivity | constructor].
  - apply Forall_replicate. ring.
  - constructor; [ring | constructor].
Qed.

Lemma orderflow_backtest_never_trades_witness :
  let bar i := {| Bars.timestamp := Z.of_nat i; open := 100; high := 102; low := 98;
                  close := if Nat.even i then 101 else 99; volume := 1000 |} in
  let data := bar <$> seq 0 100 in
  exists res,
    run_backtest (fun _ => 0%Z) default_engine "SPY" data strategy = Ok res
    /\ res_trades res = [] /\ length (equity_curve res) = 41%nat
    /\ final_capital res == 100000.
Proof.
  intros bar data.
  assert (Hwf : Forall (fun b => low b <= high b /\ 0 <= volume b) data).
  { apply Forall_fmap, Forall_forall. intros i _. cbn. split; discriminate. }
  assert (Hlen : (100 <= length data)%nat) by (unfold data; now rewrite length_fmap, length_seq).
  destruct (orderflow_backtest_never_trades (fun _ => 0%Z) default_engine "SPY" data strategy
              (or_introl eq_refl) Hwf Hlen) as (res & Hres & _ & Htr & Hl & _ & Hf & _).
  exists res. split; [exact Hres |]. split; [exact Htr |].
  split; [rewrite Hl; unfold data; now rewrite length_fmap, length_seq |]. exact Hf.
Defined.

End IdleStrategies.

Section DrawdownProps.
Import Backtest Statistics.
Local Open Scope Q_scope.

Lemma accumulate_from_length (m : Q) (xs : list Q) :
  length (accumulate_from m xs) = length xs.
Proof. revert m. induction xs as [| x rest IH]; intros m; cbn; [reflexivity |]. now rewrite IH. Qed.

(** The running maximum at [j] bounds the start value and the values up to
    [j], and is the start value or one of these values. *)
Lemma accumulate_from_spec (m : Q) (xs : list Q) (j : nat) (p : Q) :
  accumulate_from m xs !! j = Some p ->
  m <= p
  /\ (forall i e, (i <= j)%nat -> xs !! i = Some e -> e <= p)
  /\ (p = m \/ exists i, (i <= j)%nat /\ xs !! i = Some p).
Proof.
  revert m j. induction xs as [| x rest IH]; intros m j; cbn; [discriminate |].
  destruct j as [| j]; cbn.
  - intros [= <-]. destruct (ltb m x) eqn:E.
    + apply ltb_lt in E. split; [lra |]. split.
      * intros i e Hi. assert (i = 0%nat) as -> by lia. cbn. intros [= <-]. apply Qle_refl.
      * right. exists 0%nat. split; [lia | reflexivity].
    + apply ltb_ge in E. split; [apply Qle_refl |]. split.
      * intros i e Hi. assert (i = 0%nat) as -> by lia. cbn. now intros [= <-].
      * now left.
  - intros H. destruct (IH _ _ H) as (H1 & H2 & H3).
    assert (Hm : m <= (if ltb m x then x else m) /\ x <= (if ltb m x then x else m)).
    { destruct (ltb m x) eqn:E; [apply ltb_lt in E | apply ltb_ge in E]; split; lra. }
    destruct Hm as [Hm Hx]. split; [lra |]. split.
    + intros [| i] e Hi; cbn.
      * intros [= <-]. lra.
      * intros He. apply (H2 i e); [lia | exact He].
    + destruct H3 as [-> | (i & Hi & He)].
      * destruct (ltb m x); [| now left]. right. exists 0%nat. split; [lia | reflexivity].
      * right. exists (S i). split; [lia | exact He].
Qed.

Lemma drawdown_of_length (equity : list Q) : length (drawdown_of equity) = length equity.
Proof.
  unfold drawdown_of. rewrite length_zip_with.
  destruct equity as [| x rest]; cbn; [reflexivity |].
  rewrite accumulate_from_length. lia.
Qed.

(** Each point of the drawdown curve is the value of the equity there less
    the highest value up to there. *)
Lemma drawdown_of_spec (equity : list Q) (j : nat) (d : Q) :
  drawdown_of equity !! j = Some d ->
  exists i ei ej,
    (i <= j)%nat /\ equity !! i = Some ei /\ equity !! j = Some ej /\ d = ej - ei
    /\ forall i' e', (i' <= j)%nat -> equity !! i' = Some e' -> e' <= ei.
Proof.
  unfold drawdown_of. intros H. apply lookup_zip_with_Some in H as (ej & p & Hd & Hj & Hp).
  destruct equity as [| x rest]; [discriminate |].
  destruct j as [| j]; cbn in Hp.
  - injection Hp as <-. cbn in Hj. injection Hj as <-. exists 0%nat, x, x.
    split; [lia |]. split; [reflexivity |]. split; [reflexivity |]. split; [exact Hd |].
    intros i' e' Hi. assert (i' = 0%nat) as -> by lia. cbn. intros [= <-]. apply Qle_refl.
  - destruct (accumulate_from_spec x rest j p Hp) as (H1 & H2 & H3).
    assert (Hbound : forall i' e', (i' <= S j)%nat -> (x :: rest) !! i' = Some e' -> e' <= p).
    { intros [| i'] e' Hi; cbn; [now intros [= <-] |]. apply H2. lia. }
    destruct H3 as [-> | (i & Hi & He)].
    + exists 0%nat, x, ej. split; [lia |]. split; [reflexivity |]. split; [exact Hj |].
      split; [exact Hd | exact Hbound].
    + exists (S i), p, ej. split; [lia |]. split; [exact He |]. split; [exact Hj |].
      split; [exact Hd | exact Hbound].
Qed.

Lemma series_min_elem (x : Q) (xs : list Q) : series_min x xs ∈ x :: xs.
Proof.
  unfold series_min. revert x. induction xs as [| y rest IH]; intros x; cbn.
  - apply list_elem_of_here.
  - destruct (ltb y x).
    + apply list_elem_of_further, IH.
    + specialize (IH x). apply elem_of_cons in IH as [-> | IH].
      * apply list_elem_of_here.
      * now do 2 apply list_elem_of_further.
Qed.

Lemma max_drawdown_of_ok (equity : list Q) :
  (0 < length equity)%nat -> exists dd, max_drawdown_of equity = Ok dd.
Proof.
  intros Hlen. unfold max_drawdown_of. pose proof (drawdown_of_length equity) as Hdl.
  destruct (drawdown_of equity); [cbn in Hdl; lia | eexists; reflexivity].
Qed.

(** X16: [max_drawdown] is the largest drop of the equity curve from an
    earlier point to a later one.  For a non-empty curve the value is
    returned, it is not negative, no point of the curve lies below an
    earlier point by more than it, and two points [i <= j] of the curve
    differ by exactly it; the drawdown curve has one point for each point of
    the equity curve and none of them is positive. *)
Theorem max_drawdown_is_largest_drop (equity : list Q) :
  (0 < length equity)%nat ->
  exists dd,
    max_drawdown_of equity = Ok dd
    /\ 0 <= dd
    /\ (forall i j ei ej,
          (i <= j)%nat -> equity !! i = Some ei -> equity !! j = Some ej ->
          ei - ej <= dd)
    /\ (exists i j ei ej,
          (i <= j)%nat /\ equity !! i = Some ei /\ equity !! j = Some ej
          /\ dd == ei - ej)
    /\ length (drawdown_of equity) = length equity
    /\ Forall (fun d => d <= 0) (drawdown_of equity).
Proof.
  intros Hlen. unfold max_drawdown_of.
  pose proof (drawdown_of_length equity) as Hdl.
  assert (Hneg : Forall (fun d => d <= 0) (drawdown_of equity)).
  { apply Forall_lookup. intros j d Hd.
    destruct (drawdown_of_spec equity j d Hd) as (i & ei & ej & Hij & Hi & Hj & -> & Hmax).
    pose proof (Hmax j ej (Nat.le_refl j) Hj). lra. }
  destruct (drawdown_of equity) as [| d rest] eqn:Ed; [cbn in Hdl; lia |].
  eexists. split; [reflexivity |].
  pose proof (series_min_elem d rest) as Hin.
  destruct (series_min_spec d rest) as [Hle Hall].
  assert (Hmneg : series_min d rest <= 0).
  { inversion Hneg; subst. lra. }
  pose proof (Qabs_neg _ Hmneg) as Habs.
  split; [lra |]. split; [| split; [| split; [exact Hdl | exact Hneg]]].
  - intros i j ei ej Hij Hi Hj.
    assert (Hjlt : (j < length (d :: rest))%nat).
    { rewrite Hdl. now apply lookup_lt_Some in Hj. }
    destruct (lookup_lt_is_Some_2 _ _ Hjlt) as [dj Hdj].
    assert (Hmin : series_min d rest <= dj).
    { destruct j as [| j]; cbn in Hdj.
      - injection Hdj as <-. exact Hle.
      - rewrite Forall_lookup in Hall. exact (Hall j dj Hdj). }
    rewrite <- Ed in Hdj.
    destruct (drawdown_of_spec equity j dj Hdj) as (i0 & e0 & ej' & _ & _ & Hj' & -> & Hmax).
    rewrite Hj in Hj'. injection Hj' as <-.
    pose proof (Hmax i ei Hij Hi). lra.
  - apply list_elem_of_lookup in Hin as [j Hj]. rewrite <- Ed in Hj.
    destruct (drawdown_of_spec equity j _ Hj) as (i & ei & ej & Hij & Hi & Hej & Heq & _).
    exists i, j, ei, ej. repeat split; try assumption. rewrite Heq in Habs |- *. lra.
Qed.

Lemma max_drawdown_is_largest_drop_witness :
  exists dd, max_drawdown_of [100; 120; 90; 110; 80; 130] = Ok dd /\ dd == 40.
Proof.
  assert (Hlen : (0 < length [100; 120; 90; 110; 80; 130])%nat) by (cbn; lia).
  destruct (max_drawdown_is_largest_drop [100; 120; 90; 110; 80; 130] Hlen)
    as (dd & Hdd & _).
  exists dd. split; [exact Hdd |].
  vm_compute in Hdd. injection Hdd as <-. reflexivity.
Defined.

Lemma wins_losses_split (ts : list Trade) :
  (length (wins_of ts) + length (losses_of ts) = length ts)%nat
  /\ sum (pnl <$> ts) == sum (pnl <$> wins_of ts) + sum (pnl <$> losses_of ts)
  /\ Forall (fun t => 0 < pnl t) (wins_of ts)
  /\ Forall (fun t => pnl t <= 0) (losses_of ts).
Proof.
  unfold wins_of, losses_of. induction ts as [| t rest (IH1 & IH2 & IH3 & IH4)].
  - cbn. repeat split; constructor.
  - rewrite !filter_cons.
    destruct (ltb 0 (pnl t)) eqn:E.
    + assert (El : leb (pnl t) 0 = false).
      { unfold ltb in E. unfold leb. now apply negb_true_iff in E. }
      rewrite El. apply ltb_lt in E.
      destruct (decide (Is_true true)) as [_ | Hn]; [| exfalso; apply Hn; exact I].
      destruct (decide (Is_true false)) as [[] | _].
      cbn [length fmap list_fmap]. unfold sum in *. cbn [foldr].
      split; [lia |]. split; [rewrite IH2; ring |]. split; [| exact IH4].
      constructor; assumption.
    + assert (El : leb (pnl t) 0 = true).
      { unfold ltb in E. unfold leb. now apply negb_false_iff in E. }
      rewrite El. apply ltb_ge in E.
      destruct (decide (Is_true true)) as [_ | Hn]; [| exfalso; apply Hn; exact I].
      destruct (decide (Is_true false)) as [[] | _].
      cbn [length fmap list_fmap]. unfold sum in *. cbn [foldr].
      split; [lia |]. split; [rewrite IH2; ring |]. split; [exact IH3 |].
      constructor; assumption.
Qed.

Lemma mean_times_length (xs : list Q) :
  xs <> [] -> inject_Z (Z.of_nat (length xs)) * mean xs == sum xs.
Proof.
  intros Hne. unfold mean. field.
  assert (H : 0 < inject_Z (Z.of_nat (length xs))).
  { apply inject_nat_pos. destruct xs; [contradiction | cbn; lia]. }
  lra.
Qed.

Lemma sum_positive (xs : list Q) : Forall (fun v => 0 < v) xs -> xs <> [] -> 0 < sum xs.
Proof.
  intros H Hne. destruct H as [| x rest Hx Hrest]; [contradiction |].
  unfold sum. cbn [foldr]. fold (sum rest). cbn beta in Hx.
  assert (0 <= sum rest).
  { apply sum_nonneg. eapply Forall_impl; [exact Hrest |]. intros v Hv.
    cbn beta in *. lra. }
  lra.
Qed.

Lemma sum_nonpositive (xs : list Q) : Forall (fun v => v <= 0) xs -> sum xs <= 0.
Proof.
  induction 1 as [| x rest Hx _ IH]; unfold sum in *; cbn [foldr]; [apply Qle_refl |].
  cbn beta in Hx. lra.
Qed.

Lemma sum_nonpositive_zero (xs : list Q) :
  Forall (fun v => v <= 0) xs -> sum xs == 0 -> Forall (fun v => v == 0) xs.
Proof.
  induction 1 as [| x rest Hx Hrest IH]; [constructor |].
  unfold sum in *. cbn [foldr]. intros Hs. cbn beta in Hx.
  pose proof (sum_nonpositive rest Hrest) as Hr. unfold sum in Hr.
  constructor; [lra | apply IH; lra].
Qed.

(** X17: the trade statistics of a result are consistent.  For an engine
    with a non-empty equity history the statistics are returned; every
    trade is either winning or losing; the win rate lies between 0 and 100;
    the average win is positive when there is a winning trade and the
    average loss is not negative; the profits of all trades add up to the
    winning trades times the average win less the losing trades times the
    average loss; a profit factor that is a number is not negative, and it
    is infinite only when there are trades and none of them lost money. *)
Theorem trade_statistics_consistent (eng : Engine) :
  (0 < length (equity_history eng))%nat ->
  exists s,
    trade_statistics eng = Ok s
    /\ st_total_trades s = length (trades eng)
    /\ (winning_trades s + losing_trades s = st_total_trades s)%nat
    /\ 0 <= win_rate s /\ win_rate s <= 100
    /\ ((0 < winning_trades s)%nat -> 0 < avg_win s)
    /\ 0 <= avg_loss s
    /\ sum (pnl <$> trades eng)
       == inject_Z (Z.of_nat (winning_trades s)) * avg_win s
          - inject_Z (Z.of_nat (losing_trades s)) * avg_loss s
    /\ (forall pf, profit_factor s = Some pf -> 0 <= pf)
    /\ (profit_factor s = None ->
        trades eng <> [] /\ Forall (fun t => 0 <= pnl t) (trades eng)).
Proof.
  intros Hlen. unfold trade_statistics.
  destruct (trades eng) as [| t0 rest] eqn:Etr.
  - cbn. eexists. split; [reflexivity |]. cbn.
    repeat split; try lia; try discriminate; try (unfold sum; cbn; ring).
    intros pf [= <-]. apply Qle_refl.
  - rewrite <- Etr. assert (Hn : (length (trades eng) =? 0)%nat = false).
    { rewrite Etr. reflexivity. }
    rewrite Hn.
    destruct (max_drawdown_of_ok (equity_history eng) Hlen) as (dd & ->).
    cbn [mbind result_bind]. eexists. split; [reflexivity |].
    cbn [st_total_trades winning_trades losing_trades win_rate avg_win avg_loss
         profit_factor].
    destruct (wins_losses_split (trades eng)) as (Hcount & Hsum & Hw & Hl).
    set (wins := wins_of (trades eng)) in *. set (losses := losses_of (trades eng)) in *.
    assert (Htot : 0 < inject_Z (Z.of_nat (length (trades eng)))).
    { apply inject_nat_pos. rewrite Etr. cbn. lia. }
    assert (Hwn : 0 <= inject_Z (Z.of_nat (length wins))).
    { change 0 with (inject_Z 0). rewrite <- Zle_Qle. lia. }
    assert (Hwle : inject_Z (Z.of_nat (length wins))
                   <= inject_Z (Z.of_nat (length (trades eng)))).
    { apply inject_nat_le. lia. }
    assert (Hsw : 0 <= sum (pnl <$> wins)).
    { apply sum_nonneg, Forall_fmap. eapply Forall_impl; [exact Hw |].
      intros t Ht. cbn in *. lra. }
    assert (Hsl : sum (pnl <$> losses) <= 0).
    { apply sum_nonpositive, Forall_fmap. exact Hl. }
    assert (Havg_w : inject_Z (Z.of_nat (length wins))
                     * match wins with [] => 0 | _ => mean (pnl <$> wins) end
                     == sum (pnl <$> wins)).
    { destruct wins as [| w ws] eqn:Ew; [unfold sum; cbn; ring |].
      rewrite <- (mean_times_length (pnl <$> w :: ws)) by (intros Hnil; inversion Hnil).
      now rewrite length_fmap. }
    assert (Havg_l : inject_Z (Z.of_nat (length losses))
                     * match losses with [] => 0 | _ => Qabs (mean (pnl <$> losses)) end
                     == - sum (pnl <$> losses)).
    { destruct losses as [| l ls] eqn:El; [unfold sum; cbn; ring |].
      assert (Hpos : 0 < inject_Z (Z.of_nat (length (l :: ls))))
        by (apply inject_nat_pos; cbn; lia).
      pose proof (mean_times_length (pnl <$> l :: ls) ltac:(intros Hnil; inversion Hnil)) as Hm.
      rewrite length_fmap in Hm.
      assert (Hmn : mean (pnl <$> l :: ls) <= 0).
      { unfold mean. rewrite length_fmap.
        apply Qle_shift_div_r; [exact Hpos | lra]. }
      pose proof (Qabs_neg _ Hmn) as Ha. rewrite Ha. lra. }
    split; [reflexivity |]. split; [exact Hcount |].
    split; [apply Qmult_le_0_compat; [apply Qle_shift_div_l; lra | lra] |].
    split.
    { assert (Hr : inject_Z (Z.of_nat (length wins))
                   / inject_Z (Z.of_nat (length (trades eng))) <= 1)
        by (apply Qle_shift_div_r; lra).
      lra. }
    split.
    { intros Hpos. destruct wins as [| w ws] eqn:Ew; [cbn in Hpos; lia |].
      unfold mean. apply Qlt_shift_div_l.
      - apply inject_nat_pos. rewrite length_fmap. cbn. lia.
      - assert (0 < sum (pnl <$> w :: ws)).
        { apply sum_positive; [| intros Hnil; inversion Hnil]. apply Forall_fmap. exact Hw. }
        lra. }
    split; [destruct losses; [apply Qle_refl | apply Qabs_nonneg] |].
    split; [rewrite Havg_w, Havg_l, Hsum; ring |].
    split.
    + destruct (ltb 0 (Qabs (sum (pnl <$> losses)))) eqn:E; [| discriminate].
      apply ltb_lt in E. intros pf [= <-]. apply Qle_shift_div_l; lra.
    + destruct (ltb 0 (Qabs (sum (pnl <$> losses)))) eqn:E; [discriminate |].
      apply ltb_ge in E. intros _. split; [rewrite Etr; discriminate |].
      pose proof (Qabs_nonneg (sum (pnl <$> losses))) as Hnn.
      pose proof (Qabs_neg _ Hsl) as Ha.
      assert (Hz : Forall (fun v => v == 0) (pnl <$> losses)).
      { apply sum_nonpositive_zero; [apply Forall_fmap; exact Hl | lra]. }
      apply Forall_forall. intros t Ht.
      destruct (Qlt_le_dec 0 (pnl t)) as [Hp | Hp]; [lra |].
      assert (Hin : t ∈ losses).
      { unfold losses, losses_of. apply list_elem_of_filter. split; [| exact Ht].
        apply Is_true_true. now apply Qle_bool_iff. }
      rewrite Forall_fmap, Forall_forall in Hz. specialize (Hz t Hin). cbn in Hz. lra.
Qed.

Lemma trade_statistics_consistent_witness :
  let trade p := {| symbol := "SPY"; entry_time := 0; entry_price := 100;
                    direction := "long"; units := 10; stop_loss := 98;
                    take_profit := None; exit_time := Some 1%Z; exit_price := Some 101;
                    pnl := p; pnl_pct := 0; exit_reason := "stop_loss" |} in
  let eng := {| initial_capital := 1000; commission := 0; slippage := 0;
                risk_per_trade := 0.02; capital := 1010;
                equity_history := [1000; 1030; 1010];
                trades := trade <$> [30; -20; 10; -10]; open_positions := ∅;
                clock_reads := 8 |} in
  exists s,
    trade_statistics eng = Ok s
    /\ winning_trades s = 2%nat /\ losing_trades s = 2%nat
    /\ win_rate s == 50 /\ avg_win s == 20 /\ avg_loss s == 15
    /\ sum (pnl <$> trades eng) == 10.
Proof.
  intros trade eng.
  assert (Hlen : (0 < length (equity_history eng))%nat) by (cbn; lia).
  destruct (trade_statistics_consistent eng Hlen) as (s & Hs & _ & _ & _ & _ & _ & _ & Hsum & _).
  exists s. split; [exact Hs |].
  assert (Hv : winning_trades s = 2%nat /\ losing_trades s = 2%nat
               /\ win_rate s == 50 /\ avg_win s == 20 /\ avg_loss s == 15).
  { vm_compute in Hs. injection Hs as <-. repeat split. }
  destruct Hv as (H1 & H2 & H3 & H4 & H5).
  split; [exact H1 |]. split; [exact H2 |]. split; [exact H3 |]. split; [exact H4 |].
  split; [exact H5 |]. rewrite Hsum, H1, H2, H4, H5. reflexivity.
Defined.

End DrawdownProps.

Section MacroProps.
Import PortfolioManager MacroEconomist.
Local Open Scope Q_scope.

Lemma sentiment_bounds (headlines : list string) :
  let s := analyze_basic_sentiment headlines in
  -1 <= sentiment s /\ sentiment s <= 1 /\ 0 <= magnitude s /\ magnitude s <= 1.
Proof.
  cbv zeta. unfold analyze_basic_sentiment.
  destruct headlines as [| h rest]; [cbn; repeat split; discriminate |].
  set (b := keyword_count bullish_keywords (h :: rest)).
  set (r := keyword_count bearish_keywords (h :: rest)).
  destruct (Nat.eqb_spec (b + r) 0) as [| Hne]; [cbn; repeat split; discriminate |].
  cbn [sentiment magnitude].
  assert (Ht : 0 < inject_Z (Z.of_nat (b + r))) by (apply inject_nat_pos; lia).
  assert (Hb : 0 <= inject_Z (Z.of_nat b))
    by (change 0 with (inject_Z 0); rewrite <- Zle_Qle; lia).
  assert (Hr : 0 <= inject_Z (Z.of_nat r))
    by (change 0 with (inject_Z 0); rewrite <- Zle_Qle; lia).
  assert (Hsum : inject_Z (Z.of_nat (b + r)) == inject_Z (Z.of_nat b) + inject_Z (Z.of_nat r)).
  { rewrite Nat2Z.inj_add, inject_Z_plus. reflexivity. }
  assert (Hl : 0 < inject_Z (Z.of_nat (length (h :: rest) * 2)))
    by (apply inject_nat_pos; cbn; lia).
  split; [apply Qle_shift_div_l; [exact Ht | lra] |].
  split; [apply Qle_shift_div_r; [exact Ht | lra] |].
  assert (Hq : 0 <= inject_Z (Z.of_nat (b + r)) / inject_Z (Z.of_nat (length (h :: rest) * 2)))
    by (apply Qle_shift_div_l; [exact Hl | lra]).
  unfold min2. destruct (ltb _ 1) eqn:E; [apply ltb_lt in E; split; lra |].
  split; lra.
Qed.

Lemma filter_active_iff (now : Q) (events : list Event) (buffer : Q) :
  filter_active (check_volatility_filter now events buffer) = true
  <-> exists event t, event ∈ events /\ ev_datetime event = Some t
                      /\ Qabs ((t - now) / 60) <= buffer.
Proof.
  induction events as [| event rest IH]; cbn [check_volatility_filter].
  - split; [discriminate |]. intros (event & t & Hin & _). inversion Hin.
  - destruct (ev_datetime event) as [t |] eqn:Et.
    + destruct (leb (Qabs ((t - now) / 60)) buffer) eqn:E.
      * cbn. split; [| reflexivity]. intros _. exists event, t.
        split; [apply list_elem_of_here |]. split; [exact Et |]. now apply Qle_bool_iff.
      * rewrite IH. split.
        -- intros (e' & t' & Hin & Ht' & Hle). exists e', t'.
           split; [now apply list_elem_of_further | auto].
        -- intros (e' & t' & Hin & Ht' & Hle). apply elem_of_cons in Hin as [-> | Hin].
           ++ rewrite Et in Ht'. injection Ht' as <-.
              apply Qle_bool_iff in Hle. unfold leb in E. congruence.
           ++ exists e', t'. auto.
    + rewrite IH. split.
      * intros (e' & t' & Hin & Ht' & Hle). exists e', t'.
        split; [now apply list_elem_of_further | auto].
      * intros (e' & t' & Hin & Ht' & Hle). apply elem_of_cons in Hin as [-> | Hin].
        -- congruence.
        -- exists e', t'. auto.
Qed.

(** X18: the macro signal takes one of four shapes.  Whatever the news and
    the calendar, [analyze_symbol] reports ['avoid'] with confidence 0.9 and
    trading not allowed exactly when an event of the calendar lies within
    30 minutes of the clock; otherwise trading is allowed and the signal is
    ['bullish'] with confidence exactly 0.8 when the sentiment is above 0.3,
    ['bearish'] with confidence exactly 0.8 when it is below -0.3, and
    ['neutral'] with confidence 0.5 in between.  The sentiment lies in
    [-1, 1] and its magnitude in [0, 1]. *)
Theorem macro_signal_shapes (now : Q) (stamp : string) (events : list Event)
    (symbol : string) (news : option (list string)) :
  let a := analyze_symbol now stamp events symbol news in
  (-1 <= sentiment (ma_sentiment a) /\ sentiment (ma_sentiment a) <= 1
   /\ 0 <= magnitude (ma_sentiment a) /\ magnitude (ma_sentiment a) <= 1)
  /\ (ma_trading_allowed a = false
      <-> exists event t, event ∈ events /\ ev_datetime event = Some t
                          /\ Qabs ((t - now) / 60) <= 30)
  /\ (ma_direction a = "avoid"%string /\ ma_confidence a = 0.9
        /\ ma_trading_allowed a = false
      \/ ma_direction a = "bullish"%string /\ ma_confidence a = 0.8
        /\ ma_trading_allowed a = true /\ 0.3 < sentiment (ma_sentiment a)
      \/ ma_direction a = "bearish"%string /\ ma_confidence a = 0.8
        /\ ma_trading_allowed a = true /\ sentiment (ma_sentiment a) < -0.3
      \/ ma_direction a = "neutral"%string /\ ma_confidence a = 0.5
        /\ ma_trading_allowed a = true
        /\ -0.3 <= sentiment (ma_sentiment a) /\ sentiment (ma_sentiment a) <= 0.3).
Proof.
  cbv zeta. unfold analyze_symbol.
  set (s := analyze_basic_sentiment (default [] news)).
  set (vf := check_volatility_filter now events default_minutes_buffer).
  pose proof (sentiment_bounds (default [] news)) as Hb. cbv zeta in Hb. fold s in Hb.
  pose proof (filter_active_iff now events default_minutes_buffer) as Hf. fold vf in Hf.
  assert (Hshape :
    forall d c, (d, c) = (if filter_active vf then ("avoid"%string, 0.9)
                          else if ltb 0.3 (sentiment s)
                               then ("bullish"%string, min2 0.8 (0.5 + Qabs (sentiment s)))
                               else if ltb (sentiment s) (-0.3)
                                    then ("bearish"%string,
                                          min2 0.8 (0.5 + Qabs (sentiment s)))
                                    else ("neutral"%string, 0.5)) ->
    d = "avoid"%string /\ c = 0.9 /\ negb (filter_active vf) = false
    \/ d = "bullish"%string /\ c = 0.8 /\ negb (filter_active vf) = true
       /\ 0.3 < sentiment s
    \/ d = "bearish"%string /\ c = 0.8 /\ negb (filter_active vf) = true
       /\ sentiment s < -0.3
    \/ d = "neutral"%string /\ c = 0.5 /\ negb (filter_active vf) = true
       /\ -0.3 <= sentiment s /\ sentiment s <= 0.3).
  { intros d c. destruct (filter_active vf); [intros [= -> ->]; now left |].
    destruct (ltb 0.3 (sentiment s)) eqn:E1.
    - apply ltb_lt in E1. intros [= -> ->]. right. left.
      split; [reflexivity |]. split; [| split; [reflexivity | exact E1]].
      unfold min2. rewrite (proj2 (ltb_ge _ _)); [reflexivity |].
      rewrite Qabs_pos by lra. lra.
    - apply ltb_ge in E1. destruct (ltb (sentiment s) (-0.3)) eqn:E2.
      + apply ltb_lt in E2. intros [= -> ->]. right. right. left.
        split; [reflexivity |]. split; [| split; [reflexivity | exact E2]].
        unfold min2. rewrite (proj2 (ltb_ge _ _)); [reflexivity |].
        rewrite Qabs_neg by lra. lra.
      + apply ltb_ge in E2. intros [= -> ->]. right. right. right.
        repeat split; try reflexivity; assumption. }
  destruct (if filter_active vf then _ else _) as [d c] eqn:Ed.
  cbn [ma_sentiment ma_trading_allowed ma_direction ma_confidence].
  split; [exact Hb |]. split; [| exact (Hshape d c eq_refl)].
  rewrite negb_false_iff. exact Hf.
Qed.

End MacroProps.


Section ChartistProps.
Import Bars VolumeProfile ProfileAnalysis PortfolioManager Chartist.
Local Open Scope Q_scope.

(** [get_volume_profile_analysis] returns the summary of the profile that
    [build_volume_profile] returns with the default arguments. *)
Lemma profile_analysis_ok (bars : list Bar) :
  exists vp s,
    build_volume_profile bars default_bins default_value_area_pct = Ok vp
    /\ get_volume_profile_analysis bars = Ok s
    /\ ps_regime s = regime_value (regime vp)
    /\ ps_current_position s = current_position vp
    /\ ps_poc s = poc vp /\ ps_vah s = vah vp /\ ps_val s = val vp
    /\ ps_hvn s = take 5 (hvn vp).
Proof.
  assert (Hbins : (0 < default_bins)%nat) by (unfold default_bins; lia).
  unfold get_volume_profile_analysis. destruct bars as [| b0 rest].
  - exists empty_result. eexists. split; [reflexivity |]. split; [reflexivity |].
    repeat split.
  - destruct (build_volume_profile_shape b0 rest default_bins default_value_area_pct Hbins)
      as (vp & _ & _ & _ & Hr & _).
    exists vp. rewrite Hr. cbn [mbind result_bind]. eexists.
    split; [reflexivity |]. split; [reflexivity |]. repeat split.
Qed.

(** The two sides of a breakout on a well-formed window. *)
Lemma breakout_sides (b0 : Bar) (rest : list Bar) (bins : nat) (pct : Q)
    (vp : VolumeProfileResult) :
  (0 < bins)%nat -> Forall well_formed (b0 :: rest) ->
  build_volume_profile (b0 :: rest) bins pct = Ok vp -> regime vp = BREAKOUT ->
  exists last_bar, last_item (b0 :: rest) = Ok last_bar
    /\ (vah vp * 1.005 < close last_bar /\ current_position vp = "above_vah"%string
        \/ close last_bar < val vp * 0.995 /\ current_position vp = "below_val"%string).
Proof.
  intros Hbins Hwf Hr Hg.
  destruct (value_area_bounds b0 rest bins pct vp Hbins Hwf Hr) as [Hv0 Hv1].
  destruct (build_inversion b0 rest bins pct vp Hr)
    as (poc_bin & lb & _ & _ & _ & _ & _ & _ & Hreg & Hlast & Hpos).
  rewrite Hg in Hreg. unfold determine_regime in Hreg.
  destruct (length (b0 :: rest) <? 20)%nat; [discriminate |].
  exists lb. split; [exact Hlast |].
  rewrite Hlast in Hreg. cbn [mbind result_bind] in Hreg. rewrite Hpos.
  destruct (ltb (vah vp * 1.005) (close lb)) eqn:E1.
  - apply ltb_lt in E1. left. split; [exact E1 |].
    now rewrite (proj2 (ltb_lt (vah vp) (close lb))) by lra.
  - destruct (ltb (close lb) (val vp * 0.995)) eqn:E2.
    + apply ltb_lt in E2. right. split; [exact E2 |].
      rewrite (proj2 (ltb_ge (vah vp) (close lb))) by lra.
      now rewrite (proj2 (ltb_lt (close lb) (val vp))) by lra.
    + repeat match type of Hreg with
             | context [if ?b then _ else _] => destruct b
             end; discriminate.
Qed.

Lemma analysis_of_ok (data : list Bar) :
  exists o, analysis_of data = Ok o
    /\ match data with
       | [] => o = None
       | _ :: _ =>
           exists vp s,
             o = Some s
             /\ build_volume_profile data default_bins default_value_area_pct = Ok vp
             /\ ps_regime s = regime_value (regime vp)
             /\ ps_current_position s = current_position vp
             /\ ps_vah s = vah vp /\ ps_val s = val vp
       end.
Proof.
  destruct data as [| b0 rest]; [now exists None |].
  destruct (profile_analysis_ok (b0 :: rest))
    as (vp & s & Hvp & Hs & Hr & Hp & _ & Hvah & Hval & _).
  exists (Some s). unfold analysis_of. rewrite Hs. split; [reflexivity |].
  now exists vp, s.
Qed.

(** The context for a daily regime [g] and an hourly regime that is absent
    or [g']. *)
Lemma determine_context_cases (htf : ProfileSummary) (mtf stf : option ProfileSummary)
    (price : Q) (g : MarketRegime) :
  ps_regime htf = regime_value g ->
  match mtf with
  | Some m => exists g', ps_regime m = regime_value g'
  | None => True
  end ->
  exists d s mr a,
    _determine_context (Some htf) mtf stf price
    = FullContext d s (regime_value g) mr (ps_current_position htf) a
    /\ 0.5 <= s /\ s <= 1
    /\ (d = "bullish_breakout"%string ->
        g = BREAKOUT /\ ps_current_position htf = "above_vah"%string)
    /\ (d = "bearish_breakout"%string ->
        g = BREAKOUT /\ ps_current_position htf <> "above_vah"%string)
    /\ (a = "look_for_longs"%string ->
        g = TRENDING_UP \/ d = "bullish_breakout"%string)
    /\ (a = "look_for_shorts"%string ->
        g = TRENDING_DOWN \/ d = "bearish_breakout"%string).
Proof.
  intros Hh Hm. unfold _determine_context. rewrite Hh.
  assert (Hmr : exists g', match mtf with
                           | Some m => ps_regime m
                           | None => "ranging"%string
                           end = regime_value g').
  { destruct mtf as [m |]; [exact Hm | now exists RANGING]. }
  destruct Hmr as [g' ->].
  destruct (String.eqb (ps_current_position htf) "above_vah") eqn:Ep;
    [apply String.eqb_eq in Ep | apply String.eqb_neq in Ep];
    destruct g, g'; cbn; do 4 eexists; (split; [reflexivity |]);
    repeat split; try discriminate; auto; intros; try discriminate; auto.
Qed.

(** X19: the context that the chartist reports.  When the three fetches
    succeed and the daily window is a non-empty window of well-formed bars,
    [analyze_symbol] succeeds; the reported price is the last close of the
    short window, or of the daily window when the short one is empty; the
    strength lies between 0.5 and 1; a ['bullish_breakout'] is reported only
    when the last daily close is more than 0.5% above the value-area high,
    and a ['bearish_breakout'] only when it is more than 0.5% below the
    value-area low; and the action is ['look_for_longs'] only for a daily
    uptrend or a bullish breakout, ['look_for_shorts'] only for a daily
    downtrend or a bearish breakout: the hourly regime alone never makes
    the context actionable. *)
Theorem chartist_context_sound (htf_data mtf_data stf_data : list Bar)
    (symbol now : string) :
  htf_data <> [] -> Forall well_formed htf_data ->
  exists r vp last_bar d s mr a,
    analyze_symbol (Ok htf_data) (Ok mtf_data) (Ok stf_data) symbol now = ChartSuccess r
    /\ build_volume_profile htf_data default_bins default_value_area_pct = Ok vp
    /\ last_item htf_data = Ok last_bar
    /\ last_item (close <$> (if decide (stf_data = []) then htf_data else stf_data))
       = Ok (cr_current_price r)
    /\ cr_context r
       = FullContext d s (regime_value (regime vp)) mr (current_position vp) a
    /\ 0.5 <= s /\ s <= 1
    /\ (d = "bullish_breakout"%string -> vah vp * 1.005 < close last_bar)
    /\ (d = "bearish_breakout"%string -> close last_bar < val vp * 0.995)
    /\ (a = "look_for_longs"%string ->
        regime vp = TRENDING_UP \/ d = "bullish_breakout"%string)
    /\ (a = "look_for_shorts"%string ->
        regime vp = TRENDING_DOWN \/ d = "bearish_breakout"%string).
Proof.
  intros Hne Hwf. destruct htf_data as [| b0 rest]; [contradiction |].
  assert (Hbins : (0 < default_bins)%nat) by (unfold default_bins; lia).
  destruct (analysis_of_ok (b0 :: rest))
    as (oh & Hoh & vp & sh & -> & Hvp & Hreg & Hpos & Hvah & Hval).
  destruct (analysis_of_ok mtf_data) as (om & Hom & Hm).
  destruct (analysis_of_ok stf_data) as (os & Hos & _).
  destruct (last_item_cons b0 rest) as [last_bar Hlast].
  assert (Hprice : exists p,
    last_item (close <$> (if decide (stf_data = []) then b0 :: rest else stf_data)) = Ok p
    /\ match stf_data with
       | [] => last_item (close <$> b0 :: rest)
       | _ :: _ => last_item (close <$> stf_data)
       end = Ok p).
  { destruct stf_data as [| c0 crest].
    - destruct (last_item_cons (close b0) (close <$> rest)) as [p Hp].
      exists p. destruct (decide _) as [_ | Hc]; [| contradiction]. now split.
    - destruct (last_item_cons (close c0) (close <$> crest)) as [p Hp].
      exists p. destruct (decide _) as [Hc | _]; [discriminate |]. now split. }
  destruct Hprice as (p & Hp1 & Hp2).
  assert (Hmt : match om with
                | Some m => exists g', ps_regime m = regime_value g'
                | None => True
                end).
  { destruct mtf_data as [| m0 mrest]; [now subst om |].
    destruct Hm as (vpm & sm & -> & _ & Hrm & _). now exists (regime vpm). }
  destruct (determine_context_cases sh om os p (regime vp) Hreg Hmt)
    as (d & s & mr & a & Hctx & Hs0 & Hs1 & Hbull & Hbear & Hlong & Hshort).
  unfold analyze_symbol. cbn [mbind result_bind]. rewrite Hoh, Hom, Hos.
  cbn [mbind result_bind]. rewrite Hp2. cbn [mbind result_bind].
  eexists. exists vp, last_bar, d, s, mr, a.
  split; [reflexivity |]. cbn [cr_current_price cr_context].
  split; [exact Hvp |]. split; [exact Hlast |]. split; [exact Hp1 |].
  split; [now rewrite Hctx, Hpos |]. split; [exact Hs0 |]. split; [exact Hs1 |].
  split; [| split; [| split; [exact Hlong | exact Hshort]]].
  - intros Hd. destruct (Hbull Hd) as [Hg Hab].
    destruct (breakout_sides b0 rest _ _ vp Hbins Hwf Hvp Hg)
      as (lb & Hlb & [[H1 _] | [_ H2]]).
    + rewrite Hlast in Hlb. now injection Hlb as <-.
    + rewrite Hpos, H2 in Hab. discriminate.
  - intros Hd. destruct (Hbear Hd) as [Hg Hab].
    destruct (breakout_sides b0 rest _ _ vp Hbins Hwf Hvp Hg)
      as (lb & Hlb & [[_ H1] | [H2 _]]).
    + rewrite Hpos in Hab. contradiction.
    + rewrite Hlast in Hlb. now injection Hlb as <-.
Qed.

Lemma chartist_context_sound_witness :
  let htf_data := [ {| timestamp := 0; open := 100; high := 102; low := 99;
                       close := 101; volume := 1000 |};
                    {| timestamp := 1; open := 101; high := 103; low := 100;
                       close := 102; volume := 500 |} ] in
  let stf_data := [ {| timestamp := 2; open := 102; high := 104; low := 101;
                       close := 103; volume := 100 |} ] in
  exists r,
    analyze_symbol (Ok htf_data) (Ok []) (Ok stf_data) "SPY" "2024-01-01T00:00:00"
    = ChartSuccess r
    /\ cr_current_price r = 103
    /\ 0.5 <= cc_strength (cr_context r) /\ cc_strength (cr_context r) <= 1.
Proof.
  intros htf_data stf_data.
  assert (Hne : htf_data <> []) by discriminate.
  assert (Hwf : Forall well_formed htf_data).
  { repeat constructor; cbn; discriminate. }
  destruct (chartist_context_sound htf_data [] stf_data "SPY" "2024-01-01T00:00:00" Hne Hwf)
    as (r & vp & last_bar & d & s & mr & a & Hr & _ & _ & Hp & Hctx & Hs0 & Hs1 & _).
  exists r. split; [exact Hr |].
  assert (Hpr : cr_current_price r = 103).
  { vm_compute in Hp. injection Hp as Hp. exact (eq_sym Hp). }
  split; [exact Hpr |]. rewrite Hctx. cbn. split; assumption.
Defined.

Lemma insert_level_perm (x : KeyLevel) (l : list KeyLevel) : insert_level x l ≡ₚ x :: l.
Proof.
  induction l as [| y rest IH]; cbn; [reflexivity |].
  destruct (level_lt x y); [reflexivity |]. rewrite IH. apply Permutation_swap.
Qed.

Lemma sort_levels_perm (l : list KeyLevel) : sort_levels l ≡ₚ l.
Proof.
  unfold sort_levels.
  assert (H : forall acc, fold_left (fun sorted x => insert_level x sorted) l acc ≡ₚ acc ++ l).
  { induction l as [| x rest IH]; intros acc; cbn [fold_left].
    - now rewrite app_nil_r.
    - rewrite IH, insert_level_perm. cbn [app]. apply Permutation_middle. }
  now rewrite H.
Qed.

(** [y] does not come before [x] in the order of the sort keys. *)
Lemma level_lt_false (x y : KeyLevel) :
  level_lt y x = false <->
  (level_rank x < level_rank y)%nat
  \/ level_rank x = level_rank y /\ kl_price x <= kl_price y.
Proof.
  unfold level_lt.
  destruct (Nat.ltb_spec (level_rank y) (level_rank x)) as [H1 | H1]; cbn [orb].
  - split; [discriminate | intros [H | [H _]]; lia].
  - destruct (Nat.eqb_spec (level_rank y) (level_rank x)) as [H2 | H2]; cbn [andb].
    + rewrite ltb_ge. split.
      * intros H. right. split; [lia | exact H].
      * intros [H | [_ H]]; [lia | exact H].
    + split; [intros _; left; lia | reflexivity].
Qed.

Lemma insert_level_sorted (x : KeyLevel) (l : list KeyLevel) :
  StronglySorted (fun a b => level_lt b a = false) l ->
  StronglySorted (fun a b => level_lt b a = false) (insert_level x l).
Proof.
  induction 1 as [| y rest Hs IH Hall]; cbn.
  - constructor; constructor.
  - destruct (level_lt x y) eqn:E.
    + constructor; [constructor; assumption |].
      assert (Hxy : level_lt y x = false).
      { apply level_lt_false. unfold level_lt in E.
        apply orb_true_iff in E as [E | E].
        - apply Nat.ltb_lt in E. now left.
        - apply andb_true_iff in E as [E1 E2]. apply Nat.eqb_eq in E1.
          apply ltb_lt in E2. right. split; [exact E1 | lra]. }
      constructor; [exact Hxy |].
      eapply Forall_impl; [exact Hall |]. intros z Hz. cbn beta in Hz.
      apply level_lt_false in Hxy, Hz. apply level_lt_false.
      destruct Hxy as [? | [? ?]], Hz as [? | [? ?]]; try (left; lia).
      right. split; [lia | lra].
    + constructor; [exact IH |].
      rewrite (insert_level_perm x rest). constructor; assumption.
Qed.

Lemma sort_levels_sorted (l : list KeyLevel) :
  StronglySorted (fun a b => level_lt b a = false) (sort_levels l).
Proof.
  unfold sort_levels.
  assert (H : forall acc, StronglySorted (fun a b => level_lt b a = false) acc ->
            StronglySorted (fun a b => level_lt b a = false)
              (fold_left (fun sorted x => insert_level x sorted) l acc)).
  { induction l as [| x rest IH]; intros acc Hacc; cbn [fold_left]; [exact Hacc |].
    apply IH, insert_level_sorted, Hacc. }
  apply H. constructor.
Qed.

Lemma strongly_sorted_weaken {A} (R S : A -> A -> Prop) (l : list A) :
  (forall a b, R a b -> S a b) -> StronglySorted R l -> StronglySorted S l.
Proof.
  intros HRS. induction 1 as [| x rest _ IH Hall]; constructor; [exact IH |].
  eapply Forall_impl; [exact Hall |]. intros y. apply HRS.
Qed.

(** X20: the key levels of the chartist.  [_get_key_levels] returns a
    rearrangement of the levels it collects (the daily POC, VAH and VAL,
    the first three daily HVNs and the hourly POC, a level of price zero
    being skipped unless it is an HVN), at most seven of them, sorted so
    that every level of high importance comes before every other level and,
    within the same importance, prices do not decrease. *)
Theorem key_levels_sorted (htf mtf : option ProfileSummary) :
  let levels := _get_key_levels htf mtf in
  levels ≡ₚ collected_levels htf mtf
  /\ (length levels <= 7)%nat
  /\ StronglySorted
       (fun a b =>
          (kl_importance a = "high"%string /\ kl_importance b <> "high"%string)
          \/ ((kl_importance a = "high"%string <-> kl_importance b = "high"%string)
              /\ kl_price a <= kl_price b)) levels
  /\ Forall (fun a => kl_type a = "hvn"%string \/ ~ kl_price a == 0) levels.
Proof.
  cbv zeta. unfold _get_key_levels.
  pose proof (sort_levels_perm (collected_levels htf mtf)) as Hperm.
  split; [exact Hperm |]. split; [| split].
  - rewrite Hperm. unfold collected_levels.
    destruct htf as [h |], mtf as [m |]; rewrite ?length_app;
      repeat match goal with
             | |- context [if ?b then _ else _] => destruct b
             end; cbn [length]; rewrite ?length_fmap, ?length_take; lia.
  - eapply strongly_sorted_weaken; [| apply sort_levels_sorted].
    intros a b H. apply level_lt_false in H. unfold level_rank in H.
    destruct (String.eqb_spec (kl_importance a) "high") as [Ea | Ea],
             (String.eqb_spec (kl_importance b) "high") as [Eb | Eb];
      destruct H as [H | [Hr Hp]]; try lia;
      first [ left; split; assumption | right; split; [tauto | exact Hp] ].
  - rewrite Hperm. unfold collected_levels. apply Forall_app. split.
    + destruct htf as [h |]; [| constructor].
      repeat apply Forall_app_2;
        try (apply Forall_fmap, Forall_forall; intros; now left);
        match goal with
        | |- context [if nonzero ?x then _ else _] =>
            destruct (nonzero x) eqn:E; constructor; [| constructor];
            right; cbn; unfold nonzero in E; apply negb_true_iff in E;
            now apply eqb_neq
        end.
    + destruct mtf as [m |]; [| constructor].
      destruct (nonzero (ps_poc m)) eqn:E; constructor; [| constructor].
      right. cbn. unfold nonzero in E. apply negb_true_iff in E. now apply eqb_neq.
Qed.

End ChartistProps.


Section DecisionProps.
Import Bars PortfolioManager TapeReader Chartist MacroEconomist Crew.
Local Open Scope Q_scope.

(** What the loop of [check_correlation] has found after the positions
    [seen]. *)
Lemma correlation_scan (symbol : string) (matrix : gmap string (gmap string Q))
    (rest seen : list string) (acc : Q * option string) :
  (0 <= acc.1
   /\ (forall pos row corr, pos ∈ seen -> matrix !! symbol = Some row ->
         row !! pos = Some corr -> Qabs corr <= acc.1)
   /\ match acc.2 with
      | None => acc.1 = 0
      | Some pos => pos ∈ seen /\ exists row corr,
                      matrix !! symbol = Some row /\ row !! pos = Some corr
                      /\ acc.1 = Qabs corr
      end) ->
  let acc' := fold_left (correlation_step symbol matrix) rest acc in
  0 <= acc'.1
  /\ (forall pos row corr, pos ∈ seen ++ rest -> matrix !! symbol = Some row ->
        row !! pos = Some corr -> Qabs corr <= acc'.1)
  /\ match acc'.2 with
     | None => acc'.1 = 0
     | Some pos => pos ∈ seen ++ rest /\ exists row corr,
                     matrix !! symbol = Some row /\ row !! pos = Some corr
                     /\ acc'.1 = Qabs corr
     end.
Proof.
  revert seen acc. induction rest as [| p rest IH]; intros seen acc (H0 & Hmax & Hwit).
  - cbn. rewrite app_nil_r. auto.
  - cbn [fold_left]. replace (seen ++ p :: rest) with ((seen ++ [p]) ++ rest)
      by now rewrite <- app_assoc.
    apply IH. unfold correlation_step.
    destruct (matrix !! symbol) as [row |] eqn:Er.
    + destruct (row !! p) as [corr |] eqn:Ec.
      * destruct (ltb acc.1 (Qabs corr)) eqn:E.
        -- apply ltb_lt in E. cbn [fst snd]. split; [apply Qabs_nonneg |]. split.
           ++ intros pos row' corr' Hin [= <-] Hc.
              apply elem_of_app in Hin as [Hin | Hin].
              ** pose proof (Hmax pos row corr' Hin eq_refl Hc). lra.
              ** apply list_elem_of_singleton in Hin as ->.
                 rewrite Ec in Hc. injection Hc as <-. apply Qle_refl.
           ++ split; [apply elem_of_app; right; apply list_elem_of_here |].
              exists row, corr. auto.
        -- apply ltb_ge in E. split; [exact H0 |]. split.
           ++ intros pos row' corr' Hin [= <-] Hc.
              apply elem_of_app in Hin as [Hin | Hin].
              ** exact (Hmax pos row corr' Hin eq_refl Hc).
              ** apply list_elem_of_singleton in Hin as ->.
                 rewrite Ec in Hc. now injection Hc as <-.
           ++ destruct acc.2 as [pos |]; [| exact Hwit].
              destruct Hwit as [Hin Hw]. split; [apply elem_of_app; now left | exact Hw].
      * split; [exact H0 |]. split.
        -- intros pos row' corr' Hin [= <-] Hc.
           apply elem_of_app in Hin as [Hin | Hin].
           ++ exact (Hmax pos row corr' Hin eq_refl Hc).
           ++ apply list_elem_of_singleton in Hin as ->. congruence.
        -- destruct acc.2 as [pos |]; [| exact Hwit].
           destruct Hwit as [Hin Hw]. split; [apply elem_of_app; now left | exact Hw].
    + split; [exact H0 |]. split; [intros; discriminate |].
      destruct acc.2 as [pos |]; [| exact Hwit].
      destruct Hwit as [Hin Hw]. split; [apply elem_of_app; now left | exact Hw].
Qed.

(** X21: the correlation check refuses a symbol exactly when an existing
    position is correlated with it beyond the threshold.  With a threshold
    that is not negative, [check_correlation] answers "not allowed" if and
    only if the matrix has, in the row of the symbol, an entry for an
    existing position whose absolute value exceeds [max_correlation]; the
    position it names then has the largest absolute correlation among the
    existing positions, and that value is the one it reports. *)
Theorem check_correlation_sound (cfg : Config) (portfolio : Portfolio) (symbol : string)
    (matrix : gmap string (gmap string Q)) :
  0 <= max_correlation cfg ->
  (allowed (check_correlation cfg portfolio symbol matrix) = false
   <-> exists pos row corr,
         pos ∈ positions portfolio /\ matrix !! symbol = Some row
         /\ row !! pos = Some corr /\ max_correlation cfg < Qabs corr)
  /\ (forall m h,
        check_correlation cfg portfolio symbol matrix = HighCorrelation m h ->
        exists pos row corr,
          h = Some pos /\ pos ∈ positions portfolio /\ matrix !! symbol = Some row
          /\ row !! pos = Some corr /\ m = Qabs corr /\ max_correlation cfg < m
          /\ forall pos' corr', pos' ∈ positions portfolio -> row !! pos' = Some corr' ->
               Qabs corr' <= m).
Proof.
  intros Hth. unfold check_correlation.
  destruct (positions portfolio) as [| p0 ps] eqn:Ep.
  - split; [| discriminate]. cbn. split; [discriminate |].
    intros (pos & _ & _ & Hin & _). inversion Hin.
  - rewrite <- Ep.
    pose proof (correlation_scan symbol matrix (positions portfolio) [] (0, None)) as Hscan.
    cbv zeta in Hscan. cbn [app] in Hscan.
    destruct (fold_left (correlation_step symbol matrix) (positions portfolio) (0, None))
      as [max_corr high] eqn:Ef.
    cbn [fst snd] in Hscan.
    destruct Hscan as (H0 & Hmax & Hwit).
    { split; [apply Qle_refl |]. split; [| reflexivity].
      intros pos row corr Hin. inversion Hin. }
    destruct (ltb (max_correlation cfg) max_corr) eqn:E.
    + apply ltb_lt in E. destruct high as [pos |]; [| rewrite Hwit in E; lra].
      destruct Hwit as (Hin & row & corr & Hr & Hc & Hm).
      split.
      * cbn. split; [| reflexivity]. intros _. exists pos, row, corr.
        rewrite <- Hm. auto.
      * intros m h [= <- <-]. exists pos, row, corr.
        repeat split; try assumption.
        intros pos' corr' Hin' Hc'. exact (Hmax pos' row corr' Hin' Hr Hc').
    + apply ltb_ge in E. split; [| discriminate]. cbn. split; [discriminate |].
      intros (pos & row & corr & Hin & Hr & Hc & Hlt).
      pose proof (Hmax pos row corr Hin Hr Hc). lra.
Qed.

Lemma check_correlation_sound_witness :
  let portfolio := {| equity := 100000; positions := ["QQQ"; "GLD"]%string |} in
  let matrix : gmap string (gmap string Q) :=
    {[ "SPY"%string := {[ "QQQ"%string := 0.92; "GLD"%string := -0.1 ]} ]} in
  0 <= max_correlation default_config
  /\ check_correlation default_config portfolio "SPY" matrix
     = HighCorrelation 0.92 (Some "QQQ"%string)
  /\ allowed (check_correlation default_config portfolio "SPY" matrix) = false.
Proof.
  intros portfolio matrix.
  assert (Hth : 0 <= max_correlation default_config) by discriminate.
  split; [exact Hth |]. split; [vm_compute; reflexivity |].
  apply (proj1 (check_correlation_sound default_config portfolio "SPY" matrix Hth)).
  exists "QQQ"%string, {[ "QQQ"%string := 0.92; "GLD"%string := -0.1 ]}, 0.92.
  split; [apply list_elem_of_here |]. split; [reflexivity |].
  split; [reflexivity | reflexivity].
Defined.

(** What [aggregate_signals] returns when it does not return ['no_trade']. *)
Lemma aggregate_trade_shape (cfg : Config) (tr : TapeReaderSignal) (ch : ChartistSignal)
    (m : MacroSignal) :
  let agg := aggregate_signals cfg tr ch m in
  String.eqb (final_decision agg) "no_trade" = false ->
  exists dir s ag sigs,
    direction agg = Some dir /\ signal_strength agg = Some s
    /\ agreement agg = Some ag /\ agent_signals agg = Some sigs
    /\ (dir = "bullish"%string \/ dir = "bearish"%string)
    /\ 0.3 <= s
    /\ trading_allowed_of m = true
    /\ min_confidence cfg
       <= (tr_confidence_of tr + ch_strength_of ch + macro_confidence_of m) / 3.
Proof.
  cbv zeta. unfold aggregate_signals, trading_allowed_of, tr_confidence_of, ch_strength_of,
    macro_confidence_of.
  destruct (default true (m_trading_allowed (default empty_macro (macro_signal m))));
    [| cbn; discriminate].
  cbn [negb].
  match goal with
  | |- context [if ltb (Qabs ?t) 0.3 || ltb ?a (min_confidence cfg) then _ else _] =>
      set (total := t); set (avg := a);
      destruct (ltb (Qabs total) 0.3) eqn:E1; [cbn; discriminate |];
      destruct (ltb avg (min_confidence cfg)) eqn:E2; [cbn; discriminate |]
  end.
  apply ltb_ge in E1, E2. cbn [orb].
  destruct (ltb 0 total); cbn; intros _; do 4 eexists;
    (split; [reflexivity |]); (split; [reflexivity |]); (split; [reflexivity |]);
    (split; [reflexivity |]); (split; [auto |]); (split; [exact E1 |]);
    (split; [reflexivity | exact E2]).
Qed.

Lemma series_max_elem (x : Q) (xs : list Q) : series_max x xs ∈ x :: xs.
Proof.
  unfold series_max. revert x. induction xs as [| y rest IH]; intros x; cbn.
  - apply list_elem_of_here.
  - destruct (ltb x y).
    + apply list_elem_of_further, IH.
    + specialize (IH x). apply elem_of_cons in IH as [-> | IH].
      * apply list_elem_of_here.
      * now do 2 apply list_elem_of_further.
Qed.

Lemma max_or_below (xs : list Q) (p d : Q) :
  d < p -> max_or (filter (fun v => Is_true (ltb v p)) xs) d < p.
Proof.
  intros Hd. unfold max_or.
  destruct (filter _ xs) as [| x rest] eqn:Ef; [exact Hd |].
  pose proof (series_max_elem x rest) as Hin. rewrite <- Ef in Hin.
  apply list_elem_of_filter in Hin as [Hlt _]. apply Is_true_true in Hlt.
  now apply ltb_lt in Hlt.
Qed.

Lemma min_or_above (xs : list Q) (p d : Q) :
  p < d -> p < min_or (filter (fun v => Is_true (ltb p v)) xs) d.
Proof.
  intros Hd. unfold min_or.
  destruct (filter _ xs) as [| x rest] eqn:Ef; [exact Hd |].
  pose proof (series_min_elem x rest) as Hin. rewrite <- Ef in Hin.
  apply list_elem_of_filter in Hin as [Hlt _]. apply Is_true_true in Hlt.
  now apply ltb_lt in Hlt.
Qed.

(** [calculate_position_size] with a positive equity and entry price. *)
Lemma position_size_ok (cfg : Config) (eq : Q) (symbol : string) (entry stop conf : Q) :
  0 < eq -> 0 < entry ->
  exists r, calculate_position_size cfg eq symbol entry stop conf = Ok r
    /\ position_pct r <= max_position_size cfg
    /\ ps_stop_loss r = stop /\ ps_symbol r = symbol
    /\ risk_amount r = eq * PortfolioManager.risk_per_trade cfg * conf.
Proof.
  intros Heq Hen. pose proof (stop_distance_pos entry stop Hen) as Hsd.
  unfold calculate_position_size.
  rewrite (div_ok _ (stop_distance_of entry stop)) by lra. cbn [mbind result_bind].
  rewrite (div_ok _ eq) by lra. cbn [mbind result_bind].
  destruct (ltb (max_position_size cfg) _) eqn:Ecap.
  - rewrite (div_ok _ entry) by lra. cbn [mbind result_bind].
    rewrite (div_ok _ entry) by lra. cbn [mbind result_bind].
    eexists. split; [reflexivity |]. cbn. split; [apply Qle_refl |]. repeat split.
  - cbn [mbind result_bind]. rewrite (div_ok _ entry) by lra. cbn [mbind result_bind].
    eexists. split; [reflexivity |]. cbn. apply ltb_ge in Ecap.
    split; [exact Ecap |]. repeat split.
Qed.

(** The last part of [make_trade_decision]: the stop, the position and the
    plan for an aggregated direction [dir]. *)
Lemma plan_tail (cfg : Config) (eq : Q) (symbol now : string) (p : Q)
    (key_levels : list KeyLevel) (conf : Q) (dir : string) (s : Q) (ag : string)
    (sigs : AgentView * AgentView * AgentView) :
  0 < eq -> 0 < p -> dir = "bullish"%string \/ dir = "bearish"%string ->
  exists plan,
    (let stop_loss :=
       if String.eqb dir "bullish" then
         max_or (filter (fun v => Is_true (ltb v p)) (kl_price <$> key_levels)) (p * 0.98)
       else
         min_or (filter (fun v => Is_true (ltb p v)) (kl_price <$> key_levels)) (p * 1.02) in
     position ← calculate_position_size cfg eq symbol p stop_loss conf;
     risk_reward_ratio ← div (Qabs (p - stop_loss)) (p * 0.02);
     Ok (Trade {| tp_symbol := symbol;
                  tp_action := if String.eqb dir "bullish" then "BUY" else "SELL";
                  tp_direction := dir;
                  tp_confidence := conf;
                  tp_signal_strength := s;
                  tp_entry_price := p;
                  tp_stop_loss := stop_loss;
                  tp_position := position;
                  tp_agent_agreement := ag;
                  tp_agent_signals := sigs;
                  tp_risk_reward_ratio := risk_reward_ratio;
                  tp_timestamp := now |})) = Ok (Trade plan)
    /\ tp_signal_strength plan = s /\ tp_entry_price plan = p
    /\ (tp_action plan = "BUY"%string /\ tp_direction plan = "bullish"%string
          /\ tp_stop_loss plan < tp_entry_price plan
        \/ tp_action plan = "SELL"%string /\ tp_direction plan = "bearish"%string
          /\ tp_entry_price plan < tp_stop_loss plan)
    /\ ps_stop_loss (tp_position plan) = tp_stop_loss plan
    /\ position_pct (tp_position plan) <= max_position_size cfg
    /\ 0 < tp_risk_reward_ratio plan
    /\ tp_risk_reward_ratio plan
       = Qabs (tp_entry_price plan - tp_stop_loss plan) / (tp_entry_price plan * 0.02).
Proof.
  intros Heq Hp Hbb. cbv zeta.
  set (stop := if String.eqb dir "bullish" then max_or _ _ else min_or _ _).
  assert (Hstop : if String.eqb dir "bullish" then stop < p else p < stop).
  { subst stop. destruct (String.eqb dir "bullish").
    - apply max_or_below. lra.
    - apply min_or_above. lra. }
  destruct (position_size_ok cfg eq symbol p stop conf Heq Hp)
    as (pos & Hpos & Hpct & Hps & _).
  assert (Hrr : div (Qabs (p - stop)) (p * 0.02) = Ok (Qabs (p - stop) / (p * 0.02))).
  { apply div_ok. lra. }
  assert (Hrrpos : 0 < Qabs (p - stop) / (p * 0.02)).
  { apply Qlt_shift_div_l; [lra |].
    destruct (String.eqb dir "bullish");
      [rewrite Qabs_pos by lra | rewrite Qabs_neg by lra]; lra. }
  rewrite Hpos, Hrr. cbn [mbind result_bind]. eexists. split; [reflexivity |].
  cbn [tp_signal_strength tp_entry_price tp_action tp_direction tp_stop_loss
       tp_position tp_risk_reward_ratio].
  split; [reflexivity |]. split; [reflexivity |]. split.
  - destruct Hbb as [-> | ->]; cbn in Hstop |- *; [left | right]; auto.
  - repeat split; assumption.
Qed.

(** X22: the plan of [make_trade_decision].  With a positive equity and a
    positive price (the [current_price] argument, else the chartist's
    price, else 100) the function returns a decision.  When the decision is
    a trade, the macro signal allowed trading, the strength of the
    aggregated signal is at least 0.3, no existing position is correlated
    with the symbol beyond the threshold when a non-empty matrix was given,
    the entry is that price, a BUY goes with the direction ['bullish'] and
    a stop below the entry, a SELL with ['bearish'] and a stop above the
    entry, the position is sized for that stop with a [position_pct] of at
    most [max_position_size], and the risk-reward ratio is the positive
    stop distance over 2% of the price. *)
Theorem make_trade_decision_sound (cfg : Config) (portfolio : Portfolio) (now : string)
    (symbol : string) (tr : TapeReaderSignal) (ch : ChartistSignal)
    (chart_price : option Q) (key_levels : option (list KeyLevel)) (macro : MacroSignal)
    (current_price : option Q) (matrix : option (gmap string (gmap string Q))) :
  0 < equity portfolio -> 0 < decision_price current_price chart_price ->
  exists d,
    make_trade_decision cfg portfolio now symbol tr ch chart_price key_levels macro
                        current_price matrix = Ok d
    /\ match d with
       | NoTrade _ _ _ _ => True
       | Trade plan =>
           trading_allowed_of macro = true
           /\ 0.3 <= tp_signal_strength plan
           /\ (forall mx, matrix = Some mx -> mx <> ∅ ->
                 allowed (check_correlation cfg portfolio symbol mx) = true)
           /\ tp_entry_price plan = decision_price current_price chart_price
           /\ (tp_action plan = "BUY"%string /\ tp_direction plan = "bullish"%string
                 /\ tp_stop_loss plan < tp_entry_price plan
               \/ tp_action plan = "SELL"%string /\ tp_direction plan = "bearish"%string
                 /\ tp_entry_price plan < tp_stop_loss plan)
           /\ ps_stop_loss (tp_position plan) = tp_stop_loss plan
           /\ position_pct (tp_position plan) <= max_position_size cfg
           /\ 0 < tp_risk_reward_ratio plan
           /\ tp_risk_reward_ratio plan
              = Qabs (tp_entry_price plan - tp_stop_loss plan)
                / (tp_entry_price plan * 0.02)
       end.
Proof.
  intros Heq Hp. unfold make_trade_decision.
  destruct (String.eqb (final_decision (aggregate_signals cfg tr ch macro)) "no_trade")
    eqn:Efd; [eexists; split; [reflexivity | exact I] |].
  destruct (aggregate_trade_shape cfg tr ch macro Efd)
    as (dir & s & ag & sigs & Hdir & Hs & Hag & Hsigs & Hbb & Hs3 & Hallow & _).
  set (corr_check := match matrix with
                     | Some mx => if decide (mx = ∅) then None
                                  else Some (check_correlation cfg portfolio symbol mx)
                     | None => None
                     end).
  assert (Hcorr : match corr_check with
                  | Some (HighCorrelation _ _) => True
                  | _ => forall mx, matrix = Some mx -> mx <> ∅ ->
                           allowed (check_correlation cfg portfolio symbol mx) = true
                  end).
  { subst corr_check. destruct matrix as [mx |]; [| intros ? [=]].
    destruct (decide (mx = ∅)) as [He | Hne]; [intros ? [= <-] ?; contradiction |].
    destruct (check_correlation cfg portfolio symbol mx) eqn:Ec; try exact I;
      intros ? [= <-] _; now rewrite Ec. }
  fold (decision_price current_price chart_price).
  set (p := decision_price current_price chart_price) in *.
  rewrite Hdir, Hs, Hag, Hsigs. cbn [item mbind result_bind].
  destruct (plan_tail cfg (equity portfolio) symbol now p (default [] key_levels)
              (confidence (aggregate_signals cfg tr ch macro)) dir s ag sigs Heq Hp Hbb)
    as (plan & Hplan & Hst & Hprops).
  cbv zeta in Hplan.
  destruct corr_check as [[| m h |] |]; try (eexists; split; [reflexivity | exact I]);
    exists (Trade plan); (split; [exact Hplan |]);
    destruct Hprops as (H2 & H3 & H4 & H5 & H6 & H7);
    rewrite Hst; repeat split; assumption.
Qed.

Lemma make_trade_decision_sound_witness :
  let tr := {| final_signal := Some {| fs_direction := Some "bullish"%string;
                                       fs_confidence := Some 0.8 |} |} in
  let ch := {| context := Some {| ctx_direction := Some "bullish"%string;
                                  ctx_strength := Some 0.7 |} |} in
  let macro := {| macro_signal := Some {| m_direction := Some "bullish"%string;
                                          m_confidence := Some 0.8;
                                          m_trading_allowed := Some true |} |} in
  let levels := [ level 98 "val" "daily" "high"; level 103 "vah" "daily" "high" ] in
  exists plan,
    make_trade_decision default_config default_portfolio "2024-01-01T00:00:00" "SPY"
                        tr ch (Some 100) (Some levels) macro None None = Ok (Trade plan)
    /\ tp_action plan = "BUY"%string /\ tp_stop_loss plan = 98
    /\ tp_stop_loss plan < tp_entry_price plan
    /\ position_pct (tp_position plan) <= 0.10.
Proof.
  intros tr ch macro levels.
  assert (Heq : 0 < equity default_portfolio) by reflexivity.
  assert (Hp : 0 < decision_price None (Some 100)) by reflexivity.
  destruct (make_trade_decision_sound default_config default_portfolio
              "2024-01-01T00:00:00" "SPY" tr ch (Some 100) (Some levels) macro None None
              Heq Hp) as (d & Hd & Hprops).
  assert (Hshape : exists plan, d = Trade plan /\ tp_action plan = "BUY"%string
                                /\ tp_stop_loss plan = 98).
  { vm_compute in Hd. injection Hd as <-. eexists. split; [reflexivity |].
    split; reflexivity. }
  destruct Hshape as (plan & -> & Ha & Hs).
  exists plan. split; [exact Hd |]. split; [exact Ha |]. split; [exact Hs |].
  destruct Hprops as (_ & _ & _ & _ & Hside & _ & Hpct & _).
  split; [| exact Hpct].
  destruct Hside as [(_ & _ & Hlt) | (Hsell & _)]; [exact Hlt |].
  rewrite Ha in Hsell. discriminate.
Defined.

End DecisionProps.

Section CrewProps.
Import Bars OrderFlow VolumeProfile ProfileAnalysis.
Import PortfolioManager TapeReader Chartist MacroEconomist Crew.
Local Open Scope Q_scope.

Lemma effort_confidence_le (d : Q) (candle strength : string) :
  OrderFlow.confidence (analyze_effort_vs_result d candle strength) <= 0.85.
Proof.
  unfold analyze_effort_vs_result.
  repeat match goal with
         | |- context [if ?b then _ else _] => destruct b
         end; cbn; discriminate.
Qed.

Lemma detect_confidence_le (cd price : list Q) (lookback : nat) (s : OrderFlowSignal) :
  detect_delta_exhaustion cd price lookback = Ok (Some s) ->
  OrderFlow.confidence s <= 0.9.
Proof.
  unfold detect_delta_exhaustion, exhaustion_signal.
  destruct (length cd <? lookback)%nat; [discriminate |].
  destruct (trend lookback cd) as [dt | e]; [| discriminate].
  destruct (trend lookback price) as [pt | e]; [| discriminate].
  cbn [mbind result_bind].
  destruct (last_item (tail lookback cd)) as [rl | e];
    destruct (last_item cd) as [ol | e'];
    repeat match goal with
           | |- context [if ?b then _ else _] => destruct b
           end; cbn [mbind result_bind];
    try discriminate; intros [= <-]; cbn [OrderFlow.confidence]; apply min2_le_l.
Qed.

Lemma orderflow_confidence_le (bars : list Bar) (a : Analysis) :
  analyze_orderflow bars = Ok a ->
  sv_confidence (signal a) <= 0.85 /\ ex_confidence (exhaustion a) <= 0.9.
Proof.
  unfold analyze_orderflow.
  destruct (estimate_delta_from_ohlcv bars) as [rows | e]; [| discriminate].
  cbn [mbind result_bind].
  destruct (last_item rows) as [latest | e]; [| discriminate]. cbn [mbind result_bind].
  destruct (detect_delta_exhaustion _ _ 10) as [ex | e] eqn:Ed; [| discriminate].
  cbn [mbind result_bind]. intros [= <-]. cbn [signal sv_confidence exhaustion ex_confidence].
  split; [apply effort_confidence_le |].
  destruct ex as [sg |]; cbn; [| discriminate].
  exact (detect_confidence_le _ _ _ sg Ed).
Qed.

Lemma tape_confidence_le (fetched : result (list Bar)) (sym now : string) :
  0 <= tr_confidence_of (as_tape_reader_signal (TapeReader.analyze_symbol fetched sym now))
  /\ tr_confidence_of (as_tape_reader_signal (TapeReader.analyze_symbol fetched sym now))
     <= 0.9.
Proof.
  unfold TapeReader.analyze_symbol.
  destruct fetched as [bars | e]; cbn [mbind result_bind]; [| cbn; split; discriminate].
  destruct bars as [| b rest]; [cbn; split; discriminate |].
  destruct (analyze_orderflow (b :: rest)) as [a | e] eqn:Ea; cbn [mbind result_bind];
    [| cbn; split; discriminate].
  destruct (orderflow_confidence_le _ a Ea) as [H1 H2].
  assert (H0 : 0 <= sv_confidence (signal a)).
  { revert Ea. unfold analyze_orderflow.
    destruct (estimate_delta_from_ohlcv _) as [rows | e]; [| discriminate].
    cbn [mbind result_bind].
    destruct (last_item rows) as [latest | e]; [| discriminate]. cbn [mbind result_bind].
    destruct (detect_delta_exhaustion _ _ 10) as [ex | e]; [| discriminate].
    cbn [mbind result_bind]. intros [= <-]. cbn [signal sv_confidence].
    unfold analyze_effort_vs_result.
    repeat match goal with
           | |- context [if ?b then _ else _] => destruct b
           end; cbn; discriminate. }
  cbv zeta. destruct (detected (exhaustion a)).
  - cbn. unfold tr_confidence_of. cbn. unfold max2.
    destruct (ltb _ _) eqn:E; [apply ltb_lt in E |]; split; lra.
  - destruct (String.eqb _ "absorption"); cbn; unfold tr_confidence_of; cbn; split; lra.
Qed.

(** What a successful report of the chartist contains. *)
Lemma chartist_success_inv (h m s : result (list Bar)) (sym now : string) (r : ChartReport) :
  Chartist.analyze_symbol h m s sym now = ChartSuccess r ->
  exists hd sd sh om os,
    h = Ok hd /\ s = Ok sd /\ hd <> []
    /\ last_item (close <$> (if decide (sd = []) then hd else sd)) = Ok (cr_current_price r)
    /\ (exists g, ps_regime sh = regime_value g)
    /\ match om with
       | Some mm => exists g', ps_regime mm = regime_value g'
       | None => True
       end
    /\ cr_context r = _determine_context (Some sh) om os (cr_current_price r).
Proof.
  unfold Chartist.analyze_symbol.
  destruct h as [hd | e]; [| discriminate]. cbn [mbind result_bind].
  destruct m as [md | e]; [| discriminate]. cbn [mbind result_bind].
  destruct s as [sd | e]; [| discriminate]. cbn [mbind result_bind].
  destruct hd as [| b0 rest]; [discriminate |].
  destruct (analysis_of_ok (b0 :: rest)) as (oh & -> & vp & sh & -> & _ & Hreg & _).
  destruct (analysis_of_ok md) as (om & -> & Hm).
  destruct (analysis_of_ok sd) as (os & -> & _).
  cbn [mbind result_bind].
  assert (Hmt : match om with
                | Some mm => exists g', ps_regime mm = regime_value g'
                | None => True
                end).
  { destruct md as [| m0 mrest]; [now subst om |].
    destruct Hm as (vpm & sm & -> & _ & Hrm & _). now exists (regime vpm). }
  destruct sd as [| c0 crest].
  - destruct (last_item (close <$> b0 :: rest)) as [p | e] eqn:Ep; [| discriminate].
    cbn [mbind result_bind]. intros [= <-]. cbn [cr_current_price cr_context].
    exists (b0 :: rest), [], sh, om, os.
    split; [reflexivity |]. split; [reflexivity |]. split; [discriminate |].
    split; [destruct (decide _) as [_ | Hc]; [exact Ep | contradiction] |].
    split; [now exists (regime vp) |]. split; [exact Hmt | reflexivity].
  - destruct (last_item (close <$> c0 :: crest)) as [p | e] eqn:Ep; [| discriminate].
    cbn [mbind result_bind]. intros [= <-]. cbn [cr_current_price cr_context].
    exists (b0 :: rest), (c0 :: crest), sh, om, os.
    split; [reflexivity |]. split; [reflexivity |]. split; [discriminate |].
    split; [destruct (decide _) as [Hc | _]; [discriminate | exact Ep] |].
    split; [now exists (regime vp) |]. split; [exact Hmt | reflexivity].
Qed.

Lemma chart_strength_le (h m s : result (list Bar)) (sym now : string) :
  0 <= ch_strength_of (as_chartist_signal (Chartist.analyze_symbol h m s sym now))
  /\ ch_strength_of (as_chartist_signal (Chartist.analyze_symbol h m s sym now)) <= 1.
Proof.
  destruct (Chartist.analyze_symbol h m s sym now) as [? ? ? | r] eqn:Ea;
    [cbn; split; discriminate |].
  destruct (chartist_success_inv h m s sym now r Ea)
    as (hd & sd & sh & om & os & _ & _ & _ & _ & [g Hg] & Hm & Hctx).
  destruct (determine_context_cases sh om os (cr_current_price r) g Hg Hm)
    as (d & st & mr & a & Hc & H0 & H1 & _).
  unfold ch_strength_of. cbn. rewrite Hctx, Hc. cbn. split; lra.
Qed.

Lemma macro_allowed_confidence (clock : Q) (stamp : string) (events : list Event)
    (sym : string) (news : option (list string)) :
  let a := MacroEconomist.analyze_symbol clock stamp events sym news in
  macro_confidence_of (as_macro_signal a) = ma_confidence a
  /\ trading_allowed_of (as_macro_signal a) = ma_trading_allowed a
  /\ 0 <= ma_confidence a
  /\ (ma_trading_allowed a = true -> ma_confidence a <= 0.8)
  /\ ma_trading_allowed a = negb (filter_active (volatility_filter a)).
Proof.
  cbv zeta. split; [reflexivity |]. split; [reflexivity |].
  unfold MacroEconomist.analyze_symbol.
  set (s := sentiment (analyze_basic_sentiment (default [] news))).
  pose proof (Qabs_nonneg s) as Hs.
  pose proof (min2_le_l 0.8 (0.5 + Qabs s)) as Hle.
  assert (Hge : 0 <= min2 0.8 (0.5 + Qabs s)) by (apply min2_glb; lra).
  set (vf := check_volatility_filter clock events default_minutes_buffer).
  destruct (filter_active vf) eqn:Ef.
  - cbn. rewrite Ef. split; [discriminate |]. split; [discriminate | reflexivity].
  - destruct (ltb 0.3 s);
      [cbn; rewrite Ef; split; [exact Hge |]; split; [intros _; exact Hle | reflexivity] |].
    destruct (ltb s (-0.3));
      [cbn; rewrite Ef; split; [exact Hge |]; split; [intros _; exact Hle | reflexivity] |].
    cbn. rewrite Ef. split; [discriminate |]. split; [discriminate | reflexivity].
Qed.

(** X23: the decision of the crew with the default configuration and
    portfolio.  When the bars fetched for the charts have positive closes,
    [TradingCrew.analyze_symbol] returns a decision whatever the fetches
    give (errors and empty windows included).  When an event of the
    calendar lies within 30 minutes of the clock, the decision is NO_TRADE
    with the reason of the volatility filter and confidence 0.  When the
    decision is a trade, trading was allowed, the chartist succeeded and
    the entry is the positive price it reported (never the placeholder
    price), a BUY has its stop below the entry and a SELL above, and the
    position is at most 10% of the equity. *)
Theorem crew_decision_sound (events : list Event) (clock : Q)
    (tape_now chart_now macro_now decision_now : string)
    (tape htf mtf stf : result (list Bar)) (symbol : string)
    (news : option (list string)) :
  (forall bars, htf = Ok bars -> Forall (fun b => 0 < close b) bars) ->
  (forall bars, stf = Ok bars -> Forall (fun b => 0 < close b) bars) ->
  exists res,
    crew_analyze_symbol default_config default_portfolio events clock
      tape_now chart_now macro_now decision_now tape htf mtf stf symbol news = Ok res
    /\ ((exists event t, event ∈ events /\ ev_datetime event = Some t
                         /\ Qabs ((t - clock) / 60) <= 30) ->
        crew_decision res
        = NoTrade symbol (Text "Volatility filter active - near high-impact event")
                  0 decision_now)
    /\ (forall plan, crew_decision res = Trade plan ->
        ma_trading_allowed (crew_macro res) = true
        /\ exists r,
             crew_chartist res = ChartSuccess r
             /\ tp_entry_price plan = cr_current_price r /\ 0 < tp_entry_price plan
             /\ (tp_action plan = "BUY"%string /\ tp_stop_loss plan < tp_entry_price plan
                 \/ tp_action plan = "SELL"%string
                    /\ tp_entry_price plan < tp_stop_loss plan)
             /\ position_pct (tp_position plan) <= 0.10).
Proof.
  intros Hhtf Hstf. unfold crew_analyze_symbol.
  set (ta := TapeReader.analyze_symbol tape symbol tape_now).
  set (ca := Chartist.analyze_symbol htf mtf stf symbol chart_now).
  set (ma := MacroEconomist.analyze_symbol clock macro_now events symbol news).
  destruct (macro_allowed_confidence clock macro_now events symbol news)
    as (Hmc & Hma & Hm0 & Hm8 & Hneg).
  cbv zeta in Hmc, Hma, Hm0, Hm8, Hneg. fold ma in Hmc, Hma, Hm0, Hm8, Hneg.
  pose proof (filter_active_iff clock events default_minutes_buffer) as Hfilter.
  assert (Hvf : volatility_filter ma
                = check_volatility_filter clock events default_minutes_buffer).
  { unfold ma, MacroEconomist.analyze_symbol.
    now destruct (if filter_active _ then _ else _). }
  rewrite <- Hvf in Hfilter.
  unfold make_trade_decision.
  destruct (ma_trading_allowed ma) eqn:Eallow.
  - (* trading is allowed: no event is near *)
    assert (Hnone : ~ exists event t, event ∈ events /\ ev_datetime event = Some t
                                      /\ Qabs ((t - clock) / 60) <= 30).
    { intros Hex. apply Hfilter in Hex. rewrite Hex in Hneg. discriminate. }
    destruct (String.eqb (final_decision
                (aggregate_signals default_config (as_tape_reader_signal ta)
                   (as_chartist_signal ca) (as_macro_signal ma))) "no_trade") eqn:Efd.
    + cbn [mbind result_bind]. eexists. split; [reflexivity |].
      cbn [crew_decision]. split; [intros Hex; contradiction | discriminate].
    + destruct (aggregate_trade_shape default_config _ _ _ Efd)
        as (dir & s & ag & sigs & Hdir & Hs & Hag & Hsigs & Hbb & _ & _ & Havg).
      rewrite Hdir, Hs, Hag, Hsigs. cbn [item mbind result_bind].
      destruct (tape_confidence_le tape symbol tape_now) as [Ht0 Ht9]. fold ta in Ht0, Ht9.
      destruct (chart_strength_le htf mtf stf symbol chart_now) as [Hc0 Hc1].
      fold ca in Hc0, Hc1.
      rewrite Hmc in Havg. specialize (Hm8 eq_refl).
      change (min_confidence default_config) with 0.6 in Havg.
      destruct ca as [? ? ? | r] eqn:Eca.
      * (* the chartist failed: the average confidence is below 0.6 *)
        exfalso. change (ch_strength_of (as_chartist_signal (ChartError symbol0 message agent)))
          with 0 in Havg.
        revert Havg Ht9 Hm8.
        generalize (tr_confidence_of (as_tape_reader_signal ta)), (ma_confidence ma).
        clear. intros x y Havg Hx Hy.
        assert (H3 : (x + 0 + y) / 3 == (x + y) * (1 # 3)) by (field; discriminate).
        rewrite H3 in Havg. lra.
      * destruct (chartist_success_inv htf mtf stf symbol chart_now r Eca)
          as (hd & sd & sh & om & os & Hh & Hsd & Hne & Hprice & _).
        assert (Hpos : 0 < cr_current_price r).
        { assert (Hall : Forall (fun b => 0 < close b)
                           (if decide (sd = []) then hd else sd)).
          { destruct (decide (sd = [])); [now apply Hhtf | now apply Hstf]. }
          apply last_item_elem in Hprice.
          apply list_elem_of_fmap in Hprice as (b & -> & Hb).
          rewrite Forall_forall in Hall. exact (Hall b Hb). }
        cbn [chart_price_of key_levels_of default from_option id].
        destruct (plan_tail default_config (equity default_portfolio) symbol decision_now
                    (cr_current_price r) (cr_key_levels r)
                    (confidence (aggregate_signals default_config (as_tape_reader_signal ta)
                                   (as_chartist_signal (ChartSuccess r)) (as_macro_signal ma)))
                    dir s ag sigs ltac:(reflexivity) Hpos Hbb)
          as (plan & Hplan & _ & Hentry & Hside & _ & Hpct & _).
        cbv zeta in Hplan. rewrite Hplan. cbn [mbind result_bind].
        eexists. split; [reflexivity |]. cbn [crew_decision crew_macro crew_chartist].
        split; [intros Hex; contradiction |].
        intros plan' [= <-]. split; [exact Eallow |]. exists r.
        split; [reflexivity |]. split; [exact Hentry |]. split; [now rewrite Hentry |].
        split; [| exact Hpct].
        destruct Hside as [(Ha & _ & Hlt) | (Ha & _ & Hlt)]; [left | right]; now split.
  - (* the volatility filter is active *)
    assert (Hgate : aggregate_signals default_config (as_tape_reader_signal ta)
                      (as_chartist_signal ca) (as_macro_signal ma) = volatility_gate).
    { unfold aggregate_signals. cbn [as_macro_signal macro_signal default from_option id
                                      m_trading_allowed].
      now rewrite Eallow. }
    rewrite Hgate. cbn. eexists. split; [reflexivity |].
    cbn [crew_decision]. split; [reflexivity | discriminate].
Qed.

Lemma crew_decision_sound_witness :
  let bars := [ {| Bars.timestamp := 0; open := 100; high := 102; low := 99;
                   close := 101; volume := 1000 |};
                {| Bars.timestamp := 1; open := 101; high := 103; low := 100;
                   close := 102; volume := 500 |} ] in
  let fomc := {| ev_name := Some "FOMC"%string; ev_datetime := Some 1200 |} in
  exists res,
    crew_analyze_symbol default_config default_portfolio [fomc] 0
      "t1" "t2" "t3" "t4" (Ok bars) (Ok bars) (Ok []) (Ok bars) "SPY" None = Ok res
    /\ crew_decision res
       = NoTrade "SPY" (Text "Volatility filter active - near high-impact event") 0 "t4".
Proof.
  intros bars fomc.
  assert (Hpos : forall bs, Ok bars = Ok bs -> Forall (fun b => 0 < close b) bs).
  { intros bs [= <-]. repeat constructor. }
  destruct (crew_decision_sound [fomc] 0 "t1" "t2" "t3" "t4" (Ok bars) (Ok bars) (Ok [])
              (Ok bars) "SPY" None Hpos Hpos) as (res & Hres & Hgate & _).
  exists res. split; [exact Hres |]. apply Hgate.
  exists fomc, 1200. split; [apply list_elem_of_here |]. split; [reflexivity |].
  discriminate.
Defined.

End CrewProps.

(** ** Runs of consecutive levels *)

Section RunProps.
Import Numpy Imbalances.

Lemma closed_run_snoc_true (done : list bool) (a b : nat) :
  closed_run (done ++ [true]) a b <-> closed_run done a b.
Proof.
  unfold closed_run. split.
  - intros (Hab & Hall & Hleft & Hclose).
    assert (Hb : (S b < length done)%nat).
    { destruct (Nat.lt_ge_cases (S b) (length done)) as [H | H]; [exact H |].
      apply Nat.lt_eq_cases in H as [H | H].
      - rewrite lookup_ge_None_2 in Hclose; [discriminate | rewrite length_app; cbn; lia].
      - rewrite <- H, lookup_app_r, Nat.sub_diag in Hclose by lia. discriminate. }
    split; [exact Hab |]. split; [| split].
    + intros j Hj. specialize (Hall j Hj). now rewrite lookup_app_l in Hall by lia.
    + destruct Hleft as [-> | H]; [now left | right].
      now rewrite lookup_app_l in H by lia.
    + now rewrite lookup_app_l in Hclose by lia.
  - intros (Hab & Hall & Hleft & Hclose).
    assert (Hb : (S b < length done)%nat) by (now apply lookup_lt_Some in Hclose).
    split; [exact Hab |]. split; [| split].
    + intros j Hj. rewrite lookup_app_l by lia. now apply Hall.
    + destruct Hleft as [-> | H]; [now left | right]. now rewrite lookup_app_l by lia.
    + now rewrite lookup_app_l by lia.
Qed.

Lemma scan_runs_spec (min_count : Z) (rest done : list bool)
    (runs : list (option nat * Z)) (start : option nat) (count : Z) :
  (1 <= min_count)%Z ->
  scanned_runs min_count done runs start count ->
  let '(runs', start', count') :=
    scan_runs min_count rest (length done) runs start count in
  scanned_runs min_count (done ++ rest) runs' start' count'.
Proof.
  intros Hmin. revert done runs start count.
  induction rest as [| val rest IH]; intros done runs start count Hinv.
  - cbn. now rewrite app_nil_r.
  - cbn [scan_runs]. replace (done ++ val :: rest) with ((done ++ [val]) ++ rest)
      by now rewrite <- app_assoc.
    replace (S (length done)) with (length (done ++ [val]))
      by (rewrite length_app; cbn; lia).
    destruct Hinv as ((c & Hc & Hcl & Hstart & Htrue & Hleft) & Hruns).
    destruct val.
    + apply IH. split.
      * exists (S c). rewrite length_app. cbn [length].
        split; [lia |]. split; [lia |]. split; [| split].
        -- cbn [Nat.eqb]. rewrite Hstart.
           destruct (Nat.eqb_spec c 0) as [-> | Hne]; f_equal; lia.
        -- intros j Hj. destruct (Nat.eq_dec j (length done)) as [-> | Hne].
           ++ now rewrite lookup_app_r, Nat.sub_diag by lia.
           ++ rewrite lookup_app_l by lia. apply Htrue. lia.
        -- destruct Hleft as [-> | H]; [left; lia | right].
           replace (length done + 1 - S c - 1)%nat with (length done - c - 1)%nat by lia.
           apply lookup_lt_Some in H as Hlt. now rewrite lookup_app_l by lia.
      * intros s e. rewrite Hruns. split; intros (a & b & -> & -> & Hr & Hm);
          exists a, b; (split; [reflexivity |]); (split; [reflexivity |]);
          (split; [now apply closed_run_snoc_true | exact Hm]).
    + apply IH. split.
      * exists 0%nat. rewrite length_app. cbn [length Nat.eqb].
        split; [reflexivity |]. split; [lia |]. split; [reflexivity |].
        split; [intros j Hj; lia |]. right.
        replace (length done + 1 - 0 - 1)%nat with (length done) by lia.
        now rewrite lookup_app_r, Nat.sub_diag by lia.
      * (* the run that the [False] closes *)
        assert (Hnew : forall a b,
          closed_run (done ++ [false]) a b <->
          closed_run done a b
          \/ ((0 < c)%nat /\ a = (length done - c)%nat /\ S b = length done)).
        { intros a b. unfold closed_run. split.
          - intros (Hab & Hall & Hl & Hclose).
            assert (Hb : (S b <= length done)%nat).
            { apply lookup_lt_Some in Hclose. rewrite length_app in Hclose. cbn in Hclose.
              lia. }
            apply Nat.lt_eq_cases in Hb as [Hb | Hb].
            + left. split; [exact Hab |]. split; [| split].
              * intros j Hj. specialize (Hall j Hj). now rewrite lookup_app_l in Hall by lia.
              * destruct Hl as [-> | H]; [now left | right].
                now rewrite lookup_app_l in H by lia.
              * now rewrite lookup_app_l in Hclose by lia.
            + right.
              assert (Hall' : forall j, (a <= j <= b)%nat -> done !! j = Some true).
              { intros j Hj. specialize (Hall j Hj).
                now rewrite lookup_app_l in Hall by lia. }
              assert (Hl' : a = 0%nat \/ done !! (a - 1)%nat = Some false).
              { destruct Hl as [-> | H]; [now left | right].
                now rewrite lookup_app_l in H by lia. }
              assert (Hca : a = (length done - c)%nat).
              { destruct (Nat.lt_trichotomy a (length done - c)) as [Hlt | [Heq | Hgt]];
                  [| exact Heq |].
                - destruct Hleft as [-> | Hf]; [lia |].
                  rewrite (Hall' (length done - c - 1)%nat) in Hf by lia. discriminate.
                - destruct Hl' as [-> | Hf]; [lia |].
                  rewrite (Htrue (a - 1)%nat) in Hf by lia. discriminate. }
              split; [lia |]. split; [exact Hca | exact Hb].
          - intros [(Hab & Hall & Hl & Hclose) | (Hc0 & -> & Hb)].
            + apply lookup_lt_Some in Hclose as Hlt.
              split; [exact Hab |]. split; [| split].
              * intros j Hj. rewrite lookup_app_l by lia. now apply Hall.
              * destruct Hl as [-> | H]; [now left | right].
                now rewrite lookup_app_l by lia.
              * now rewrite lookup_app_l by lia.
            + split; [lia |]. split; [| split].
              * intros j Hj. rewrite lookup_app_l by lia. apply Htrue. lia.
              * destruct Hleft as [-> | H]; [left; lia | right].
                replace (length done - c - 1)%nat with (length done - c - 1)%nat by lia.
                apply lookup_lt_Some in H as Hlt. now rewrite lookup_app_l by lia.
              * rewrite Hb. now rewrite lookup_app_r, Nat.sub_diag by lia. }
        intros s e. destruct (Z.leb_spec min_count count) as [Hle | Hgt].
        -- rewrite elem_of_app, list_elem_of_singleton, Hruns. split.
           ++ intros [(a & b & -> & -> & Hr & Hm) | [= -> ->]].
              ** exists a, b. split; [reflexivity |]. split; [reflexivity |].
                 split; [apply Hnew; now left | exact Hm].
              ** assert (Hc0 : (0 < c)%nat) by lia.
                 exists (length done - c)%nat, (length done - 1)%nat.
                 rewrite Hstart. destruct (Nat.eqb_spec c 0); [lia |].
                 split; [reflexivity |]. split; [lia |]. split.
                 --- apply Hnew. right. split; [exact Hc0 |]. split; [reflexivity | lia].
                 --- replace (length done - 1 - (length done - c) + 1)%nat with c by lia.
                     lia.
           ++ intros (a & b & -> & -> & Hr & Hm). apply Hnew in Hr as [Hr | (Hc0 & -> & Hb)].
              ** left. exists a, b. split; [reflexivity |]. split; [reflexivity |].
                 split; assumption.
              ** right. rewrite Hstart. destruct (Nat.eqb_spec c 0); [lia |].
                 f_equal. lia.
        -- rewrite Hruns. split.
           ++ intros (a & b & -> & -> & Hr & Hm). exists a, b.
              split; [reflexivity |]. split; [reflexivity |].
              split; [apply Hnew; now left | exact Hm].
           ++ intros (a & b & -> & -> & Hr & Hm). apply Hnew in Hr as [Hr | (Hc0 & -> & Hb)].
              ** exists a, b. split; [reflexivity |]. split; [reflexivity |].
                 split; assumption.
              ** exfalso. replace (b - (length done - c) + 1)%nat with c in Hm by lia. lia.
Qed.

(** The result of [find_consecutive_true]: the closed runs that are long
    enough, and the run that is open at the end of the mask if it is long
    enough.  [c] is the length of that run. *)
Lemma find_consecutive_true_final (mask : list bool) (min_count : Z) :
  (1 <= min_count)%Z ->
  let n := length mask in
  exists (runs : list (option nat * Z)) (c : nat),
    find_consecutive_true mask min_count
    = (if (min_count <=? Z.of_nat c)%Z
       then runs ++ [(Some (n - c)%nat, (Z.of_nat n - 1)%Z)] else runs)
    /\ (c <= n)%nat
    /\ (forall j, (n - c <= j < n)%nat -> mask !! j = Some true)
    /\ (c = n \/ mask !! (n - c - 1)%nat = Some false)
    /\ (forall s e, (s, e) ∈ runs <->
          exists a b, s = Some a /\ e = Z.of_nat b /\ closed_run mask a b
                      /\ (min_count <= Z.of_nat (b - a + 1))%Z).
Proof.
  intros Hmin n. unfold find_consecutive_true.
  pose proof (scan_runs_spec min_count mask [] [] None 0%Z Hmin) as Hscan.
  cbn [length app] in Hscan.
  destruct (scan_runs min_count mask 0 [] None 0%Z) as [[runs start] count].
  destruct Hscan as ((c & Hc & Hcl & Hstart & Htrue & Hleft) & Hruns).
  { split.
    - exists 0%nat. cbn. split; [reflexivity |]. split; [lia |]. split; [reflexivity |].
      split; [intros j Hj; lia | now left].
    - intros s' e'. split; [intros H; inversion H |].
      intros (a & b & _ & _ & (_ & _ & _ & Hf) & _). discriminate. }
  exists runs, c. subst count. split.
  - destruct (Z.leb_spec min_count (Z.of_nat c)) as [Hle | Hgt]; [| reflexivity].
    rewrite Hstart. destruct (Nat.eqb_spec c 0); [lia | reflexivity].
  - split; [exact Hcl |]. split; [exact Htrue |]. split; [exact Hleft | exact Hruns].
Qed.

(** Every run returned by [find_consecutive_true] is a run of [True] of at
    least [min_count] levels that cannot be extended. *)
Lemma find_consecutive_true_sound (mask : list bool) (min_count : Z) (s : option nat) (e : Z) :
  (1 <= min_count)%Z ->
  (s, e) ∈ find_consecutive_true mask min_count ->
  exists a b : nat,
    s = Some a /\ e = Z.of_nat b /\ maximal_run mask a b
    /\ (min_count <= Z.of_nat b - Z.of_nat a + 1)%Z.
Proof.
  intros Hmin Hin.
  destruct (find_consecutive_true_final mask min_count Hmin)
    as (runs & c & Heq & Hcl & Htrue & Hleft & Hruns).
  cbn zeta in *. set (n := length mask) in *. rewrite Heq in Hin.
  assert (Hclosed : (s, e) ∈ runs ->
            exists a b : nat,
              s = Some a /\ e = Z.of_nat b /\ maximal_run mask a b
              /\ (min_count <= Z.of_nat b - Z.of_nat a + 1)%Z).
  { intros H. apply Hruns in H as (a & b & -> & -> & Hr & Hm). exists a, b.
    split; [reflexivity |]. split; [reflexivity |].
    destruct Hr as (Hab & Hall & Hl & Hclose).
    split; [| lia]. split; [exact Hab |]. split; [exact Hall |].
    split; [exact Hl | now left]. }
  destruct (Z.leb_spec min_count (Z.of_nat c)) as [Hle | Hgt]; [| now apply Hclosed].
  apply elem_of_app in Hin as [Hin | Hin]; [now apply Hclosed |].
  apply list_elem_of_singleton in Hin as [= -> ->].
  exists (n - c)%nat, (n - 1)%nat.
  split; [reflexivity |]. split; [lia |]. split; [| lia].
  split; [lia |]. split; [intros j Hj; apply Htrue; lia |].
  split; [destruct Hleft as [-> | H]; [left; lia | now right] | right; lia].
Qed.

(** X24: [find_consecutive_true] returns exactly the runs of [True] that
    cannot be extended and have at least [min_count] levels.  For
    [min_count >= 1], a pair is in the result if and only if it is
    [(a, b)] for levels [a <= b] such that the mask is [True] from [a] to
    [b], [a] is the first level or the level before it is [False], [b] is
    the last level or the level after it is [False], and
    [b - a + 1 >= min_count]. *)
Theorem find_consecutive_true_spec (mask : list bool) (min_count : Z) :
  (1 <= min_count)%Z ->
  forall s e,
    (s, e) ∈ find_consecutive_true mask min_count
    <-> exists a b : nat,
          s = Some a /\ e = Z.of_nat b /\ maximal_run mask a b
          /\ (min_count <= Z.of_nat b - Z.of_nat a + 1)%Z.
Proof.
  intros Hmin s e. split; [now apply find_consecutive_true_sound |].
  intros (a & b & -> & -> & Hr & Hm).
  destruct (find_consecutive_true_final mask min_count Hmin)
    as (runs & c & Heq & Hcl & Htrue & Hleft & Hruns).
  cbn zeta in *. set (n := length mask) in *. rewrite Heq.
  destruct Hr as (Hab & Hall & Hl & [Hclose | Hend]).
  - (* the run is closed by a [False] *)
    assert (Hin : (Some a, Z.of_nat b) ∈ runs).
    { apply Hruns. exists a, b. split; [reflexivity |]. split; [reflexivity |].
      split; [| lia]. split; [exact Hab |]. split; [exact Hall |].
      split; [exact Hl | exact Hclose]. }
    destruct (min_count <=? Z.of_nat c)%Z; [apply elem_of_app; now left | exact Hin].
  - (* the run ends with the mask: it is the open run *)
    assert (Hca : a = (n - c)%nat).
    { destruct (Nat.lt_trichotomy a (n - c)) as [Hlt | [Heq' | Hgt]]; [| exact Heq' |].
      - destruct Hleft as [-> | Hf]; [lia |].
        rewrite (Hall (n - c - 1)%nat) in Hf by lia. discriminate.
      - destruct Hl as [-> | Hf]; [lia |].
        rewrite (Htrue (a - 1)%nat) in Hf by lia. discriminate. }
    destruct (Z.leb_spec min_count (Z.of_nat c)) as [Hle | Hgt]; [| lia].
    apply elem_of_app. right. apply list_elem_of_singleton. subst a. f_equal. lia.
Qed.

Lemma find_consecutive_true_spec_witness :
  let mask := [true; true; false; true; true; true; false; true; true; true] in
  find_consecutive_true mask 3 = [(Some 3%nat, 5%Z); (Some 7%nat, 9%Z)]
  /\ maximal_run mask 3 5 /\ maximal_run mask 7 9.
Proof.
  intros mask.
  assert (Hmin : (1 <= 3)%Z) by lia.
  split; [reflexivity |].
  assert (H1 : (Some 3%nat, 5%Z) ∈ find_consecutive_true mask 3)
    by (vm_compute; apply list_elem_of_here).
  assert (H2 : (Some 7%nat, 9%Z) ∈ find_consecutive_true mask 3)
    by (vm_compute; apply list_elem_of_further, list_elem_of_here).
  apply (find_consecutive_true_spec mask 3 Hmin) in H1 as (a & b & [= <-] & Hb & Hr & _).
  apply (find_consecutive_true_spec mask 3 Hmin) in H2 as (a' & b' & [= <-] & Hb' & Hr' & _).
  assert (b = 5%nat) as -> by lia. assert (b' = 9%nat) as -> by lia.
  split; assumption.
Defined.

End RunProps.

(** ** Stacked imbalances *)

Section StackedImbalances.
Import OrderFlow Numpy Imbalances.
Local Open Scope Q_scope.

Lemma eqb_false_of_pos (x : Q) : 0 < x -> eqb x 0 = false.
Proof.
  intros H. unfold eqb. destruct (Qeq_bool x 0) eqn:E; [| reflexivity].
  apply Qeq_bool_iff in E. lra.
Qed.

(** The buy mask at a level with volumes [bid >= 0] and [ask >= 0]. *)
Lemma buy_mask_iff (threshold bid ask : Q) :
  0 <= ask ->
  np_ge (np_divide bid (ask + epsilon)) threshold = true
  <-> threshold * (ask + epsilon) <= bid.
Proof.
  intros Ha. pose proof epsilon_pos as He.
  assert (Hd : 0 < ask + epsilon) by lra.
  unfold np_divide. rewrite (eqb_false_of_pos _ Hd).
  assert (Hmul : bid / (ask + epsilon) * (ask + epsilon) == bid) by (field; lra).
  destruct (eqb bid 0) eqn:Eb.
  - apply Qeq_bool_iff in Eb.
    unfold ltb. destruct (Qle_bool 0 (ask + epsilon)) eqn:El.
    + cbn. unfold leb. rewrite Qle_bool_iff. split; intros H; nra.
    + exfalso. assert (Hle : 0 <= ask + epsilon) by lra.
      apply Qle_bool_iff in Hle. congruence.
  - cbn. unfold leb. rewrite Qle_bool_iff. split; intros H.
    + rewrite <- Hmul. nra.
    + apply Qle_shift_div_l; [exact Hd | exact H].
Qed.

(** The sell mask at a level with volumes [bid >= 0] and [ask >= 0]: a level
    without bid volume has the ratio 0, whose inverse is infinite. *)
Lemma sell_mask_iff (threshold bid ask : Q) :
  0 < threshold -> 0 <= bid -> 0 <= ask ->
  np_ge (np_reciprocal (np_divide bid (ask + epsilon))) threshold = true
  <-> threshold * bid <= ask + epsilon.
Proof.
  intros Ht Hb Ha. pose proof epsilon_pos as He.
  assert (Hd : 0 < ask + epsilon) by lra.
  unfold np_divide. rewrite (eqb_false_of_pos _ Hd).
  destruct (eqb bid 0) eqn:Eb.
  - apply Qeq_bool_iff in Eb.
    unfold ltb. destruct (Qle_bool 0 (ask + epsilon)) eqn:El.
    + cbn. split; [intros _; nra | reflexivity].
    + exfalso. assert (Hle : 0 <= ask + epsilon) by lra.
      apply Qle_bool_iff in Hle. congruence.
  - assert (Hbp : 0 < bid).
    { destruct (Qlt_le_dec 0 bid) as [H | H]; [exact H |].
      assert (E : bid == 0) by lra. apply Qeq_bool_iff in E. unfold eqb in Eb. congruence. }
    assert (Hr : 0 < bid / (ask + epsilon)) by (apply Qlt_shift_div_l; lra).
    cbn. rewrite (eqb_false_of_pos _ Hr). cbn. unfold leb. rewrite Qle_bool_iff.
    assert (Hinv : 1 / (bid / (ask + epsilon)) == (ask + epsilon) / bid) by (field; lra).
    rewrite Hinv. split; intros H.
    + assert (Hmul : (ask + epsilon) / bid * bid == ask + epsilon) by (field; lra).
      rewrite <- Hmul. nra.
    + apply Qle_shift_div_l; [exact Hbp | exact H].
Qed.

Lemma mapM_returns {A B : Type} (f : A -> Outcome B) (P : B -> Prop) (l : list A) :
  (forall x, x ∈ l -> exists y, f x = Returns y /\ P y) ->
  exists ys, mapM f l = Returns ys /\ Forall P ys /\ length ys = length l.
Proof.
  induction l as [| x l IH]; intros H.
  - exists []. split; [reflexivity |]. split; [constructor | reflexivity].
  - destruct (H x) as (y & Hy & HP); [apply list_elem_of_here |].
    destruct IH as (ys & Hys & HF & Hlen).
    { intros x' Hx'. apply H. now apply list_elem_of_further. }
    exists (y :: ys). split; [| split; [now constructor | cbn; now rewrite Hlen]].
    cbn. rewrite Hy. cbn. rewrite Hys. reflexivity.
Qed.

Lemma np_item_lookup {A : Type} (xs : list A) (i : nat) (x : A) :
  xs !! i = Some x -> np_item xs (Z.of_nat i) = Returns x.
Proof.
  intros H. unfold np_item. cbv zeta.
  destruct (Z.ltb_spec (Z.of_nat i) 0) as [Hneg | _]; [lia |].
  destruct (Z.ltb_spec (Z.of_nat i) 0) as [Hneg | _]; [lia |].
  rewrite Nat2Z.id, H. reflexivity.
Qed.

Lemma fmap_zip_with_compose {A B C D : Type} (f : A -> B -> C) (g : C -> D)
    (xs : list A) (ys : list B) :
  g <$> zip_with f xs ys = zip_with (fun x y => g (f x y)) xs ys.
Proof.
  revert ys. induction xs as [| x xs IH]; intros [| y ys]; cbn; try reflexivity.
  now rewrite IH.
Qed.

(** The entry built for a run of a mask over the levels, when the array of
    prices has a price for each level. *)
Lemma stack_entry_of_run (bid_volume ask_volume price_levels : list Q) (min_stack : Z)
    (kind side : string) (sig : SignalType) (imbalanced : Q -> Q -> Prop)
    (test : Q -> Q -> bool) (s : option nat) (e : Z) :
  (1 <= min_stack)%Z ->
  length ask_volume = length bid_volume ->
  length price_levels = length bid_volume ->
  (forall j bid ask, bid_volume !! j = Some bid -> ask_volume !! j = Some ask ->
                     test bid ask = true -> imbalanced bid ask) ->
  (s, e) ∈ find_consecutive_true (zip_with test bid_volume ask_volume) min_stack ->
  exists d, stack_entry kind sig side price_levels (s, e) = Returns d
            /\ stack_of bid_volume ask_volume price_levels min_stack kind sig imbalanced d.
Proof.
  intros Hmin Hask Hprice Htest Hin.
  apply find_consecutive_true_sound in Hin as (a & b & -> & -> & Hr & Hm); [| exact Hmin].
  destruct Hr as (Hab & Hall & _ & _).
  assert (Hb : (b < length bid_volume)%nat).
  { specialize (Hall b ltac:(lia)). apply lookup_lt_Some in Hall.
    rewrite length_zip_with in Hall. lia. }
  destruct (lookup_lt_is_Some_2 price_levels a ltac:(lia)) as (pa & Hpa).
  destruct (lookup_lt_is_Some_2 price_levels b ltac:(lia)) as (pb & Hpb).
  cbn [stack_entry]. rewrite (np_item_lookup _ _ _ Hpa). cbn.
  rewrite (np_item_lookup _ _ _ Hpb). cbn.
  eexists. split; [reflexivity |].
  exists a, b. cbn.
  split; [lia |]. split; [reflexivity |]. split; [exact Hm |].
  split; [exact Hpa |]. split; [exact Hpb |]. split; [reflexivity |]. split; [reflexivity |].
  intros j bid ask Hj Hbid Hask'. apply (Htest j); [exact Hbid | exact Hask' |].
  specialize (Hall j Hj). apply lookup_zip_with_Some in Hall as (x & y & Hxy & Hx & Hy).
  congruence.
Qed.

(** X25: what [detect_stacked_imbalances] reports.  For arrays of the same
    length with non-negative volumes, a positive threshold and
    [min_stack >= 1], the function returns, and every entry of the result
    stands for levels [a <= b] of the book: [start_price] and [end_price] are
    the prices of the levels [a] and [b], [levels] is [b - a + 1] and is at
    least [min_stack].  At every level of a ['buy_imbalance'], which is
    bullish, the bid volume is at least [threshold] times the ask volume plus
    [1e-10]; at every level of a ['sell_imbalance'], which is bearish,
    [threshold] times the bid volume is at most the ask volume plus
    [1e-10]. *)
Theorem stacked_imbalances_sound (bid_volume ask_volume price_levels : list Q)
    (threshold : Q) (min_stack : Z) :
  (1 <= min_stack)%Z ->
  0 < threshold ->
  length ask_volume = length bid_volume ->
  length price_levels = length bid_volume ->
  Forall (fun v => 0 <= v) bid_volume ->
  Forall (fun v => 0 <= v) ask_volume ->
  exists imbalances,
    detect_stacked_imbalances bid_volume ask_volume price_levels threshold min_stack
    = Returns imbalances
    /\ Forall (fun d =>
         stack_of bid_volume ask_volume price_levels min_stack "buy_imbalance" BULLISH
                  (fun bid ask => threshold * (ask + epsilon) <= bid) d
         \/ stack_of bid_volume ask_volume price_levels min_stack "sell_imbalance" BEARISH
                  (fun bid ask => threshold * bid <= ask + epsilon) d)
        imbalances.
Proof.
  intros Hmin Ht Hask Hprice Hbid Hasks.
  unfold detect_stacked_imbalances, broadcast.
  rewrite Hask, Nat.eqb_refl. cbn [mbind outcome_bind].
  rewrite !fmap_zip_with_compose.
  destruct (mapM_returns
              (stack_entry "buy_imbalance" BULLISH "BUY" price_levels)
              (stack_of bid_volume ask_volume price_levels min_stack "buy_imbalance" BULLISH
                        (fun bid ask => threshold * (ask + epsilon) <= bid))
              (find_consecutive_true
                 (zip_with (fun bid ask => np_ge (np_divide bid (ask + epsilon)) threshold)
                           bid_volume ask_volume) min_stack))
    as (buys & Hbuys & Hbuy & _).
  { intros [s e] Hin.
    apply (stack_entry_of_run bid_volume ask_volume price_levels min_stack _ _ _ _
             (fun bid ask => np_ge (np_divide bid (ask + epsilon)) threshold));
      try assumption.
    intros j bid ask Hb Ha Hm. apply buy_mask_iff in Hm; [exact Hm |].
    exact (proj1 (Forall_lookup _ _) Hasks j ask Ha). }
  destruct (mapM_returns
              (stack_entry "sell_imbalance" BEARISH "SELL" price_levels)
              (stack_of bid_volume ask_volume price_levels min_stack "sell_imbalance" BEARISH
                        (fun bid ask => threshold * bid <= ask + epsilon))
              (find_consecutive_true
                 (zip_with (fun bid ask =>
                              np_ge (np_reciprocal (np_divide bid (ask + epsilon))) threshold)
                           bid_volume ask_volume) min_stack))
    as (sells & Hsells & Hsell & _).
  { intros [s e] Hin.
    apply (stack_entry_of_run bid_volume ask_volume price_levels min_stack _ _ _ _
             (fun bid ask => np_ge (np_reciprocal (np_divide bid (ask + epsilon))) threshold));
      try assumption.
    intros j bid ask Hb Ha Hm. apply sell_mask_iff in Hm; [exact Hm | exact Ht | |].
    - exact (proj1 (Forall_lookup _ _) Hbid j bid Hb).
    - exact (proj1 (Forall_lookup _ _) Hasks j ask Ha). }
  exists (buys ++ sells). rewrite Hbuys. cbn [mbind outcome_bind]. rewrite Hsells.
  split; [reflexivity |]. apply Forall_app. split.
  - eapply Forall_impl; [exact Hbuy |]. intros d Hd. now left.
  - eapply Forall_impl; [exact Hsell |]. intros d Hd. now right.
Qed.

Lemma stacked_imbalances_sound_witness :
  let bid := [9; 12; 30; 1; 0; 2] in
  let ask := [2; 3; 4; 5; 7; 8] in
  let prices := [100; 101; 102; 103; 104; 105] in
  exists imbalances,
    detect_stacked_imbalances bid ask prices 3 3 = Returns imbalances
    /\ (type <$> imbalances) = ["buy_imbalance"; "sell_imbalance"]%string
    /\ Forall (fun d =>
         stack_of bid ask prices 3 "buy_imbalance" BULLISH
                  (fun bid ask => 3 * (ask + epsilon) <= bid) d
         \/ stack_of bid ask prices 3 "sell_imbalance" BEARISH
                  (fun bid ask => 3 * bid <= ask + epsilon) d)
        imbalances.
Proof.
  intros bid ask prices.
  assert (Hmin : (1 <= 3)%Z) by lia.
  assert (Ht : 0 < 3) by reflexivity.
  assert (Hask : length ask = length bid) by reflexivity.
  assert (Hprice : length prices = length bid) by reflexivity.
  assert (Hbid : Forall (fun v => 0 <= v) bid)
    by (repeat constructor; discriminate).
  assert (Hasks : Forall (fun v => 0 <= v) ask)
    by (repeat constructor; discriminate).
  destruct (stacked_imbalances_sound bid ask prices 3 3 Hmin Ht Hask Hprice Hbid Hasks)
    as (imbalances & Hr & Hsound).
  exists imbalances. split; [exact Hr |]. split; [| exact Hsound].
  vm_compute in Hr. injection Hr as <-. reflexivity.
Defined.



Lemma scan_runs_all_true (min_count : Z) (k i : nat) (runs : list (option nat * Z))
    (start : option nat) (count : Z) :
  scan_runs min_count (replicate (S k) true) i runs start count
  = (runs, Some (default i start), (count + Z.of_nat (S k))%Z).
Proof.
  revert i start count. induction k as [| k IH]; intros i start count.
  - cbn [replicate scan_runs]. destruct start; cbn [default]; f_equal; lia.
  - change (replicate (S (S k)) true) with (true :: replicate (S k) true).
    cbn [scan_runs]. rewrite IH. destruct start; cbn [default]; f_equal; lia.
Qed.

Lemma scan_runs_all_false (min_count : Z) (k i : nat) :
  (1 <= min_count)%Z ->
  scan_runs min_count (replicate k false) i [] None 0%Z = ([], None, 0%Z).
Proof.
  intros Hmin. revert i. induction k as [| k IH]; intros i; [reflexivity |].
  cbn [replicate scan_runs].
  destruct (Z.leb_spec min_count 0) as [H | _]; [lia | apply IH].
Qed.

(** X26: a book without bid volume is reported as one stack of sell
    imbalances, whatever the ask volumes and the threshold are.  When every
    bid volume is 0, the ask volumes are non-negative, the threshold is
    positive and there are at least [min_stack >= 1] levels, the ratio is 0
    at every level and its inverse is infinite, so the result is the single
    bearish entry that spans all levels, from the first price to the last;
    this includes levels whose ask volume is 0 as well. *)
Theorem no_bids_is_sell_stack (bid_volume ask_volume price_levels : list Q)
    (threshold : Q) (min_stack : Z) (first final : Q) :
  (1 <= min_stack <= Z.of_nat (length price_levels))%Z ->
  0 < threshold ->
  length bid_volume = length price_levels ->
  length ask_volume = length price_levels ->
  Forall (fun v => v == 0) bid_volume ->
  Forall (fun v => 0 <= v) ask_volume ->
  price_levels !! 0%nat = Some first ->
  last price_levels = Some final ->
  detect_stacked_imbalances bid_volume ask_volume price_levels threshold min_stack
  = Returns [ {| type := "sell_imbalance";
                 start_price := first;
                 end_price := final;
                 levels := Z.of_nat (length price_levels);
                 signal := BEARISH;
                 description :=
                   "Stacked SELL imbalances: "
                   +:+ pretty (Z.of_nat (length price_levels)) +:+ " levels" |} ].
Proof.
  intros Hmin Ht Hbid Hask Hzero Hnonneg Hfirst Hfinal.
  set (n := length price_levels) in *.
  assert (Hratios : zip_with (fun bid ask => np_divide bid (ask + epsilon))
                             bid_volume ask_volume
                    = replicate n (Num 0)).
  { clearbody n. clear Hmin Hfirst Hfinal. revert n ask_volume Hbid Hask Hnonneg.
    induction Hzero as [| b bids Hb _ IH]; intros n asks Hbid Hask Hnonneg.
    - cbn in Hbid. subst n. reflexivity.
    - destruct asks as [| a asks]; [cbn in *; lia |].
      destruct n as [| n]; [discriminate |].
      apply Forall_cons in Hnonneg as (Ha & Hnonneg).
      cbn [zip_with replicate]. f_equal.
      + pose proof epsilon_pos as He. unfold np_divide.
        rewrite (eqb_false_of_pos (a + epsilon)) by lra.
        assert (Eb : eqb b 0 = true) by now apply Qeq_bool_iff.
        rewrite Eb. unfold ltb.
        assert (El : Qle_bool 0 (a + epsilon) = true) by (apply Qle_bool_iff; lra).
        now rewrite El.
      + apply IH; [cbn in Hbid; lia | cbn in Hask; lia | exact Hnonneg]. }
  unfold detect_stacked_imbalances, broadcast.
  rewrite Hbid, Hask, Nat.eqb_refl. cbn [mbind outcome_bind].
  rewrite Hratios, !fmap_replicate.
  assert (Hbuy : np_ge (Num 0) threshold = false).
  { cbn. unfold leb. destruct (Qle_bool threshold 0) eqn:E; [| reflexivity].
    apply Qle_bool_iff in E. lra. }
  rewrite Hbuy. change (np_ge (np_reciprocal (Num 0)) threshold) with true.
  assert (Hn : exists k, n = S k) by (destruct n; [lia | eauto]).
  destruct Hn as (k & Hk).
  assert (Hnone : find_consecutive_true (replicate n false) min_stack = []).
  { unfold find_consecutive_true. rewrite scan_runs_all_false by lia.
    destruct (Z.leb_spec min_stack 0); [lia | reflexivity]. }
  assert (Hall : find_consecutive_true (replicate n true) min_stack
                 = [(Some 0%nat, (Z.of_nat n - 1)%Z)]).
  { unfold find_consecutive_true. rewrite Hk, scan_runs_all_true, <- Hk.
    destruct (Z.leb_spec min_stack (0 + Z.of_nat n)); [| lia].
    rewrite length_replicate. reflexivity. }
  rewrite Hnone, Hall. cbn [mapM mbind outcome_bind mret outcome_ret stack_entry].
  rewrite (np_item_lookup _ 0 _ Hfirst). cbn [mbind outcome_bind].
  assert (Hend : np_item price_levels (Z.of_nat n - 1) = Returns final).
  { replace (Z.of_nat n - 1)%Z with (Z.of_nat (n - 1)) by lia.
    apply np_item_lookup. rewrite last_lookup in Hfinal.
    replace (n - 1)%nat with (Init.Nat.pred (length price_levels)) by (subst n; lia).
    exact Hfinal. }
  rewrite Hend. cbn [mbind outcome_bind app].
  replace (Z.of_nat n - 1 - Z.of_nat 0 + 1)%Z with (Z.of_nat n) by lia.
  reflexivity.
Qed.

Lemma no_bids_is_sell_stack_witness :
  exists d,
    detect_stacked_imbalances [0; 0; 0; 0] [5; 0; 0; 12] [100; 101; 102; 103] 3 3
    = Returns [d]
    /\ type d = "sell_imbalance"%string /\ levels d = 4%Z
    /\ description d = "Stacked SELL imbalances: 4 levels"%string.
Proof.
  assert (Hmin : (1 <= 3 <= Z.of_nat (length [100; 101; 102; 103]))%Z) by (cbn; lia).
  assert (Ht : 0 < 3) by reflexivity.
  assert (Hzero : Forall (fun v => v == 0) [0; 0; 0; 0])
    by (repeat constructor).
  assert (Hnonneg : Forall (fun v => 0 <= v) [5; 0; 0; 12])
    by (repeat constructor; discriminate).
  eexists. split.
  - exact (no_bids_is_sell_stack [0; 0; 0; 0] [5; 0; 0; 12] [100; 101; 102; 103] 3 3
             100 103 Hmin Ht eq_refl eq_refl Hzero Hnonneg eq_refl eq_refl).
  - split; [reflexivity |]. split; reflexivity.
Defined.

End StackedImbalances.

(** ** Delta of trades *)

Section TradeDeltaProps.
Import Trades.
Local Open Scope Q_scope.

Lemma direction_cases (p b a : Q) :
  calculate_trade_direction p b a = 1%Z
  \/ calculate_trade_direction p b a = (-1)%Z
  \/ calculate_trade_direction p b a = 0%Z.
Proof.
  unfold calculate_trade_direction. cbv zeta.
  destruct (ltb _ p); [now left |]. destruct (ltb p _); [right; now left | right; now right].
Qed.

Lemma signed_volume_bound (t : Tick) : 0 <= volume t -> Qabs (signed_volume t) <= volume t.
Proof.
  intros Hv. unfold signed_volume. apply Qabs_Qle_condition.
  destruct (direction_cases (price t) (bid t) (ask t)) as [-> | [-> | ->]];
    unfold inject_Z; split; lra.
Qed.

(** The keys after a row is added to its group. *)
Lemma add_to_group_keys (k : Z) (v : Q) (groups : list (Z * Q)) (k' : Z) :
  k' ∈ (add_to_group k v groups).*1 <-> k' = k \/ k' ∈ groups.*1.
Proof.
  induction groups as [| [k0 s] rest IH]; cbn.
  - rewrite list_elem_of_singleton. split; [now left | intros [H | H]; [exact H | inversion H]].
  - destruct (Z.ltb_spec k k0); [| destruct (Z.eqb_spec k k0)]; cbn.
    + rewrite !elem_of_cons. tauto.
    + subst k0. rewrite !elem_of_cons. tauto.
    + rewrite !elem_of_cons, IH. tauto.
Qed.

Lemma add_to_group_sorted (k : Z) (v : Q) (groups : list (Z * Q)) :
  StronglySorted Z.lt groups.*1 -> StronglySorted Z.lt (add_to_group k v groups).*1.
Proof.
  induction groups as [| [k0 s] rest IH]; intros Hs; cbn.
  - repeat constructor.
  - cbn in Hs. apply StronglySorted_inv in Hs as (Hrest & Hall).
    destruct (Z.ltb_spec k k0); [| destruct (Z.eqb_spec k k0)]; cbn.
    + constructor; [now constructor |]. constructor; [exact H |].
      eapply Forall_impl; [exact Hall |]. cbn. intros; lia.
    + now constructor.
    + constructor; [now apply IH |].
      apply Forall_forall. intros k' Hk'. apply add_to_group_keys in Hk' as [-> | Hk'].
      * lia.
      * exact (proj1 (Forall_forall _ _) Hall k' Hk').
Qed.

Lemma add_to_group_value (k : Z) (v : Q) (groups : list (Z * Q)) (k' : Z) (s' : Q) :
  StronglySorted Z.lt groups.*1 ->
  (k', s') ∈ add_to_group k v groups ->
  (k' = k /\ (((k ∉ groups.*1) /\ s' = v) \/ exists s, (k, s) ∈ groups /\ s' = s + v))
  \/ (k' <> k /\ (k', s') ∈ groups).
Proof.
  induction groups as [| [k0 s0] rest IH]; intros Hs Hin; cbn in *.
  - apply list_elem_of_singleton in Hin as [= -> ->]. left. split; [reflexivity |]. left.
    split; [intros H; inversion H | reflexivity].
  - apply StronglySorted_inv in Hs as (Hrest & Hall).
    assert (Hlt : forall x, x ∈ rest.*1 -> (k0 < x)%Z)
      by (intros x; exact (proj1 (Forall_forall _ _) Hall x)).
    destruct (Z.ltb_spec k k0); [| destruct (Z.eqb_spec k k0)].
    + apply elem_of_cons in Hin as [[= -> ->] | Hin].
      * left. split; [reflexivity |]. left. split; [| reflexivity].
        intros Hk. apply elem_of_cons in Hk as [-> | Hk]; [lia |].
        specialize (Hlt _ Hk). lia.
      * right. split; [| exact Hin].
        intros ->. apply elem_of_cons in Hin as [[= -> _] | Hin]; [lia |].
        assert (Hk : k ∈ rest.*1) by (apply list_elem_of_fmap; now exists (k, s')).
        specialize (Hlt _ Hk). lia.
    + subst k0. apply elem_of_cons in Hin as [[= -> ->] | Hin].
      * left. split; [reflexivity |]. right. exists s0. split; [left | reflexivity].
      * right. split; [| now right].
        intros ->.
        assert (Hk : k ∈ rest.*1) by (apply list_elem_of_fmap; now exists (k, s')).
        specialize (Hlt _ Hk). lia.
    + apply elem_of_cons in Hin as [[= -> ->] | Hin].
      * right. split; [congruence | left].
      * destruct (IH Hrest Hin) as [(-> & [(Hno & ->) | (s & Hs' & ->)]) | (Hne & Hin')].
        -- left. split; [reflexivity |]. left. split; [| reflexivity].
           intros Hk. apply elem_of_cons in Hk as [-> | Hk]; [lia | now apply Hno].
        -- left. split; [reflexivity |]. right. exists s. split; [now right | reflexivity].
        -- right. split; [exact Hne | now right].
Qed.

Lemma sum_cons_eq (x : Q) (xs : list Q) : sum (x :: xs) = x + sum xs.
Proof. reflexivity. Qed.

Lemma add_to_group_sum (k : Z) (v : Q) (groups : list (Z * Q)) :
  sum (add_to_group k v groups).*2 == sum groups.*2 + v.
Proof.
  induction groups as [| [k0 s0] rest IH]; cbn [add_to_group].
  - cbn. lra.
  - destruct (k <? k0)%Z; [| destruct (k =? k0)%Z];
      rewrite ?fmap_cons; cbn [snd]; rewrite ?sum_cons_eq, ?IH; lra.
Qed.

Lemma filter_key_snoc (k k' : Z) (v : Q) (rows : list (Z * Q)) :
  sum (filter (fun r => r.1 = k') (rows ++ [(k, v)])).*2
  == sum (filter (fun r => r.1 = k') rows).*2 + (if decide (k = k') then v else 0).
Proof.
  rewrite filter_app, fmap_app, sum_app.
  apply Qplus_comp; [reflexivity |].
  rewrite filter_cons, filter_nil. cbn [fst].
  destruct (decide (k = k')); cbn; ring.
Qed.

Lemma filter_key_absent (k : Z) (rows : list (Z * Q)) :
  k ∉ rows.*1 -> filter (fun r => r.1 = k) rows = [].
Proof.
  intros Hno. induction rows as [| [k0 v0] rows IH]; [reflexivity |].
  rewrite filter_cons. cbn [fst]. destruct (decide (k0 = k)) as [-> | Hne].
  - exfalso. apply Hno. cbn. left.
  - apply IH. intros H. apply Hno. cbn. now right.
Qed.

Lemma grouped_step (k : Z) (v : Q) (rows groups : list (Z * Q)) :
  grouped rows groups -> grouped (rows ++ [(k, v)]) (add_to_group k v groups).
Proof.
  intros (Hs & Hkeys & Hval & Hsum). split; [now apply add_to_group_sorted |].
  split; [| split].
  - intros k'. rewrite add_to_group_keys, Hkeys, fmap_app, elem_of_app. cbn.
    rewrite list_elem_of_singleton. tauto.
  - intros k' s' Hin. rewrite filter_key_snoc.
    destruct (add_to_group_value _ _ _ _ _ Hs Hin)
      as [(-> & [(Hno & ->) | (s & Hs' & ->)]) | (Hne & Hin')].
    + rewrite decide_True by reflexivity.
      rewrite filter_key_absent; [cbn; ring |]. now rewrite <- Hkeys.
    + rewrite decide_True by reflexivity. rewrite (Hval _ _ Hs'). reflexivity.
    + rewrite decide_False by congruence. rewrite (Hval _ _ Hin'). ring.
  - rewrite add_to_group_sum, Hsum, fmap_app, sum_app. cbn. ring.
Qed.

Lemma groupby_sum_grouped (rows : list (Z * Q)) : grouped rows (groupby_sum rows).
Proof.
  unfold groupby_sum.
  assert (H : forall done groups,
             grouped done groups ->
             grouped (done ++ rows)
                     (foldl (fun groups row => add_to_group row.1 row.2 groups) groups rows)).
  { induction rows as [| [k v] rows IH]; intros done groups Hg.
    - now rewrite app_nil_r.
    - cbn [foldl]. replace (done ++ (k, v) :: rows) with ((done ++ [(k, v)]) ++ rows)
        by now rewrite <- app_assoc.
      apply IH. now apply grouped_step. }
  apply (H [] []). split; [constructor |]. split; [reflexivity |].
  split; [intros k s Hin; inversion Hin | reflexivity].
Qed.

Lemma total_signed_bound (trades : list Tick) :
  Forall (fun t => 0 <= volume t) trades ->
  Qabs (sum (signed_volume <$> trades)) <= sum (volume <$> trades).
Proof.
  induction 1 as [| t trades Ht _ IH]; [cbn; discriminate |].
  rewrite !fmap_cons, !sum_cons_eq.
  pose proof (signed_volume_bound t Ht) as Hb.
  pose proof (Qabs_triangle (signed_volume t) (sum (signed_volume <$> trades))) as Htri.
  lra.
Qed.

(** X27: the delta of each bar.  For a non-empty frame of trades with
    non-negative volumes that has the column [bar_time], [calculate_delta]
    returns one value for each bar time of the frame, in ascending order of
    the bar times.  The value of a bar is the sum of the signed volumes of
    its trades, so its magnitude is at most the volume traded in the bar,
    and the values of all bars add up to the sum of the series that is
    returned for the same trades without the column. *)
Theorem delta_by_bar (trades : list Tick) :
  trades <> [] ->
  Forall (fun t => 0 <= volume t) trades ->
  exists groups values,
    calculate_delta true trades = ByBar groups
    /\ calculate_delta false trades = ByTrade values
    /\ StronglySorted Z.lt groups.*1
    /\ (forall k, k ∈ groups.*1 <-> k ∈ bar_time <$> trades)
    /\ (forall k s, (k, s) ∈ groups ->
          s == sum (signed_volume <$> trades_of_bar k trades)
          /\ Qabs s <= sum (volume <$> trades_of_bar k trades))
    /\ sum groups.*2 == sum values.
Proof.
  intros Hne Hvol.
  set (rows := (fun t => (bar_time t, signed_volume t)) <$> trades).
  exists (groupby_sum rows), (signed_volume <$> trades).
  split; [destruct trades; [congruence | reflexivity] |].
  split; [destruct trades; [congruence | reflexivity] |].
  destruct (groupby_sum_grouped rows) as (Hs & Hkeys & Hval & Hsum).
  assert (Hfst : rows.*1 = bar_time <$> trades).
  { unfold rows. rewrite <- list_fmap_compose. reflexivity. }
  assert (Hsnd : rows.*2 = signed_volume <$> trades).
  { unfold rows. rewrite <- list_fmap_compose. reflexivity. }
  assert (Hbar : forall k,
            (filter (fun r => r.1 = k) rows).*2 = signed_volume <$> trades_of_bar k trades).
  { intros k. unfold rows, trades_of_bar. clear. induction trades as [| t trades IH];
      [reflexivity |].
    rewrite fmap_cons, !filter_cons. cbn [fst].
    destruct (decide (bar_time t = k)); cbn; now rewrite IH. }
  split; [exact Hs |]. split; [intros k; now rewrite Hkeys, Hfst |].
  split; [| now rewrite Hsum, Hsnd].
  intros k s Hin. specialize (Hval k s Hin). rewrite Hbar in Hval.
  split; [exact Hval |]. rewrite Hval. apply total_signed_bound.
  apply Forall_forall. intros t Ht. apply list_elem_of_filter in Ht as (_ & Ht).
  exact (proj1 (Forall_forall _ _) Hvol t Ht).
Qed.

Lemma delta_by_bar_witness :
  let trades :=
    [ {| price := 101; bid := 100; ask := 101; volume := 5; bar_time := 2 |};
      {| price := 100; bid := 100; ask := 101; volume := 3; bar_time := 1 |};
      {| price := 100; bid := 100; ask := 101; volume := 4; bar_time := 2 |};
      {| price := 101; bid := 100; ask := 102; volume := 7; bar_time := 1 |} ] in
  calculate_delta true trades = ByBar [(1%Z, -3 + 0); (2%Z, 5 + -4)]
  /\ exists groups, calculate_delta true trades = ByBar groups
                    /\ StronglySorted Z.lt groups.*1.
Proof.
  intros trades. split; [vm_compute; reflexivity |].
  assert (Hne : trades <> []) by discriminate.
  assert (Hvol : Forall (fun t => 0 <= volume t) trades)
    by (repeat constructor; discriminate).
  destruct (delta_by_bar trades Hne Hvol) as (groups & values & Hg & _ & Hs & _).
  exists groups. split; [exact Hg | exact Hs].
Defined.

End TradeDeltaProps.

(** ** Cumulative delta *)

Section CumulativeDeltaProps.
Import Bars OrderFlow CumulativeDelta.
Local Open Scope Q_scope.

Lemma cumsum_from_lookup (acc : Q) (xs : list Q) (i : nat) (c : Q) :
  cumsum_from acc xs !! i = Some c -> c == acc + sum (take (S i) xs).
Proof.
  revert acc i. induction xs as [| x xs IH]; intros acc i H; [discriminate |].
  destruct i as [| i].
  - cbn [cumsum_from lookup list_lookup] in H. injection H as <-.
    change (take 1 (x :: xs)) with [x]. rewrite sum_cons_eq. change (sum []) with 0. lra.
  - cbn [cumsum_from lookup list_lookup] in H. apply IH in H. rewrite H.
    change (take (S (S i)) (x :: xs)) with (x :: take (S i) xs).
    rewrite sum_cons_eq. lra.
Qed.

Lemma estimated_total_bound (bars : list Bar) :
  Forall (fun b => low b <= open b <= high b /\ low b <= close b <= high b
                   /\ 0 <= volume b) bars ->
  Qabs (sum (estimated_delta_of <$> bars)) <= sum (volume <$> bars).
Proof.
  induction 1 as [| b bars (Ho & Hc & Hv) _ IH]; [cbn; discriminate |].
  rewrite !fmap_cons, !sum_cons_eq.
  pose proof (estimated_delta_bound b Ho Hc Hv) as Hb.
  pose proof (Qabs_triangle (estimated_delta_of b) (sum (estimated_delta_of <$> bars))) as Htri.
  lra.
Qed.

Lemma zip_with_fmap_rows {A B C D : Type} (f : A -> B -> C) (g : C -> D) (h : A -> D)
    (xs : list A) (ys : list B) :
  (forall x y, g (f x y) = h x) -> length xs = length ys ->
  g <$> zip_with f xs ys = h <$> xs.
Proof.
  intros Hg. revert ys. induction xs as [| x xs IH]; intros [| y ys] Hlen;
    try discriminate; [reflexivity |].
  cbn. rewrite Hg. f_equal. apply IH. now injection Hlen.
Qed.

(** X28: the cumulative delta of bars.  For bars that have their open and
    close between low and high and a non-negative volume, and a frame
    without the column [delta], [calculate_cumulative_delta] returns one
    value for each bar, and the magnitude of the value at a bar is at most
    the volume traded up to and including that bar.  When
    [estimate_delta_from_ohlcv] returns for the same bars, its column
    [cumulative_delta] is that series, and so is the result of
    [calculate_cumulative_delta] on a frame that has the column
    [estimated_delta] as [delta]. *)
Theorem cumulative_delta_within_volume (bars : list Bar) :
  Forall (fun b => low b <= open b <= high b /\ low b <= close b <= high b
                   /\ 0 <= volume b) bars ->
  let series := calculate_cumulative_delta None bars in
  length series = length bars
  /\ (forall i c, series !! i = Some c -> Qabs c <= sum (volume <$> take (S i) bars))
  /\ (forall rows,
        estimate_delta_from_ohlcv bars = Ok rows ->
        row_cumulative_delta <$> rows = series
        /\ calculate_cumulative_delta (Some (estimated_delta <$> rows)) bars = series).
Proof.
  intros Hbars series.
  assert (Hseries : series = cumsum (estimated_delta_of <$> bars)) by reflexivity.
  split; [| split].
  - rewrite Hseries. unfold cumsum. now rewrite cumsum_from_length, length_fmap.
  - intros i c Hc. rewrite Hseries in Hc. apply cumsum_from_lookup in Hc.
    rewrite Hc, <- fmap_take. 
    assert (H0 : 0 + sum (estimated_delta_of <$> take (S i) bars)
                 == sum (estimated_delta_of <$> take (S i) bars)) by ring.
    rewrite H0. apply estimated_total_bound. now apply Forall_take.
  - intros rows Hrows. unfold estimate_delta_from_ohlcv in Hrows.
    destruct (variance _) as [var |]; [| discriminate].
    destruct (eqb var 0); [discriminate |]. injection Hrows as <-.
    assert (Hlen : length bars = length (cumsum (estimated_delta_of <$> bars))).
    { unfold cumsum. now rewrite cumsum_from_length, length_fmap. }
    split.
    + rewrite Hseries. apply fmap_zip_with_r; [reflexivity | lia].
    + cbn [calculate_cumulative_delta]. rewrite Hseries. f_equal.
      now apply zip_with_fmap_rows.
Qed.

Lemma cumulative_delta_within_volume_witness :
  let bars :=
    [ {| Bars.timestamp := 0; open := 10; high := 12; low := 9; close := 11; volume := 30 |};
      {| Bars.timestamp := 1; open := 11; high := 11; low := 8; close := 8; volume := 60 |} ] in
  length (calculate_cumulative_delta None bars) = 2%nat
  /\ forall i c, calculate_cumulative_delta None bars !! i = Some c ->
                 Qabs c <= sum (volume <$> take (S i) bars).
Proof.
  intros bars.
  assert (Hbars : Forall (fun b => low b <= open b <= high b /\ low b <= close b <= high b
                                   /\ 0 <= volume b) bars).
  { repeat constructor; cbn; discriminate. }
  destruct (cumulative_delta_within_volume bars Hbars) as (Hlen & Hbound & _).
  split; [exact Hlen | exact Hbound].
Defined.

End CumulativeDeltaProps.

(** ** The two sides of the aggregation *)

Section SidesProps.
Import PortfolioManager Sides.
Local Open Scope Q_scope.

Lemma mirror_known (d : string) :
  known_direction d ->
  contains "bullish" (mirror d) = contains "bearish" d
  /\ contains "bearish" (mirror d) = contains "bullish" d
  /\ contains "bullish" d && contains "bearish" d = false
  /\ signal_map (mirror d) == - signal_map d.
Proof.
  unfold known_direction. intros H.
  repeat (apply elem_of_cons in H as [-> | H]); [.. | inversion H];
    vm_compute; repeat split; reflexivity.
Qed.

Lemma tr_direction_mirror (tr : TapeReaderSignal) :
  tr_direction_of (mirror_tape_reader tr) = mirror (tr_direction_of tr)
  /\ Crew.tr_confidence_of (mirror_tape_reader tr) = Crew.tr_confidence_of tr.
Proof.
  destruct tr as [[[[d |] c] |]]; split; reflexivity.
Qed.

Lemma ch_direction_mirror (ch : ChartistSignal) :
  ch_direction_of (mirror_chartist ch) = mirror (ch_direction_of ch)
  /\ Crew.ch_strength_of (mirror_chartist ch) = Crew.ch_strength_of ch.
Proof.
  destruct ch as [[[[d |] c] |]]; split; reflexivity.
Qed.

Lemma macro_direction_mirror (m : MacroSignal) :
  macro_direction_of (mirror_macro m) = mirror (macro_direction_of m)
  /\ Crew.macro_confidence_of (mirror_macro m) = Crew.macro_confidence_of m
  /\ Crew.trading_allowed_of (mirror_macro m) = Crew.trading_allowed_of m.
Proof.
  destruct m as [[[[d |] c a] |]]; repeat split; reflexivity.
Qed.

Lemma mirrored_counts (d1 d2 d3 : string) (c1 c2 c3 : Q) :
  known_direction d1 -> known_direction d2 -> known_direction d3 ->
  agree_count "bullish" (signals_of (mirror d1) c1 (mirror d2) c2 (mirror d3) c3)
  = agree_count "bearish" (signals_of d1 c1 d2 c2 d3 c3)
  /\ agree_count "bearish" (signals_of (mirror d1) c1 (mirror d2) c2 (mirror d3) c3)
     = agree_count "bullish" (signals_of d1 c1 d2 c2 d3 c3)
  /\ ~ ((2 <= agree_count "bullish" (signals_of d1 c1 d2 c2 d3 c3))%nat
        /\ (2 <= agree_count "bearish" (signals_of d1 c1 d2 c2 d3 c3))%nat).
Proof.
  intros H1 H2 H3.
  destruct (mirror_known d1 H1) as (A1 & B1 & X1 & _).
  destruct (mirror_known d2 H2) as (A2 & B2 & X2 & _).
  destruct (mirror_known d3 H3) as (A3 & B3 & X3 & _).
  unfold signals_of. rewrite !agree_count_cons. cbn [fst snd].
  rewrite A1, A2, A3, B1, B2, B3.
  split; [reflexivity |]. split; [reflexivity |].
  unfold agree_count. cbn [filter list_filter length].
  destruct (contains "bullish" d1), (contains "bearish" d1); try discriminate;
    destruct (contains "bullish" d2), (contains "bearish" d2); try discriminate;
    destruct (contains "bullish" d3), (contains "bearish" d3); try discriminate;
    cbn [andb]; destruct (ltb 0.5 c1), (ltb 0.5 c2), (ltb 0.5 c3); cbn; lia.
Qed.

Lemma mirrored_total (d1 d2 d3 : string) (c1 c2 c3 : Q) :
  known_direction d1 -> known_direction d2 -> known_direction d3 ->
  total_signal (mirror d1) c1 (mirror d2) c2 (mirror d3) c3
  == - total_signal d1 c1 d2 c2 d3 c3.
Proof.
  intros H1 H2 H3.
  destruct (mirrored_counts d1 d2 d3 c1 c2 c3 H1 H2 H3) as (Hb & Hs & Hx).
  destruct (mirror_known d1 H1) as (_ & _ & _ & M1).
  destruct (mirror_known d2 H2) as (_ & _ & _ & M2).
  destruct (mirror_known d3 H3) as (_ & _ & _ & M3).
  unfold total_signal. cbv zeta. rewrite Hb, Hs.
  assert (Hw : weighted_signal (mirror d1) c1 (mirror d2) c2 (mirror d3) c3
               == - weighted_signal d1 c1 d2 c2 d3 c3).
  { unfold weighted_signal. rewrite M1, M2, M3. ring. }
  destruct (Nat.leb_spec 2 (agree_count "bullish" (signals_of d1 c1 d2 c2 d3 c3))) as [Hbull | Hbull];
    destruct (Nat.leb_spec 2 (agree_count "bearish" (signals_of d1 c1 d2 c2 d3 c3))) as [Hbear | Hbear];
    try (exfalso; apply Hx; split; assumption); rewrite Hw; ring.
Qed.

Lemma ltb_compat (a a' b b' : Q) : a == a' -> b == b' -> ltb a b = ltb a' b'.
Proof. intros Ha Hb. unfold ltb. now rewrite Ha, Hb. Qed.

(** X29: [aggregate_signals] treats the two sides alike.  When the
    directions of the three agents are among ['bullish'],
    ['bullish_breakout'], ['bearish'], ['bearish_breakout'] and ['neutral']
    (an absent direction counts as ['neutral']), replacing every direction
    by the same direction on the other side turns a ['long'] into a
    ['short'] and a ['short'] into a ['long'], leaves a ['no_trade'] as it
    is, mirrors the reported direction, and leaves the confidence, the
    signal strength and the reason unchanged. *)
Theorem aggregate_signals_mirrored (cfg : Config) (tr : TapeReaderSignal)
    (ch : ChartistSignal) (m : MacroSignal) :
  known_direction (tr_direction_of tr) ->
  known_direction (ch_direction_of ch) ->
  known_direction (macro_direction_of m) ->
  let r := aggregate_signals cfg tr ch m in
  let r' := aggregate_signals cfg (mirror_tape_reader tr) (mirror_chartist ch)
                              (mirror_macro m) in
  final_decision r' = opposite (final_decision r)
  /\ direction r' = mirror <$> direction r
  /\ PortfolioManager.confidence r' = PortfolioManager.confidence r
  /\ same_float (signal_strength r') (signal_strength r)
  /\ reason r' = reason r.
Proof.
  intros K1 K2 K3. cbv zeta. unfold aggregate_signals. cbv zeta.
  fold (tr_direction_of tr) (tr_direction_of (mirror_tape_reader tr))
       (ch_direction_of ch) (ch_direction_of (mirror_chartist ch))
       (macro_direction_of m) (macro_direction_of (mirror_macro m))
       (Crew.tr_confidence_of tr) (Crew.tr_confidence_of (mirror_tape_reader tr))
       (Crew.ch_strength_of ch) (Crew.ch_strength_of (mirror_chartist ch))
       (Crew.macro_confidence_of m) (Crew.macro_confidence_of (mirror_macro m))
       (Crew.trading_allowed_of m) (Crew.trading_allowed_of (mirror_macro m)).
  destruct (tr_direction_mirror tr) as (-> & ->).
  destruct (ch_direction_mirror ch) as (-> & ->).
  destruct (macro_direction_mirror m) as (-> & -> & ->).
  set (d1 := tr_direction_of tr) in *. set (d2 := ch_direction_of ch) in *.
  set (d3 := macro_direction_of m) in *.
  set (c1 := Crew.tr_confidence_of tr). set (c2 := Crew.ch_strength_of ch).
  set (c3 := Crew.macro_confidence_of m).
  destruct (Crew.trading_allowed_of m); cbn [negb];
    [| split; [reflexivity |]; split; [reflexivity |]; split; [reflexivity |];
       split; [exact I | reflexivity]].
  destruct (mirrored_counts d1 d2 d3 c1 c2 c3 K1 K2 K3) as (Hb & Hs & _).
  pose proof (mirrored_total d1 d2 d3 c1 c2 c3 K1 K2 K3) as Ht.
  rewrite Hb, Hs.
  set (t := total_signal d1 c1 d2 c2 d3 c3) in *.
  set (t' := total_signal (mirror d1) c1 (mirror d2) c2 (mirror d3) c3) in *.
  assert (Habs : Qabs t' == Qabs t) by (rewrite Ht; apply Qabs_opp).
  rewrite (ltb_compat (Qabs t') (Qabs t) 0.3 0.3 Habs (Qeq_refl _)).
  destruct (ltb (Qabs t) 0.3 || ltb ((c1 + c2 + c3) / 3) (min_confidence cfg)) eqn:Egate.
  - cbn. split; [reflexivity |]. split; [reflexivity |]. split; [reflexivity |].
    split; [exact Habs | reflexivity].
  - apply orb_false_iff in Egate as (Esmall & _). apply ltb_ge in Esmall.
    destruct (ltb 0 t) eqn:Epos, (ltb 0 t') eqn:Epos'.
    + exfalso. apply ltb_lt in Epos, Epos'. lra.
    + cbn. split; [reflexivity |]. split; [reflexivity |]. split; [reflexivity |].
      split; [exact Habs | reflexivity].
    + cbn. split; [reflexivity |]. split; [reflexivity |]. split; [reflexivity |].
      split; [exact Habs | reflexivity].
    + exfalso. apply ltb_ge in Epos, Epos'.
      assert (Hz : t == 0) by lra.
      assert (Hzero : Qabs t == 0) by (rewrite Hz; reflexivity).
      rewrite Hzero in Esmall. revert Esmall. clear. intros H. lra.
Qed.

Lemma aggregate_signals_mirrored_witness :
  let tr := {| final_signal := Some {| fs_direction := Some "bullish"%string;
                                       fs_confidence := Some 0.8 |} |} in
  let ch := {| context := Some {| ctx_direction := Some "bullish_breakout"%string;
                                  ctx_strength := Some 0.7 |} |} in
  let m := {| macro_signal := Some {| m_direction := None;
                                      m_confidence := Some 0.6;
                                      m_trading_allowed := Some true |} |} in
  final_decision (aggregate_signals default_config tr ch m) = "long"%string
  /\ final_decision (aggregate_signals default_config (mirror_tape_reader tr)
                                       (mirror_chartist ch) (mirror_macro m))
     = "short"%string.
Proof.
  intros tr ch m.
  assert (K1 : known_direction (tr_direction_of tr)) by (vm_compute; left).
  assert (K2 : known_direction (ch_direction_of ch)) by (vm_compute; right; left).
  assert (K3 : known_direction (macro_direction_of m))
    by (vm_compute; do 4 right; left).
  destruct (aggregate_signals_mirrored default_config tr ch m K1 K2 K3) as (Hd & _).
  assert (Hlong : final_decision (aggregate_signals default_config tr ch m) = "long"%string)
    by (vm_compute; reflexivity).
  split; [exact Hlong |]. rewrite Hd, Hlong. reflexivity.
Defined.

End SidesProps.

(** ** Footprint tensor *)

Section FootprintProps.
Import Numpy Footprint.
Local Open Scope Q_scope.

Lemma sum_alter {A : Type} (g : A -> Q) (f : A -> A) (xs : list A) (i : nat) (x : A) :
  xs !! i = Some x -> sum (g <$> alter f i xs) == sum (g <$> xs) + (g (f x) - g x).
Proof.
  revert i. induction xs as [| y xs IH]; intros i H; [discriminate |].
  destruct i as [| i].
  - injection H as ->. cbn [alter list_alter]. rewrite !fmap_cons, !sum_cons_eq. lra.
  - cbn [alter list_alter]. rewrite !fmap_cons, !sum_cons_eq.
    change (list_alter f i xs) with (alter f i xs). rewrite (IH i H). lra.
Qed.

Lemma cell_value_alter_ne (f : Q -> Q) (c c' : nat) (cell : list Q) :
  c <> c' -> cell_value c' (alter f c cell) = cell_value c' cell.
Proof. intros H. unfold cell_value. now rewrite list_lookup_alter_ne. Qed.

Lemma cell_value_alter (f : Q -> Q) (c : nat) (cell : list Q) :
  (c < length cell)%nat -> cell_value c (alter f c cell) = f (cell_value c cell).
Proof.
  intros H. unfold cell_value. rewrite list_lookup_alter.
  destruct (lookup_lt_is_Some_2 cell c H) as (x & ->).
  rewrite decide_True by reflexivity. reflexivity.
Qed.

Lemma axis_index_in_range (n : nat) (i : Z) :
  (0 <= i < Z.of_nat n)%Z -> axis_index n i = Returns (Z.to_nat i).
Proof.
  intros H. unfold axis_index. cbv zeta.
  destruct (Z.ltb_spec i 0) as [Hneg | _]; [lia |].
  destruct (Z.ltb_spec i 0) as [Hneg | _]; [lia |].
  destruct (Z.leb_spec (Z.of_nat n) i) as [Hge | _]; [lia | reflexivity].
Qed.

(** One entry applied to a tensor of the shape [(T, P, 6)]. *)
Lemma update_total (op : Q -> Q -> Q) (c : nat) (T P : nat) (tensor : Tensor)
    (t p : Z) (v : Q) :
  has_shape T P tensor ->
  (0 <= t < Z.of_nat T)%Z -> (0 <= p < Z.of_nat P)%Z -> (c < 6)%nat ->
  exists tensor',
    update op c tensor (t, p, v) = Returns tensor'
    /\ has_shape T P tensor'
    /\ (forall c', c' <> c -> channel_total c' tensor' == channel_total c' tensor)
    /\ (op = add -> channel_total c tensor' == channel_total c tensor + v).
Proof.
  intros (Hlen & Hrows) Ht Hp Hc.
  destruct (lookup_lt_is_Some_2 tensor (Z.to_nat t) ltac:(lia)) as (row & Hrow).
  destruct (proj1 (Forall_lookup _ _) Hrows _ _ Hrow) as (Hrowlen & Hcells).
  destruct (lookup_lt_is_Some_2 row (Z.to_nat p) ltac:(lia)) as (cell & Hcell).
  pose proof (proj1 (Forall_lookup _ _) Hcells _ _ Hcell) as Hcelllen. cbn beta in Hcelllen.
  unfold update, Tensor in *. rewrite axis_index_in_range by lia.
  cbn [mbind outcome_bind]. rewrite Hrow. change (default [] (Some row)) with row. cbn [default]. rewrite axis_index_in_range by lia. cbn [mbind outcome_bind].
  eexists. split; [reflexivity |]. split; [| split].
  - split; [now rewrite length_alter |].
    apply Forall_alter; [exact Hrows |].
    intros row' _ (Hl & Hcs). split; [now rewrite length_alter |].
    apply Forall_alter; [exact Hcs |]. intros cell' _ Hl'. now rewrite length_alter.
  - intros c' Hne. unfold channel_total.
    rewrite (sum_alter (row_total c') _ _ _ _ Hrow). unfold row_total at 2 3.
    rewrite (sum_alter (cell_value c') _ _ _ _ Hcell).
    rewrite cell_value_alter_ne by congruence. lra.
  - intros ->. unfold channel_total.
    rewrite (sum_alter (row_total c) _ _ _ _ Hrow). unfold row_total at 2 3.
    rewrite (sum_alter (cell_value c) _ _ _ _ Hcell).
    rewrite cell_value_alter by lia. unfold add. lra.
Qed.

Lemma apply_at_total (op : Q -> Q -> Q) (c : nat) (T P : nat)
    (entries : list (Z * Z * Q)) (tensor : Tensor) :
  has_shape T P tensor -> Forall (in_range T P) entries -> (c < 6)%nat ->
  exists tensor',
    apply_at op c tensor entries = Returns tensor'
    /\ has_shape T P tensor'
    /\ (forall c', c' <> c -> channel_total c' tensor' == channel_total c' tensor)
    /\ (op = add -> channel_total c tensor' == channel_total c tensor + sum entries.*2).
Proof.
  intros Hshape Hrange Hc. revert tensor Hshape.
  induction Hrange as [| [[t p] v] entries (Ht & Hp) _ IH]; intros tensor Hshape.
  - exists tensor. split; [reflexivity |]. split; [exact Hshape |].
    split; [reflexivity |]. intros _. cbn. lra.
  - cbn in Ht, Hp.
    destruct (update_total op c T P tensor t p v Hshape Ht Hp Hc)
      as (tensor1 & E1 & S1 & N1 & A1).
    destruct (IH tensor1 S1) as (tensor2 & E2 & S2 & N2 & A2).
    exists tensor2. cbn [apply_at]. rewrite E1. cbn [mbind outcome_bind].
    split; [exact E2 |]. split; [exact S2 |]. split.
    + intros c' Hne. now rewrite (N2 c' Hne), (N1 c' Hne).
    + intros Hop. rewrite (A2 Hop), (A1 Hop), fmap_cons, sum_cons_eq. cbn [snd]. lra.
Qed.

Lemma zeros_total (T P : nat) (c : nat) :
  has_shape T P (replicate T (replicate P (replicate 6 0)))
  /\ channel_total c (replicate T (replicate P (replicate 6 0))) == 0.
Proof.
  split.
  - split; [apply length_replicate |]. apply Forall_replicate.
    split; [apply length_replicate |]. apply Forall_replicate. reflexivity.
  - unfold channel_total. rewrite fmap_replicate.
    assert (Hrow : row_total c (replicate P (replicate 6 0)) == 0).
    { unfold row_total. rewrite fmap_replicate.
      assert (Hcell : cell_value c (replicate 6 0) = 0).
      { unfold cell_value. do 6 (destruct c as [| c]; [reflexivity |]). reflexivity. }
      rewrite Hcell. apply sum_replicate_zero. }
    induction T as [| T IH]; [reflexivity |].
    cbn [replicate]. rewrite sum_cons_eq, IH, Hrow. reflexivity.
Qed.

Lemma bin_index_range (x lo range : Q) (bins : Z) :
  (1 <= bins)%Z -> (0 <= bin_index x lo range bins < Z.of_nat (Z.to_nat bins))%Z.
Proof. intros H. unfold bin_index, clip. lia. Qed.

Lemma entries_in_range (T P : Z) (t_min t_range p_min p_range : Q) (value : Row -> Q)
    (l : list Row) :
  (1 <= T)%Z -> (1 <= P)%Z ->
  Forall (in_range (Z.to_nat T) (Z.to_nat P))
         ((fun r => (bin_index (timestamp r) t_min t_range T,
                     bin_index (price r) p_min p_range P,
                     value r)) <$> l).
Proof.
  intros HT HP. apply Forall_fmap, Forall_forall. intros r _.
  split; cbn [fst snd]; now apply bin_index_range.
Qed.

Lemma entries_values (T P : Z) (t_min t_range p_min p_range : Q) (value : Row -> Q)
    (l : list Row) :
  ((fun r => (bin_index (timestamp r) t_min t_range T,
              bin_index (price r) p_min p_range P,
              value r)) <$> l).*2 = value <$> l.
Proof. rewrite <- list_fmap_compose. reflexivity. Qed.

Lemma count_sum {A : Type} (l : list A) :
  sum ((fun _ => 1) <$> l) == inject_Z (Z.of_nat (length l)).
Proof.
  induction l as [| x l IH]; [reflexivity |].
  rewrite fmap_cons, sum_cons_eq, IH. cbn [length]. rewrite Nat2Z.inj_succ.
  unfold Z.succ. rewrite inject_Z_plus. unfold inject_Z. lra.
Qed.

Lemma buys_minus_sells (l : list Row) :
  sum (volume <$> filter (fun r => (0 < direction_of r)%Z) l)
  - sum (volume <$> filter (fun r => (direction_of r < 0)%Z) l)
  == sum ((fun r => volume r * inject_Z (direction_of r)) <$> l).
Proof.
  induction l as [| r l IH]; [reflexivity |].
  rewrite !filter_cons, fmap_cons, sum_cons_eq. rewrite <- IH.
  destruct (direction_cases (price r) (bid r) (ask r)) as [E | [E | E]];
    fold (direction_of r) in E; rewrite E;
    repeat first [rewrite decide_True by lia | rewrite decide_False by lia];
    rewrite ?fmap_cons, ?sum_cons_eq; unfold inject_Z; lra.
Qed.

(** X30: what the footprint tensor adds up to.  On a frame of trades that
    is not empty, [create_footprint_tensor] raises when the frame lacks the
    column [bid] or the column [ask]: the fallback [trades.get('bid',
    p_vals)] is an array, which has no [.values].  With both columns and at
    least one price bin and one time bin, the function returns a tensor of
    the shape [(time_bins, price_bins, 6)] in which channel 0 adds up to the
    volume of all trades, channel 3 to the number of trades, and channel 1
    minus channel 2 to the sum of the volumes signed by
    [calculate_trade_direction]. *)
Theorem footprint_conserves_volume (trades : Frame) (price_bins time_bins : Z) :
  rows trades <> [] ->
  (has_bid trades && has_ask trades = false ->
   create_footprint_tensor trades price_bins time_bins = Fails NoValuesAttribute)
  /\ (has_bid trades && has_ask trades = true ->
      (1 <= price_bins)%Z -> (1 <= time_bins)%Z ->
      exists tensor,
        create_footprint_tensor trades price_bins time_bins = Returns tensor
        /\ has_shape (Z.to_nat time_bins) (Z.to_nat price_bins) tensor
        /\ channel_total 0 tensor == sum (volume <$> rows trades)
        /\ channel_total 3 tensor == inject_Z (Z.of_nat (length (rows trades)))
        /\ channel_total 1 tensor - channel_total 2 tensor
           == sum ((fun r => volume r * inject_Z (direction_of r)) <$> rows trades)).
Proof.
  intros Hne. unfold create_footprint_tensor.
  destruct (rows trades) as [| first rest] eqn:Erows; [congruence |]. rewrite <- Erows.
  cbv zeta. split.
  - intros Hcols. apply andb_false_iff in Hcols as [-> | ->]; [reflexivity |].
    now rewrite orb_true_r.
  - intros Hcols HP HT. apply andb_true_iff in Hcols as (-> & ->). cbn [negb orb].
    set (T := Z.to_nat time_bins). set (P := Z.to_nat price_bins).
    unfold zeros.
    destruct (Z.ltb_spec time_bins 0) as [H | _]; [lia |].
    destruct (Z.ltb_spec price_bins 0) as [H | _]; [lia |].
    cbn [orb mbind outcome_bind]. fold T P.
    set (t_min := series_min (timestamp first) (timestamp <$> rest)).
    set (t_range := max2 _ (series_max (timestamp first) (timestamp <$> rest) - t_min)).
    set (p_min := series_min (price first) (price <$> rest)).
    set (p_range := max2 _ (series_max (price first) (price <$> rest) - p_min)).
    pose proof (fun c => proj2 (zeros_total T P c)) as Z0.
    pose proof (proj1 (zeros_total T P 0)) as S0.
    destruct (apply_at_total add 0 T P _ _ S0
                (entries_in_range time_bins price_bins t_min t_range p_min p_range
                                  volume (rows trades) HT HP) ltac:(lia))
      as (x1 & E1 & S1 & N1 & A1). specialize (A1 eq_refl).
    rewrite E1. cbn [mbind outcome_bind].
    destruct (apply_at_total add 1 T P _ _ S1
                (entries_in_range time_bins price_bins t_min t_range p_min p_range
                                  volume
                                  (filter (fun r => (0 < direction_of r)%Z) (rows trades))
                                  HT HP) ltac:(lia))
      as (x2 & E2 & S2 & N2 & A2). specialize (A2 eq_refl).
    rewrite E2. cbn [mbind outcome_bind].
    destruct (apply_at_total add 2 T P _ _ S2
                (entries_in_range time_bins price_bins t_min t_range p_min p_range
                                  volume
                                  (filter (fun r => (direction_of r < 0)%Z) (rows trades))
                                  HT HP) ltac:(lia))
      as (x3 & E3 & S3 & N3 & A3). specialize (A3 eq_refl).
    rewrite E3. cbn [mbind outcome_bind].
    destruct (apply_at_total add 3 T P _ _ S3
                (entries_in_range time_bins price_bins t_min t_range p_min p_range
                                  (fun _ => 1) (rows trades) HT HP) ltac:(lia))
      as (x4 & E4 & S4 & N4 & A4). specialize (A4 eq_refl).
    rewrite E4. cbn [mbind outcome_bind].
    assert (H5 : exists x5,
               (if has_bid_size trades
                then apply_at assign 4 x4
                       ((fun r => (bin_index (timestamp r) t_min t_range time_bins,
                                   bin_index (price r) p_min p_range price_bins,
                                   bid_size r)) <$> rows trades)
                else Returns x4) = Returns x5
               /\ has_shape T P x5
               /\ forall c, c <> 4%nat -> channel_total c x5 == channel_total c x4).
    { destruct (has_bid_size trades).
      - destruct (apply_at_total assign 4 T P _ _ S4
                    (entries_in_range time_bins price_bins t_min t_range p_min p_range
                                      bid_size (rows trades) HT HP) ltac:(lia))
          as (x5 & E5 & S5 & N5 & _).
        exists x5. split; [exact E5 |]. split; [exact S5 | exact N5].
      - exists x4. split; [reflexivity |]. split; [exact S4 | reflexivity]. }
    destruct H5 as (x5 & E5 & S5 & N5). rewrite E5. cbn [mbind outcome_bind].
    assert (H6 : exists x6,
               (if has_ask_size trades
                then apply_at assign 5 x5
                       ((fun r => (bin_index (timestamp r) t_min t_range time_bins,
                                   bin_index (price r) p_min p_range price_bins,
                                   ask_size r)) <$> rows trades)
                else Returns x5) = Returns x6
               /\ has_shape T P x6
               /\ forall c, c <> 5%nat -> channel_total c x6 == channel_total c x5).
    { destruct (has_ask_size trades).
      - destruct (apply_at_total assign 5 T P _ _ S5
                    (entries_in_range time_bins price_bins t_min t_range p_min p_range
                                      ask_size (rows trades) HT HP) ltac:(lia))
          as (x6 & E6 & S6 & N6 & _).
        exists x6. split; [exact E6 |]. split; [exact S6 | exact N6].
      - exists x5. split; [reflexivity |]. split; [exact S5 | reflexivity]. }
    destruct H6 as (x6 & E6 & S6 & N6). rewrite E6. cbn [mbind outcome_bind].
    exists x6. split; [reflexivity |]. split; [exact S6 |].
    rewrite entries_values in A1, A2, A3, A4.
    split; [| split].
    + rewrite N6, N5, N4, N3, N2, A1, Z0 by lia. lra.
    + rewrite N6, N5, A4, N3, N2, N1, Z0, count_sum by lia. lra.
    + rewrite <- buys_minus_sells.
      rewrite (N6 1%nat), (N5 1%nat), (N4 1%nat), (N3 1%nat), A2, (N1 1%nat), Z0 by lia.
      rewrite (N6 2%nat), (N5 2%nat), (N4 2%nat), A3, (N2 2%nat), (N1 2%nat), Z0 by lia.
      lra.
Qed.

Lemma footprint_conserves_volume_witness :
  let trades :=
    {| rows := [ {| price := 100; timestamp := 0; volume := 5; bid := 99; ask := 100;
                    bid_size := 10; ask_size := 20 |};
                 {| price := 102; timestamp := 30; volume := 3; bid := 102; ask := 103;
                    bid_size := 11; ask_size := 21 |};
                 {| price := 101; timestamp := 60; volume := 4; bid := 100; ask := 102;
                    bid_size := 12; ask_size := 22 |} ];
       has_bid := true; has_ask := true; has_bid_size := true; has_ask_size := false |} in
  exists tensor,
    create_footprint_tensor trades 3 2 = Returns tensor
    /\ has_shape 2 3 tensor
    /\ channel_total 0 tensor == 12
    /\ channel_total 3 tensor == 3
    /\ channel_total 1 tensor - channel_total 2 tensor == 2.
Proof.
  intros trades.
  assert (Hne : rows trades <> []) by discriminate.
  destruct (footprint_conserves_volume trades 3 2 Hne) as (_ & H).
  destruct (H eq_refl ltac:(lia) ltac:(lia)) as (tensor & Hr & Hs & H0 & H3 & H12).
  exists tensor. split; [exact Hr |]. split; [exact Hs |].
  split; [| split].
  - rewrite H0. reflexivity.
  - rewrite H3. reflexivity.
  - rewrite H12. reflexivity.
Defined.

End FootprintProps.
